(** * smart-live-rebuild: the update scheduler and its VCS backends

    A shallow embedding of [smart-live-rebuild.py]: the three VCS support
    classes ([GitSupport], [HgSupport], [SvnSupport]), the enumeration of
    the installed live packages into the [rebuilds] dictionary, the
    update loop of [main] with its bounded number of parallel jobs, and
    the hand-over of the result from the unprivileged child to the
    privileged parent.

    A Python string is the [string] of the bytes of its UTF-8 encoding,
    whose order is the order of [str] by code point; [None]-or-string
    values are [pyval], exceptions are the constructors of [exn], and
    everything outside the script (the programs that are run, the signal
    that may arrive, the decimal digits of the interpreter's Unicode
    database) is read from a [world]. *)

From Stdlib Require Import List String Ascii ZArith NArith Bool Arith Lia Permutation.
From Stdlib Require Import DecimalString.
Import ListNotations.
Open Scope string_scope.

(** ** Python values and exceptions *)

Inductive pyval : Type :=
| PNone
| PStr (s : string).

(** The exception classes the script raises or meets.  [UpdateFailed] is
    the plain [Exception('update command returned non-zero result')] of
    [endupdate]; [KeyboardInterrupt] is the only one that is not an
    [Exception]. *)
Inductive exn : Type :=
| KeyError
| ValueError
| TypeError
| AttributeError
| AssertionError
| IndexError
| OSError
| EOFError
| NonLiveEbuild (msg : string)
| UpdateFailed
| KeyboardInterrupt.

Inductive result (A : Type) : Type :=
| Ok (a : A)
| Raise (e : exn).
Arguments Ok {A} a.
Arguments Raise {A} e.

Definition is_Exception (e : exn) : bool :=
  match e with
  | KeyboardInterrupt => false
  | _ => true
  end.

Definition is_NonLiveEbuild (e : exn) : bool :=
  match e with
  | NonLiveEbuild _ => true
  | _ => false
  end.

(** Truth value of an object in a condition ([if x], [x or y], [x and y]). *)
Definition truthy (v : pyval) : bool :=
  match v with
  | PNone => false
  | PStr "" => false
  | PStr _ => true
  end.

Definition str_truthy (s : string) : bool :=
  match s with
  | "" => false
  | _ => true
  end.

(** [==] on [None] and strings. *)
Definition py_eq (a b : pyval) : bool :=
  match a, b with
  | PNone, PNone => true
  | PStr x, PStr y => String.eqb x y
  | _, _ => false
  end.

(** [<] on strings: the first differing character decides, by code
    point; a proper prefix is smaller.  On the bytes of UTF-8 this is
    the first differing byte, the encoding keeping the order of the code
    points. *)
Fixpoint str_ltb (a b : string) : bool :=
  match a, b with
  | _, EmptyString => false
  | EmptyString, String _ _ => true
  | String x a', String y b' =>
      if (nat_of_ascii x <? nat_of_ascii y)%nat then true
      else if (nat_of_ascii y <? nat_of_ascii x)%nat then false
      else str_ltb a' b'
  end.

Definition str_geb (a b : string) : bool := negb (str_ltb a b).

(** [>=]: defined between two strings, a [TypeError] when [None] is
    involved (Python 3). *)
Definition py_ge (a b : pyval) : result bool :=
  match a, b with
  | PStr x, PStr y => Ok (str_geb x y)
  | _, _ => Raise TypeError
  end.

(** ** String helpers of the standard library the script calls *)

(** [s.split(c)] for a one-character separator: never empty. *)
Fixpoint py_split (c : ascii) (s : string) : list string :=
  match s with
  | EmptyString => [""]
  | String a r =>
      if Ascii.eqb a c then "" :: py_split c r
      else match py_split c r with
           | h :: t => String a h :: t
           | [] => [String a ""]
           end
  end.

Definition nul : ascii := Ascii.zero.
Definition newline : ascii := ascii_of_nat 10.
Definition slash : ascii := "/"%char.
Definition at_sign : ascii := "@"%char.
Definition dquote : string := String (ascii_of_nat 34) EmptyString.

Fixpoint contains_char (c : ascii) (s : string) : bool :=
  match s with
  | EmptyString => false
  | String a r => Ascii.eqb a c || contains_char c r
  end.

Definition is_digit (c : ascii) : bool :=
  ((48 <=? nat_of_ascii c) && (nat_of_ascii c <=? 57))%nat.

Fixpoint all_digits (s : string) : bool :=
  match s with
  | EmptyString => true
  | String a r => is_digit a && all_digits r
  end.

(** A continuation byte of UTF-8, and the six bits it carries. *)
Definition cont (a : ascii) : option N :=
  let x := N_of_ascii a in
  if ((128 <=? x) && (x <=? 191))%N then Some (x - 128)%N else None.

(** [bytes.decode('utf8')], to code points: the strict decoder, which
    refuses overlong forms, surrogates and what lies beyond U+10FFFF. *)
Fixpoint utf8_decode (s : string) : option (list N) :=
  match s with
  | EmptyString => Some []
  | String a r =>
      let x := N_of_ascii a in
      if (x <? 128)%N then option_map (cons x) (utf8_decode r)
      else
        match r with
        | EmptyString => None
        | String b r2 =>
            match cont b with
            | None => None
            | Some y =>
                if ((194 <=? x) && (x <=? 223))%N then
                  option_map (cons ((x - 192) * 64 + y)%N) (utf8_decode r2)
                else
                  match r2 with
                  | EmptyString => None
                  | String c r3 =>
                      match cont c with
                      | None => None
                      | Some z =>
                          if ((224 <=? x) && (x <=? 239))%N then
                            let cp := ((x - 224) * 4096 + y * 64 + z)%N in
                            if ((2048 <=? cp)
                                && negb ((55296 <=? cp) && (cp <=? 57343)))%N
                            then option_map (cons cp) (utf8_decode r3)
                            else None
                          else
                            match r3 with
                            | EmptyString => None
                            | String d r4 =>
                                match cont d with
                                | None => None
                                | Some t =>
                                    if ((240 <=? x) && (x <=? 244))%N then
                                      let cp := ((x - 240) * 262144 + y * 4096
                                                 + z * 64 + t)%N in
                                      if ((65536 <=? cp) && (cp <=? 1114111))%N
                                      then option_map (cons cp) (utf8_decode r4)
                                      else None
                                    else None
                                end
                            end
                      end
                  end
            end
        end
  end.

Definition valid_utf8 (s : string) : bool :=
  match utf8_decode s with
  | Some _ => true
  | None => false
  end.

(** [.decode('utf8')] of [VCSSupport.call]: the text, or
    [UnicodeDecodeError], which is a [ValueError]. *)
Definition call_decode (raw : string) : result string :=
  if valid_utf8 raw then Ok raw else Raise ValueError.

(** [\d*] on a whole string: every character of it is a decimal digit,
    [dec] telling which code points the interpreter takes for one. *)
Definition all_decimal (dec : N -> bool) (s : string) : bool :=
  match utf8_decode s with
  | Some l => forallb dec l
  | None => false
  end.

(** The decimal digits of ASCII: [\d] of Python 2, and of every version
    among the characters below 128. *)
Definition ascii_decimal (c : N) : bool := ((48 <=? c) && (c <=? 57))%N.

(** The decimal digits (category Nd) of Unicode 14.0, which Python 3.11
    has: [\d] of a [str] pattern. *)
Definition unicode_decimal_ranges : list (N * N) :=
  [(48, 57); (1632, 1641); (1776, 1785); (1984, 1993); (2406, 2415);
   (2534, 2543); (2662, 2671); (2790, 2799); (2918, 2927); (3046, 3055);
   (3174, 3183); (3302, 3311); (3430, 3439); (3558, 3567); (3664, 3673);
   (3792, 3801); (3872, 3881); (4160, 4169); (4240, 4249); (6112, 6121);
   (6160, 6169); (6470, 6479); (6608, 6617); (6784, 6793); (6800, 6809);
   (6992, 7001); (7088, 7097); (7232, 7241); (7248, 7257); (42528, 42537);
   (43216, 43225); (43264, 43273); (43472, 43481); (43504, 43513);
   (43600, 43609); (44016, 44025); (65296, 65305); (66720, 66729);
   (68912, 68921); (69734, 69743); (69872, 69881); (69942, 69951);
   (70096, 70105); (70384, 70393); (70736, 70745); (70864, 70873);
   (71248, 71257); (71360, 71369); (71472, 71481); (71904, 71913);
   (72016, 72025); (72784, 72793); (73040, 73049); (73120, 73129);
   (92768, 92777); (92864, 92873); (93008, 93017); (120782, 120831);
   (123200, 123209); (123632, 123641); (125264, 125273);
   (130032, 130041)]%N.

Definition unicode_decimal (c : N) : bool :=
  existsb (fun r => (fst r <=? c) && (c <=? snd r))%N unicode_decimal_ranges.

(** [strip_prefix p s] is what follows [p] in [s], when [s] starts with [p]. *)
Fixpoint strip_prefix (p s : string) : option string :=
  match p, s with
  | EmptyString, _ => Some s
  | String x p', String y s' =>
      if Ascii.eqb x y then strip_prefix p' s' else None
  | String _ _, EmptyString => None
  end.

(** [os.path.basename]: what follows the last slash. *)
Definition basename (p : string) : string :=
  last (py_split slash p) "".

Fixpoint join (sep : string) (l : list string) : string :=
  match l with
  | [] => ""
  | [x] => x
  | x :: r => x ++ sep ++ join sep r
  end.

Fixpoint rstrip_slash_rev (l : list string) : list string :=
  match l with
  | "" :: r => rstrip_slash_rev r
  | _ => l
  end.

(** [os.path.dirname]: what precedes the last slash, without the slashes
    that end it, unless it consists of slashes only. *)
Definition dirname (p : string) : string :=
  let parts := py_split slash p in
  let head := removelast parts in
  match head with
  | [] => ""
  | _ =>
      match rstrip_slash_rev (rev head) with
      | [] => join "/" head ++ "/"
      | kept => join "/" (rev kept)
      end
  end.

(** ** The [result] monad: a call returns or raises *)

Definition rbind {A B : Type} (m : result A) (k : A -> result B) : result B :=
  match m with
  | Ok a => k a
  | Raise e => Raise e
  end.

Notation "x <~ m ;; k" := (rbind m (fun x => k))
  (at level 61, m at next level, right associativity).

(** ** The VCS support classes *)

Inductive vcs_class : Type :=
| GitSupport
| HgSupport
| SvnSupport.

Definition class_eqb (a b : vcs_class) : bool :=
  match a, b with
  | GitSupport, GitSupport => true
  | HgSupport, HgSupport => true
  | SvnSupport, SvnSupport => true
  | _, _ => false
  end.

Definition inherit (c : vcs_class) : string :=
  match c with
  | GitSupport => "git"
  | HgSupport => "mercurial"
  | SvnSupport => "subversion"
  end.

Definition reqenv (c : vcs_class) : list string :=
  match c with
  | GitSupport =>
      ["EGIT_BRANCH"; "EGIT_PROJECT"; "EGIT_STORE_DIR"; "EGIT_UPDATE_CMD"]
  | HgSupport => ["EHG_PROJECT"; "EHG_PULL_CMD"; "EHG_REPO_URI"]
  | SvnSupport => ["ESVN_STORE_DIR"; "ESVN_UPDATE_CMD"; "ESVN_WC_PATH"]
  end.

Definition optenv (c : vcs_class) : list string :=
  match c with
  | GitSupport =>
      ["EGIT_COMMIT"; "EGIT_DIFFSTAT_CMD"; "EGIT_HAS_SUBMODULES";
       "EGIT_OPTIONS"; "EGIT_REPO_URI"; "EGIT_VERSION"]
  | HgSupport => ["EHG_REVISION"]
  | SvnSupport =>
      ["ESVN_REVISION"; "ESVN_OPTIONS"; "ESVN_PASSWORD"; "ESVN_REPO_URI";
       "ESVN_USER"; "ESVN_WC_REVISION"]
  end.

Definition trustopt : list string := ["--config"; "trusted.users=portage"].

Definition vcsl : list vcs_class := [GitSupport; HgSupport; SvnSupport].

(** [self.inherit in inherits]. *)
Definition vcs_match (c : vcs_class) (inherits : list string) : bool :=
  existsb (String.eqb (inherit c)) inherits.

(** The dictionary [self.env], in the order [zip] builds it. *)
Definition env_t : Type := list (string * string).

Fixpoint lookup (d : env_t) (k : string) : option string :=
  match d with
  | [] => None
  | (k', v) :: r => if String.eqb k' k then Some v else lookup r k
  end.

(** [d[k]]. *)
Definition getitem (d : env_t) (k : string) : result string :=
  match lookup d k with
  | Some v => Ok v
  | None => Raise KeyError
  end.

(** [bashparse]: [output] is what the [bash -c] script printed, the
    values of [vars] separated by NUL characters. *)
Definition bashparse (vars : list string) (output : string) : env_t :=
  combine vars (py_split nul output).

(** A [subprocess.Popen] object: the number of [poll()] calls that still
    find the child running, the status it exits with, and whether
    [terminate()] was called on it. *)
Record popen : Type := mkPopen {
  polls_left : nat;
  returncode : Z;
  terminated : bool
}.

(** An instance.  [oldrev] and [subprocess] are attributes that only
    [startupdate] creates: the outer [option] is [None] while the
    attribute does not exist. *)
Record vcs : Type := mkVcs {
  cls : vcs_class;
  cpv : list string;
  env : env_t;
  oldrev : option pyval;
  subprocess : option (option popen)
}.

(** [[v for v in self.reqenv if self.env[v] == '']]. *)
Fixpoint missingvars (e : env_t) (req : list string) : result (list string) :=
  match req with
  | [] => Ok []
  | v :: r =>
      x <~ getitem e v ;;
      m <~ missingvars e r ;;
      Ok (if String.eqb x "" then v :: m else m)
  end.

Definition VCSSupport_init (c : vcs_class) (p : string) (output : string)
  : result vcs :=
  let e := bashparse (reqenv c ++ optenv c) output in
  m <~ missingvars e (reqenv c) ;;
  if (0 <? List.length m)%nat then Raise KeyError
  else Ok (mkVcs c [p] e None None).

(** The constructors of the three classes: [VCSSupport.__init__], then
    the test for a pinned revision. *)
Definition vcs_init (c : vcs_class) (p : string) (output : string)
  : result vcs :=
  self <~ VCSSupport_init c p output ;;
  match c with
  | GitSupport =>
      commit <~ getitem (env self) "EGIT_COMMIT" ;;
      if str_truthy commit then
        branch <~ getitem (env self) "EGIT_BRANCH" ;;
        if negb (String.eqb commit branch)
        then Raise (NonLiveEbuild
                      "EGIT_COMMIT set, package is not really a live one")
        else Ok self
      else Ok self
  | HgSupport =>
      r <~ getitem (env self) "EHG_REVISION" ;;
      if str_truthy r && negb (String.eqb r "tip")
      then Raise (NonLiveEbuild
                    "EHG_REVISION set, package is not really a live one")
      else Ok self
  | SvnSupport =>
      uri <~ getitem (env self) "ESVN_REPO_URI" ;;
      if str_truthy uri && contains_char at_sign uri
      then Raise (NonLiveEbuild
             "ESVN_REPO_URI specifies revision, package is not really a live one")
      else
        r <~ getitem (env self) "ESVN_REVISION" ;;
        if str_truthy r
        then Raise (NonLiveEbuild
                      "ESVN_REVISION set, package is not really a live one")
        else Ok self
  end.

(** The call of a constructor, from the bytes the [bash] script wrote:
    [VCSSupport.call] decodes them, [bashparse] splits the text. *)
Definition vcs_call (c : vcs_class) (p : string) (raw : string)
  : result vcs :=
  output <~ call_decode raw ;; vcs_init c p output.

(** [getpath]; [dd] is
    [portage.settings['PORTAGE_ACTUAL_DISTDIR'] or portage.settings['DISTDIR']]. *)
Definition getpath (dd : string) (self : vcs) : result string :=
  match cls self with
  | GitSupport =>
      d <~ getitem (env self) "EGIT_STORE_DIR" ;;
      p <~ getitem (env self) "EGIT_PROJECT" ;;
      Ok (d ++ "/" ++ p)
  | HgSupport =>
      uri <~ getitem (env self) "EHG_REPO_URI" ;;
      let bn := if str_truthy (basename uri) then basename uri
                else basename (dirname uri) in
      if String.eqb bn "" then Raise AssertionError
      else
        p <~ getitem (env self) "EHG_PROJECT" ;;
        Ok (dd ++ "/hg-src/" ++ p ++ "/" ++ bn)
  | SvnSupport => getitem (env self) "ESVN_WC_PATH"
  end.

(** [append]: only the first identifier of the other instance is taken. *)
Definition append (self other : vcs) : result vcs :=
  if negb (class_eqb (cls other) (cls self)) then Raise ValueError
  else
    match cpv other with
    | p :: _ => Ok (mkVcs (cls self) (cpv self ++ [p]) (env self)
                          (oldrev self) (subprocess self))
    | [] => Raise IndexError
    end.

Definition getsavedrev (self : vcs) : result pyval :=
  match cls self with
  | GitSupport => v <~ getitem (env self) "EGIT_VERSION" ;; Ok (PStr v)
  | HgSupport => Ok PNone
  | SvnSupport => v <~ getitem (env self) "ESVN_WC_REVISION" ;; Ok (PStr v)
  end.

(** [revre]: [(?m)^Last Changed Rev: (\d+)$] matches a whole line that is
    the label followed by one or more decimal digits, [dec] telling which
    code points are such; [search] takes the first. *)
Definition revre_line (dec : N -> bool) (l : string) : option string :=
  match strip_prefix "Last Changed Rev: " l with
  | Some d => if str_truthy d && all_decimal dec d then Some d else None
  | None => None
  end.

Fixpoint revre_first (dec : N -> bool) (lines : list string)
  : option string :=
  match lines with
  | [] => None
  | l :: r =>
      match revre_line dec l with
      | Some d => Some d
      | None => revre_first dec r
      end
  end.

Definition revre_search (dec : N -> bool) (svninfo : string) : option string :=
  revre_first dec (py_split newline svninfo).

(** What [getrev] makes of the output of the command it ran. *)
Definition getrev_parse (dec : N -> bool) (c : vcs_class) (output : string)
  : pyval :=
  match c with
  | GitSupport => PStr (hd "" (py_split newline output))
  | HgSupport => PStr output
  | SvnSupport =>
      match revre_search dec output with
      | Some d => PStr d
      | None => PNone
      end
  end.

(** [revcmp]: equality, except for Subversion. *)
Definition revcmp (c : vcs_class) (old new : pyval) : result bool :=
  match c with
  | SvnSupport => py_ge old new
  | _ => Ok (py_eq old new)
  end.

Definition getupdatecmd (self : vcs) : result string :=
  match cls self with
  | GitSupport =>
      sub <~ getitem (env self) "EGIT_HAS_SUBMODULES" ;;
      cmd <~ getitem (env self) "EGIT_UPDATE_CMD" ;;
      o <~ getitem (env self) "EGIT_OPTIONS" ;;
      if str_truthy sub then Ok (cmd ++ " " ++ o)
      else
        b <~ getitem (env self) "EGIT_BRANCH" ;;
        Ok (cmd ++ " " ++ o ++ " origin " ++ b ++ ":" ++ b)
  | HgSupport =>
      cmd <~ getitem (env self) "EHG_PULL_CMD" ;;
      Ok (join " " (cmd :: trustopt))
  | SvnSupport =>
      u <~ getitem (env self) "ESVN_UPDATE_CMD" ;;
      o <~ getitem (env self) "ESVN_OPTIONS" ;;
      d <~ getitem (env self) "ESVN_STORE_DIR" ;;
      let cmd := u ++ " " ++ o ++ " --config-dir " ++ d ++ "/.subversion" in
      user <~ getitem (env self) "ESVN_USER" ;;
      if str_truthy user then
        pw <~ getitem (env self) "ESVN_PASSWORD" ;;
        Ok (cmd ++ " --user " ++ dquote ++ user ++ dquote
                ++ " --password " ++ dquote ++ pw ++ dquote)
      else Ok cmd
  end.

(** [str(self)]: the three classes return the repository URI, or, when
    it is empty, the list [self.cpv], which [str] refuses. *)
Definition vcs_str (self : vcs) : result string :=
  uri <~ getitem (env self)
           (match cls self with
            | GitSupport => "EGIT_REPO_URI"
            | HgSupport => "EHG_REPO_URI"
            | SvnSupport => "ESVN_REPO_URI"
            end) ;;
  if str_truthy uri then Ok uri else Raise TypeError.

(** ** Options, the outside world, and the state of the interpreter *)

(** [Shared.opts], the fields the modelled code reads. *)
Record options : Type := mkOptions {
  jobs : Z;
  local_rev : bool;
  network : bool;
  erraneous_merge : bool;
  pretend : bool;
  quickpkg : bool;
  offline : bool;
  opt_type : list string
}.

(** What the programs the script runs answer.  The answers depend on the
    working directory only: the bytes the revision query of a directory
    prints before ([false]) and after ([true]) its update command, how
    many [poll()]s find the update command of a directory still running,
    and the status it exits with.  [decimal] is the interpreter's notion
    of a decimal digit, which [\d] follows. *)
Record world : Type := mkWorld {
  distdir : string;
  chdir_ok : string -> bool;
  rev_output : bool -> string -> option string;
  child_polls : string -> nat;
  child_status : string -> Z;
  decimal : N -> bool
}.

(** The output of the revision query, decoded; [OSError] when the
    command could not be run. *)
Definition rev_answer (w : world) (after : bool) (d : string)
  : result string :=
  match rev_output w after d with
  | Some o => call_decode o
  | None => Raise OSError
  end.

(** What is written to the terminal, by [out.s1], [out.s2], [out.s3] and
    [out.err] (without the colour codes, as with [--no-color]). *)
Inductive line : Type :=
| s1 (msg : string)
| s2 (msg : string)
| s3 (msg : string)
| err (msg : string).

(** The processes started: the revision query of a directory, before
    ([false]) or after ([true]) its update, the update command, and the
    command that prints the difference. *)
Inductive event : Type :=
| RevQuery (after : bool) (dir : string)
| Popen (dir cmd : string)
| Diffstat (dir : string).

(** The instances live in [heap], named by a number; [items] and
    [processes] hold such names, as the Python lists hold references.
    [sigint] counts the calls out of the interpreter that still return
    before SIGINT is delivered ([None]: no signal comes).  [ret] and
    [cur] are the local variables [ret] and [vcs] of [main], which live
    on from one turn of the loop to the next. *)
Record machine : Type := mkMachine {
  heap : nat -> vcs;
  cwd : string;
  sigint : option nat;
  trace : list event;
  log : list line;
  items : list (string * nat);
  processes : list nat;
  packages : list string;
  erraneous : list string;
  ret : option bool;
  cur : nat
}.

Definition set_heap (h : nat -> vcs) (m : machine) : machine :=
  mkMachine h (cwd m) (sigint m) (trace m) (log m) (items m) (processes m)
            (packages m) (erraneous m) (ret m) (cur m).
Definition set_cwd (d : string) (m : machine) : machine :=
  mkMachine (heap m) d (sigint m) (trace m) (log m) (items m) (processes m)
            (packages m) (erraneous m) (ret m) (cur m).
Definition set_sigint (s : option nat) (m : machine) : machine :=
  mkMachine (heap m) (cwd m) s (trace m) (log m) (items m) (processes m)
            (packages m) (erraneous m) (ret m) (cur m).
Definition set_trace (t : list event) (m : machine) : machine :=
  mkMachine (heap m) (cwd m) (sigint m) t (log m) (items m) (processes m)
            (packages m) (erraneous m) (ret m) (cur m).
Definition set_log (l : list line) (m : machine) : machine :=
  mkMachine (heap m) (cwd m) (sigint m) (trace m) l (items m) (processes m)
            (packages m) (erraneous m) (ret m) (cur m).
Definition set_items (l : list (string * nat)) (m : machine) : machine :=
  mkMachine (heap m) (cwd m) (sigint m) (trace m) (log m) l (processes m)
            (packages m) (erraneous m) (ret m) (cur m).
Definition set_processes (l : list nat) (m : machine) : machine :=
  mkMachine (heap m) (cwd m) (sigint m) (trace m) (log m) (items m) l
            (packages m) (erraneous m) (ret m) (cur m).
Definition set_packages (l : list string) (m : machine) : machine :=
  mkMachine (heap m) (cwd m) (sigint m) (trace m) (log m) (items m)
            (processes m) l (erraneous m) (ret m) (cur m).
Definition set_erraneous (l : list string) (m : machine) : machine :=
  mkMachine (heap m) (cwd m) (sigint m) (trace m) (log m) (items m)
            (processes m) (packages m) l (ret m) (cur m).
Definition set_ret (r : option bool) (m : machine) : machine :=
  mkMachine (heap m) (cwd m) (sigint m) (trace m) (log m) (items m)
            (processes m) (packages m) (erraneous m) r (cur m).
Definition set_cur (i : nat) (m : machine) : machine :=
  mkMachine (heap m) (cwd m) (sigint m) (trace m) (log m) (items m)
            (processes m) (packages m) (erraneous m) (ret m) i.

(** ** The monad of the interpreter: state, and exceptions *)

Definition M (A : Type) : Type := machine -> result A * machine.

Definition mret {A : Type} (a : A) : M A := fun m => (Ok a, m).

Definition mbind {A B : Type} (c : M A) (k : A -> M B) : M B :=
  fun m =>
    match c m with
    | (Ok a, m') => k a m'
    | (Raise e, m') => (Raise e, m')
    end.

Definition mraise {A : Type} (e : exn) : M A := fun m => (Raise e, m).

Definition lift {A : Type} (r : result A) : M A := fun m => (r, m).

(** [try: c  except <those e with sel e>: h e]. *)
Definition try_except {A : Type} (c : M A) (sel : exn -> bool)
  (h : exn -> M A) : M A :=
  fun m =>
    match c m with
    | (Ok a, m') => (Ok a, m')
    | (Raise e, m') => if sel e then h e m' else (Raise e, m')
    end.

Definition get {A : Type} (f : machine -> A) : M A := fun m => (Ok (f m), m).

Definition modify (f : machine -> machine) : M unit :=
  fun m => (Ok tt, f m).

Notation "x <- c ;; k" := (mbind c (fun x => k))
  (at level 61, c at next level, right associativity).
Notation "c ;;; k" := (mbind c (fun _ => k))
  (at level 61, right associativity).

(** Every call that leaves the interpreter is a place where the pending
    SIGINT, if its time has come, is turned into [KeyboardInterrupt]:
    [chdir], the revision query, [Popen], [poll], [wait], [sleep] and the
    command of [diffstat].  One signal is followed; what is written to
    the terminal and [terminate()] are no such places. *)
Definition tick : M unit :=
  fun m =>
    match sigint m with
    | None => (Ok tt, m)
    | Some (S n) => (Ok tt, set_sigint (Some n) m)
    | Some O => (Raise KeyboardInterrupt, set_sigint None m)
    end.

Definition upd (h : nat -> vcs) (i : nat) (v : vcs) : nat -> vcs :=
  fun j => if Nat.eqb j i then v else h j.

Definition out_line (l : line) : M unit :=
  modify (fun m => set_log (log m ++ [l]) m).

Definition emit (e : event) : M unit :=
  modify (fun m => set_trace (trace m ++ [e]) m).

Definition load (i : nat) : M vcs := get (fun m => heap m i).

Definition store (i : nat) (v : vcs) : M unit :=
  modify (fun m => set_heap (upd (heap m) i v) m).

Definition show (v : pyval) : string :=
  match v with
  | PNone => "None"
  | PStr s => s
  end.

Definition is_KeyboardInterrupt (e : exn) : bool := negb (is_Exception e).

Definition set_oldrev (r : pyval) (v : vcs) : vcs :=
  mkVcs (cls v) (cpv v) (env v) (Some r) (subprocess v).

Definition set_subprocess (p : option popen) (v : vcs) : vcs :=
  mkVcs (cls v) (cpv v) (env v) (oldrev v) (Some p).

(** [list.remove]: the first occurrence goes. *)
Fixpoint remove_first (i : nat) (l : list nat) : list nat :=
  match l with
  | [] => []
  | j :: r => if Nat.eqb j i then r else j :: remove_first i r
  end.

Definition mem (i : nat) (l : list nat) : bool := existsb (Nat.eqb i) l.

Section Interpreter.

Variable w : world.
Variable opts : options.

Definition chdir (d : string) : M unit :=
  tick ;;;
  if chdir_ok w d then modify (set_cwd d) else mraise OSError.

(** [VCSSupport.call], for the revision query of the current directory. *)
Definition call_rev (after : bool) : M string :=
  tick ;;;
  d <- get cwd ;;
  emit (RevQuery after d) ;;;
  lift (rev_answer w after d).

Definition getrev (i : nat) (after : bool) : M pyval :=
  self <- load i ;;
  match cls self with
  | GitSupport =>
      _ <- lift (getitem (env self) "EGIT_BRANCH") ;;
      _ <- lift (getitem (env self) "EGIT_HAS_SUBMODULES") ;;
      o <- call_rev after ;;
      mret (getrev_parse (decimal w) GitSupport o)
  | c =>
      o <- call_rev after ;;
      mret (getrev_parse (decimal w) c o)
  end.

(** [subprocess.Popen(cmd, stdout=sys.stderr, shell=True)]. *)
Definition popen_shell (cmd : string) : M popen :=
  tick ;;;
  d <- get cwd ;;
  emit (Popen d cmd) ;;;
  mret (mkPopen (child_polls w d) (child_status w d) false).

Definition diffstat (self : vcs) : M unit :=
  match cls self with
  | GitSupport =>
      _ <- lift (getitem (env self) "EGIT_DIFFSTAT_CMD") ;;
      tick ;;; d <- get cwd ;; emit (Diffstat d)
  | HgSupport => tick ;;; d <- get cwd ;; emit (Diffstat d)
  | SvnSupport => mret tt
  end.

Definition startupdate (i : nat) : M unit :=
  self <- load i ;;
  s <- lift (vcs_str self) ;;
  out_line (s2 s) ;;;
  d <- lift (getpath (distdir w) self) ;;
  chdir d ;;;
  a <- (if negb (local_rev opts) then lift (getsavedrev self)
        else mret PNone) ;;
  r <- (if truthy a then mret a else getrev i false) ;;
  store i (set_oldrev r self) ;;;
  if network opts then
    cmd <- lift (getupdatecmd self) ;;
    out_line (s3 cmd) ;;;
    p <- popen_shell cmd ;;
    self' <- load i ;;
    store i (set_subprocess (Some p) self')
  else
    self' <- load i ;;
    store i (set_subprocess None self').

(** [poll()] on the child of instance [i]. *)
Definition poll (i : nat) (self : vcs) (p : popen) : M (option Z) :=
  tick ;;;
  match polls_left p with
  | O => mret (Some (returncode p))
  | S n =>
      store i (set_subprocess
                 (Some (mkPopen n (returncode p) (terminated p))) self) ;;;
      mret None
  end.

Definition endupdate (i : nat) (blocking : bool) : M (option bool) :=
  self <- load i ;;
  sp <- match subprocess self with
        | None => mraise AttributeError
        | Some sp => mret sp
        end ;;
  r <- match sp with
       | None => mret (Some 0%Z)
       | Some p =>
           if blocking then tick ;;; mret (Some (returncode p))
           else poll i self p
       end ;;
  match r with
  | None => mret None
  | Some rc =>
      if Z.eqb rc 0 then
        d <- lift (getpath (distdir w) self) ;;
        chdir d ;;;
        newrev <- getrev i true ;;
        (if Z.ltb 1 (jobs opts)
         then s <- lift (vcs_str self) ;; out_line (s2 s)
         else mret tt) ;;;
        old <- match oldrev self with
               | None => mraise AttributeError
               | Some o => mret o
               end ;;
        c <- lift (revcmp (cls self) old newrev) ;;
        if c then
          out_line (s3 ("at rev " ++ show old ++ " (no changes)")) ;;;
          mret (Some false)
        else
          diffstat self ;;;
          out_line (s3 ("update from " ++ show old ++ " to " ++ show newrev)) ;;;
          mret (Some true)
      else mraise UpdateFailed
  end.

Definition abortupdate (i : nat) : M unit :=
  self <- load i ;;
  match subprocess self with
  | None => mraise AttributeError
  | Some None => mret tt
  | Some (Some p) =>
      store i (set_subprocess
                 (Some (mkPopen (polls_left p) (returncode p) true)) self)
  end.

(** [time.sleep(0.3)]. *)
Definition sleep : M unit := tick.

(** [for vcs in processes: ret = vcs.endupdate(); if ret is not None:
    processes.remove(vcs); break]. *)
Fixpoint poll_all (ps : list nat) : M unit :=
  match ps with
  | [] => mret tt
  | v :: rest =>
      modify (set_cur v) ;;;
      r <- endupdate v false ;;
      modify (set_ret r) ;;;
      match r with
      | Some _ =>
          modify (fun m => set_processes (remove_first v (processes m)) m)
      | None => poll_all rest
      end
  end.

Fixpoint abort_all (ps : list nat) : M unit :=
  match ps with
  | [] => mret tt
  | v :: rest => modify (set_cur v) ;;; abortupdate v ;;; abort_all rest
  end.

(** The [if]/[elif]/[else] that opens the [try] of one turn of the loop:
    start the next task, leave the loop ([false] is [break]), or sleep. *)
Definition dispatch : M bool :=
  ps <- get processes ;;
  its <- get items ;;
  match its with
  | (_, v) :: rest =>
      if Z.ltb (Z.of_nat (List.length ps)) (jobs opts) then
        modify (set_items rest) ;;;
        modify (set_cur v) ;;;
        try_except
          (startupdate v ;;;
           if Z.eqb (jobs opts) 1 then
             r <- endupdate v true ;;
             modify (set_ret r)
           else
             modify (fun m => set_processes (processes m ++ [v]) m))
          is_KeyboardInterrupt
          (fun e => abortupdate v ;;; mraise e) ;;;
        mret true
      else
        match ps with
        | [] => mret false
        | _ => sleep ;;; mret true
        end
  | [] =>
      match ps with
      | [] => mret false
      | _ => sleep ;;; mret true
      end
  end.

(** The rest of the [try]: the [for] loop over [processes], and
    [if ret: packages.extend(vcs.cpv)]. *)
Definition collect : M bool :=
  ps <- get processes ;;
  poll_all ps ;;;
  r <- get ret ;;
  v <- get cur ;;
  self <- load v ;;
  (match r with
   | Some true => modify (fun m => set_packages (packages m ++ cpv self) m)
   | _ => mret tt
   end) ;;;
  mret true.

Definition body : M bool :=
  go <- dispatch ;;
  if go : bool then collect else mret false.

Definition show_list (l : list string) : string :=
  "[" ++ join ", " l ++ "]".

(** The two [except] clauses of the loop. *)
Definition handler (e : exn) : M bool :=
  if is_KeyboardInterrupt e then
    out_line (err "Updates interrupted, proceeding with already updated repos.") ;;;
    ps <- get processes ;;
    abort_all ps ;;;
    mret false
  else
    v <- get cur ;;
    self <- load v ;;
    out_line (err ("Error updating " ++ show_list (cpv self))) ;;;
    ps <- get processes ;;
    (if negb (Z.eqb (jobs opts) 1) && mem v ps
     then modify (set_processes (remove_first v ps))
     else mret tt) ;;;
    modify (fun m => set_erraneous (erraneous m ++ cpv self) m) ;;;
    mret true.

Definition turn : M bool := try_except body (fun _ => true) handler.

(** [while True]: [None] when [fuel] turns were not enough. *)
Fixpoint loop (fuel : nat) (m : machine) : option (result unit * machine) :=
  match fuel with
  | O => None
  | S f =>
      match turn m with
      | (Ok true, m') => loop f m'
      | (Ok false, m') => Some (Ok tt, m')
      | (Raise e, m') => Some (Raise e, m')
      end
  end.

End Interpreter.

(** ** What a task comes to, read off the world

    Without a signal, what [startupdate] and [endupdate] do to an
    instance is a function of the instance and of the answers of the
    world for its directory.  These functions follow the two methods
    step by step, leaving out what is written to the terminal. *)

Section Verdict.

Variable w : world.
Variable opts : options.

Definition getrev_pure (self : vcs) (after : bool) (d : string)
  : result pyval :=
  match cls self with
  | GitSupport =>
      _ <~ getitem (env self) "EGIT_BRANCH" ;;
      _ <~ getitem (env self) "EGIT_HAS_SUBMODULES" ;;
      o <~ rev_answer w after d ;;
      Ok (getrev_parse (decimal w) GitSupport o)
  | c =>
      o <~ rev_answer w after d ;;
      Ok (getrev_parse (decimal w) c o)
  end.

(** The revision [startupdate] stores in [oldrev], in directory [d]. *)
Definition oldrev_pure (self : vcs) (d : string) : result pyval :=
  a <~ (if negb (local_rev opts) then getsavedrev self else Ok PNone) ;;
  if truthy a then Ok a else getrev_pure self false d.

(** The instance as [startupdate] leaves it, or the exception it raises. *)
Definition start_pure (self : vcs) : result vcs :=
  _ <~ vcs_str self ;;
  d <~ getpath (distdir w) self ;;
  if chdir_ok w d then
    r <~ oldrev_pure self d ;;
    if network opts then
      _ <~ getupdatecmd self ;;
      Ok (mkVcs (cls self) (cpv self) (env self) (Some r)
            (Some (Some (mkPopen (child_polls w d) (child_status w d) false))))
    else
      Ok (mkVcs (cls self) (cpv self) (env self) (Some r) (Some None))
  else Raise OSError.

Definition diffstat_pure (self : vcs) : result unit :=
  match cls self with
  | GitSupport => _ <~ getitem (env self) "EGIT_DIFFSTAT_CMD" ;; Ok tt
  | _ => Ok tt
  end.

(** What [endupdate] returns once the child, if any, has ended. *)
Definition end_pure (self : vcs) : result bool :=
  match subprocess self with
  | None => Raise AttributeError
  | Some sp =>
      let rc := match sp with
                | None => 0%Z
                | Some p => returncode p
                end in
      if Z.eqb rc 0 then
        d <~ getpath (distdir w) self ;;
        if chdir_ok w d then
          newrev <~ getrev_pure self true d ;;
          old <~ match oldrev self with
                 | None => Raise AttributeError
                 | Some o => Ok o
                 end ;;
          c <~ revcmp (cls self) old newrev ;;
          if c : bool then Ok false
          else _ <~ diffstat_pure self ;; Ok true
        else Raise OSError
      else Raise UpdateFailed
  end.

Inductive verdict : Type :=
| Changed
| Unchanged
| Failed.

Definition verdict_eqb (a b : verdict) : bool :=
  match a, b with
  | Changed, Changed => true
  | Unchanged, Unchanged => true
  | Failed, Failed => true
  | _, _ => false
  end.

(** The verdict on a started instance, and on one not yet started. *)
Definition judge_started (self : vcs) : verdict :=
  match end_pure self with
  | Ok true => Changed
  | Ok false => Unchanged
  | Raise _ => Failed
  end.

Definition judge (self : vcs) : verdict :=
  match start_pure self with
  | Ok self' => judge_started self'
  | Raise _ => Failed
  end.

(** The identifiers of the tasks of a list that get a given verdict. *)
Definition cpvs_judged (v : verdict) (tasks : list vcs) : list string :=
  flat_map cpv (filter (fun t => verdict_eqb (judge t) v) tasks).

End Verdict.

(** ** Enumerating the installed packages *)

(** An installed package, as the package database shows it: its
    identifier, the words of its [INHERITED] entry, and the text
    [VCSSupport.call] returns for the [bash] script of [bashparse] run
    on its [environment.bz2], when asked for a list of variables. *)
Record package : Type := mkPackage {
  p_cpv : string;
  p_inherits : list string;
  p_bash : list string -> string
}.

(** The dictionary [rebuilds], in insertion order. *)
Definition rebuilds_t : Type := list (string * vcs).

Fixpoint rebuilds_get (d : rebuilds_t) (k : string) : option vcs :=
  match d with
  | [] => None
  | (k', v) :: r => if String.eqb k' k then Some v else rebuilds_get r k
  end.

Fixpoint rebuilds_put (d : rebuilds_t) (k : string) (v : vcs) : rebuilds_t :=
  match d with
  | [] => [(k, v)]
  | (k', v') :: r =>
      if String.eqb k' k then (k', v) :: r else (k', v') :: rebuilds_put r k v
  end.

(** What the enumeration builds. *)
Record scan : Type := mkScan {
  sc_rebuilds : rebuilds_t;
  sc_erraneous : list string;
  sc_log : list line
}.

(** [vcslf]. *)
Definition vcslf (types : list string) : list vcs_class :=
  match types with
  | [] => vcsl
  | _ => filter (fun x => existsb (String.eqb (inherit x)) types) vcsl
  end.

Section Enumeration.

Variable dd : string.
Variable opts : options.

(** The body of [for vcs in vcslf] for one class. *)
Definition enum_class (p : package) (c : vcs_class) (rb : rebuilds_t)
  : result rebuilds_t :=
  if vcs_match c (p_inherits p) then
    v <~ vcs_init c (p_cpv p) (p_bash p (reqenv c ++ optenv c)) ;;
    wanted <~ (if network opts then Ok true
               else r <~ getsavedrev v ;; Ok (truthy r)) ;;
    if wanted : bool then
      dir <~ getpath dd v ;;
      match rebuilds_get rb dir with
      | None => Ok (rb ++ [(dir, v)])%list
      | Some old =>
          merged <~ append old v ;;
          Ok (rebuilds_put rb dir merged)
      end
    else Ok rb
  else Ok rb.

(** [for vcs in vcslf]: what was put into [rebuilds] stays there when a
    later class raises. *)
Fixpoint enum_classes (p : package) (cs : list vcs_class) (rb : rebuilds_t)
  : result unit * rebuilds_t :=
  match cs with
  | [] => (Ok tt, rb)
  | c :: r =>
      match enum_class p c rb with
      | Ok rb' => enum_classes p r rb'
      | Raise e => (Raise e, rb)
      end
  end.

(** One turn of [for cpv in db.cpv_all()], with its [except] clauses. *)
Definition enum_package (p : package) (s : scan) : scan :=
  match enum_classes p (vcslf (opt_type opts)) (sc_rebuilds s) with
  | (Ok _, rb) => mkScan rb (sc_erraneous s) (sc_log s)
  | (Raise (NonLiveEbuild msg), rb) =>
      mkScan rb (sc_erraneous s)
             (sc_log s ++ [err (p_cpv p ++ ": " ++ msg)])
  | (Raise _, rb) =>
      mkScan rb (sc_erraneous s ++ [p_cpv p])
             (sc_log s ++ [err ("Error enumerating " ++ p_cpv p)])
  end.

Definition enumerate (db : list package) : scan :=
  fold_left (fun s p => enum_package p s) db
            (mkScan [] [] [s1 "Enumerating the packages ..."]).

End Enumeration.

(** ** The scan as a whole, and what is done with its result *)

(** [pdata], the dictionary that is pickled into the pipe. *)
Record pdata : Type := mkPdata {
  pd_packages : list string;
  pd_erraneous : list string
}.

Definition no_vcs : vcs := mkVcs GitSupport [] [] None None.

(** The state in which the update loop is entered: the instances of
    [rebuilds] are put on the heap, [items] is [list(rebuilds.items())]. *)
Definition initial (sc : scan) (sig : option nat) : machine :=
  let rb := sc_rebuilds sc in
  mkMachine (fun i => nth i (map snd rb) no_vcs) "" sig []
            (sc_log sc ++ [s1 "Updating the repositories..."])
            (combine (map fst rb) (seq 0 (List.length rb)))
            [] [] (sc_erraneous sc) None 0.

Definition pdata_of (m : machine) : pdata :=
  mkPdata (packages m) (erraneous m).

(** The update loop, from the result of the enumeration to [pdata]. *)
Definition update_all (w : world) (opts : options) (sc : scan)
  (sig : option nat) (fuel : nat) : option (result pdata) :=
  match loop w opts fuel (initial sc sig) with
  | None => None
  | Some (Ok _, m) => Some (Ok (pdata_of m))
  | Some (Raise e, _) => Some (Raise e)
  end.

(** What the last part of [main] does to the outside. *)
Inductive action : Type :=
| Say (l : line)
| Print (s : string)
| Quickpkg (cmd : list string)
| Emerge (escm_offline : bool) (cmd : list string)
| KillChild.

Definition show_nat (n : nat) : string :=
  NilEmpty.string_of_uint (Nat.to_uint n).

(** How [main] ends: it returns a value (the exit status), [execv] has
    replaced the process, or an exception leaves it. *)
Inductive ending : Type :=
| Returned (code : Z)
| Replaced
| Raised (e : exn).

(** Lines 587 to 618: merging the erraneous packages, [quickpkg], and the
    list that is printed or given to [emerge]. *)
Definition finish (opts : options) (args : list string) (d : pdata)
  : list action * ending :=
  let erraneous := pd_erraneous d in
  let merge := erraneous_merge opts && (0 <? List.length erraneous)%nat in
  let packages :=
    if merge then (pd_packages d ++ erraneous)%list else pd_packages d in
  let n := List.length packages in
  let quick :=
    if quickpkg opts && (1 <=? n)%nat then
      let cmd := (["/usr/sbin/quickpkg"; "--include-config=y"]
                  ++ map (String.append "=") packages)%list in
      [Say (s1 ("Calling quickpkg to create " ++ show_nat n
                ++ " binary packages ..."));
       Say (s2 (join " " cmd));
       Quickpkg cmd]
    else [] in
  if (n <? 1)%nat then
    ((quick ++ [Say (s1 "No updates found")])%list, Returned 0)
  else if pretend opts then
    ((quick
      ++ [Say (s1 "Printing a list of updated packages ...")]
      ++ (if merge
          then [Say (s2 "(please notice that it contains the update-failed ones as well)")]
          else [])
      ++ map (fun p => Print (String.append ">=" p)) packages)%list, Returned 0)
  else
    let off := offline opts && negb merge in
    let cmd := (["emerge"; "--oneshot"] ++ args
                ++ map (String.append ">=") packages)%list in
    ((quick
      ++ (if merge && offline opts
          then [Say (s1 "Merging update-failed packages, assuming --no-offline.")]
          else [])
      ++ [Say (s1 ("Calling emerge to rebuild " ++ show_nat n
                   ++ " packages ..."));
          Say (s2 (join " " cmd));
          Emerge off cmd])%list, Replaced).

(** [pickle.load(pipe)]: the pipe holds the one message the child wrote,
    or nothing when the child ended before writing. *)
Definition pickle_load (pipe : option pdata) : result pdata :=
  match pipe with
  | Some d => Ok d
  | None => Raise EOFError
  end.

(** The parent's branch of [main] (lines 574 to 623), with the [finally]
    clause that kills the child whenever [main] is left by [return]. *)
Definition parent_main (opts : options) (args : list string)
  (pipe : option pdata) : list action * ending :=
  match pickle_load pipe with
  | Raise EOFError => ([KillChild], Returned 1)
  | Raise e => ([KillChild], Raised e)
  | Ok d =>
      match finish opts args d with
      | (acts, Replaced) => (acts, Replaced)
      | (acts, e) => ((acts ++ [KillChild])%list, e)
      end
  end.

(** ** Vocabulary of the statements *)

(** [frame i m m']: from [m] to [m'] the local variables of the loop are
    untouched, no signal has appeared, and on the heap only instance [i]
    may have changed, keeping its class, identifiers and environment. *)
Definition frame (i : nat) (m m' : machine) : Prop :=
  items m' = items m /\ processes m' = processes m /\
  packages m' = packages m /\ erraneous m' = erraneous m /\
  ret m' = ret m /\ cur m' = cur m /\ sigint m' = sigint m /\
  (forall j, j <> i -> heap m' j = heap m j) /\
  cls (heap m' i) = cls (heap m i) /\
  cpv (heap m' i) = cpv (heap m i) /\
  env (heap m' i) = env (heap m i).

(** The events [startupdate] and [endupdate] may add for a directory. *)
Definition start_events (d : string) (evs : list event) : Prop :=
  evs = [] \/ evs = [RevQuery false d] \/
  exists c, evs = [Popen d c] \/ evs = [RevQuery false d; Popen d c].

Definition end_events (d : string) (evs : list event) : Prop :=
  evs = [] \/ evs = [RevQuery true d] \/ evs = [RevQuery true d; Diffstat d].

(** [endupdate] has something to tell: there is no child, or the call
    waits for it, or it has ended. *)
Definition ready (blocking : bool) (v : vcs) : Prop :=
  match subprocess v with
  | Some (Some p) => blocking = true \/ polls_left p = O
  | _ => True
  end.

(** The number a string of decimal digits writes. *)
Fixpoint dec_value_from (acc : N) (s : string) : N :=
  match s with
  | EmptyString => acc
  | String c r => dec_value_from (10 * acc + (N_of_ascii c - 48))%N r
  end.

Definition dec_value (s : string) : N := dec_value_from 0 s.

(** The child of an instance, if there is one, has ended with status 0. *)
Definition exited_ok (v : vcs) : Prop :=
  match subprocess v with
  | Some (Some p) => returncode p = 0%Z
  | Some None => True
  | None => False
  end.

(** The classes of a list that match a package, in the order in which
    [for vcs in vcslf] meets them. *)
Definition matching (p : package) (cs : list vcs_class) : list vcs_class :=
  filter (fun c => vcs_match c (p_inherits p)) cs.

(** What the constructor of class [c] makes of package [p]. *)
Definition construct (p : package) (c : vcs_class) : result vcs :=
  vcs_init c (p_cpv p) (p_bash p (reqenv c ++ optenv c)).

(** The identifiers a scan holds, in [rebuilds] or in [erraneous]. *)
Definition rebuilds_ids (rb : rebuilds_t) : list string :=
  flat_map (fun kv => cpv (snd kv)) rb.

Definition scan_ids (s : scan) : list string :=
  (rebuilds_ids (sc_rebuilds s) ++ sc_erraneous s)%list.

(** The package is wanted: the network is used, or the instance has a
    saved revision ([opts.network or vcs.getsavedrev()]). *)
Definition wanted (opts : options) (v : vcs) : Prop :=
  network opts = true \/ exists r, getsavedrev v = Ok r /\ truthy r = true.

(** ** Vocabulary of the update loop *)

(** [sim v v']: [v'] is [v] after some [poll()]s of its child. *)
Definition sim (v v' : vcs) : Prop :=
  cls v' = cls v /\ cpv v' = cpv v /\ env v' = env v /\
  oldrev v' = oldrev v /\
  match subprocess v, subprocess v' with
  | Some (Some p), Some (Some p') =>
      returncode p' = returncode p /\ (polls_left p' <= polls_left p)%nat
  | a, b => a = b
  end.

Definition hsim (m m' : machine) : Prop :=
  forall j, sim (heap m j) (heap m' j).

(** The [poll()]s the child of an instance still needs. *)
Definition polls_of (v : vcs) : nat :=
  match subprocess v with
  | Some (Some p) => polls_left p
  | _ => O
  end.

(** A started instance: it can be printed, and has its [subprocess]. *)
Definition running (v : vcs) : Prop :=
  (exists s, vcs_str v = Ok s) /\ (exists sp, subprocess v = Some sp).

(** What a verdict adds to the two lists. *)
Definition settled (m m' : machine) (j : verdict) (ids : list string) : Prop :=
  match j with
  | Changed =>
      packages m' = (packages m ++ ids)%list /\ erraneous m' = erraneous m
  | Unchanged => packages m' = packages m /\ erraneous m' = erraneous m
  | Failed =>
      packages m' = packages m /\
      erraneous m' = (erraneous m ++ ids)%list
  end.

Section LoopVocabulary.

Variable w : world.
Variable opts : options.

Definition pending_polls (v : vcs) : nat :=
  match start_pure w opts v with
  | Ok v' => polls_of v'
  | Raise _ => O
  end.

(** A bound on the turns the loop still takes. *)
Definition measure (m : machine) : nat :=
  2 * List.length (items m) + List.length (processes m)
  + list_sum (map (fun kv => pending_polls (heap m (snd kv))) (items m))
  + list_sum (map (fun i => polls_of (heap m i)) (processes m)).

(** The identifiers that are still to be given verdict [v]: those of the
    tasks waiting in [items], and of the tasks in [processes]. *)
Definition due_item (v : verdict) (m : machine) (kv : string * nat)
  : list string :=
  if verdict_eqb (judge w opts (heap m (snd kv))) v
  then cpv (heap m (snd kv)) else [].

Definition due_process (v : verdict) (m : machine) (i : nat) : list string :=
  if verdict_eqb (judge_started w (heap m i)) v then cpv (heap m i) else [].

Definition due (v : verdict) (m : machine) : list string :=
  (flat_map (due_item v m) (items m)
   ++ flat_map (due_process v m) (processes m))%list.

(** The invariant of the loop when no signal comes. *)
Definition Inv (m : machine) : Prop :=
  sigint m = None /\
  NoDup (map snd (items m) ++ processes m) /\
  (forall i, In i (processes m) -> running (heap m i)) /\
  (jobs opts = 1%Z -> processes m = []).

End LoopVocabulary.

(** The options with another number of jobs. *)
Definition with_jobs (n : Z) (o : options) : options :=
  mkOptions n (local_rev o) (network o) (erraneous_merge o) (pretend o)
            (quickpkg o) (offline o) (opt_type o).

(** The tasks of a scan. *)
Definition tasks_of (sc : scan) : list vcs := map snd (sc_rebuilds sc).

(** ** Vocabulary of the processes run *)

Definition is_popen (d : string) (e : event) : bool :=
  match e with
  | Popen d' _ => String.eqb d' d
  | _ => false
  end.

Definition is_recheck (d : string) (e : event) : bool :=
  match e with
  | RevQuery true d' => String.eqb d' d
  | _ => false
  end.

Definition count_ev (f : event -> bool) (tr : list event) : nat :=
  List.length (filter f tr).

(** The instance works in directory [d]. *)
Definition at_path (dd d : string) (v : vcs) : bool :=
  match getpath dd v with
  | Ok d' => String.eqb d' d
  | Raise _ => false
  end.

Definition count_at (dd d : string) (h : nat -> vcs) (l : list nat) : nat :=
  List.length (filter (fun i => at_path dd d (h i)) l).

(** Update commands run in [d] so far, and tasks of [d] not yet started;
    post-update revision queries made in [d] so far, and tasks of [d] not
    yet settled. *)
Definition popen_budget (dd d : string) (m : machine) : nat :=
  count_ev (is_popen d) (trace m)
  + count_at dd d (heap m) (map snd (items m)).

Definition recheck_budget (dd d : string) (m : machine) : nat :=
  count_ev (is_recheck d) (trace m)
  + count_at dd d (heap m) (map snd (items m) ++ processes m).

Section TraceVocabulary.

Variable w : world.
Variable opts : options.

(** The task spawns its update command when it is started. *)
Definition spawns_in (d : string) (v : vcs) : Prop :=
  exists v', start_pure w opts v = Ok v' /\ network opts = true /\
             getpath (distdir w) v = Ok d.

(** From [m] to [m']: the trace has grown, the budgets have not, and a
    task that has left [items] and was to spawn has spawned. *)
Definition traced (m m' : machine) : Prop :=
  (exists evs, trace m' = (trace m ++ evs)%list) /\
  (forall d, (popen_budget (distdir w) d m'
              <= popen_budget (distdir w) d m)%nat) /\
  (forall d, (recheck_budget (distdir w) d m'
              <= recheck_budget (distdir w) d m)%nat) /\
  (forall i, In i (map snd (items m)) ->
             (In i (map snd (items m')) /\ sim (heap m i) (heap m' i)) \/
             (forall d, spawns_in d (heap m i) ->
                        exists c, In (Popen d c) (trace m'))).

End TraceVocabulary.

(** The dictionary [rebuilds] is keyed by the path of its instances. *)
Definition keyed (dd : string) (rb : rebuilds_t) : Prop :=
  NoDup (map fst rb) /\
  forall k v, In (k, v) rb -> getpath dd v = Ok k.

(** The dictionary has, under key [d], an instance of class [c] that
    holds the identifiers [xs]. *)
Definition tracked (d : string) (c : vcs_class) (xs : list string)
  (rb : rebuilds_t) : Prop :=
  exists t, rebuilds_get rb d = Some t /\ cls t = c /\ incl xs (cpv t).

(** ** Vocabulary of the constructors and of the paths *)

(** The revision is not pinned: what the three constructors test before
    they return. *)
Definition live (v : vcs) : Prop :=
  match cls v with
  | GitSupport =>
      exists commit branch,
        getitem (env v) "EGIT_COMMIT" = Ok commit /\
        getitem (env v) "EGIT_BRANCH" = Ok branch /\
        (commit = "" \/ commit = branch)
  | HgSupport =>
      exists r, getitem (env v) "EHG_REVISION" = Ok r /\ (r = "" \/ r = "tip")
  | SvnSupport =>
      exists uri,
        getitem (env v) "ESVN_REPO_URI" = Ok uri /\
        contains_char at_sign uri = false /\
        getitem (env v) "ESVN_REVISION" = Ok ""
  end.

(** The variable [str(self)] prints. *)
Definition uri_var (c : vcs_class) : string :=
  match c with
  | GitSupport => "EGIT_REPO_URI"
  | HgSupport => "EHG_REPO_URI"
  | SvnSupport => "ESVN_REPO_URI"
  end.

Fixpoint all_slashes (s : string) : bool :=
  match s with
  | EmptyString => true
  | String a r => Ascii.eqb a slash && all_slashes r
  end.

(** The last component of the URI, as [HgSupport.getpath] takes it. *)
Definition hg_basename (uri : string) : string :=
  if str_truthy (basename uri) then basename uri
  else basename (dirname uri).

(** ** Sample data: packages, worlds and states to run the script on *)

Module Sample.

Definition nl : string := String newline EmptyString.

(** What the [bash] script prints: the values, NUL between them. *)
Definition fields (l : list string) : string :=
  join (String nul EmptyString) l.

(** A Subversion package: [ESVN_STORE_DIR], [ESVN_UPDATE_CMD],
    [ESVN_WC_PATH], then the optional variables, [ESVN_REPO_URI] and
    [ESVN_WC_REVISION] among them. *)
Definition svn_bash (path uri wcrev : string) : string :=
  fields ["/store"; "svn up"; path; ""; ""; ""; uri; ""; wcrev].

Definition svn_package (p path uri wcrev : string) : package :=
  mkPackage p ["subversion"] (fun _ => svn_bash path uri wcrev).

Definition svn_info (rev : string) : string :=
  "Path: ." ++ nl ++ "Last Changed Rev: " ++ rev ++ nl.

(** A started Subversion instance whose child has ended with status 0. *)
Definition svn_started (old : string) : vcs :=
  mkVcs SvnSupport ["dev-util/foo-9999"]
        (bashparse (reqenv SvnSupport ++ optenv SvnSupport)
                   (svn_bash "/wc" "svn://host/foo" old))
        (Some (PStr old)) (Some (Some (mkPopen 0 0 false))).

(** A world in which every working copy is at revision [rev]. *)
Definition world_at (rev : string) : world :=
  mkWorld "/distfiles" (fun _ => true) (fun _ _ => Some (svn_info rev))
          (fun _ => O) (fun _ => 0%Z) unicode_decimal.

(** A world in which every revision query prints [out]. *)
Definition world_saying (out : string) : world :=
  mkWorld "/distfiles" (fun _ => true) (fun _ _ => Some out)
          (fun _ => O) (fun _ => 0%Z) unicode_decimal.

(** A Mercurial instance, as the constructor leaves it: [EHG_PROJECT],
    [EHG_PULL_CMD], [EHG_REPO_URI], and an empty [EHG_REVISION]. *)
Definition hg_fresh : vcs :=
  mkVcs HgSupport ["dev-vcs/bar-9999"]
        (bashparse (reqenv HgSupport ++ optenv HgSupport)
                   (fields ["bar"; "hg pull"; "http://host/bar"; ""]))
        None None.

(** A Subversion instance, as the constructor leaves it. *)
Definition svn_fresh (wcrev : string) : vcs :=
  mkVcs SvnSupport ["dev-util/foo-9999"]
        (bashparse (reqenv SvnSupport ++ optenv SvnSupport)
                   (svn_bash "/wc" "svn://host/foo" wcrev))
        None None.

(** A Git package: [EGIT_BRANCH], [EGIT_PROJECT], [EGIT_STORE_DIR],
    [EGIT_UPDATE_CMD], then the optional variables, of which
    [EGIT_COMMIT] is the first and [EGIT_VERSION] the last. *)
Definition git_bash (project commit : string) : string :=
  fields ["master"; project; "/store/git"; "git fetch"; commit; ""; ""; "";
          "git://host/" ++ project; "0a1b2c"].

Definition git_package (p project commit : string) : package :=
  mkPackage p ["git"] (fun _ => git_bash project commit).

Definition one_job : options :=
  mkOptions 1 false true true false false true [].

Definition three_jobs : options :=
  mkOptions 3 false true true false false true [].

(** [--no-network]. *)
Definition no_network : options :=
  mkOptions 1 false false true false false true [].

Definition holding (v : vcs) : machine :=
  mkMachine (fun _ => v) "" None [] [] [] [] [] [] None 0.

(** Four Subversion packages, two of them on one working copy.  The
    working copy [/a] is busy for three polls and is left at revision 10,
    the others are left at revision 7; the update of [/c] fails. *)
Definition demo_world : world :=
  mkWorld "/distfiles" (fun _ => true)
          (fun _ d => Some (svn_info (if String.eqb d "/a" then "10" else "7")))
          (fun d => if String.eqb d "/a" then 3 else 0)%nat
          (fun d => if String.eqb d "/c" then 1 else 0)%Z
          unicode_decimal.

Definition demo_db : list package :=
  [svn_package "x/a-1" "/a" "svn://host/a" "1";
   svn_package "x/b-1" "/b" "svn://host/b" "5";
   svn_package "x/a-2" "/a" "svn://host/a" "1";
   svn_package "x/c-1" "/c" "svn://host/c" "5"].

Definition demo_scan : scan := enumerate "/distfiles" one_job demo_db.

(** Two Subversion packages.  The first has no saved revision, so that
    its start asks the working copy for its revision. *)
Definition two_db : list package :=
  [svn_package "x/a-1" "/a" "svn://host/a" "";
   svn_package "x/b-1" "/b" "svn://host/b" "5"].

Definition two_scan : scan := enumerate "/distfiles" one_job two_db.

End Sample.

(** ** The options [main] checks, and the privileges it asks for *)

(** The options [main] reads beside those of [options]. *)
Record cmdline : Type := mkCmdline {
  co : options;
  setuid : bool;
  unprivileged_user : bool
}.

(** What [main] asks the system: whether [userpriv] is among the
    [FEATURES] of portage, the effective and the real user of the
    process, and the user and the group of portage (0 when there is
    none). *)
Record host : Type := mkHost {
  userpriv : bool;
  euid : Z;
  uid : Z;
  portage_uid : Z;
  portage_gid : Z
}.

(** What is written before the packages are enumerated: a line of
    [out.s1] or [out.err], or a text given to [out.out] as it is. *)
Inductive said : Type :=
| Told (l : line)
| Wrote (text : string).

Definition with_pretend (b : bool) (o : options) : options :=
  mkOptions (jobs o) (local_rev o) (network o) (erraneous_merge o) b
            (quickpkg o) (offline o) (opt_type o).

(** Lines 434 to 446: the options that exclude each other.  The left
    value is the exit status [main] returns at once. *)
Definition check_options (h : host) (c : cmdline)
  : list said * (Z + cmdline) :=
  let o := co c in
  let unset := setuid c && negb (userpriv h) in
  let l1 :=
    if unset
    then [Told (err "setuid requested but FEATURES=userpriv not set, assuming --no-setuid.")]
    else [] in
  let su := if unset then false else setuid c in
  if local_rev o && negb (network o) then
    ((l1 ++ [Told (err "The --local-rev and --no-network options can not be specified together.")])%list,
     inl 1%Z)
  else if (jobs o <=? 0)%Z then
    ((l1 ++ [Told (err "The argument to --jobs option must be a positive integer.")])%list,
     inl 1%Z)
  else if (1 <? jobs o)%Z && negb (network o) then
    ((l1 ++ [Told (s1 "Using parallel jobs with --no-network is inefficient, assuming no --jobs.")])%list,
     inr (mkCmdline (with_jobs 1 o) su (unprivileged_user c)))
  else (l1, inr (mkCmdline o su (unprivileged_user c))).

(** How the process goes on after line 479: as it is, after
    [os.setuid(puid)], or as the parent of a child that was forked to
    enumerate and update as the portage user. *)
Inductive role : Type :=
| Alone
| Dropped
| Forked.

Definition privileges_text : string :=
  String newline
    "This tool requires either superuser or portage (if FEATURES=userpriv is set)"
  ++ String newline
    "privileges. If you would like to force running the update using your current"
  ++ String newline
    "user account, please pass the --unprivileged-user option."
  ++ String newline "".

(** Lines 447 to 479. *)
Definition privileges (h : host) (c : cmdline)
  : list said * (Z + cmdline * role) :=
  let o := co c in
  let root := Z.eqb (euid h) 0 in
  let '(ls, o', userok, r) :=
    if setuid c then
      if negb (Z.eqb (portage_uid h) 0) && negb (Z.eqb (portage_gid h) 0) then
        if negb root then
          if Z.eqb (uid h) (portage_uid h) then
            (((if negb (pretend o)
               then [Told (s1 "Running as the portage user, assuming --pretend.")]
               else [])
              ++ (if quickpkg o
                  then [Told (err "Running as the portage user, --quickpkg probably won't work")]
                  else []))%list,
             with_pretend true o, true, Alone)
          else ([], o, false, Alone)
        else if pretend o && negb (quickpkg o) then
          ([Told (s1 "Dropping superuser privileges ...")], o, true, Dropped)
        else
          ([Told (s1 "Forking to drop superuser privileges ...")], o, true,
           Forked)
      else
        ([Told (err "'userpriv' is set but there's no 'portage' user in the system")],
         o, root, Alone)
    else ([], o, root, Alone) in
  if negb (unprivileged_user c) && negb userok then
    ((ls ++ [Told (err "Either superuser or portage privileges are required!");
             Wrote privileges_text])%list, inl 1%Z)
  else (ls, inr (mkCmdline o' (setuid c) (unprivileged_user c), r)).

(** [main] from line 434 on, for the process that was started: what it
    says before the enumeration, what it does with the result, and how
    it ends.  The packages are enumerated and updated in this process or,
    for [Forked], in the child, which pickles [pdata] into the pipe when
    its loop ends without an exception; the parent then goes on as
    [parent_main] has it.  [None]: the loop needs more than [fuel]
    turns. *)
Definition main_tail (h : host) (w : world) (db : list package)
  (args : list string) (sig : option nat) (fuel : nat) (c : cmdline)
  : option (list said * list action * ending) :=
  match check_options h c with
  | (l1, inl code) => Some (l1, [], Returned code)
  | (l1, inr c1) =>
      match privileges h c1 with
      | (l2, inl code) => Some ((l1 ++ l2)%list, [], Returned code)
      | (l2, inr (c2, r)) =>
          let o := co c2 in
          match update_all w o (enumerate (distdir w) o db) sig fuel with
          | None => None
          | Some res =>
              match r, res with
              | Forked, Ok d =>
                  let '(acts, e) := parent_main o args (Some d) in
                  Some ((l1 ++ l2)%list, acts, e)
              | Forked, Raise _ =>
                  let '(acts, e) := parent_main o args None in
                  Some ((l1 ++ l2)%list, acts, e)
              | _, Ok d =>
                  let '(acts, e) := finish o args d in
                  Some ((l1 ++ l2)%list, acts, e)
              | _, Raise e => Some ((l1 ++ l2)%list, [], Raised e)
              end
          end
      end
  end.

(** The kinds of actions. *)
Definition is_say (a : action) : bool :=
  match a with
  | Say _ => true
  | _ => false
  end.

Definition is_quickpkg (a : action) : bool :=
  match a with
  | Quickpkg _ => true
  | _ => false
  end.

Definition is_emerge (a : action) : bool :=
  match a with
  | Emerge _ _ => true
  | _ => false
  end.

(** The packages the last part of [main] works on: the updated ones,
    and with [erraneous_merge] the erraneous ones after them. *)
Definition to_rebuild (opts : options) (d : pdata) : list string :=
  (pd_packages d ++ (if erraneous_merge opts then pd_erraneous d else []))%list.

(** ** Vocabulary of the loop under any signal *)

(** The instance has the attribute [subprocess]. *)
Definition has_subprocess (v : vcs) : bool :=
  match subprocess v with
  | Some _ => true
  | None => false
  end.

(** What the methods of an instance keep, however they end: the lists
    of the loop, the identifiers of the instances and, once they have
    it, their [subprocess]. *)
Definition quiet (m m' : machine) : Prop :=
  items m' = items m /\ processes m' = processes m /\
  packages m' = packages m /\ erraneous m' = erraneous m /\
  forall j, cpv (heap m' j) = cpv (heap m j) /\
            (has_subprocess (heap m j) = true ->
             has_subprocess (heap m' j) = true).

(** From [m] to [m']: the instances keep their identifiers and, once
    they have it, their [subprocess], and the two sequences have only
    grown, by identifiers of instances. *)
Definition grows (m m' : machine) : Prop :=
  (forall j, cpv (heap m' j) = cpv (heap m j) /\
             (has_subprocess (heap m j) = true ->
              has_subprocess (heap m' j) = true)) /\
  (exists a, packages m' = (packages m ++ a)%list /\
             forall x, In x a -> exists j, In x (cpv (heap m j))) /\
  (exists b, erraneous m' = (erraneous m ++ b)%list /\
             forall x, In x b -> exists j, In x (cpv (heap m j))).

(** Every instance in [processes] has been started, and there are no
    more of them than jobs. *)
Definition bounded (opts : options) (m : machine) : Prop :=
  (forall i, In i (processes m) -> has_subprocess (heap m i) = true) /\
  (Z.of_nat (List.length (processes m)) <= Z.max 0 (jobs opts))%Z.

(** The [poll()]s the child of an instance can need once it is started. *)
Definition budget (w : world) (v : vcs) : nat :=
  match getpath (distdir w) v with
  | Ok d => child_polls w d
  | Raise _ => O
  end.

(** A bound on the turns the loop still takes, whatever the signal. *)
Definition effort (w : world) (m : machine) : nat :=
  2 * List.length (items m)
  + list_sum (map (fun kv => budget w (heap m (snd kv))) (items m))
  + list_sum (map (fun i => S (polls_of (heap m i))) (processes m)).

(** From [m] to [m']: nothing was started; instances may have left
    [processes], and the children have not come to need more polls. *)
Definition eases (w : world) (m m' : machine) : Prop :=
  items m' = items m /\
  (forall j, budget w (heap m' j) = budget w (heap m j) /\
             (polls_of (heap m' j) <= polls_of (heap m j))%nat) /\
  exists gone, Permutation (processes m) (gone ++ processes m').

(** No instance is twice in the lists of the loop, and with one job
    [processes] is not used. *)
Definition orderly (opts : options) (m : machine) : Prop :=
  NoDup (map snd (items m) ++ processes m) /\
  (jobs opts = 1%Z -> processes m = []).

(** What a method of instance [i] keeps, however it ends. *)
Definition calm (i : nat) (m m' : machine) : Prop :=
  items m' = items m /\ processes m' = processes m /\
  packages m' = packages m /\ erraneous m' = erraneous m /\
  cur m' = cur m /\
  (forall j, j <> i -> heap m' j = heap m j) /\
  cls (heap m' i) = cls (heap m i) /\
  cpv (heap m' i) = cpv (heap m i) /\
  env (heap m' i) = env (heap m i).

(** The child of a started instance, if it has one, was sent the
    termination signal. *)
Definition stopped (v : vcs) : Prop :=
  match subprocess v with
  | Some (Some p) => terminated p = true
  | Some None => True
  | None => False
  end.

(** From [m] to [m']: the instances keep their class and environment,
    and every command that was spawned is the update command of an
    instance, run in the directory of that instance. *)
Definition own_commands (dd : string) (m m' : machine) : Prop :=
  (forall j, cls (heap m' j) = cls (heap m j) /\
             env (heap m' j) = env (heap m j)) /\
  exists evs,
    trace m' = (trace m ++ evs)%list /\
    forall d cmd, In (Popen d cmd) evs ->
      exists j, getpath dd (heap m j) = Ok d /\
                getupdatecmd (heap m j) = Ok cmd.

(** The instance after [terminate()] on its child, when it has one:
    nothing else of the child changes. *)
Definition terminate (v : vcs) : vcs :=
  match subprocess v with
  | Some (Some p) =>
      set_subprocess (Some (mkPopen (polls_left p) (returncode p) true)) v
  | _ => v
  end.

(** The event is the start of an update command. *)
Definition is_spawn (e : event) : bool :=
  match e with
  | Popen _ _ => true
  | _ => false
  end.

Definition spawns (m : machine) : list event := filter is_spawn (trace m).

(** The state after [n] turns of the loop, or at its end when it ends
    before. *)
Fixpoint turns (w : world) (opts : options) (n : nat) (m : machine)
  : machine :=
  match n with
  | O => m
  | S k =>
      match turn w opts m with
      | (Ok true, m') => turns w opts k m'
      | (_, m') => m'
      end
  end.

(** ** The types of the configuration file *)

(** [vcsnames]. *)
Definition vcsnames : list string := map inherit vcsl.

Definition comma : ascii := ","%char.

(** [l.remove(t)] on a list of strings: the first occurrence goes, and
    there has to be one. *)
Fixpoint remove_str (t : string) (l : list string) : result (list string) :=
  match l with
  | [] => Raise ValueError
  | x :: r =>
      if String.eqb x t then Ok r
      else r' <~ remove_str t r ;; Ok (x :: r')
  end.

(** [for t in list(deftypes): if t not in vcsnames: out.err(...);
    deftypes.remove(t)]: the names still to be looked at, and the list
    they are removed from. *)
Fixpoint prune (todo cur : list string) : result (list string * list line) :=
  match todo with
  | [] => Ok (cur, [])
  | t :: r =>
      if existsb (String.eqb t) vcsnames then prune r cur
      else
        cur' <~ remove_str t cur ;;
        x <~ prune r cur' ;;
        Ok (fst x, err ("Incorrect value within type: " ++ t) :: snd x)
  end.

(** Lines 386 to 392: [deftypes] from the value of [type] in the
    configuration file, [None] when it is empty. *)
Definition deftypes (t : string) : result (option (list string) * list line) :=
  if String.eqb t "" then Ok (None, [])
  else
    x <~ prune (py_split comma t) (py_split comma t) ;;
    Ok (Some (fst x), snd x).

(** [if not opts.type: opts.type = deftypes], an absent list being
    written as the empty one. *)
Definition effective_types (given : list string)
  (def : option (list string)) : list string :=
  match given with
  | [] => match def with
          | Some l => l
          | None => []
          end
  | _ => given
  end.

(** The name is that of a supported VCS ([t in vcsnames]). *)
Definition known (t : string) : bool := existsb (String.eqb t) vcsnames.

(** ** Privileges that can be dropped *)

(** The superuser on a system where privileges can be dropped. *)
Definition can_drop (h : host) : Prop :=
  euid h = 0%Z /\ userpriv h = true /\
  portage_uid h <> 0%Z /\ portage_gid h <> 0%Z.

(** ** The colours of [out] *)

Definition esc : ascii := ascii_of_nat 27.

(** The string attributes of the class [out]. *)
Record palette : Type := mkPalette {
  red : string;
  green : string;
  lime : string;
  yellow : string;
  cyan : string;
  turq : string;
  white : string;
  reset : string;
  s1reset : string;
  s2reset : string;
  s3reset : string;
  errreset : string
}.

Definition out_colours : palette :=
  mkPalette (String esc "[1;31m") (String esc "[32m") (String esc "[1;32m")
            (String esc "[1;33m") (String esc "[36m") (String esc "[1;36m")
            (String esc "[1;37m") (String esc "[0m")
            (String esc "[1;32m") (String esc "[32m") (String esc "[36m")
            (String esc "[1;33m").

(** [v.startswith('\033')]. *)
Definition starts_with_esc (v : string) : bool :=
  match v with
  | String a _ => Ascii.eqb a esc
  | EmptyString => false
  end.

Definition uncoloured (v : string) : string :=
  if starts_with_esc v then "" else v.

(** [out.monochromize]: every string attribute that begins with the
    escape character becomes the empty string. *)
Definition monochromize (p : palette) : palette :=
  mkPalette (uncoloured (red p)) (uncoloured (green p)) (uncoloured (lime p))
            (uncoloured (yellow p)) (uncoloured (cyan p)) (uncoloured (turq p))
            (uncoloured (white p)) (uncoloured (reset p)) (uncoloured (s1reset p))
            (uncoloured (s2reset p)) (uncoloured (s3reset p)) (uncoloured (errreset p)).

(** What [out.s1], [out.s2], [out.s3] and [out.err] write. *)
Definition render (p : palette) (l : line) : string :=
  match l with
  | s1 msg => s1reset p ++ "*** " ++ msg ++ reset p ++ String newline ""
  | s2 msg => s2reset p ++ "->" ++ reset p ++ "  " ++ msg ++ String newline ""
  | s3 msg => s3reset p ++ "-->" ++ reset p ++ " " ++ msg ++ String newline ""
  | err msg =>
      red p ++ "!!!" ++ reset p ++ " " ++ errreset p ++ msg ++ reset p
      ++ String newline ""
  end.

Definition text_of (l : line) : string :=
  match l with
  | s1 msg => msg
  | s2 msg => msg
  | s3 msg => msg
  | err msg => msg
  end.

(** ** The chain of configuration files *)

(** An element of [cfl]: a path, or the list [cfl] itself, which
    [cfl.append(cfl)] puts there. *)
Inductive cfl_item : Type :=
| CfPath (p : string)
| CfItself.

Definition is_path (cf : string) (i : cfl_item) : bool :=
  match i with
  | CfPath p => String.eqb cf p
  | CfItself => false
  end.

(** The [while] loop of [main] that reads the configuration files.
    [read p] is [c.read(os.path.expanduser(p))] taken as a truth value,
    [get fs] is [c.get(sect, 'config_file')] once the files [fs] were read,
    [None] standing for [NoOptionError].  The second component lists the
    paths given to [c.read].  [os.path.expanduser] raises on a list. *)
Fixpoint chain (read : string -> result bool)
    (get : list string -> result (option string))
    (fuel : nat) (cfl : list cfl_item) (reads : list string)
    : option (result unit * list string) :=
  match fuel with
  | O => None
  | S f =>
      match rev cfl with
      | [] => Some (Raise IndexError, reads)
      | CfItself :: _ => Some (Raise TypeError, reads)
      | CfPath p :: _ =>
          if String.eqb p "" then Some (Ok tt, reads)
          else
            match read p with
            | Raise e => Some (Raise e, (reads ++ [p])%list)
            | Ok false => Some (Ok tt, (reads ++ [p])%list)
            | Ok true =>
                match get (reads ++ [p])%list with
                | Raise e => Some (Raise e, (reads ++ [p])%list)
                | Ok None => Some (Ok tt, (reads ++ [p])%list)
                | Ok (Some cf) =>
                    if negb (existsb (is_path cf) cfl)
                    then chain read get f (cfl ++ [CfItself])%list
                           (reads ++ [p])%list
                    else Some (Ok tt, (reads ++ [p])%list)
                end
            end
      end
  end.

(** The loop inside its [try]: an [Exception] is reported with [out.err]
    ([Some e]), anything else goes on to the caller. *)
Definition config_chain (read : string -> result bool)
    (get : list string -> result (option string))
    (fuel : nat) (config_file : string)
    : option (result (option exn) * list string) :=
  match chain read get fuel [CfPath config_file] [] with
  | None => None
  | Some (Ok _, reads) => Some (Ok None, reads)
  | Some (Raise e, reads) =>
      if is_Exception e then Some (Ok (Some e), reads)
      else Some (Raise e, reads)
  end.

(** ** More cases to run the script on *)

Module Cases.

(** Two Subversion packages, the first without [ESVN_REPO_URI]. *)
Definition anonymous_db : list package :=
  [Sample.svn_package "x/a-1" "/a" "" "5";
   Sample.svn_package "x/b-1" "/b" "svn://host/b" "5"].

Definition anonymous_scan : scan :=
  enumerate "/distfiles" Sample.one_job anonymous_db.

(** A Mercurial instance with the given [EHG_REPO_URI]. *)
Definition hg_at (uri : string) : vcs :=
  mkVcs HgSupport ["dev-vcs/bar-9999"]
        (bashparse (reqenv HgSupport ++ optenv HgSupport)
                   (Sample.fields ["bar"; "hg pull"; uri; ""]))
        None None.

(** The superuser on a system with a portage user, and a user who is
    neither. *)
Definition root_host : host := mkHost true 0 0 250 250.

Definition user_host : host := mkHost true 1000 1000 250 250.

(** The options as they are by default, without [setuid]. *)
Definition plain : cmdline := mkCmdline Sample.one_job false false.

(** What a run as the superuser does with the four packages of
    [Sample.demo_db]. *)
Definition demo_run : list said * list action * ending :=
  match main_tail root_host Sample.demo_world Sample.demo_db ["--ask"]
                  None 20 plain with
  | Some r => r
  | None => ([], [], Replaced)
  end.

(** A state of the loop with nothing left to start and one child
    running, which three more polls would find running, at the moment
    the signal is due. *)
Definition busy : machine :=
  mkMachine (fun _ => set_subprocess (Some (mkPopen 3 0 false))
                        (Sample.svn_started "5"))
            "/wc" (Some O) [] [] [] [O] [] [] None O.

(** The number twelve in Arabic-Indic digits (U+0661, U+0662), in
    UTF-8. *)
Definition arabic_12 : string :=
  String (ascii_of_nat 217) (String (ascii_of_nat 161)
    (String (ascii_of_nat 217) (String (ascii_of_nat 162) ""))).

(** [--type git]. *)
Definition git_only : options :=
  mkOptions 1 false true true false false true ["git"].

(** A Mercurial package. *)
Definition hg_package : package :=
  mkPackage "dev-vcs/bar-9999" ["mercurial"]
            (fun _ => Sample.fields ["bar"; "hg pull"; "http://host/bar"; ""]).

(** A Git package, and a Subversion package whose working copy is the
    directory of the first. *)
Definition git_first : scan :=
  enumerate "/distfiles" Sample.one_job [Sample.git_package "x/g-1" "foo" ""].

Definition svn_on_git : package :=
  Sample.svn_package "x/s-1" "/store/git/foo" "svn://host/s" "5".

End Cases.

(** * Properties *)

(** ** Frames: what a call leaves alone *)

Lemma upd_same h i v : upd h i v i = v.
Proof. unfold upd. now rewrite Nat.eqb_refl. Qed.

Lemma upd_other h i v j : j <> i -> upd h i v j = h j.
Proof.
  intros H. unfold upd. destruct (Nat.eqb_spec j i); [contradiction|reflexivity].
Qed.

Ltac unfold_ops :=
  unfold mbind, mret, mraise, lift, get, load, store, modify, out_line, emit,
    chdir, call_rev, popen_shell, tick, try_except in *.

Ltac break_match :=
  match goal with
  | |- context [match ?x with _ => _ end] =>
      lazymatch x with
      | context [match _ with _ => _ end] => fail
      | _ => destruct x eqn:?
      end
  end.

Ltac frame_tac :=
  unfold frame; cbn;
  repeat split; auto;
  try (intros; rewrite ?upd_other by assumption; reflexivity);
  rewrite ?upd_same; reflexivity.

Section InterpreterFacts.

Variable w : world.
Variable opts : options.

Lemma getrev_spec i after m d :
  sigint m = None -> cwd m = d ->
  exists m',
    getrev w i after m = (getrev_pure w (heap m i) after d, m') /\
    frame i m m' /\ heap m' i = heap m i /\ cwd m' = d /\
    log m' = log m /\
    (trace m' = trace m \/ trace m' = (trace m ++ [RevQuery after d])%list).
Proof.
  intros Hs Hd. subst d. unfold getrev, getrev_pure.
  repeat (first [ progress unfold_ops | progress cbn
                | rewrite Hs | break_match ]);
    try discriminate;
    eexists; (split; [reflexivity|]); cbn;
    (split; [frame_tac|]); auto 10.
Qed.

Ltac run_m Hs :=
  repeat (first [ progress unfold_ops | progress cbn
                | rewrite Hs | break_match ]).

Lemma startupdate_spec i m :
  sigint m = None ->
  exists m' evs,
    startupdate w opts i m =
      (match start_pure w opts (heap m i) with
       | Ok _ => Ok tt
       | Raise e => Raise e
       end, m') /\
    frame i m m' /\
    (forall v', start_pure w opts (heap m i) = Ok v' -> heap m' i = v') /\
    trace m' = (trace m ++ evs)%list /\
    (evs = [] \/
     exists d, getpath (distdir w) (heap m i) = Ok d /\ start_events d evs) /\
    (forall d, spawns_in w opts d (heap m i) ->
               exists c, In (Popen d c) evs).
Proof.
  intros Hs.
  unfold spawns_in, startupdate, start_pure, oldrev_pure, getrev, getrev_pure.
  run_m Hs; try discriminate.
  all: eexists; eexists; (split; [reflexivity|]); cbn.
  all: (split; [frame_tac|]).
  all: (split;
        [intros v' Hv; inversion Hv; subst; rewrite ?upd_same;
         unfold set_subprocess, set_oldrev; cbn; congruence|]).
  all: (split; [first [symmetry; apply app_nil_r
                      | rewrite <- ?app_assoc; reflexivity]|]).
  all: (split;
        [first [left; reflexivity
               | right; eexists; split;
                 [reflexivity | unfold start_events; cbn; eauto 10]]|]).
  all: intros d (v' & Hst & Hn & Hp); try discriminate.
  all: inversion Hp; subst; eexists; cbn; eauto.
Qed.

Lemma endupdate_ready i blocking m :
  sigint m = None ->
  ready blocking (heap m i) ->
  ((1 <? jobs opts)%Z = true -> exists s, vcs_str (heap m i) = Ok s) ->
  exists m' evs,
    endupdate w opts i blocking m =
      (match end_pure w (heap m i) with
       | Ok b => Ok (Some b)
       | Raise e => Raise e
       end, m') /\
    frame i m m' /\ heap m' i = heap m i /\
    trace m' = (trace m ++ evs)%list /\
    (evs = [] \/
     exists d, getpath (distdir w) (heap m i) = Ok d /\ end_events d evs).
Proof.
  intros Hs Hr Hstr.
  unfold endupdate, poll, end_pure, diffstat, diffstat_pure, getrev,
    getrev_pure, ready in *.
  run_m Hs; try discriminate.
  all: try (destruct Hr; discriminate).
  all: try (destruct (Hstr eq_refl) as [? ?]; discriminate).
  all: eexists; eexists; (split; [reflexivity|]); cbn.
  all: (split; [frame_tac|]).
  all: (split; [reflexivity|]).
  all: first
         [ split; [symmetry; apply app_nil_r | left; reflexivity]
         | split;
           [ rewrite <- ?app_assoc; reflexivity
           | right; eexists; split;
             [reflexivity | unfold end_events; cbn; eauto 10] ] ].
Qed.

Lemma endupdate_running i m p n :
  sigint m = None ->
  subprocess (heap m i) = Some (Some p) ->
  polls_left p = S n ->
  exists m',
    endupdate w opts i false m = (Ok None, m') /\
    frame i m m' /\
    heap m' i =
      set_subprocess (Some (mkPopen n (returncode p) (terminated p)))
        (heap m i) /\
    trace m' = trace m.
Proof.
  intros Hs Hsp Hp. unfold endupdate, poll. run_m Hs; try discriminate.
  all: try congruence.
  inversion Hsp; subst. rewrite Hp in *. inversion Heqn0; subst.
  eexists; split; [reflexivity|]; cbn.
  split; [frame_tac|]. rewrite upd_same. auto.
Qed.

Lemma endupdate_compares i blocking m d old new :
  sigint m = None ->
  ready blocking (heap m i) ->
  ((1 <? jobs opts)%Z = true -> exists s, vcs_str (heap m i) = Ok s) ->
  exited_ok (heap m i) ->
  getpath (distdir w) (heap m i) = Ok d ->
  chdir_ok w d = true ->
  oldrev (heap m i) = Some old ->
  getrev_pure w (heap m i) true d = Ok new ->
  diffstat_pure (heap m i) = Ok tt ->
  fst (endupdate w opts i blocking m) =
    match revcmp (cls (heap m i)) old new with
    | Ok c => Ok (Some (negb c))
    | Raise e => Raise e
    end.
Proof.
  intros Hs Hr Hstr Hex Hp Hc Ho Hn Hd.
  destruct (endupdate_ready i blocking m Hs Hr Hstr) as (m' & evs & E & _).
  rewrite E. cbn. unfold end_pure, exited_ok in *.
  destruct (subprocess (heap m i)) as [[p|]|]; try contradiction.
  - rewrite Hex. cbn. rewrite Hp. cbn. rewrite Hc, Hn. cbn. rewrite Ho. cbn.
    destruct (revcmp (cls (heap m i)) old new) as [[|]|]; cbn; auto.
    now rewrite Hd.
  - cbn. rewrite Hp. cbn. rewrite Hc, Hn. cbn. rewrite Ho. cbn.
    destruct (revcmp (cls (heap m i)) old new) as [[|]|]; cbn; auto.
    now rewrite Hd.
Qed.

End InterpreterFacts.

(** ** Comparing revisions *)

Lemma py_eq_spec a b : py_eq a b = true <-> a = b.
Proof.
  destruct a as [|x], b as [|y]; cbn; try (split; congruence).
  rewrite String.eqb_eq. split; congruence.
Qed.

Lemma py_eq_false a b : py_eq a b = false <-> a <> b.
Proof.
  rewrite <- py_eq_spec. destruct (py_eq a b); split; congruence.
Qed.

(** Digit strings of one length: the order of the strings is the order
    of the numbers they write. *)
Lemma dec_value_from_split s :
  forall acc,
    dec_value_from acc s
    = (acc * 10 ^ N.of_nat (String.length s) + dec_value_from 0 s)%N.
Proof.
  induction s as [|c r IH]; intros acc.
  - cbn. lia.
  - cbn [dec_value_from String.length]. rewrite IH.
    rewrite (IH (10 * 0 + (N_of_ascii c - 48))%N).
    rewrite Nat2N.inj_succ, N.pow_succ_r'. lia.
Qed.

Lemma is_digit_value c :
  is_digit c = true -> (N_of_ascii c - 48 <= 9)%N /\ (48 <= N_of_ascii c)%N.
Proof.
  unfold is_digit, nat_of_ascii. intros H.
  apply andb_true_iff in H as [L U].
  apply Nat.leb_le in L, U. lia.
Qed.

Lemma dec_value_bound s :
  all_digits s = true ->
  (dec_value_from 0 s < 10 ^ N.of_nat (String.length s))%N.
Proof.
  induction s as [|c r IH]; intros H.
  - cbn. lia.
  - cbn [all_digits] in H. apply andb_true_iff in H as [Hc Hr].
    cbn [dec_value_from String.length]. rewrite dec_value_from_split.
    rewrite Nat2N.inj_succ, N.pow_succ_r'.
    specialize (IH Hr). apply is_digit_value in Hc as [Hc _]. nia.
Qed.

Lemma str_ltb_numeric a :
  forall b,
    all_digits a = true -> all_digits b = true ->
    String.length a = String.length b ->
    str_ltb a b = (dec_value a <? dec_value b)%N.
Proof.
  unfold dec_value.
  induction a as [|x a IH]; intros [|y b] Ha Hb Hl; try discriminate.
  - reflexivity.
  - cbn [all_digits] in Ha, Hb.
    apply andb_true_iff in Ha as [Hx Ha], Hb as [Hy Hb].
    cbn [String.length] in Hl. injection Hl as Hl.
    cbn [str_ltb dec_value_from].
    rewrite (dec_value_from_split a), (dec_value_from_split b), <- Hl.
    pose proof (dec_value_bound a Ha) as Ba.
    pose proof (dec_value_bound b Hb) as Bb. rewrite <- Hl in Bb.
    apply is_digit_value in Hx as [Hx Lx], Hy as [Hy Ly].
    unfold nat_of_ascii.
    destruct (Nat.ltb_spec (N.to_nat (N_of_ascii x)) (N.to_nat (N_of_ascii y)))
      as [L|L].
    + symmetry. apply N.ltb_lt. nia.
    + destruct (Nat.ltb_spec (N.to_nat (N_of_ascii y)) (N.to_nat (N_of_ascii x)))
        as [L'|L'].
      * symmetry. apply N.ltb_ge. nia.
      * assert (N_of_ascii x = N_of_ascii y) as E by lia.
        rewrite (IH b Ha Hb Hl), E.
        destruct (N.ltb_spec (dec_value_from 0 a) (dec_value_from 0 b));
          symmetry; [apply N.ltb_lt | apply N.ltb_ge]; nia.
Qed.

(** C4: in a task whose update ended with status 0, the Subversion class
    compares by [old >= new], for every pair of revisions: the task is
    changed ([endupdate] returns [True]) exactly when [old >= new] does
    not hold, where [>=] is that of Python on the two strings, which for
    two numerals of one length is that of the numbers, and raises
    [TypeError] when a revision is [None].  So from revision 5 to 5 and
    from 5 to 3 the task is unchanged, from 3 to 5 it is changed.  For
    the two other classes the task is unchanged exactly when the two
    revisions are equal. *)
Theorem svn_compares_by_ge_others_by_equality :
  forall (w : world) (opts : options) (i : nat) (blocking : bool)
         (m : machine) (d : string) (old new : pyval),
    sigint m = None ->
    ready blocking (heap m i) ->
    ((1 <? jobs opts)%Z = true -> exists s, vcs_str (heap m i) = Ok s) ->
    exited_ok (heap m i) ->
    getpath (distdir w) (heap m i) = Ok d ->
    chdir_ok w d = true ->
    oldrev (heap m i) = Some old ->
    getrev_pure w (heap m i) true d = Ok new ->
    diffstat_pure (heap m i) = Ok tt ->
    let r := fst (endupdate w opts i blocking m) in
    (cls (heap m i) = SvnSupport ->
       (forall so sn, old = PStr so -> new = PStr sn ->
          r = Ok (Some (negb (str_geb so sn))) /\
          (all_digits so = true -> all_digits sn = true ->
           String.length so = String.length sn ->
           str_geb so sn = (dec_value sn <=? dec_value so)%N)) /\
       (old = PNone \/ new = PNone -> r = Raise TypeError) /\
       (old = PStr "5" -> new = PStr "5" -> r = Ok (Some false)) /\
       (old = PStr "5" -> new = PStr "3" -> r = Ok (Some false)) /\
       (old = PStr "3" -> new = PStr "5" -> r = Ok (Some true))) /\
    (cls (heap m i) <> SvnSupport ->
       revcmp (cls (heap m i)) old new = Ok (py_eq old new) /\
       (old = new -> r = Ok (Some false)) /\
       (old <> new -> r = Ok (Some true))).
Proof.
  intros w opts i blocking m d old new Hs Hr Hstr Hex Hp Hc Ho Hn Hd r.
  subst r.
  rewrite (endupdate_compares w opts i blocking m d old new) by assumption.
  split.
  - intros ->. split; [|split].
    + intros so sn -> ->. split; [reflexivity|].
      intros Da Db Hl. unfold str_geb.
      rewrite (str_ltb_numeric so sn Da Db Hl), N.ltb_antisym.
      apply negb_involutive.
    + intros [->| ->]; [reflexivity|]. destruct old; reflexivity.
    + repeat split; intros -> ->; reflexivity.
  - intros Hcls.
    assert (E : revcmp (cls (heap m i)) old new = Ok (py_eq old new))
      by (destruct (cls (heap m i)); [reflexivity|reflexivity|congruence]).
    rewrite E. repeat split.
    + intros H. apply py_eq_spec in H. now rewrite H.
    + intros H. apply py_eq_false in H. now rewrite H.
Qed.

Lemma svn_compares_by_ge_others_by_equality_witness :
  fst (endupdate (Sample.world_at "5") Sample.one_job 0 true
         (Sample.holding (Sample.svn_started "5"))) = Ok (Some false).
Proof.
  destruct (svn_compares_by_ge_others_by_equality
              (Sample.world_at "5") Sample.one_job 0 true
              (Sample.holding (Sample.svn_started "5")) "/wc"
              (PStr "5") (PStr "5")) as [H _]; [try reflexivity .. | ].
  - cbn. now left.
  - intros H. discriminate H.
  - destruct (H eq_refl) as (_ & _ & H55 & _). exact (H55 eq_refl eq_refl).
Defined.

(** [str_ltb] is the lexicographic order by character code: either the
    first string is a proper prefix of the second, or at the first place
    where they differ the first has the smaller code. *)
Lemma str_ltb_lexicographic a b :
  str_ltb a b = true <->
  exists p,
    (exists c r, a = p /\ b = p ++ String c r) \/
    (exists x y a' b',
        a = p ++ String x a' /\ b = p ++ String y b' /\
        (nat_of_ascii x < nat_of_ascii y)%nat).
Proof.
  revert b. induction a as [|x a IH]; intros [|y b]; cbn -[Nat.ltb].
  - split; [discriminate|].
    intros (p & [(c & r & <- & H) | (x & y & a' & b' & H & _)]);
      [discriminate H | destruct p; discriminate H].
  - split; [|reflexivity]. intros _. exists "". left. now exists y, b.
  - split; [discriminate|].
    intros (p & [(c & r & _ & H) | (x' & y & a' & b' & _ & H & _)]);
      destruct p; discriminate H.
  - destruct (Nat.ltb_spec (nat_of_ascii x) (nat_of_ascii y)) as [L|L].
    + split; [|reflexivity]. intros _. exists "". right.
      now exists x, y, a, b.
    + destruct (Nat.ltb_spec (nat_of_ascii y) (nat_of_ascii x)) as [L'|L'].
      * split; [discriminate|].
        intros (p & [(c & r & <- & H) | (x' & y' & a' & b' & Ha & Hb & Hl)]).
        -- cbn in H. inversion H; subst. lia.
        -- destruct p as [|z p]; cbn in Ha, Hb; inversion Ha; inversion Hb;
             subst; lia.
      * assert (x = y) as ->.
        { rewrite <- (ascii_nat_embedding x), <- (ascii_nat_embedding y).
          f_equal. lia. }
        rewrite IH. split.
        -- intros (p & [(c & r & -> & ->) | (x' & y' & a' & b' & -> & -> & Hl)]);
             exists (String y p); [left | right]; cbn; eauto 10.
        -- intros (p & [(c & r & <- & H) | (x' & y' & a' & b' & Ha & Hb & Hl)]).
           ++ cbn in H. inversion H. exists a. left. eauto.
           ++ destruct p as [|z p]; cbn in Ha, Hb; inversion Ha; inversion Hb;
                subst; [lia|].
              exists p. right. eauto 10.
Qed.

Lemma revre_line_digits dec l d :
  revre_line dec l = Some d -> all_decimal dec d = true /\ d <> "".
Proof.
  unfold revre_line. destruct (strip_prefix _ l) as [s|]; [|discriminate].
  destruct (str_truthy s) eqn:T; [|discriminate].
  destruct (all_decimal dec s) eqn:A; [|discriminate].
  cbn. intros H. inversion H; subst. split; [assumption|].
  intros ->. discriminate T.
Qed.

Lemma revre_search_digits dec out d :
  revre_search dec out = Some d -> all_decimal dec d = true /\ d <> "".
Proof.
  unfold revre_search. induction (py_split newline out) as [|l r IH]; cbn.
  - discriminate.
  - destruct (revre_line dec l) eqn:E.
    + intros H. inversion H; subst. eapply revre_line_digits; eauto.
    + assumption.
Qed.

(** C10, as the code has it: what [getrev] reads from the output of
    [svn info] is a non-empty string of decimal digits, while the old
    revision is whatever string [oldrev] holds; the task is changed
    exactly when the old string is below the new one in the
    lexicographic order by code point, whatever numbers the two strings
    write, and unchanged otherwise. *)
Theorem svn_compares_revisions_as_strings :
  forall (w : world) (opts : options) (i : nat) (blocking : bool)
         (m : machine) (d old new : string),
    sigint m = None ->
    ready blocking (heap m i) ->
    ((1 <? jobs opts)%Z = true -> exists s, vcs_str (heap m i) = Ok s) ->
    exited_ok (heap m i) ->
    getpath (distdir w) (heap m i) = Ok d ->
    chdir_ok w d = true ->
    cls (heap m i) = SvnSupport ->
    oldrev (heap m i) = Some (PStr old) ->
    getrev_pure w (heap m i) true d = Ok (PStr new) ->
    (all_decimal (decimal w) new = true /\ new <> "") /\
    fst (endupdate w opts i blocking m) = Ok (Some (str_ltb old new)) /\
    (str_ltb old new = true <->
     exists p,
       (exists c r, old = p /\ new = p ++ String c r) \/
       (exists x y a' b',
           old = p ++ String x a' /\ new = p ++ String y b' /\
           (nat_of_ascii x < nat_of_ascii y)%nat)).
Proof.
  intros w opts i blocking m d old new Hs Hr Hstr Hex Hp Hc Hcls Ho Hn.
  split; [|split].
  - unfold getrev_pure in Hn. rewrite Hcls in Hn.
    destruct (rev_answer w true d) as [o|]; cbn in Hn; [|discriminate].
    destruct (revre_search (decimal w) o) as [s|] eqn:E; [|discriminate].
    inversion Hn; subst. eapply revre_search_digits; eauto.
  - rewrite (endupdate_compares w opts i blocking m d (PStr old) (PStr new))
      by (try assumption; unfold diffstat_pure; now rewrite Hcls).
    rewrite Hcls. cbn. unfold str_geb. now rewrite negb_involutive.
  - apply str_ltb_lexicographic.
Qed.

Lemma svn_compares_revisions_as_strings_witness :
  (dec_value "9" < dec_value "10")%N /\
  fst (endupdate (Sample.world_at "10") Sample.one_job 0 true
         (Sample.holding (Sample.svn_started "9"))) = Ok (Some false).
Proof.
  split; [reflexivity|].
  destruct (svn_compares_revisions_as_strings
              (Sample.world_at "10") Sample.one_job 0 true
              (Sample.holding (Sample.svn_started "9")) "/wc" "9" "10")
    as (_ & H & _); [try reflexivity .. | ].
  - cbn. now left.
  - intros H. discriminate H.
  - exact H.
Defined.

(** C10 as it is stated fails: the saved revision is the value of
    [ESVN_WC_REVISION] as the environment has it.  Here it is [r7], no
    string of decimal digits; it is kept as the old revision, and
    compared as a string with the new revision 10 the task is unchanged. *)
Lemma svn_saved_revision_is_taken_as_it_is :
  getsavedrev (Sample.svn_fresh "r7") = Ok (PStr "r7") /\
  all_decimal (decimal (Sample.world_at "10")) "r7" = false /\
  oldrev (heap (snd (startupdate (Sample.world_at "10") Sample.one_job 0
                       (Sample.holding (Sample.svn_fresh "r7")))) 0)
    = Some (PStr "r7") /\
  fst (endupdate (Sample.world_at "10") Sample.one_job 0 true
         (snd (startupdate (Sample.world_at "10") Sample.one_job 0
                 (Sample.holding (Sample.svn_fresh "r7")))))
    = Ok (Some false).
Proof. repeat split. Qed.

(** ** Starting a task *)

Lemma rbind_ok {A B} (m : result A) (k : A -> result B) b :
  rbind m k = Ok b -> exists a, m = Ok a /\ k a = Ok b.
Proof. destruct m; cbn; [eauto | discriminate]. Qed.

(** A start that succeeds: what had to go well, and the instance it
    leaves. *)
Lemma start_pure_ok w opts v v' :
  start_pure w opts v = Ok v' ->
  exists s d r,
    vcs_str v = Ok s /\ getpath (distdir w) v = Ok d /\
    chdir_ok w d = true /\ oldrev_pure w opts v d = Ok r /\
    (network opts = true -> exists c, getupdatecmd v = Ok c) /\
    v' = mkVcs (cls v) (cpv v) (env v) (Some r)
           (Some (if network opts
                  then Some (mkPopen (child_polls w d) (child_status w d) false)
                  else None)).
Proof.
  unfold start_pure. intros H.
  apply rbind_ok in H as (s & Hs & H).
  apply rbind_ok in H as (d & Hd & H).
  destruct (chdir_ok w d) eqn:Hc; [|discriminate].
  apply rbind_ok in H as (r & Hr & H).
  exists s, d, r. repeat (split; [assumption|]).
  destruct (network opts).
  - apply rbind_ok in H as (c & Hcmd & H). inversion H. split; eauto.
  - inversion H. split; [discriminate|reflexivity].
Qed.

Lemma start_pure_fields w opts v v' :
  start_pure w opts v = Ok v' ->
  cls v' = cls v /\ cpv v' = cpv v /\ env v' = env v.
Proof.
  intros H. apply start_pure_ok in H as (s & d & r & _ & _ & _ & _ & _ & ->).
  auto.
Qed.

(** The revision kept in [oldrev]: the saved one when [--local-rev] is
    not set and there is a saved one, the one of the working copy
    otherwise. *)
Lemma oldrev_pure_cases w opts v d r :
  oldrev_pure w opts v d = Ok r ->
  (local_rev opts = false /\ getsavedrev v = Ok r /\ truthy r = true) \/
  ((local_rev opts = true \/
    exists s, getsavedrev v = Ok s /\ truthy s = false) /\
   getrev_pure w v false d = Ok r).
Proof.
  unfold oldrev_pure. destruct (local_rev opts); cbn.
  - intros H. right. split; [now left | assumption].
  - intros H. apply rbind_ok in H as (a & Ha & H).
    destruct (truthy a) eqn:T.
    + inversion H; subst. left. auto.
    + right. split; [right; eauto | assumption].
Qed.

Ltac run_start Hs :=
  repeat (first [ progress unfold_ops | progress cbn
                | rewrite Hs | break_match ]).

(** What a start that succeeds adds to the trace: the revision query,
    unless the saved revision is taken, and then the update command when
    the network is used. *)
Lemma startupdate_trace w opts i m :
  sigint m = None ->
  fst (startupdate w opts i m) = Ok tt ->
  exists d query,
    getpath (distdir w) (heap m i) = Ok d /\
    ((query = [] /\ local_rev opts = false /\
      exists s, getsavedrev (heap m i) = Ok s /\ truthy s = true) \/
     (query = [RevQuery false d] /\
      (local_rev opts = true \/
       exists s, getsavedrev (heap m i) = Ok s /\ truthy s = false))) /\
    (network opts = true ->
     exists cmd,
       getupdatecmd (heap m i) = Ok cmd /\
       trace (snd (startupdate w opts i m))
       = (trace m ++ query ++ [Popen d cmd])%list /\
       subprocess (heap (snd (startupdate w opts i m)) i)
       = Some (Some (mkPopen (child_polls w d) (child_status w d) false))) /\
    (network opts = false ->
     trace (snd (startupdate w opts i m)) = (trace m ++ query)%list).
Proof.
  intros Hs. unfold startupdate, getrev.
  destruct (local_rev opts) eqn:L.
  all: run_start Hs; intros H; try discriminate H.
  all: eexists; eexists; (split; [reflexivity|]).
  all: (split; [first [ left; split; [reflexivity|]; split; [reflexivity|];
                         eexists; split; [reflexivity|assumption]
                      | right; split; [reflexivity|];
                        first [ left; reflexivity
                              | right; eexists; split; [reflexivity|assumption] ] ]|]).
  all: split; intros Hn; try discriminate Hn.
  all: try (eexists; split; [reflexivity|]; split;
            [rewrite <- ?app_assoc; reflexivity|]).
  all: unfold upd; rewrite ?Nat.eqb_refl; cbn; rewrite ?Nat.eqb_refl;
       rewrite <- ?app_assoc; try rewrite app_nil_r; reflexivity.
Qed.

(** C9, as the code has it: a start that succeeds keeps in [oldrev] the
    saved revision when [--local-rev] is not set and the class has a
    non-empty saved revision, and the revision of the working copy in
    every other case, asking the working copy only then.  When the
    network is used it then runs one command in the directory of the
    task, the update command of the instance, and the instance gets the
    child of that command; when the network is not used it runs no
    command and the instance has no child, and [endupdate] returns what
    it returns for a child that has ended with status 0. *)
Theorem start_keeps_revision_and_spawns :
  forall (w : world) (opts : options) (i : nat) (m : machine),
    sigint m = None ->
    fst (startupdate w opts i m) = Ok tt ->
    let v := heap m i in
    let m' := snd (startupdate w opts i m) in
    let v' := heap m' i in
    exists d r,
      getpath (distdir w) v = Ok d /\ oldrev v' = Some r /\
      ((local_rev opts = false /\ getsavedrev v = Ok r /\ truthy r = true) \/
       ((local_rev opts = true \/
         exists s, getsavedrev v = Ok s /\ truthy s = false) /\
        getrev_pure w v false d = Ok r)) /\
      (network opts = true <-> exists p, subprocess v' = Some (Some p)) /\
      (network opts = false <-> subprocess v' = Some None) /\
      (network opts = false ->
       forall blocking,
         fst (endupdate w opts i blocking m') =
         fst (endupdate w opts i blocking
                (set_heap (upd (heap m') i
                             (set_subprocess (Some (mkPopen 0 0 false)) v'))
                          m'))) /\
      exists query,
        ((query = [] /\ local_rev opts = false /\
          exists s, getsavedrev v = Ok s /\ truthy s = true) \/
         (query = [RevQuery false d] /\
          (local_rev opts = true \/
           exists s, getsavedrev v = Ok s /\ truthy s = false))) /\
        (network opts = true ->
         exists cmd,
           getupdatecmd v = Ok cmd /\
           trace m' = (trace m ++ query ++ [Popen d cmd])%list /\
           subprocess v'
           = Some (Some (mkPopen (child_polls w d) (child_status w d) false))) /\
        (network opts = false -> trace m' = (trace m ++ query)%list).
Proof.
  intros w opts i m Hs Hok. cbv zeta.
  destruct (startupdate_trace w opts i m Hs Hok)
    as (d0 & q & Hd0 & Hq & Hnet & Hoff).
  destruct (startupdate_spec w opts i m Hs) as (m1 & evs & E & F & Hv & _).
  rewrite E in *. cbn [fst snd] in *.
  destruct (start_pure w opts (heap m i)) as [v1|] eqn:Hst; [|discriminate].
  specialize (Hv v1 eq_refl).
  destruct (start_pure_ok _ _ _ _ Hst)
    as (s & d & r & Hstr & Hd & Hc & Hr & Hcmd & Hv1).
  assert (d0 = d) as -> by congruence.
  assert (Hstr1 : vcs_str v1 = Ok s)
    by (rewrite Hv1; unfold vcs_str in *; exact Hstr).
  exists d, r. split; [assumption|]. rewrite Hv in *.
  split; [now rewrite Hv1|].
  split; [now apply oldrev_pure_cases|].
  assert (Hsp : subprocess v1 =
                Some (if network opts
                      then Some (mkPopen (child_polls w d) (child_status w d) false)
                      else None)) by now rewrite Hv1.
  rewrite Hsp in *.
  destruct (network opts) eqn:Hn.
  - split; [split; eauto|]. split; [split; discriminate|].
    split; [discriminate|].
    exists q. split; [exact Hq|]. split; [|discriminate].
    intros _. destruct (Hnet eq_refl) as (cmd & Hc1 & Ht & _).
    exists cmd. split; [exact Hc1|]. split; [exact Ht|reflexivity].
  - split; [split; [discriminate|intros (p & Hp); discriminate]|].
    split; [split; reflexivity|].
    split.
    + intros _ blocking.
      assert (Hsig : sigint m1 = None).
      { destruct F as (_ & _ & _ & _ & _ & _ & Hsg & _). congruence. }
      destruct (endupdate_ready w opts i blocking m1 Hsig) as (ma & ea & Ea & _).
      { unfold ready. now rewrite Hv, Hsp. }
      { intros _. exists s. now rewrite Hv. }
      set (m2 := set_heap _ m1).
      destruct (endupdate_ready w opts i blocking m2) as (mb & eb & Eb & _).
      { exact Hsig. }
      { unfold ready, m2. cbn. rewrite upd_same. cbn. now right. }
      { intros _. exists s. unfold m2. cbn. rewrite upd_same.
        unfold vcs_str in *. exact Hstr1. }
      rewrite Ea, Eb. cbn. unfold m2. cbn. rewrite upd_same, Hv.
      unfold end_pure. cbn. rewrite Hsp. reflexivity.
    + exists q. split; [exact Hq|]. split; [discriminate|].
      intros _. exact (Hoff eq_refl).
Qed.

Lemma start_keeps_revision_and_spawns_witness :
  exists d r,
    getpath "/distfiles" (Sample.svn_fresh "5") = Ok d /\
    oldrev (heap (snd (startupdate (Sample.world_at "7") Sample.one_job 0
                         (Sample.holding (Sample.svn_fresh "5")))) 0)
      = Some r.
Proof.
  destruct (start_keeps_revision_and_spawns
              (Sample.world_at "7") Sample.one_job 0
              (Sample.holding (Sample.svn_fresh "5")) eq_refl eq_refl)
    as (d & r & Hd & Ho & _).
  exists d, r. split; [exact Hd | exact Ho].
Defined.

(** C9 as it is stated fails: [--local-rev] is not set, yet the old
    revision of a Mercurial task, which has no saved revision, is the one
    [hg tip] prints. *)
Lemma start_reads_working_copy_without_saved_revision :
  local_rev Sample.one_job = false /\
  getsavedrev Sample.hg_fresh = Ok PNone /\
  oldrev (heap (snd (startupdate (Sample.world_saying "0a1b2c")
                       Sample.one_job 0 (Sample.holding Sample.hg_fresh))) 0)
    = Some (PStr "0a1b2c").
Proof. repeat split. Qed.

(** ** Enumeration *)

Section EnumerationFacts.

Variable dd : string.
Variable opts : options.

Lemma enum_class_no_match p c rb :
  vcs_match c (p_inherits p) = false -> enum_class dd opts p c rb = Ok rb.
Proof. intros H. unfold enum_class. now rewrite H. Qed.

(** When the constructor of the first matching class raises, nothing has
    been put into [rebuilds] for the package. *)
Lemma enum_classes_first_raises p cs rb c others e :
  matching p cs = c :: others ->
  construct p c = Raise e ->
  enum_classes dd opts p cs rb = (Raise e, rb).
Proof.
  unfold matching, construct. revert rb.
  induction cs as [|c' cs IH]; intros rb Hm Hc; cbn in *; [discriminate|].
  destruct (vcs_match c' (p_inherits p)) eqn:M.
  - inversion Hm; subst. unfold enum_class. rewrite M, Hc. reflexivity.
  - rewrite enum_class_no_match by assumption. now apply IH.
Qed.

Lemma enumerate_app db1 db2 :
  enumerate dd opts (db1 ++ db2) =
  fold_left (fun s p => enum_package dd opts p s) db2 (enumerate dd opts db1).
Proof. unfold enumerate. now rewrite fold_left_app. Qed.

End EnumerationFacts.

Lemma missingvars_raises e req x :
  missingvars e req = Raise x -> x = KeyError.
Proof.
  induction req as [|r req IH]; cbn; [discriminate|].
  unfold getitem at 1. destruct (lookup e r); cbn; [|congruence].
  destruct (missingvars e req); cbn; [discriminate|].
  intros H. inversion H; subst. now apply IH.
Qed.

(** A required variable that is absent or empty is noticed: [KeyError]
    out of the dictionary, or a list of missing variables that is not
    empty. *)
Lemma missingvars_detects e req v :
  In v req -> lookup e v = None \/ lookup e v = Some "" ->
  match missingvars e req with
  | Ok m => m <> []
  | Raise x => x = KeyError
  end.
Proof.
  intros Hin Hv.
  destruct (missingvars e req) as [m|x] eqn:E;
    [|now apply missingvars_raises in E].
  revert m E. induction req as [|r req IH]; intros m E; [contradiction|].
  cbn in E. unfold getitem at 1 in E.
  destruct (lookup e r) as [y|] eqn:L; cbn in E; [|discriminate].
  destruct (missingvars e req) as [m'|] eqn:E'; cbn in E; [|discriminate].
  inversion E; subst; clear E.
  destruct Hin as [-> | Hin].
  - destruct Hv as [Hv | Hv]; [congruence|]. rewrite L in Hv.
    inversion Hv; subst. cbn. discriminate.
  - specialize (IH Hin m' eq_refl).
    destruct (String.eqb y ""); [discriminate|assumption].
Qed.

Lemma init_raises_on_missing c p output v :
  In v (reqenv c) ->
  lookup (bashparse (reqenv c ++ optenv c) output) v = None \/
  lookup (bashparse (reqenv c ++ optenv c) output) v = Some "" ->
  VCSSupport_init c p output = Raise KeyError /\
  vcs_init c p output = Raise KeyError.
Proof.
  intros Hin Hv.
  assert (H : VCSSupport_init c p output = Raise KeyError).
  { unfold VCSSupport_init.
    pose proof (missingvars_detects _ _ _ Hin Hv) as H.
    destruct (missingvars _ (reqenv c)) as [m|x]; cbn.
    - destruct m; [congruence|reflexivity].
    - now subst. }
  split; [assumption|]. unfold vcs_init. now rewrite H.
Qed.

Section EnumerationSteps.

Variable dd : string.
Variable opts : options.

(** With one matching class, [for vcs in vcslf] is the body for that
    class. *)
Lemma enum_classes_single p cs rb c :
  matching p cs = [c] ->
  enum_classes dd opts p cs rb =
    match enum_class dd opts p c rb with
    | Ok rb' => (Ok tt, rb')
    | Raise e => (Raise e, rb)
    end.
Proof.
  unfold matching. revert rb.
  induction cs as [|c' cs IH]; intros rb Hm; cbn in *; [discriminate|].
  destruct (vcs_match c' (p_inherits p)) eqn:M.
  - inversion Hm as [[E Hrest]]; subst.
    destruct (enum_class dd opts p c rb) as [rb'|e]; [|reflexivity].
    clear IH Hm. revert rb'. induction cs as [|c2 cs IH2]; intros rb'; cbn;
      [reflexivity|].
    cbn in Hrest. destruct (vcs_match c2 (p_inherits p)) eqn:M2;
      [discriminate|].
    rewrite enum_class_no_match by assumption. now apply IH2.
  - rewrite enum_class_no_match by assumption. now apply IH.
Qed.

Lemma enum_class_accepts p c rb v d :
  vcs_match c (p_inherits p) = true ->
  construct p c = Ok v -> wanted opts v -> getpath dd v = Ok d ->
  enum_class dd opts p c rb =
    match rebuilds_get rb d with
    | None => Ok (rb ++ [(d, v)])%list
    | Some old => merged <~ append old v ;; Ok (rebuilds_put rb d merged)
    end.
Proof.
  unfold construct, wanted, enum_class. intros M Hc Hw Hp.
  rewrite M, Hc. cbn.
  destruct (network opts); cbn; [now rewrite Hp|].
  destruct Hw as [Hw | (r & Hr & Ht)]; [discriminate|].
  rewrite Hr. cbn. rewrite Ht. now rewrite Hp.
Qed.

End EnumerationSteps.

(** ** Instances that differ by polls only *)

Lemma sim_refl v : sim v v.
Proof.
  unfold sim. repeat split; auto.
  destruct (subprocess v) as [[p|]|]; auto.
Qed.

Lemma sim_trans a b c : sim a b -> sim b c -> sim a c.
Proof.
  unfold sim. intros (A1 & A2 & A3 & A4 & A5) (B1 & B2 & B3 & B4 & B5).
  repeat split; try congruence.
  destruct (subprocess a) as [[p|]|], (subprocess b) as [[q|]|],
    (subprocess c) as [[r|]|]; try congruence; try discriminate.
  destruct A5, B5. split; [congruence | lia].
Qed.

Lemma hsim_refl m : hsim m m.
Proof. intros j. apply sim_refl. Qed.

Lemma hsim_trans a b c : hsim a b -> hsim b c -> hsim a c.
Proof. intros H1 H2 j. eapply sim_trans; eauto. Qed.

Section SimFacts.

Variable w : world.
Variable opts : options.

Lemma start_pure_ext v v' :
  cls v' = cls v -> cpv v' = cpv v -> env v' = env v ->
  start_pure w opts v' = start_pure w opts v.
Proof.
  intros Hc Hp He.
  unfold start_pure, oldrev_pure, getrev_pure, vcs_str, getpath, getsavedrev,
    getupdatecmd.
  rewrite Hc, Hp, He. reflexivity.
Qed.

Lemma sim_start v v' : sim v v' -> start_pure w opts v' = start_pure w opts v.
Proof. intros (Hc & Hp & He & _). now apply start_pure_ext. Qed.

Lemma sim_judge v v' : sim v v' -> judge w opts v' = judge w opts v.
Proof. intros H. unfold judge. now rewrite (sim_start _ _ H). Qed.

Lemma sim_pending_polls v v' :
  sim v v' -> pending_polls w opts v' = pending_polls w opts v.
Proof. intros H. unfold pending_polls. now rewrite (sim_start _ _ H). Qed.

Lemma sim_end v v' : sim v v' -> end_pure w v' = end_pure w v.
Proof.
  intros (Hc & Hp & He & Ho & Hs).
  unfold end_pure, getrev_pure, getpath, diffstat_pure.
  rewrite Hc, He, Ho.
  destruct (subprocess v) as [[p|]|], (subprocess v') as [[q|]|];
    try discriminate; try reflexivity.
  destruct Hs as [-> _]. reflexivity.
Qed.

Lemma sim_judge_started v v' :
  sim v v' -> judge_started w v' = judge_started w v.
Proof. intros H. unfold judge_started. now rewrite (sim_end _ _ H). Qed.

Lemma sim_polls v v' : sim v v' -> (polls_of v' <= polls_of v)%nat.
Proof.
  intros (_ & _ & _ & _ & Hs). unfold polls_of.
  destruct (subprocess v) as [[p|]|], (subprocess v') as [[q|]|];
    try discriminate; try lia.
  destruct Hs; lia.
Qed.

Lemma sim_running v v' : sim v v' -> running v -> running v'.
Proof.
  intros (Hc & Hp & He & Ho & Hs) [(s & Hstr) (sp & Hsp)]. split.
  - exists s. unfold vcs_str in *. now rewrite Hc, He.
  - rewrite Hsp in Hs.
    destruct sp as [p|], (subprocess v') as [[q|]|]; try discriminate; eauto.
Qed.

Lemma sim_cpv v v' : sim v v' -> cpv v' = cpv v.
Proof. now intros (_ & Hp & _). Qed.

(** The verdict on an instance that has not been started is the verdict
    on what [startupdate] makes of it. *)
Lemma judge_started_of_start v v' :
  start_pure w opts v = Ok v' -> judge_started w v' = judge w opts v.
Proof. intros H. unfold judge. now rewrite H. Qed.

Lemma start_pure_running v v' : start_pure w opts v = Ok v' -> running v'.
Proof.
  intros H. destruct (start_pure_ok _ _ _ _ H)
    as (s & d & r & Hs & _ & _ & _ & _ & ->).
  split; [exists s; unfold vcs_str in *; exact Hs | cbn; eauto].
Qed.

End SimFacts.

(** No exception of [startupdate] or [endupdate] is [KeyboardInterrupt]
    unless a signal comes. *)
Lemma getitem_exn d k e : getitem d k = Raise e -> is_Exception e = true.
Proof. unfold getitem. destruct (lookup d k); inversion 1; reflexivity. Qed.

Ltac pure_exn :=
  repeat match goal with
         | H : rbind ?m _ = Raise _ |- _ =>
             let E := fresh "E" in
             destruct m eqn:E; cbn in H;
             [| inversion H; subst; clear H]
         | H : Raise _ = Raise _ |- _ => inversion H; subst; clear H
         | H : Ok _ = Raise _ |- _ => discriminate H
         | H : getitem _ _ = Raise _ |- _ => exact (getitem_exn _ _ _ H)
         | H : (if ?b then _ else _) = Raise _ |- _ => destruct b eqn:?
         | H : match ?x with _ => _ end = Raise _ |- _ => destruct x eqn:?
         end;
  try reflexivity.

Lemma start_pure_exn w opts v e :
  start_pure w opts v = Raise e -> is_Exception e = true.
Proof.
  unfold start_pure, oldrev_pure, getrev_pure, vcs_str, getpath, getsavedrev,
    getupdatecmd, rev_answer, call_decode.
  intros H. pure_exn.
Qed.

Lemma end_pure_exn w v e :
  end_pure w v = Raise e -> is_Exception e = true.
Proof.
  unfold end_pure, getrev_pure, getpath, diffstat_pure, revcmp, py_ge,
    rev_answer, call_decode.
  intros H. pure_exn.
Qed.

(** ** The polling loop *)

Lemma frame_hsim i m m0 m' :
  frame i m0 m' -> (forall j, heap m0 j = heap m j) ->
  sim (heap m i) (heap m' i) -> hsim m m'.
Proof.
  intros F H0 S j. destruct (Nat.eq_dec j i) as [-> | N]; [assumption|].
  destruct F as (_ & _ & _ & _ & _ & _ & _ & Hh & _).
  rewrite (Hh j N), H0. apply sim_refl.
Qed.

Section PollFacts.

Variable w : world.
Variable opts : options.

Lemma sim_getpath dd v v' : sim v v' -> getpath dd v' = getpath dd v.
Proof.
  intros (Hc & _ & He & _). unfold getpath. now rewrite Hc, He.
Qed.

Lemma poll_all_spec ps :
  forall m,
    sigint m = None ->
    (forall i, In i ps -> running (heap m i)) ->
    exists m',
      sigint m' = None /\ items m' = items m /\
      packages m' = packages m /\ erraneous m' = erraneous m /\
      hsim m m' /\
      (exists evs,
          trace m' = (trace m ++ evs)%list /\
          (evs = [] \/
           exists d, getpath (distdir w) (heap m (cur m')) = Ok d /\
                     end_events d evs)) /\
      ((poll_all w opts ps m = (Ok tt, m') /\
        processes m' = processes m /\
        match ps with
        | [] => m' = m
        | i :: _ =>
            ret m' = None /\
            (polls_of (heap m' i) < polls_of (heap m i))%nat /\
            trace m' = trace m
        end) \/
       (exists i b,
           In i ps /\ poll_all w opts ps m = (Ok tt, m') /\
           processes m' = remove_first i (processes m) /\
           ret m' = Some b /\ cur m' = i /\
           end_pure w (heap m i) = Ok b) \/
       (exists i e,
           In i ps /\ poll_all w opts ps m = (Raise e, m') /\
           processes m' = processes m /\ cur m' = i /\
           end_pure w (heap m i) = Raise e)).
Proof.
  induction ps as [|v rest IH]; intros m Hs Hrun.
  - exists m. split; [exact Hs|]. do 3 (split; [reflexivity|]).
    split; [apply hsim_refl|].
    split; [exists []; split; [now rewrite app_nil_r | now left]|].
    left. auto.
  - destruct (Hrun v (or_introl eq_refl)) as [Hstr (sp & Hsp)].
    assert (Hready :
              ready false (heap (set_cur v m) v) \/
              exists p n, subprocess (heap (set_cur v m) v) = Some (Some p) /\
                          polls_left p = S n).
    { unfold ready. cbn. rewrite Hsp. destruct sp as [p|]; [|now left].
      destruct (polls_left p) eqn:P; [left; now right | right; eauto]. }
    destruct Hready as [Hready | (p & n & Hp & Hn)].
    + destruct (endupdate_ready w opts v false (set_cur v m) Hs Hready)
        as (m1 & evs & E & F & Hh & Htr & Hevs); [intros _; exact Hstr|].
      assert (Epoll :
                poll_all w opts (v :: rest) m =
                match end_pure w (heap m v) with
                | Ok b =>
                    (Ok tt, set_processes (remove_first v (processes m1))
                              (set_ret (Some b) m1))
                | Raise e => (Raise e, m1)
                end).
      { cbn [poll_all]. unfold mbind, modify. rewrite E. cbn.
        destruct (end_pure w (heap m v)); reflexivity. }
      assert (HS : hsim m m1).
      { apply (frame_hsim v m (set_cur v m)); [exact F|reflexivity|].
        rewrite Hh. apply sim_refl. }
      destruct F as (Fi & Fp & Fk & Fe & Fr & Fc & Fs & _).
      cbn in Fi, Fp, Fk, Fe, Fr, Fc, Fs, Htr, Hevs.
      rewrite Epoll.
      destruct (end_pure w (heap m v)) as [b|e] eqn:Ee.
      * exists (set_processes (remove_first v (processes m1))
                  (set_ret (Some b) m1)).
        cbn. do 5 (split; [first [congruence | exact HS]|]).
        split; [exists evs; rewrite Fc; auto|].
        right. left. exists v, b. repeat split; auto.
        -- now rewrite Fp.
      * exists m1. do 5 (split; [first [congruence | exact HS]|]).
        split; [exists evs; rewrite Fc; auto|].
        right. right. exists v, e. repeat split; auto. now left.
    + destruct (endupdate_running w opts v (set_cur v m) p n Hs Hp Hn)
        as (m1 & E & F & Hh & Htr).
      assert (Epoll :
                poll_all w opts (v :: rest) m =
                poll_all w opts rest (set_ret None m1)).
      { cbn [poll_all]. unfold mbind, modify. rewrite E. reflexivity. }
      assert (HS : hsim m m1).
      { apply (frame_hsim v m (set_cur v m)); [exact F|reflexivity|].
        rewrite Hh.
        unfold sim, set_subprocess. cbn in *. rewrite Hp. cbn.
        repeat split; auto. lia. }
      destruct F as (Fi & Fp & Fk & Fe & Fr & Fc & Fs & _).
      cbn in Fi, Fp, Fk, Fe, Fr, Fc, Fs, Hp, Hh, Htr.
      destruct (IH (set_ret None m1))
        as (m' & Hs' & Hi' & Hk' & He' & HS' & (evs & Htr' & Hevs) & Hcases).
      { cbn. congruence. }
      { intros i Hi. apply (sim_running _ _ (HS i)). apply Hrun. now right. }
      cbn in Hi', Hk', He', Htr', Hevs.
      exists m'.
      assert (HSS : hsim m m') by (eapply hsim_trans; [exact HS | exact HS']).
      do 5 (split; [first [congruence | exact HSS]|]).
      split.
      { exists evs. split; [congruence|].
        destruct Hevs as [-> | (d & Hd & Hev)]; [now left | right].
        exists d. split; [|exact Hev].
        rewrite <- (sim_getpath _ _ _ (HS (cur m'))). exact Hd. }
      assert (Hlt : (polls_of (heap m' v) < polls_of (heap m v))%nat).
      { pose proof (sim_polls _ _ (HS' v)) as L. cbn in L.
        assert (polls_of (heap m1 v) = n) as Pn by (rewrite Hh; reflexivity).
        assert (polls_of (heap m v) = S n) as Pm
            by (unfold polls_of; now rewrite Hp).
        lia. }
      rewrite Epoll.
      destruct Hcases
        as [(Ep & Hpr & Hm)
           | [(i & b & Hin & Ep & Hpr & Hr & Hc & Hend)
             | (i & e & Hin & Ep & Hpr & Hc & Hend)]];
        cbn in Hpr.
      * left. split; [exact Ep|]. split; [congruence|].
        destruct rest as [|i' rest'].
        -- subst m'. cbn. repeat split; [exact Hlt | congruence].
        -- destruct Hm as (Hr & _ & Ht). cbn in Ht.
           repeat split; [exact Hr | exact Hlt | congruence].
      * right. left. exists i, b. repeat split; auto.
        -- now right.
        -- congruence.
        -- rewrite <- (sim_end w _ _ (HS i)). exact Hend.
      * right. right. exists i, e. repeat split; auto.
        -- now right.
        -- congruence.
        -- rewrite <- (sim_end w _ _ (HS i)). exact Hend.
Qed.

End PollFacts.

(** ** Lists *)

Lemma mem_spec i l : mem i l = true <-> In i l.
Proof.
  unfold mem. rewrite existsb_exists. split.
  - intros (x & Hin & E). apply Nat.eqb_eq in E. now subst.
  - intros H. exists i. split; [assumption | apply Nat.eqb_refl].
Qed.

Lemma remove_first_perm i l :
  In i l -> Permutation l (i :: remove_first i l).
Proof.
  induction l as [|j l IH]; intros H; [contradiction|]. cbn.
  destruct (Nat.eqb_spec j i) as [-> | N]; [reflexivity|].
  destruct H as [H | H]; [contradiction|].
  rewrite perm_swap. constructor. now apply IH.
Qed.

Lemma remove_first_notin i l : ~ In i l -> remove_first i l = l.
Proof.
  induction l as [|j l IH]; intros H; [reflexivity|]. cbn.
  destruct (Nat.eqb_spec j i) as [-> | N].
  - exfalso. apply H. now left.
  - f_equal. apply IH. intros Hin. apply H. now right.
Qed.

Lemma remove_first_incl i l j : In j (remove_first i l) -> In j l.
Proof.
  induction l as [|k l IH]; cbn; [auto|].
  destruct (Nat.eqb_spec k i); cbn; intuition.
Qed.

Lemma remove_first_nodup i l : NoDup l -> NoDup (remove_first i l).
Proof.
  induction 1 as [|k l Hk Hl IH]; cbn; [constructor|].
  destruct (Nat.eqb_spec k i); [assumption|].
  constructor; [|assumption]. intros H. apply Hk.
  eapply remove_first_incl; eauto.
Qed.

Lemma remove_first_nodup_notin i l : NoDup l -> ~ In i (remove_first i l).
Proof.
  induction 1 as [|k l Hk Hl IH]; cbn; [auto|].
  destruct (Nat.eqb_spec k i) as [-> | N]; [assumption|].
  intros [H | H]; [contradiction | now apply IH].
Qed.

Lemma list_sum_le {A} (f g : A -> nat) l :
  (forall x, In x l -> (f x <= g x)%nat) ->
  (list_sum (map f l) <= list_sum (map g l))%nat.
Proof.
  induction l as [|a l IH]; intros H; [cbn; lia|].
  pose proof (H a (or_introl eq_refl)).
  assert (list_sum (map f l) <= list_sum (map g l))%nat
    by (apply IH; intros x Hx; apply H; now right).
  unfold list_sum in *. cbn. lia.
Qed.

Lemma list_sum_lt {A} (f g : A -> nat) a l :
  (forall x, In x (a :: l) -> (f x <= g x)%nat) ->
  (f a < g a)%nat ->
  (list_sum (map f (a :: l)) < list_sum (map g (a :: l)))%nat.
Proof.
  intros H L.
  assert (list_sum (map f l) <= list_sum (map g l))%nat
    by (apply list_sum_le; intros x Hx; apply H; now right).
  unfold list_sum in *. cbn. lia.
Qed.

Lemma list_sum_remove_first (f : nat -> nat) i l :
  In i l ->
  list_sum (map f l) = (f i + list_sum (map f (remove_first i l)))%nat.
Proof.
  induction l as [|j l IH]; intros H; [contradiction|].
  cbn [remove_first]. destruct (Nat.eqb_spec j i) as [-> | N];
    [reflexivity|].
  destruct H as [H | H]; [contradiction|]. specialize (IH H).
  unfold list_sum in *. cbn. lia.
Qed.

Lemma flat_map_ext_in {A B} (f g : A -> list B) l :
  (forall x, In x l -> f x = g x) -> flat_map f l = flat_map g l.
Proof.
  induction l as [|a l IH]; intros H; cbn; [reflexivity|].
  rewrite (H a (or_introl eq_refl)). f_equal.
  apply IH. intros x Hx. apply H. now right.
Qed.

Lemma flat_map_remove_first {B} (f : nat -> list B) i l :
  In i l -> Permutation (flat_map f l) (f i ++ flat_map f (remove_first i l)).
Proof.
  induction l as [|j l IH]; intros H; [contradiction|].
  cbn [remove_first flat_map]. destruct (Nat.eqb_spec j i) as [-> | N];
    [reflexivity|].
  destruct H as [H | H]; [contradiction|]. specialize (IH H).
  cbn [flat_map]. rewrite IH, !app_assoc.
  apply Permutation_app_tail, Permutation_app_comm.
Qed.

(** ** Counting events and tasks *)

Lemma count_ev_app f a b :
  count_ev f (a ++ b) = (count_ev f a + count_ev f b)%nat.
Proof. unfold count_ev. now rewrite filter_app, length_app. Qed.

Lemma count_popen_end d d0 evs :
  end_events d0 evs -> count_ev (is_popen d) evs = O.
Proof. intros [-> | [-> | ->]]; reflexivity. Qed.

Lemma count_recheck_start d d0 evs :
  start_events d0 evs -> count_ev (is_recheck d) evs = O.
Proof. intros [-> | [-> | (c & [-> | ->])]]; reflexivity. Qed.

Lemma count_popen_start d d0 evs :
  start_events d0 evs ->
  (count_ev (is_popen d) evs <= if String.eqb d0 d then 1 else 0)%nat.
Proof.
  intros [-> | [-> | (c & [-> | ->])]]; unfold count_ev; cbn;
    destruct (String.eqb d0 d); cbn; lia.
Qed.

Lemma count_recheck_end d d0 evs :
  end_events d0 evs ->
  (count_ev (is_recheck d) evs <= if String.eqb d0 d then 1 else 0)%nat.
Proof.
  intros [-> | [-> | ->]]; unfold count_ev; cbn;
    destruct (String.eqb d0 d); cbn; lia.
Qed.

Lemma count_at_ext dd d (h h' : nat -> vcs) l :
  (forall i, In i l -> sim (h i) (h' i)) ->
  count_at dd d h' l = count_at dd d h l.
Proof.
  intros H. unfold count_at. f_equal. apply filter_ext_in.
  intros i Hi. unfold at_path. now rewrite (sim_getpath dd _ _ (H i Hi)).
Qed.

Lemma count_at_app dd d h a b :
  count_at dd d h (a ++ b) = (count_at dd d h a + count_at dd d h b)%nat.
Proof. unfold count_at. now rewrite filter_app, length_app. Qed.

Lemma count_at_cons dd d h i l :
  count_at dd d h (i :: l) =
  ((if at_path dd d (h i) then 1 else 0) + count_at dd d h l)%nat.
Proof. unfold count_at. cbn. destruct (at_path dd d (h i)); reflexivity. Qed.

Lemma count_at_remove_first dd d h i l :
  In i l ->
  count_at dd d h l =
  ((if at_path dd d (h i) then 1 else 0)
   + count_at dd d h (remove_first i l))%nat.
Proof.
  induction l as [|j l IH]; intros H; [contradiction|].
  cbn [remove_first]. destruct (Nat.eqb_spec j i) as [-> | N].
  - apply count_at_cons.
  - destruct H as [H | H]; [contradiction|].
    rewrite !count_at_cons, (IH H). lia.
Qed.

Lemma at_path_ok dd d v d0 :
  getpath dd v = Ok d0 -> at_path dd d v = String.eqb d0 d.
Proof. intros H. unfold at_path. now rewrite H. Qed.

(** ** One turn of the loop, without a signal *)

Section TurnFacts.

Variable w : world.
Variable opts : options.

(** The second half of a turn when tasks are running: either every child
    is still busy, or exactly one task leaves [processes], and its
    identifiers go where its verdict says. *)
Lemma collect_spec m :
  sigint m = None ->
  processes m <> [] ->
  (forall i, In i (processes m) -> running (heap m i)) ->
  jobs opts <> 1%Z ->
  exists m',
    try_except (collect w opts) (fun _ => true) (handler opts) m
      = (Ok true, m') /\
    sigint m' = None /\ items m' = items m /\ hsim m m' /\
    ((processes m' = processes m /\ packages m' = packages m /\
      erraneous m' = erraneous m /\ trace m' = trace m /\
      exists i rest,
        processes m = i :: rest /\
        (polls_of (heap m' i) < polls_of (heap m i))%nat) \/
     (exists i,
         In i (processes m) /\
         processes m' = remove_first i (processes m) /\
         (exists evs,
             trace m' = (trace m ++ evs)%list /\
             (evs = [] \/
              exists d, getpath (distdir w) (heap m i) = Ok d /\
                        end_events d evs)) /\
         match judge_started w (heap m i) with
         | Changed =>
             packages m' = (packages m ++ cpv (heap m i))%list /\
             erraneous m' = erraneous m
         | Unchanged =>
             packages m' = packages m /\ erraneous m' = erraneous m
         | Failed =>
             packages m' = packages m /\
             erraneous m' = (erraneous m ++ cpv (heap m i))%list
         end)).
Proof.
  intros Hs Hne Hrun Hj.
  destruct (poll_all_spec w opts (processes m) m Hs Hrun)
    as (m1 & Hs1 & Hi1 & Hk1 & He1 & HS & Htr & Hcases).
  unfold try_except, collect.
  unfold mbind at 1. unfold get at 1. unfold mbind at 1.
  destruct Hcases
    as [(Ep & Hpr & Hm)
       | [(i & b & Hin & Ep & Hpr & Hr & Hc & Hend)
         | (i & e & Hin & Ep & Hpr & Hc & Hend)]]; rewrite Ep.
  - destruct (processes m) as [|i rest] eqn:Hp; [congruence|].
    destruct Hm as (Hr & Hlt & Ht).
    unfold mbind, get, load, mret. cbn. rewrite Hr.
    exists m1. repeat (split; [first [reflexivity | assumption]|]).
    left. repeat (split; [assumption|]). eauto.
  - unfold mbind, get, load, mret, modify. cbn. rewrite Hr, Hc.
    pose proof (sim_cpv _ _ (HS i)) as Hcpv.
    rewrite Hc in Htr.
    destruct b.
    all: eexists; (split; [reflexivity|]); cbn.
    all: do 3 (split; [first [reflexivity | assumption]|]).
    all: right; exists i; do 2 (split; [assumption|]).
    all: split; [exact Htr|].
    all: unfold judge_started; rewrite Hend.
    all: split; congruence.
  - pose proof (end_pure_exn _ _ _ Hend) as Hexn.
    pose proof (sim_cpv _ _ (HS i)) as Hcpv.
    rewrite Hc in Htr.
    unfold handler, is_KeyboardInterrupt. rewrite Hexn. cbn [negb].
    unfold mbind, get, load, mret, modify, out_line. cbn.
    rewrite Hc, Hpr.
    assert (Hmem : mem i (processes m) = true) by now apply mem_spec.
    unfold mem in Hmem. rewrite Hmem.
    assert (Hj' : negb (jobs opts =? 1)%Z = true)
      by (destruct (Z.eqb_spec (jobs opts) 1); [contradiction|reflexivity]).
    rewrite Hj'. cbn.
    eexists. split; [reflexivity|]. cbn.
    do 3 (split; [first [reflexivity | assumption]|]).
    right. exists i. do 2 (split; [first [reflexivity | assumption]|]).
    split; [exact Htr|].
    unfold judge_started. rewrite Hend.
    split; congruence.
Qed.

End TurnFacts.

(** ** Accounting: what is due, and the measure *)

Section Accounting.

Variable w : world.
Variable opts : options.

Lemma due_item_hsim v m m' kv :
  sim (heap m (snd kv)) (heap m' (snd kv)) ->
  due_item w opts v m' kv = due_item w opts v m kv.
Proof.
  intros S. unfold due_item.
  now rewrite (sim_judge w opts _ _ S), (sim_cpv _ _ S).
Qed.

Lemma due_process_hsim v m m' i :
  sim (heap m i) (heap m' i) ->
  due_process w v m' i = due_process w v m i.
Proof.
  intros S. unfold due_process.
  now rewrite (sim_judge_started w _ _ S), (sim_cpv _ _ S).
Qed.

Lemma due_items_hsim v m m' (l : list (string * nat)) :
  (forall kv, In kv l -> sim (heap m (snd kv)) (heap m' (snd kv))) ->
  flat_map (due_item w opts v m') l = flat_map (due_item w opts v m) l.
Proof.
  intros H. apply flat_map_ext_in. intros kv Hin.
  apply due_item_hsim. now apply H.
Qed.

Lemma due_processes_hsim v m m' l :
  (forall i, In i l -> sim (heap m i) (heap m' i)) ->
  flat_map (due_process w v m') l = flat_map (due_process w v m) l.
Proof.
  intros H. apply flat_map_ext_in. intros i Hin.
  apply due_process_hsim. now apply H.
Qed.

Lemma pending_sum_hsim m m' (l : list (string * nat)) :
  (forall kv, In kv l -> sim (heap m (snd kv)) (heap m' (snd kv))) ->
  list_sum (map (fun kv => pending_polls w opts (heap m' (snd kv))) l) =
  list_sum (map (fun kv => pending_polls w opts (heap m (snd kv))) l).
Proof.
  intros H. f_equal. apply map_ext_in. intros kv Hin.
  apply sim_pending_polls. now apply H.
Qed.

Lemma polls_sum_hsim m m' l :
  (forall i, In i l -> sim (heap m i) (heap m' i)) ->
  (list_sum (map (fun i => polls_of (heap m' i)) l) <=
   list_sum (map (fun i => polls_of (heap m i)) l))%nat.
Proof.
  intros H. apply list_sum_le. intros i Hin. apply sim_polls. now apply H.
Qed.

Lemma settled_changed m m' j ids rest rest' :
  settled m m' j ids ->
  rest' = rest ->
  Permutation
    (packages m ++ (if verdict_eqb j Changed then ids else []) ++ rest)
    (packages m' ++ rest').
Proof.
  intros H ->. destruct j; cbn in *; destruct H as [-> _];
    rewrite ?app_assoc; reflexivity.
Qed.

Lemma settled_failed m m' j ids rest rest' :
  settled m m' j ids ->
  rest' = rest ->
  Permutation
    (erraneous m ++ (if verdict_eqb j Failed then ids else []) ++ rest)
    (erraneous m' ++ rest').
Proof.
  intros H ->. destruct j; cbn in *; destruct H as [_ ->];
    rewrite ?app_assoc; reflexivity.
Qed.

End Accounting.

Lemma NoDup_app_remove_first (a : list nat) i l :
  NoDup (a ++ l) -> NoDup (a ++ remove_first i l).
Proof.
  induction a as [|x a IH]; cbn; intros H.
  - now apply remove_first_nodup.
  - inversion H as [|y l' Hx Hrest]; subst. constructor; [|now apply IH].
    intros Hin. apply Hx. apply in_app_or in Hin. apply in_or_app.
    destruct Hin as [Hin | Hin]; [now left | right].
    eapply remove_first_incl; eauto.
Qed.

Lemma remove_first_length i l :
  In i l -> S (List.length (remove_first i l)) = List.length l.
Proof.
  intros H. apply remove_first_perm in H.
  apply Permutation_length in H. cbn in H. now symmetry.
Qed.

Section TracedFacts.

Variable w : world.
Variable opts : options.

Lemma sim_spawns_in d v v' :
  sim v v' -> spawns_in w opts d v -> spawns_in w opts d v'.
Proof.
  intros S (x & Hst & Hn & Hp). exists x.
  rewrite (sim_start w opts _ _ S), (sim_getpath _ _ _ S). auto.
Qed.

Lemma traced_refl m : traced w opts m m.
Proof.
  split; [exists []; now rewrite app_nil_r|].
  split; [auto|]. split; [auto|].
  intros i Hi. left. split; [assumption | apply sim_refl].
Qed.

Lemma traced_trans m1 m2 m3 :
  traced w opts m1 m2 -> traced w opts m2 m3 -> traced w opts m1 m3.
Proof.
  intros ((e1 & T1) & P1 & R1 & S1) ((e2 & T2) & P2 & R2 & S2).
  split; [exists (e1 ++ e2)%list; now rewrite T2, T1, app_assoc|].
  split; [intros d; specialize (P1 d); specialize (P2 d); lia|].
  split; [intros d; specialize (R1 d); specialize (R2 d); lia|].
  intros i Hi. destruct (S1 i Hi) as [[Hi2 Hs2] | Hdone].
  - destruct (S2 i Hi2) as [[Hi3 Hs3] | Hdone].
    + left. split; [assumption | eapply sim_trans; eauto].
    + right. intros d Hsp. apply Hdone. eapply sim_spawns_in; eauto.
  - right. intros d Hsp. destruct (Hdone d Hsp) as (c & Hc).
    exists c. rewrite T2. apply in_or_app. now left.
Qed.

(** Polling without a task leaving. *)
Lemma busy_traced m m' :
  items m' = items m -> processes m' = processes m ->
  trace m' = trace m -> hsim m m' -> traced w opts m m'.
Proof.
  intros Hi Hp Ht HS.
  split; [exists []; now rewrite app_nil_r|].
  unfold popen_budget, recheck_budget. rewrite Hi, Hp, Ht.
  split; [|split].
  - intros d. rewrite (count_at_ext _ d (heap m) (heap m')); [lia|].
    intros i _. apply HS.
  - intros d. rewrite (count_at_ext _ d (heap m) (heap m')); [lia|].
    intros i _. apply HS.
  - intros i Hin. left. split; [assumption | apply HS].
Qed.

(** A task leaves [processes] with what [endupdate] ran for it. *)
Lemma removed_traced m m' i evs :
  items m' = items m -> hsim m m' ->
  In i (processes m) -> processes m' = remove_first i (processes m) ->
  trace m' = (trace m ++ evs)%list ->
  (evs = [] \/
   exists d, getpath (distdir w) (heap m i) = Ok d /\ end_events d evs) ->
  traced w opts m m'.
Proof.
  intros Hi HS Hin Hp Ht Hev.
  split; [eauto|].
  unfold popen_budget, recheck_budget. rewrite Hi, Hp, Ht.
  split; [|split].
  - intros d. rewrite count_ev_app.
    rewrite (count_at_ext _ d (heap m) (heap m')) by (intros j _; apply HS).
    destruct Hev as [-> | (d0 & _ & Hev)]; [cbn; lia|].
    rewrite (count_popen_end d d0 evs Hev). lia.
  - intros d. rewrite count_ev_app.
    rewrite (count_at_ext _ d (heap m) (heap m')) by (intros j _; apply HS).
    rewrite !count_at_app.
    rewrite (count_at_remove_first _ d (heap m) i (processes m) Hin).
    destruct Hev as [-> | (d0 & Hd0 & Hev)]; [cbn; lia|].
    pose proof (count_recheck_end d d0 evs Hev) as L.
    rewrite (at_path_ok _ d _ d0 Hd0). lia.
  - intros j Hj. left. split; [assumption | apply HS].
Qed.

(** A task leaves [items] and is settled in the same turn. *)
Lemma popped_traced m m' d0 v rest e1 e2 :
  items m = (d0, v) :: rest -> items m' = rest ->
  processes m' = processes m ->
  ~ In v (map snd rest) -> ~ In v (processes m) ->
  (forall j, j <> v -> heap m' j = heap m j) ->
  trace m' = (trace m ++ e1 ++ e2)%list ->
  (e1 = [] \/
   exists d, getpath (distdir w) (heap m v) = Ok d /\ start_events d e1) ->
  (e2 = [] \/
   exists d, getpath (distdir w) (heap m v) = Ok d /\ end_events d e2) ->
  (forall d, spawns_in w opts d (heap m v) -> exists c, In (Popen d c) e1) ->
  traced w opts m m'.
Proof.
  intros Hit Hit' Hp Hnr Hnp Hh Ht H1 H2 Hsp.
  assert (Hsim : forall j, In j (map snd rest ++ processes m) ->
                           sim (heap m j) (heap m' j)).
  { intros j Hj. rewrite Hh; [apply sim_refl|]. intros ->.
    apply in_app_or in Hj. tauto. }
  assert (Hp1 : forall d,
             (count_ev (is_popen d) e1 <=
              if at_path (distdir w) d (heap m v) then 1 else 0)%nat).
  { intros d. destruct H1 as [-> | (d1 & Hd1 & Hev)]; [cbn; lia|].
    rewrite (at_path_ok _ d _ d1 Hd1). now apply count_popen_start. }
  assert (Hp2 : forall d, count_ev (is_popen d) e2 = O).
  { intros d. destruct H2 as [-> | (d2 & _ & Hev)]; [reflexivity|].
    eapply count_popen_end; eauto. }
  assert (Hr1 : forall d, count_ev (is_recheck d) e1 = O).
  { intros d. destruct H1 as [-> | (d1 & _ & Hev)]; [reflexivity|].
    eapply count_recheck_start; eauto. }
  assert (Hr2 : forall d,
             (count_ev (is_recheck d) e2 <=
              if at_path (distdir w) d (heap m v) then 1 else 0)%nat).
  { intros d. destruct H2 as [-> | (d2 & Hd2 & Hev)]; [cbn; lia|].
    rewrite (at_path_ok _ d _ d2 Hd2). now apply count_recheck_end. }
  split; [eauto|].
  unfold popen_budget, recheck_budget. rewrite Hit, Hit', Hp, Ht.
  cbn [map snd]. split; [|split].
  - intros d. rewrite !count_ev_app, count_at_cons, Hp2.
    rewrite (count_at_ext _ d (heap m) (heap m') (map snd rest))
      by (intros j Hj; apply Hsim, in_or_app; now left).
    specialize (Hp1 d). lia.
  - intros d. rewrite !count_ev_app, Hr1. cbn [app].
    rewrite count_at_cons.
    rewrite (count_at_ext _ d (heap m) (heap m') _ Hsim).
    specialize (Hr2 d). lia.
  - intros i [<- | Hi].
    + right. intros d Hd. destruct (Hsp d Hd) as (c & Hc). exists c.
      apply in_or_app. right. apply in_or_app. now left.
    + left. split; [assumption|]. apply Hsim, in_or_app. now left.
Qed.

(** A task goes from [items] to [processes]. *)
Lemma pushed_traced m m' d0 v rest e1 :
  items m = (d0, v) :: rest -> items m' = rest ->
  processes m' = (processes m ++ [v])%list ->
  ~ In v (map snd rest) -> ~ In v (processes m) ->
  (forall j, j <> v -> heap m' j = heap m j) ->
  cls (heap m' v) = cls (heap m v) -> env (heap m' v) = env (heap m v) ->
  trace m' = (trace m ++ e1)%list ->
  (e1 = [] \/
   exists d, getpath (distdir w) (heap m v) = Ok d /\ start_events d e1) ->
  (forall d, spawns_in w opts d (heap m v) -> exists c, In (Popen d c) e1) ->
  traced w opts m m'.
Proof.
  intros Hit Hit' Hp Hnr Hnp Hh Hc He Ht H1 Hsp.
  assert (Hsim : forall j, In j (map snd rest ++ processes m) ->
                           sim (heap m j) (heap m' j)).
  { intros j Hj. rewrite Hh; [apply sim_refl|]. intros ->.
    apply in_app_or in Hj. tauto. }
  assert (Hat : forall d, at_path (distdir w) d (heap m' v)
                          = at_path (distdir w) d (heap m v)).
  { intros d. unfold at_path, getpath. now rewrite Hc, He. }
  assert (Hp1 : forall d,
             (count_ev (is_popen d) e1 <=
              if at_path (distdir w) d (heap m v) then 1 else 0)%nat).
  { intros d. destruct H1 as [-> | (d1 & Hd1 & Hev)]; [cbn; lia|].
    rewrite (at_path_ok _ d _ d1 Hd1). now apply count_popen_start. }
  assert (Hr1 : forall d, count_ev (is_recheck d) e1 = O).
  { intros d. destruct H1 as [-> | (d1 & _ & Hev)]; [reflexivity|].
    eapply count_recheck_start; eauto. }
  split; [eauto|].
  unfold popen_budget, recheck_budget. rewrite Hit, Hit', Hp, Ht.
  cbn [map snd]. split; [|split].
  - intros d. rewrite !count_ev_app, count_at_cons.
    rewrite (count_at_ext _ d (heap m) (heap m') (map snd rest))
      by (intros j Hj; apply Hsim, in_or_app; now left).
    specialize (Hp1 d). lia.
  - intros d. rewrite !count_ev_app, Hr1. cbn [app].
    rewrite count_at_cons, app_assoc, (count_at_app _ d _ _ [v]).
    rewrite (count_at_ext _ d (heap m) (heap m') _ Hsim).
    rewrite count_at_cons, Hat.
    change (count_at (distdir w) d (heap m') []) with O. lia.
  - intros i [<- | Hi].
    + right. intros d Hd. destruct (Hsp d Hd) as (c & Hc'). exists c.
      apply in_or_app. now right.
    + left. split; [assumption|]. apply Hsim, in_or_app. now left.
Qed.

End TracedFacts.

Section CollectStep.

Variable w : world.
Variable opts : options.

Lemma collect_step m :
  Inv opts m -> processes m <> [] ->
  exists m',
    try_except (collect w opts) (fun _ => true) (handler opts) m
      = (Ok true, m') /\
    Inv opts m' /\
    Permutation (packages m ++ due w opts Changed m)
                (packages m' ++ due w opts Changed m') /\
    Permutation (erraneous m ++ due w opts Failed m)
                (erraneous m' ++ due w opts Failed m') /\
    (measure w opts m' < measure w opts m)%nat /\
    traced w opts m m'.
Proof.
  intros (Hs & Hnd & Hrun & Hj1) Hne.
  assert (Hj : jobs opts <> 1%Z) by (intros E; apply Hne; now apply Hj1).
  destruct (collect_spec w opts m Hs Hne Hrun Hj)
    as (m' & E & Hs' & Hi' & HS & Hcases).
  exists m'. split; [exact E|].
  assert (Hitems : forall v,
             flat_map (due_item w opts v m') (items m) =
             flat_map (due_item w opts v m) (items m))
    by (intros v; apply due_items_hsim; intros kv _; apply HS).
  assert (Hpend :
            list_sum (map (fun kv => pending_polls w opts (heap m' (snd kv)))
                          (items m)) =
            list_sum (map (fun kv => pending_polls w opts (heap m (snd kv)))
                          (items m)))
    by (apply pending_sum_hsim; intros kv _; apply HS).
  destruct Hcases as [(Hp & Hk & He & Htr & i & rest & Hps & Hlt)
                     | (i & Hin & Hp & (evs & Htr & Hevs) & Hset)].
  - split; [|split; [|split; [|split]]].
    + split; [exact Hs'|split; [|split]].
      * now rewrite Hi', Hp.
      * intros j Hjn. rewrite Hp in Hjn.
        apply (sim_running _ _ (HS j)). now apply Hrun.
      * intros E1. contradiction.
    + unfold due. rewrite Hk, Hi', Hp, Hitems.
      rewrite (due_processes_hsim w Changed m m')
        by (intros j _; apply HS). reflexivity.
    + unfold due. rewrite He, Hi', Hp, Hitems.
      rewrite (due_processes_hsim w Failed m m')
        by (intros j _; apply HS). reflexivity.
    + unfold measure. rewrite Hi', Hp, Hpend, Hps.
      assert ((list_sum (map (fun j => polls_of (heap m' j)) (i :: rest)) <
               list_sum (map (fun j => polls_of (heap m j)) (i :: rest)))%nat)
        by (apply list_sum_lt; [intros j _; apply sim_polls, HS | exact Hlt]).
      lia.
    + now apply busy_traced.
  - change (settled m m' (judge_started w (heap m i)) (cpv (heap m i)))
      in Hset.
    split; [|split; [|split; [|split]]].
    + split; [exact Hs'|split; [|split]].
      * rewrite Hi', Hp. now apply NoDup_app_remove_first.
      * intros j Hjn. rewrite Hp in Hjn. apply remove_first_incl in Hjn.
        apply (sim_running _ _ (HS j)). now apply Hrun.
      * intros E1. contradiction.
    + unfold due. rewrite Hi', Hp, Hitems.
      rewrite (due_processes_hsim w Changed m m')
        by (intros j _; apply HS).
      rewrite (flat_map_remove_first (due_process w Changed m) i _ Hin).
      rewrite (Permutation_app_swap_app
                 (flat_map (due_item w opts Changed m) (items m))).
      unfold due_process at 1.
      apply (settled_changed m m' _ _ _ _ Hset). reflexivity.
    + unfold due. rewrite Hi', Hp, Hitems.
      rewrite (due_processes_hsim w Failed m m')
        by (intros j _; apply HS).
      rewrite (flat_map_remove_first (due_process w Failed m) i _ Hin).
      rewrite (Permutation_app_swap_app
                 (flat_map (due_item w opts Failed m) (items m))).
      unfold due_process at 1.
      apply (settled_failed m m' _ _ _ _ Hset). reflexivity.
    + unfold measure. rewrite Hi', Hp, Hpend.
      pose proof (remove_first_length i _ Hin) as Hlen.
      pose proof (list_sum_remove_first
                    (fun j => polls_of (heap m j)) i _ Hin) as Hsum.
      pose proof (polls_sum_hsim m m' (remove_first i (processes m))
                    (fun j _ => HS j)) as Hle.
      cbv beta in Hsum. lia.
    + eapply removed_traced; eauto.
Qed.

End CollectStep.

Lemma mbind_ok {A B} (c : M A) (k : A -> M B) m a m1 :
  c m = (Ok a, m1) -> mbind c k m = k a m1.
Proof. intros E. unfold mbind. now rewrite E. Qed.

Lemma mbind_raise {A B} (c : M A) (k : A -> M B) m e m1 :
  c m = (Raise e, m1) -> mbind c k m = (Raise e, m1).
Proof. intros E. unfold mbind. now rewrite E. Qed.

Lemma try_except_ok {A} (c : M A) sel h m a m1 :
  c m = (Ok a, m1) -> try_except c sel h m = (Ok a, m1).
Proof. intros E. unfold try_except. now rewrite E. Qed.

Lemma try_except_raise {A} (c : M A) sel h m e m1 :
  c m = (Raise e, m1) ->
  try_except c sel h m = if sel e then h e m1 else (Raise e, m1).
Proof. intros E. unfold try_except. now rewrite E. Qed.

Section DispatchFacts.

Variable w : world.
Variable opts : options.

Ltac step := cbv beta iota.

(** Starting the next task: what [dispatch] returns, by what the world
    answers for the task. *)
Lemma dispatch_start m d v rest :
  sigint m = None ->
  items m = (d, v) :: rest ->
  (Z.of_nat (List.length (processes m)) <? jobs opts)%Z = true ->
  exists m1,
    frame v (set_cur v (set_items rest m)) m1 /\
    (exists e1,
        trace m1 = (trace m ++ e1)%list /\
        (e1 = [] \/
         exists d', getpath (distdir w) (heap m v) = Ok d' /\
                    start_events d' e1) /\
        (forall d', spawns_in w opts d' (heap m v) ->
                    exists c, In (Popen d' c) e1)) /\
    match start_pure w opts (heap m v) with
    | Raise e => dispatch w opts m = (Raise e, m1)
    | Ok v' =>
        heap m1 v = v' /\
        if (jobs opts =? 1)%Z then
          exists m2,
            frame v m1 m2 /\ heap m2 v = v' /\
            (exists e2,
                trace m2 = (trace m1 ++ e2)%list /\
                (e2 = [] \/
                 exists d', getpath (distdir w) (heap m1 v) = Ok d' /\
                            end_events d' e2)) /\
            match end_pure w v' with
            | Ok b => dispatch w opts m = (Ok true, set_ret (Some b) m2)
            | Raise e => dispatch w opts m = (Raise e, m2)
            end
        else
          dispatch w opts m =
            (Ok true, set_processes (processes m1 ++ [v]) m1)
    end.
Proof.
  intros Hs Hit Hlt.
  set (m0 := set_cur v (set_items rest m)).
  destruct (startupdate_spec w opts v m0 Hs)
    as (m1 & evs & E & F & Hv & Htr & Hev & Hspawn).
  exists m1. split; [exact F|].
  split; [exists evs; auto|].
  assert (Hd : dispatch w opts m =
               match try_except
                       (startupdate w opts v ;;;
                        if (jobs opts =? 1)%Z then
                          r <- endupdate w opts v true ;;
                          modify (set_ret r)
                        else
                          modify (fun m => set_processes (processes m ++ [v]) m))
                       is_KeyboardInterrupt
                       (fun e => abortupdate v ;;; mraise e) m0 with
               | (Ok _, m') => (Ok true, m')
               | (Raise e, m') => (Raise e, m')
               end).
  { unfold dispatch. unfold mbind at 1. unfold get at 1.
    unfold mbind at 1. unfold get at 1. rewrite Hit. step. rewrite Hlt.
    unfold mbind at 1. unfold modify at 1. unfold mbind at 1.
    unfold modify at 1. unfold mbind at 1. fold m0.
    destruct (try_except _ _ _ m0) as [[u|e] m']; reflexivity. }
  rewrite Hd. clear Hd.
  change (heap m0 v) with (heap m v) in *.
  destruct (start_pure w opts (heap m v)) as [v'|e] eqn:Hst.
  - specialize (Hv v' eq_refl). split; [exact Hv|].
    destruct (jobs opts =? 1)%Z eqn:Hj.
    + assert (Hs1 : sigint m1 = None).
      { destruct F as (_ & _ & _ & _ & _ & _ & Hsg & _). now rewrite Hsg. }
      destruct (endupdate_ready w opts v true m1 Hs1)
        as (m2 & ev2 & E2 & F2 & Hh2 & Htr2 & Hev2).
      { unfold ready. destruct (subprocess (heap m1 v)) as [[p|]|]; auto. }
      { intros Hgt. apply Z.eqb_eq in Hj. rewrite Hj in Hgt. discriminate. }
      exists m2. split; [exact F2|]. split; [congruence|].
      split; [exists ev2; auto|].
      rewrite Hv in E2.
      destruct (end_pure w v') as [b|e] eqn:He.
      * erewrite try_except_ok; [reflexivity|].
        erewrite mbind_ok by exact E.
        erewrite mbind_ok by exact E2. reflexivity.
      * erewrite try_except_raise.
        2:{ erewrite mbind_ok by exact E.
            erewrite mbind_raise by exact E2. reflexivity. }
        unfold is_KeyboardInterrupt.
        now rewrite (end_pure_exn _ _ _ He).
    + erewrite try_except_ok; [reflexivity|].
      erewrite mbind_ok by exact E. reflexivity.
  - erewrite try_except_raise by (erewrite mbind_raise by exact E; reflexivity).
    unfold is_KeyboardInterrupt. now rewrite (start_pure_exn _ _ _ _ Hst).
Qed.

(** Nothing to start: the loop is left when nothing runs, and sleeps
    otherwise. *)
Lemma dispatch_idle m :
  sigint m = None ->
  (items m = [] \/
   (Z.of_nat (List.length (processes m)) <? jobs opts)%Z = false) ->
  dispatch w opts m =
    (Ok (match processes m with [] => false | _ => true end), m).
Proof.
  intros Hs H. unfold dispatch. unfold mbind at 1. unfold get at 1.
  unfold mbind at 1. unfold get at 1.
  assert (Hsleep : (sleep ;;; mret true) m = (Ok true, m)).
  { unfold sleep, mbind, tick, mret. now rewrite Hs. }
  destruct (items m) as [|[d v] rest].
  - destruct (processes m); [reflexivity | exact Hsleep].
  - destruct H as [H|H]; [discriminate|]. step. rewrite H.
    destruct (processes m); [reflexivity | exact Hsleep].
Qed.

End DispatchFacts.

Section HandlerFacts.

Variable w : world.
Variable opts : options.

Lemma turn_unfold m :
  turn w opts m =
    match dispatch w opts m with
    | (Ok true, m1) =>
        try_except (collect w opts) (fun _ => true) (handler opts) m1
    | (Ok false, m1) => (Ok false, m1)
    | (Raise e, m1) => handler opts e m1
    end.
Proof.
  unfold turn, body, try_except, mbind.
  destruct (dispatch w opts m) as [[[|]|e] m1]; reflexivity.
Qed.

(** The [except Exception] clause: the identifiers of the task at hand go
    to [erraneous], and the loop goes on. *)
Lemma handler_exn e m :
  is_Exception e = true ->
  exists m',
    handler opts e m = (Ok true, m') /\
    heap m' = heap m /\ items m' = items m /\ sigint m' = sigint m /\
    packages m' = packages m /\
    erraneous m' = (erraneous m ++ cpv (heap m (cur m)))%list /\
    processes m' =
      (if negb (jobs opts =? 1)%Z && mem (cur m) (processes m)
       then remove_first (cur m) (processes m) else processes m) /\
    trace m' = trace m.
Proof.
  intros He. unfold handler, is_KeyboardInterrupt. rewrite He. cbn [negb].
  unfold mbind, get, load, mret, modify, out_line. cbn -[mem].
  destruct (negb (jobs opts =? 1)%Z && mem (cur m) (processes m));
    eexists; (split; [reflexivity|]); cbn; auto 10.
Qed.

(** The second half of a turn when nothing runs: only [if ret]. *)
Lemma collect_idle m :
  processes m = [] ->
  exists m',
    try_except (collect w opts) (fun _ => true) (handler opts) m
      = (Ok true, m') /\
    heap m' = heap m /\ items m' = items m /\ sigint m' = sigint m /\
    processes m' = [] /\ erraneous m' = erraneous m /\
    packages m' =
      match ret m with
      | Some true => (packages m ++ cpv (heap m (cur m)))%list
      | _ => packages m
      end /\
    trace m' = trace m.
Proof.
  intros Hp. unfold try_except, collect, mbind, get, load, mret, modify.
  rewrite Hp. cbn.
  destruct (ret m) as [[|]|];
    eexists; (split; [reflexivity|]); cbn; auto 10.
Qed.

End HandlerFacts.

Section PopFacts.

Variable w : world.
Variable opts : options.

Lemma notin_map_snd (v : nat) (rest : list (string * nat)) kv :
  ~ In v (map snd rest) -> In kv rest -> snd kv <> v.
Proof.
  intros H Hin E. apply H. rewrite <- E. now apply in_map.
Qed.

(** Taking the first task out of [items]. *)
Lemma pop_account m m' d v rest X :
  items m = (d, v) :: rest -> items m' = rest ->
  processes m' = processes m ->
  ~ In v (map snd rest) -> ~ In v (processes m) ->
  (forall j, j <> v -> heap m' j = heap m j) ->
  due w opts X m = (due_item w opts X m (d, v) ++ due w opts X m')%list /\
  measure w opts m =
    (2 + pending_polls w opts (heap m v) + measure w opts m')%nat.
Proof.
  intros Hit Hit' Hp Hnr Hnp Hh.
  assert (Hsr : forall kv, In kv rest ->
                           sim (heap m (snd kv)) (heap m' (snd kv))).
  { intros kv Hin. rewrite Hh by (eapply notin_map_snd; eauto).
    apply sim_refl. }
  assert (Hsp : forall i, In i (processes m) -> sim (heap m i) (heap m' i)).
  { intros i Hin. rewrite Hh by (intros ->; contradiction). apply sim_refl. }
  split.
  - unfold due. rewrite Hit, Hit', Hp. cbn [flat_map].
    rewrite (due_items_hsim w opts X m m' rest Hsr).
    rewrite (due_processes_hsim w X m m' _ Hsp).
    now rewrite app_assoc.
  - unfold measure. rewrite Hit, Hit', Hp. cbn [map List.length snd].
    rewrite (pending_sum_hsim w opts m m' rest Hsr).
    assert (E : list_sum (map (fun i => polls_of (heap m' i)) (processes m)) =
                list_sum (map (fun i => polls_of (heap m i)) (processes m))).
    { f_equal. apply map_ext_in. intros i Hin.
      rewrite Hh by (intros ->; contradiction). reflexivity. }
    rewrite E. unfold list_sum. cbn. lia.
Qed.

(** Putting the started task into [processes]. *)
Lemma push_account m m' v v' X :
  processes m' = (processes m ++ [v])%list -> items m' = items m ->
  ~ In v (map snd (items m)) -> ~ In v (processes m) ->
  (forall j, j <> v -> heap m' j = heap m j) ->
  heap m' v = v' ->
  due w opts X m' =
    (due w opts X m
     ++ (if verdict_eqb (judge_started w v') X then cpv v' else []))%list /\
  measure w opts m' = (measure w opts m + 1 + polls_of v')%nat.
Proof.
  intros Hp Hit Hni Hnp Hh Hv.
  assert (Hsr : forall kv, In kv (items m) ->
                           sim (heap m (snd kv)) (heap m' (snd kv))).
  { intros kv Hin. rewrite Hh by (eapply notin_map_snd; eauto).
    apply sim_refl. }
  assert (Hsp : forall i, In i (processes m) -> sim (heap m i) (heap m' i)).
  { intros i Hin. rewrite Hh by (intros ->; contradiction). apply sim_refl. }
  split.
  - unfold due. rewrite Hit, Hp, flat_map_app. cbn [flat_map].
    rewrite (due_items_hsim w opts X m m' _ Hsr).
    rewrite (due_processes_hsim w X m m' _ Hsp).
    unfold due_process at 2. rewrite Hv, app_nil_r, app_assoc. reflexivity.
  - unfold measure. rewrite Hit, Hp.
    rewrite (pending_sum_hsim w opts m m' _ Hsr).
    rewrite length_app, map_app. cbn [map List.length].
    assert (E : list_sum (map (fun i => polls_of (heap m' i)) (processes m)) =
                list_sum (map (fun i => polls_of (heap m i)) (processes m))).
    { f_equal. apply map_ext_in. intros i Hin.
      rewrite Hh by (intros ->; contradiction). reflexivity. }
    rewrite list_sum_app, E, Hv. unfold list_sum at 3. cbn. lia.
Qed.

End PopFacts.

Section TurnSpec.

Variable w : world.
Variable opts : options.

(** A turn that takes a task out of [items] and settles it at once. *)
Lemma pop_settled m m' d v rest :
  Inv opts m ->
  items m = (d, v) :: rest ->
  sigint m' = None -> items m' = rest -> processes m' = processes m ->
  (forall j, j <> v -> heap m' j = heap m j) ->
  settled m m' (judge w opts (heap m v)) (cpv (heap m v)) ->
  Inv opts m' /\
  Permutation (packages m ++ due w opts Changed m)
              (packages m' ++ due w opts Changed m') /\
  Permutation (erraneous m ++ due w opts Failed m)
              (erraneous m' ++ due w opts Failed m') /\
  (measure w opts m' < measure w opts m)%nat.
Proof.
  intros (Hs & Hnd & Hrun & Hj1) Hit Hs' Hit' Hp Hh Hset.
  rewrite Hit in Hnd. cbn in Hnd.
  inversion Hnd as [|x l Hnv Hnd']; subst x l.
  assert (Hnr : ~ In v (map snd rest))
    by (intros H; apply Hnv, in_or_app; now left).
  assert (Hnp : ~ In v (processes m))
    by (intros H; apply Hnv, in_or_app; now right).
  split; [|split; [|split]].
  - split; [exact Hs'|split; [|split]].
    + now rewrite Hit', Hp.
    + intros i Hi. rewrite Hp in Hi.
      rewrite Hh by (intros ->; contradiction). now apply Hrun.
    + intros E. rewrite Hp. now apply Hj1.
  - destruct (pop_account w opts m m' d v rest Changed Hit Hit' Hp Hnr Hnp Hh)
      as [-> _].
    unfold due_item. cbn [snd].
    apply (settled_changed m m' _ _ _ _ Hset). reflexivity.
  - destruct (pop_account w opts m m' d v rest Failed Hit Hit' Hp Hnr Hnp Hh)
      as [-> _].
    unfold due_item. cbn [snd].
    apply (settled_failed m m' _ _ _ _ Hset). reflexivity.
  - destruct (pop_account w opts m m' d v rest Changed Hit Hit' Hp Hnr Hnp Hh)
      as [_ ->].
    lia.
Qed.

End TurnSpec.

Section TurnInvariant.

Variable w : world.
Variable opts : options.
Hypothesis Hjobs : (1 <= jobs opts)%Z.

(** One turn without a signal: it ends without an exception, keeps the
    invariant and what is due, and either brings the loop nearer to its
    end or leaves it with nothing left to do. *)
Lemma turn_spec m :
  Inv opts m ->
  exists b m',
    turn w opts m = (Ok b, m') /\ Inv opts m' /\
    Permutation (packages m ++ due w opts Changed m)
                (packages m' ++ due w opts Changed m') /\
    Permutation (erraneous m ++ due w opts Failed m)
                (erraneous m' ++ due w opts Failed m') /\
    traced w opts m m' /\
    if b : bool then (measure w opts m' < measure w opts m)%nat
    else items m' = [] /\ processes m' = [].
Proof.
  intros HI. assert (HI' := HI). destruct HI' as (Hs & Hnd & Hrun & Hj1).
  rewrite turn_unfold.
  assert (Hidle :
            (items m = [] \/
             (Z.of_nat (List.length (processes m)) <? jobs opts)%Z = false) ->
            exists b m',
              match dispatch w opts m with
              | (Ok true, m1) =>
                  try_except (collect w opts) (fun _ => true) (handler opts) m1
              | (Ok false, m1) => (Ok false, m1)
              | (Raise e, m1) => handler opts e m1
              end = (Ok b, m') /\ Inv opts m' /\
              Permutation (packages m ++ due w opts Changed m)
                          (packages m' ++ due w opts Changed m') /\
              Permutation (erraneous m ++ due w opts Failed m)
                          (erraneous m' ++ due w opts Failed m') /\
              traced w opts m m' /\
              if b : bool then (measure w opts m' < measure w opts m)%nat
              else items m' = [] /\ processes m' = []).
  { intros Hc. rewrite (dispatch_idle w opts m Hs Hc).
    destruct (processes m) as [|i ps] eqn:Hp.
    - exists false, m. split; [reflexivity|]. split; [exact HI|].
      split; [reflexivity|]. split; [reflexivity|].
      split; [apply traced_refl|].
      split; [|exact Hp].
      destruct Hc as [Hc | Hc]; [exact Hc|].
      cbn in Hc. apply Z.ltb_ge in Hc. lia.
    - destruct (collect_step w opts m HI) as (m' & E & R1 & R2 & R3 & R4 & R5).
      { rewrite Hp. discriminate. }
      exists true, m'. auto 10. }
  destruct (items m) as [|[d v] rest] eqn:Hit; [apply Hidle; now left|].
  destruct (Z.of_nat (List.length (processes m)) <? jobs opts)%Z eqn:Hlt;
    [clear Hidle | apply Hidle; now right].
  destruct (dispatch_start w opts m d v rest Hs Hit Hlt)
    as (m1 & F & (e1 & Ht1 & Hev1 & Hsp1) & Hst).
  destruct F as (Fi & Fp & Fk & Fe & Fr & Fc & Fs & Fh & Fcls & Fcpv & Fenv).
  cbn in Fi, Fp, Fk, Fe, Fr, Fc, Fs, Fh, Fcls, Fcpv, Fenv.
  cbn in Hnd. inversion Hnd as [|x l Hnv Hnd']; subst x l.
  assert (Hnr : ~ In v (map snd rest))
    by (intros H; apply Hnv, in_or_app; now left).
  assert (Hnp : ~ In v (processes m))
    by (intros H; apply Hnv, in_or_app; now right).
  assert (HI0 : Inv opts m) by exact HI.
  assert (Hpopped : forall m' e2,
             sigint m' = None -> items m' = rest ->
             processes m' = processes m ->
             (forall j, j <> v -> heap m' j = heap m j) ->
             settled m m' (judge w opts (heap m v)) (cpv (heap m v)) ->
             trace m' = (trace m ++ e1 ++ e2)%list ->
             (e2 = [] \/
              exists d', getpath (distdir w) (heap m v) = Ok d' /\
                         end_events d' e2) ->
             Inv opts m' /\
             Permutation (packages m ++ due w opts Changed m)
                         (packages m' ++ due w opts Changed m') /\
             Permutation (erraneous m ++ due w opts Failed m)
                         (erraneous m' ++ due w opts Failed m') /\
             traced w opts m m' /\
             (measure w opts m' < measure w opts m)%nat).
  { intros m' e2 A1 A2 A3 A4 A5 A6 A7.
    destruct (pop_settled w opts m m' d v rest HI Hit A1 A2 A3 A4 A5)
      as (B1 & B2 & B3 & B4).
    repeat (split; [assumption|]). split; [|assumption].
    eapply popped_traced; eauto. }
  destruct (start_pure w opts (heap m v)) as [v'|e] eqn:Hsp.
  - destruct Hst as [Hv1 Hst].
    destruct (jobs opts =? 1)%Z eqn:Hj.
    + apply Z.eqb_eq in Hj. specialize (Hj1 Hj).
      destruct Hst as (m2 & F2 & Hv2 & (e2 & Ht2 & Hev2) & Hst).
      destruct F2 as (Gi & Gp & Gk & Ge & Gr & Gc & Gs & Gh & _ & Gcpv & _).
      assert (Hev2' : e2 = [] \/
                      exists d', getpath (distdir w) (heap m v) = Ok d' /\
                                 end_events d' e2).
      { destruct Hev2 as [-> | (d' & Hd' & He2)]; [now left | right].
        exists d'. split; [|exact He2].
        unfold getpath in *. now rewrite <- Fcls, <- Fenv. }
      destruct (end_pure w v') as [b|e] eqn:Hend; rewrite Hst.
      * destruct (collect_idle w opts (set_ret (Some b) m2))
          as (m' & E & Hh & Hi & Hsg & Hp & He & Hk & Ht).
        { cbn. congruence. }
        cbn in Hh, Hi, Hsg, He, Hk, Ht.
        exists true, m'. split; [exact E|].
        apply (Hpopped m' e2).
        -- congruence.
        -- congruence.
        -- congruence.
        -- intros j Hjv. rewrite Hh, Gh, Fh; auto.
        -- unfold judge. rewrite Hsp. unfold judge_started. rewrite Hend.
           rewrite Gc, Fc in Hk.
           destruct b; cbn; split; congruence.
        -- rewrite Ht, Ht2, Ht1. now rewrite app_assoc.
        -- exact Hev2'.
      * destruct (handler_exn opts e m2 (end_pure_exn _ _ _ Hend))
          as (m' & E & Hh & Hi & Hsg & Hk & He & Hp & Ht).
        exists true, m'. split; [exact E|].
        apply (Hpopped m' e2).
        -- congruence.
        -- congruence.
        -- rewrite Hp, Hj. cbn. congruence.
        -- intros j Hjv. rewrite Hh, Gh, Fh; auto.
        -- unfold judge. rewrite Hsp. unfold judge_started. rewrite Hend.
           rewrite Gc, Fc in He. cbn. split; congruence.
        -- rewrite Ht, Ht2, Ht1. now rewrite app_assoc.
        -- exact Hev2'.
    + rewrite Hst.
      set (m1' := set_processes (processes m1 ++ [v]) m1).
      assert (HI1 : Inv opts m1').
      { split; [cbn; congruence|]. split; [|split].
        - cbn. rewrite Fi, Fp.
          apply (Permutation_NoDup (l := v :: map snd rest ++ processes m));
            [|exact Hnd].
          rewrite app_assoc. apply Permutation_cons_append.
        - cbn. rewrite Fp. intros i Hi. apply in_app_or in Hi.
          destruct Hi as [Hi | [<- | []]].
          + rewrite Fh by (intros ->; contradiction). now apply Hrun.
          + rewrite Hv1. eapply start_pure_running; eauto.
        - intros E1. rewrite E1 in Hj. discriminate. }
      destruct (collect_step w opts m1' HI1)
        as (m' & E & HI2 & P1 & P2 & Hm & HT).
      { cbn. destruct (processes m1); discriminate. }
      exists true, m'. split; [exact E|]. split; [exact HI2|].
      assert (Hpop : forall X,
                 due w opts X m =
                 (due_item w opts X m (d, v) ++ due w opts X m1)%list /\
                 measure w opts m =
                 (2 + pending_polls w opts (heap m v) + measure w opts m1)%nat)
        by (intros X; apply pop_account with (rest := rest); auto).
      assert (Hpush : forall X,
                 due w opts X m1' =
                 (due w opts X m1
                  ++ (if verdict_eqb (judge_started w v') X
                      then cpv v' else []))%list /\
                 measure w opts m1' =
                 (measure w opts m1 + 1 + polls_of v')%nat).
      { intros X. apply (push_account w opts m1 m1' v v' X); auto.
        - now rewrite Fi.
        - now rewrite Fp. }
      assert (Hdue : forall X, Permutation (due w opts X m) (due w opts X m1')).
      { intros X. destruct (Hpop X) as [-> _]. destruct (Hpush X) as [-> _].
        unfold due_item. cbn [snd].
        rewrite (judge_started_of_start w opts _ _ Hsp).
        rewrite <- Hv1, Fcpv. apply Permutation_app_comm. }
      assert (HT1 : traced w opts m m1').
      { apply (pushed_traced w opts m m1' d v rest e1); auto.
        cbn. now rewrite Fp. }
      split; [|split; [|split; [|]]].
      * rewrite <- P1. cbn. rewrite Fk.
        apply Permutation_app_head, Hdue.
      * rewrite <- P2. cbn. rewrite Fe.
        apply Permutation_app_head, Hdue.
      * eapply traced_trans; eauto.
      * destruct (Hpop Changed) as [_ ->]. destruct (Hpush Changed) as [_ Hm1].
        unfold pending_polls. rewrite Hsp. lia.
  - rewrite Hst.
    destruct (handler_exn opts e m1 (start_pure_exn _ _ _ _ Hsp))
      as (m' & E & Hh & Hi & Hsg & Hk & He & Hp & Ht).
    exists true, m'. split; [exact E|].
    assert (Hmem : mem (cur m1) (processes m1) = false).
    { rewrite Fc, Fp. destruct (mem v (processes m)) eqn:M; [|reflexivity].
      apply mem_spec in M. contradiction. }
    rewrite Hmem, andb_false_r in Hp.
    apply (Hpopped m' []).
    + congruence.
    + congruence.
    + congruence.
    + intros j Hjv. rewrite Hh, Fh; auto.
    + unfold judge. rewrite Hsp. rewrite Fc in He. cbn. split; congruence.
    + rewrite Ht, Ht1. now rewrite app_nil_r.
    + now left.
Qed.

End TurnInvariant.

(** ** The whole loop, without a signal *)

Section LoopSpec.

Variable w : world.
Variable opts : options.
Hypothesis Hjobs : (1 <= jobs opts)%Z.

(** With more fuel than the measure, the loop ends, without an exception
    and with nothing left to do; what was due has arrived. *)
Lemma loop_spec fuel :
  forall m,
    Inv opts m -> (measure w opts m < fuel)%nat ->
    exists m',
      loop w opts fuel m = Some (Ok tt, m') /\
      items m' = [] /\ processes m' = [] /\
      Permutation (packages m ++ due w opts Changed m) (packages m') /\
      Permutation (erraneous m ++ due w opts Failed m) (erraneous m') /\
      traced w opts m m'.
Proof.
  induction fuel as [|fuel IH]; intros m HI Hm; [lia|].
  destruct (turn_spec w opts Hjobs m HI)
    as (b & m1 & E & HI1 & P1 & P2 & HT & Hb).
  cbn [loop]. rewrite E. destruct b.
  - destruct (IH m1 HI1) as (m' & El & Hi & Hp & Q1 & Q2 & HT'); [lia|].
    exists m'. repeat (split; [assumption|]).
    split; [now rewrite P1|]. split; [now rewrite P2|].
    eapply traced_trans; eauto.
  - destruct Hb as [Hi Hp].
    assert (Hd : forall X, due w opts X m1 = [])
      by (intros X; unfold due; now rewrite Hi, Hp).
    rewrite !Hd, !app_nil_r in P1, P2.
    exists m1. auto 10.
Qed.

End LoopSpec.

(** ** The state in which the loop is entered *)

Lemma map_snd_combine_seq {A} (keys : list A) start :
  map snd (combine keys (seq start (List.length keys)))
  = seq start (List.length keys).
Proof.
  revert start. induction keys as [|k keys IH]; intros start; cbn;
    [reflexivity|]. now rewrite IH.
Qed.

Section InitialFacts.

Variable w : world.
Variable opts : options.

Lemma initial_inv sc : Inv opts (initial sc None).
Proof.
  split; [reflexivity|]. split; [|split].
  - cbn. rewrite app_nil_r.
    replace (List.length (sc_rebuilds sc))
      with (List.length (map fst (sc_rebuilds sc))) by apply length_map.
    rewrite map_snd_combine_seq. apply seq_NoDup.
  - intros i [].
  - reflexivity.
Qed.

Lemma due_items_initial X (h : nat -> vcs) :
  forall (tasks : list vcs) (keys : list string) start,
    List.length keys = List.length tasks ->
    (forall i, (i < List.length tasks)%nat ->
               h (start + i)%nat = nth i tasks no_vcs) ->
    flat_map (fun kv : string * nat =>
                if verdict_eqb (judge w opts (h (snd kv))) X
                then cpv (h (snd kv)) else [])
             (combine keys (seq start (List.length tasks)))
    = cpvs_judged w opts X tasks.
Proof.
  induction tasks as [|t tasks IH]; intros keys start Hl Hh.
  - destruct keys; reflexivity.
  - destruct keys as [|k keys]; [discriminate|]. cbn in Hl.
    cbn [List.length seq combine flat_map snd].
    pose proof (Hh O (Nat.lt_0_succ _)) as H0.
    rewrite Nat.add_0_r in H0. cbn in H0. rewrite H0.
    rewrite (IH keys (S start)).
    + unfold cpvs_judged. cbn [filter].
      destruct (verdict_eqb (judge w opts t) X); reflexivity.
    + lia.
    + intros i Hi. replace (S start + i)%nat with (start + S i)%nat by lia.
      apply (Hh (S i)). cbn. lia.
Qed.

Lemma due_initial X sc :
  due w opts X (initial sc None) = cpvs_judged w opts X (tasks_of sc).
Proof.
  unfold due, due_item, tasks_of. cbn [initial items processes heap flat_map].
  rewrite app_nil_r.
  replace (List.length (sc_rebuilds sc))
    with (List.length (map snd (sc_rebuilds sc))) by apply length_map.
  apply (due_items_initial X
           (fun i => nth i (map snd (sc_rebuilds sc)) no_vcs)).
  - now rewrite !length_map.
  - intros i _. reflexivity.
Qed.

End InitialFacts.

(** ** The result of the update loop *)

Section JobsDoNotMatter.

Variable w : world.

Lemma judge_with_jobs n o v : judge w (with_jobs n o) v = judge w o v.
Proof. reflexivity. Qed.

Lemma cpvs_judged_with_jobs n o X tasks :
  cpvs_judged w (with_jobs n o) X tasks = cpvs_judged w o X tasks.
Proof. reflexivity. Qed.

Lemma measure_with_jobs n o m : measure w (with_jobs n o) m = measure w o m.
Proof. reflexivity. Qed.

End JobsDoNotMatter.

(** Without a signal and with at least one job, the loop ends, and its
    result is made of the identifiers of the tasks judged changed, and of
    the erraneous packages of the enumeration followed by the identifiers
    of the tasks judged failed. *)
Lemma update_all_spec w opts sc fuel :
  (1 <= jobs opts)%Z ->
  (measure w opts (initial sc None) < fuel)%nat ->
  exists r,
    update_all w opts sc None fuel = Some (Ok r) /\
    Permutation (pd_packages r) (cpvs_judged w opts Changed (tasks_of sc)) /\
    Permutation (pd_erraneous r)
                (sc_erraneous sc ++ cpvs_judged w opts Failed (tasks_of sc)).
Proof.
  intros Hj Hf.
  destruct (loop_spec w opts Hj fuel (initial sc None) (initial_inv opts sc) Hf)
    as (m' & E & _ & _ & P1 & P2 & _).
  unfold update_all. rewrite E. eexists. split; [reflexivity|].
  rewrite !due_initial in *. cbn in *. split; symmetry; assumption.
Qed.

(** C1: for every scan, every world and every number of jobs [n >= 1],
    the update loop run with [n] jobs and run with one job both end, and
    the updated identifiers of the two results are the same up to order,
    and so are the erraneous ones. *)
Theorem jobs_do_not_change_the_result :
  forall (w : world) (opts : options) (sc : scan) (n : Z) (fuel : nat),
    (1 <= n)%Z ->
    (measure w opts (initial sc None) < fuel)%nat ->
    exists rn r1,
      update_all w (with_jobs n opts) sc None fuel = Some (Ok rn) /\
      update_all w (with_jobs 1 opts) sc None fuel = Some (Ok r1) /\
      Permutation (pd_packages rn) (pd_packages r1) /\
      Permutation (pd_erraneous rn) (pd_erraneous r1).
Proof.
  intros w opts sc n fuel Hn Hf.
  destruct (update_all_spec w (with_jobs n opts) sc fuel Hn Hf)
    as (rn & En & Pn & Qn).
  destruct (update_all_spec w (with_jobs 1 opts) sc fuel (Z.le_refl 1) Hf)
    as (r1 & E1 & P1 & Q1).
  exists rn, r1. repeat (split; [assumption|]).
  rewrite cpvs_judged_with_jobs in Pn, Qn, P1, Q1.
  split; [now rewrite Pn, P1 | now rewrite Qn, Q1].
Qed.

Lemma jobs_do_not_change_the_result_witness :
  exists rn r1,
    update_all Sample.demo_world (with_jobs 3 Sample.one_job)
               Sample.demo_scan None 20 = Some (Ok rn) /\
    update_all Sample.demo_world (with_jobs 1 Sample.one_job)
               Sample.demo_scan None 20 = Some (Ok r1) /\
    Permutation (pd_packages rn) (pd_packages r1) /\
    Permutation (pd_erraneous rn) (pd_erraneous r1).
Proof.
  apply (jobs_do_not_change_the_result
           Sample.demo_world Sample.one_job Sample.demo_scan 3 20).
  - lia.
  - vm_compute. lia.
Defined.

Lemma cpvs_judged_app w opts X l1 l2 :
  cpvs_judged w opts X (l1 ++ l2) =
  (cpvs_judged w opts X l1 ++ cpvs_judged w opts X l2)%list.
Proof. unfold cpvs_judged. now rewrite filter_app, flat_map_app. Qed.

Lemma cpvs_judged_in w opts X t tasks x :
  In t tasks -> judge w opts t = X -> In x (cpv t) ->
  In x (cpvs_judged w opts X tasks).
Proof.
  intros Ht Hj Hx. unfold cpvs_judged. apply in_flat_map. exists t.
  split; [|assumption]. apply filter_In. split; [assumption|].
  rewrite Hj. now destruct X.
Qed.

Lemma verdict_eqb_eq a b : verdict_eqb a b = true <-> a = b.
Proof. destruct a, b; cbn; split; congruence. Qed.

(** A child that ends with another status than 0 makes [end_pure]
    raise the exception of [endupdate]. *)
Lemma end_pure_failed w t p :
  subprocess t = Some (Some p) -> returncode p <> 0%Z ->
  end_pure w t = Raise UpdateFailed.
Proof.
  intros Hsp Hrc. unfold end_pure. rewrite Hsp.
  destruct (Z.eqb_spec (returncode p) 0); [contradiction|reflexivity].
Qed.

(** C3: a task whose child ends with a status other than 0.  Resolving
    it, [endupdate] raises the exception for a failed update command; in
    the run as a whole every identifier of the task is in the erraneous
    sequence, the updated sequence is made of identifiers of the other
    tasks only, and the other tasks are all brought to their end: the
    erraneous sequence holds those of the enumeration and the identifiers
    of all the tasks judged failed. *)
Theorem failed_update_is_erraneous :
  forall (w : world) (opts : options) (sc : scan) (fuel : nat)
         (t t' : vcs) (p : popen),
    (1 <= jobs opts)%Z ->
    (measure w opts (initial sc None) < fuel)%nat ->
    In t (tasks_of sc) ->
    start_pure w opts t = Ok t' ->
    subprocess t' = Some (Some p) ->
    returncode p <> 0%Z ->
    (forall i blocking m,
        sigint m = None -> heap m i = t' -> ready blocking t' ->
        fst (endupdate w opts i blocking m) = Raise UpdateFailed) /\
    exists r before after,
      update_all w opts sc None fuel = Some (Ok r) /\
      (forall x, In x (cpv t) -> In x (pd_erraneous r)) /\
      tasks_of sc = (before ++ t :: after)%list /\
      Permutation (pd_packages r)
                  (cpvs_judged w opts Changed (before ++ after)) /\
      Permutation (pd_erraneous r)
                  (sc_erraneous sc
                   ++ cpvs_judged w opts Failed (tasks_of sc)).
Proof.
  intros w opts sc fuel t t' p Hj Hf Hin Hst Hsp Hrc.
  pose proof (end_pure_failed w t' p Hsp Hrc) as Hend.
  assert (Hjudge : judge w opts t = Failed).
  { unfold judge. rewrite Hst. unfold judge_started. now rewrite Hend. }
  split.
  - intros i blocking m Hs Hh Hr.
    destruct (endupdate_ready w opts i blocking m Hs) as (m' & evs & E & _).
    + now rewrite Hh.
    + intros _. rewrite Hh.
      destruct (start_pure_running w opts t t' Hst) as [Hstr _]. exact Hstr.
    + rewrite E. cbn. now rewrite Hh, Hend.
  - destruct (update_all_spec w opts sc fuel Hj Hf) as (r & E & P & Q).
    destruct (in_split _ _ Hin) as (before & after & Hsplit).
    exists r, before, after. split; [exact E|]. split; [|split; [exact Hsplit|]].
    + intros x Hx. apply (Permutation_in x (Permutation_sym Q)).
      apply in_or_app. right. eapply cpvs_judged_in; eauto.
    + split; [|exact Q]. rewrite P, Hsplit, !cpvs_judged_app.
      apply Permutation_app_head.
      unfold cpvs_judged at 1. cbn [filter]. rewrite Hjudge. reflexivity.
Qed.

Lemma failed_update_is_erraneous_witness :
  exists r,
    update_all Sample.demo_world Sample.three_jobs Sample.demo_scan None 20
      = Some (Ok r) /\
    In "x/c-1" (pd_erraneous r).
Proof.
  pose (t := nth 2 (tasks_of Sample.demo_scan) no_vcs).
  pose (t' := match start_pure Sample.demo_world Sample.three_jobs t with
              | Ok v => v
              | Raise _ => no_vcs
              end).
  destruct (failed_update_is_erraneous
              Sample.demo_world Sample.three_jobs Sample.demo_scan 20
              t t' (mkPopen 0 1 false))
    as [_ (r & before & after & E & Hin & _)].
  - cbn. lia.
  - vm_compute. lia.
  - vm_compute. auto.
  - reflexivity.
  - reflexivity.
  - discriminate.
  - exists r. split; [exact E|]. apply Hin. vm_compute. auto.
Defined.

(** ** The parent's end of the pipe *)

(** C6, as the code has it: when the child has written nothing,
    [pickle.load] raises [EOFError], which the parent catches; the parent
    then returns 1 at once: apart from the signal to the child of the
    [finally] clause it does nothing, whatever the options. *)
Theorem parent_returns_1_on_empty_pipe :
  forall (opts : options) (args : list string),
    pickle_load None = Raise EOFError /\
    parent_main opts args None = ([KillChild], Returned 1).
Proof. intros opts args. split; reflexivity. Qed.

(** C6 as it is stated fails: a parent that went on with an empty result
    would say that no updates were found and return 0; the parent that
    finds the pipe empty says nothing and returns 1. *)
Lemma parent_does_not_go_on_with_empty_result :
  finish Sample.one_job [] (mkPdata [] [])
    = ([Say (s1 "No updates found")], Returned 0) /\
  parent_main Sample.one_job [] (Some (mkPdata [] []))
    = ([Say (s1 "No updates found"); KillChild], Returned 0) /\
  parent_main Sample.one_job [] None = ([KillChild], Returned 1).
Proof. repeat split. Qed.

(** ** What the enumeration puts where *)

Lemma VCSSupport_init_fields c p out v :
  VCSSupport_init c p out = Ok v ->
  cls v = c /\ cpv v = [p] /\ oldrev v = None /\ subprocess v = None /\
  env v = bashparse (reqenv c ++ optenv c) out.
Proof.
  unfold VCSSupport_init.
  destruct (missingvars _ _) as [[|x m]|]; cbn; intros H;
    [|discriminate H|discriminate H].
  inversion H; subst. cbn. auto.
Qed.

Lemma vcs_init_base c p out v :
  vcs_init c p out = Ok v -> VCSSupport_init c p out = Ok v.
Proof.
  unfold vcs_init. destruct (VCSSupport_init c p out) as [self|]; cbn;
    [|discriminate].
  destruct c;
    repeat match goal with
           | |- context [rbind ?m _] => destruct m; cbn; try discriminate
           | |- context [if ?b then _ else _] => destruct b; try discriminate
           end; congruence.
Qed.

Lemma vcs_init_fields c p out v :
  vcs_init c p out = Ok v ->
  cls v = c /\ cpv v = [p] /\ oldrev v = None /\ subprocess v = None /\
  env v = bashparse (reqenv c ++ optenv c) out.
Proof. intros H. now apply VCSSupport_init_fields, vcs_init_base. Qed.

Lemma rebuilds_get_ids rb d old x :
  rebuilds_get rb d = Some old -> In x (cpv old) -> In x (rebuilds_ids rb).
Proof.
  induction rb as [|[k v] rb IH]; cbn; [discriminate|].
  destruct (String.eqb k d).
  - intros H Hx. inversion H; subst. apply in_or_app. now left.
  - intros H Hx. apply in_or_app. right. now apply IH.
Qed.

Lemma rebuilds_put_ids rb d v x :
  In x (rebuilds_ids (rebuilds_put rb d v)) ->
  In x (rebuilds_ids rb) \/ In x (cpv v).
Proof.
  induction rb as [|[k v'] rb IH]; cbn.
  - rewrite app_nil_r. auto.
  - destruct (String.eqb k d); cbn; intros H; apply in_app_or in H.
    + destruct H as [H|H]; [now right | left; apply in_or_app; now right].
    + destruct H as [H|H]; [left; apply in_or_app; now left|].
      destruct (IH H) as [H'|H']; [left; apply in_or_app; now right | now right].
Qed.

Section EnumerationIds.

Variable dd : string.
Variable opts : options.

Lemma enum_class_ids p c rb rb' x :
  enum_class dd opts p c rb = Ok rb' ->
  In x (rebuilds_ids rb') -> In x (rebuilds_ids rb) \/ x = p_cpv p.
Proof.
  unfold enum_class. destruct (vcs_match c (p_inherits p)).
  2:{ intros H. inversion H; subst. auto. }
  destruct (vcs_init c (p_cpv p) _) as [v|] eqn:Hv; cbn; [|discriminate].
  destruct (vcs_init_fields _ _ _ _ Hv) as (Hc & Hp & _).
  destruct (if network opts then Ok true
            else r <~ getsavedrev v;; Ok (truthy r)) as [[|]|];
    cbn; try discriminate.
  2:{ intros H. inversion H; subst. auto. }
  destruct (getpath dd v) as [d|]; cbn; [|discriminate].
  destruct (rebuilds_get rb d) as [old|] eqn:Hg.
  - unfold append. destruct (negb (class_eqb (cls v) (cls old))); cbn;
      [discriminate|]. rewrite Hp. cbn.
    intros H Hx. inversion H; subst.
    apply rebuilds_put_ids in Hx. cbn in Hx.
    destruct Hx as [Hx | Hx]; [now left|].
    apply in_app_or in Hx. destruct Hx as [Hx | [<- | []]]; [|now right].
    left. eapply rebuilds_get_ids; eauto.
  - intros H Hx. inversion H; subst. unfold rebuilds_ids in Hx.
    rewrite flat_map_app in Hx. cbn in Hx. rewrite app_nil_r, Hp in Hx.
    apply in_app_or in Hx. destruct Hx as [Hx | [<- | []]]; auto.
Qed.

Lemma enum_classes_ids p cs :
  forall rb x,
    In x (rebuilds_ids (snd (enum_classes dd opts p cs rb))) ->
    In x (rebuilds_ids rb) \/ x = p_cpv p.
Proof.
  induction cs as [|c cs IH]; intros rb x; cbn; [auto|].
  destruct (enum_class dd opts p c rb) as [rb'|e] eqn:E; cbn; [|auto].
  intros H. destruct (IH _ _ H) as [H' | H']; [|now right].
  eapply enum_class_ids; eauto.
Qed.

(** A turn of the enumeration adds no identifier but that of its
    package. *)
Lemma enum_package_ids p s x :
  In x (scan_ids (enum_package dd opts p s)) ->
  In x (scan_ids s) \/ x = p_cpv p.
Proof.
  unfold enum_package, scan_ids.
  pose proof (enum_classes_ids p (vcslf (opt_type opts)) (sc_rebuilds s) x)
    as H.
  destruct (enum_classes dd opts p _ _) as [[u|e] rb]; cbn in *.
  - intros Hx. apply in_app_or in Hx. destruct Hx as [Hx|Hx].
    + destruct (H Hx); [left; apply in_or_app; now left | now right].
    + left. apply in_or_app. now right.
  - destruct e; cbn; intros Hx; apply in_app_or in Hx;
      (destruct Hx as [Hx|Hx];
       [destruct (H Hx); [left; apply in_or_app; now left | now right]|]);
      try (left; apply in_or_app; now right);
      apply in_app_or in Hx; destruct Hx as [Hx | [<- | []]];
      try (now right); left; apply in_or_app; now right.
Qed.

Lemma enumerate_from_ids db :
  forall s x,
    In x (scan_ids (fold_left (fun s p => enum_package dd opts p s) db s)) ->
    In x (scan_ids s) \/ exists q, In q db /\ x = p_cpv q.
Proof.
  induction db as [|p db IH]; intros s x; cbn; [auto|].
  intros H. destruct (IH _ _ H) as [H' | (q & Hq & ->)].
  - destruct (enum_package_ids _ _ _ H') as [H''| ->]; [now left|].
    right. exists p. auto.
  - right. exists q. auto.
Qed.

(** The erraneous packages of a scan stay. *)
Lemma enum_package_keeps_erraneous p s x :
  In x (sc_erraneous s) -> In x (sc_erraneous (enum_package dd opts p s)).
Proof.
  unfold enum_package.
  destruct (enum_classes dd opts p _ _) as [[u|e] rb]; cbn; [auto|].
  destruct e; cbn; auto; intros H; apply in_or_app; now left.
Qed.

Lemma enumerate_from_keeps_erraneous db :
  forall s x,
    In x (sc_erraneous s) ->
    In x (sc_erraneous (fold_left (fun s p => enum_package dd opts p s) db s)).
Proof.
  induction db as [|p db IH]; intros s x H; cbn; [assumption|].
  apply IH. now apply enum_package_keeps_erraneous.
Qed.

End EnumerationIds.

Lemma cpvs_judged_ids w opts X sc x :
  In x (cpvs_judged w opts X (tasks_of sc)) ->
  In x (rebuilds_ids (sc_rebuilds sc)).
Proof.
  unfold cpvs_judged, tasks_of, rebuilds_ids. intros H.
  apply in_flat_map in H as (t & Ht & Hx).
  apply filter_In in Ht as [Ht _].
  apply in_map_iff in Ht as (kv & <- & Hkv).
  apply in_flat_map. eauto.
Qed.

(** The identifiers of the result are identifiers of the scan. *)
Lemma update_all_ids w opts sc fuel :
  (1 <= jobs opts)%Z ->
  (measure w opts (initial sc None) < fuel)%nat ->
  exists r,
    update_all w opts sc None fuel = Some (Ok r) /\
    (forall x, In x (pd_packages r) -> In x (scan_ids sc)) /\
    (forall x, In x (pd_erraneous r) -> In x (scan_ids sc)) /\
    (forall x, In x (sc_erraneous sc) -> In x (pd_erraneous r)).
Proof.
  intros Hj Hf.
  destruct (update_all_spec w opts sc fuel Hj Hf) as (r & E & P & Q).
  exists r. split; [exact E|]. unfold scan_ids. split; [|split].
  - intros x Hx. apply (Permutation_in x P) in Hx.
    apply in_or_app. left. eapply cpvs_judged_ids; eauto.
  - intros x Hx. apply (Permutation_in x Q) in Hx.
    apply in_app_or in Hx. apply in_or_app.
    destruct Hx as [Hx|Hx]; [now right | left].
    eapply cpvs_judged_ids; eauto.
  - intros x Hx. apply (Permutation_in x (Permutation_sym Q)).
    apply in_or_app. now left.
Qed.

Lemma enumerate_nil dd opts : scan_ids (enumerate dd opts []) = [].
Proof. reflexivity. Qed.

Lemma enumerate_ids dd opts db x :
  In x (scan_ids (enumerate dd opts db)) -> exists q, In q db /\ x = p_cpv q.
Proof.
  unfold enumerate. intros H.
  destruct (enumerate_from_ids dd opts db _ _ H) as [[] | H']. exact H'.
Qed.

(** C7, as the code has it: a package whose first matching class finds
    it pinned ([NonLiveEbuild]) is left out of [rebuilds] and out of
    [erraneous], one line naming it is written with [out.err], and the
    enumeration goes on with the next package; if no other package has
    its identifier, the identifier is in neither sequence of the result
    of the run. *)
Theorem non_live_package_is_logged_and_left_out :
  forall (w : world) (dd : string) (opts : options)
         (before after : list package) (p : package)
         (c : vcs_class) (others : list vcs_class) (msg : string)
         (fuel : nat),
    matching p (vcslf (opt_type opts)) = c :: others ->
    construct p c = Raise (NonLiveEbuild msg) ->
    (forall q, In q (before ++ after) -> p_cpv q <> p_cpv p) ->
    (1 <= jobs opts)%Z ->
    (measure w opts
       (initial (enumerate dd opts (before ++ p :: after)) None) < fuel)%nat ->
    (forall s,
        enum_package dd opts p s =
        mkScan (sc_rebuilds s) (sc_erraneous s)
               (sc_log s ++ [err (p_cpv p ++ ": " ++ msg)])) /\
    enumerate dd opts (before ++ p :: after) =
      fold_left (fun s q => enum_package dd opts q s) after
                (enum_package dd opts p (enumerate dd opts before)) /\
    exists r,
      update_all w opts (enumerate dd opts (before ++ p :: after)) None fuel
        = Some (Ok r) /\
      ~ In (p_cpv p) (pd_packages r) /\ ~ In (p_cpv p) (pd_erraneous r).
Proof.
  intros w dd opts before after p c others msg fuel Hm Hc Hother Hj Hf.
  assert (Hstep : forall s,
             enum_package dd opts p s =
             mkScan (sc_rebuilds s) (sc_erraneous s)
                    (sc_log s ++ [err (p_cpv p ++ ": " ++ msg)])).
  { intros s. unfold enum_package.
    now rewrite (enum_classes_first_raises dd opts p _ _ c others _ Hm Hc). }
  assert (Hcont : enumerate dd opts (before ++ p :: after) =
                  fold_left (fun s q => enum_package dd opts q s) after
                    (enum_package dd opts p (enumerate dd opts before)))
    by (rewrite enumerate_app; reflexivity).
  split; [exact Hstep|]. split; [exact Hcont|].
  assert (Hout : ~ In (p_cpv p)
                      (scan_ids (enumerate dd opts (before ++ p :: after)))).
  { rewrite Hcont. intros H.
    apply enumerate_from_ids in H as [H | (q & Hq & E)].
    - rewrite Hstep in H. unfold scan_ids in H. cbn in H.
      apply (enumerate_ids dd opts before) in H as (q & Hq & E).
      apply (Hother q); [apply in_or_app; now left | now symmetry].
    - apply (Hother q); [apply in_or_app; now right | now symmetry]. }
  destruct (update_all_ids w opts _ fuel Hj Hf) as (r & E & Hp & He & _).
  exists r. split; [exact E|]. split; intros H; apply Hout; auto.
Qed.

Lemma non_live_package_is_logged_and_left_out_witness :
  exists r,
    update_all (Sample.world_at "7") Sample.one_job
      (enumerate "/distfiles" Sample.one_job
         [Sample.git_package "dev-vcs/pinned-9999" "pinned" "v1.0";
          Sample.svn_package "dev-util/foo-9999" "/wc" "svn://host/foo" "5"])
      None 10 = Some (Ok r) /\
    ~ In "dev-vcs/pinned-9999" (pd_packages r) /\
    ~ In "dev-vcs/pinned-9999" (pd_erraneous r).
Proof.
  destruct (non_live_package_is_logged_and_left_out
              (Sample.world_at "7") "/distfiles" Sample.one_job []
              [Sample.svn_package "dev-util/foo-9999" "/wc" "svn://host/foo" "5"]
              (Sample.git_package "dev-vcs/pinned-9999" "pinned" "v1.0")
              GitSupport []
              "EGIT_COMMIT set, package is not really a live one" 10)
    as (_ & _ & r & E & H).
  - reflexivity.
  - reflexivity.
  - intros q [<- | []]. discriminate.
  - cbn. lia.
  - vm_compute. lia.
  - exists r. split; [exact E | exact H].
Defined.

(** C7 as it is stated fails: the pinned package gets a line of
    [out.err]. *)
Lemma non_live_package_gets_an_error_line :
  enumerate "/distfiles" Sample.one_job
    [Sample.git_package "dev-vcs/pinned-9999" "pinned" "v1.0"]
  = mkScan [] []
      [s1 "Enumerating the packages ...";
       err "dev-vcs/pinned-9999: EGIT_COMMIT set, package is not really a live one"].
Proof. reflexivity. Qed.

(** C8, as the code has it: when the parsed environment of a package
    leaves a variable its first matching class requires absent or empty,
    the constructor raises [KeyError]; the package is left out of
    [rebuilds], a line naming it is written with [out.err], and its
    identifier is appended to [erraneous], so that it is in the erraneous
    sequence of the result of the run. *)
Theorem missing_variable_is_logged_and_erraneous :
  forall (w : world) (dd : string) (opts : options)
         (before after : list package) (p : package)
         (c : vcs_class) (others : list vcs_class) (v : string)
         (fuel : nat),
    matching p (vcslf (opt_type opts)) = c :: others ->
    In v (reqenv c) ->
    (let e := bashparse (reqenv c ++ optenv c)
                        (p_bash p (reqenv c ++ optenv c)) in
     lookup e v = None \/ lookup e v = Some "") ->
    (1 <= jobs opts)%Z ->
    (measure w opts
       (initial (enumerate dd opts (before ++ p :: after)) None) < fuel)%nat ->
    construct p c = Raise KeyError /\
    (forall s,
        enum_package dd opts p s =
        mkScan (sc_rebuilds s) (sc_erraneous s ++ [p_cpv p])
               (sc_log s ++ [err ("Error enumerating " ++ p_cpv p)])) /\
    exists r,
      update_all w opts (enumerate dd opts (before ++ p :: after)) None fuel
        = Some (Ok r) /\
      In (p_cpv p) (pd_erraneous r).
Proof.
  intros w dd opts before after p c others v fuel Hm Hv Hl Hj Hf.
  cbv zeta in Hl.
  destruct (init_raises_on_missing c (p_cpv p) _ v Hv Hl) as [_ Hc].
  fold (construct p c) in Hc.
  assert (Hstep : forall s,
             enum_package dd opts p s =
             mkScan (sc_rebuilds s) (sc_erraneous s ++ [p_cpv p])
                    (sc_log s ++ [err ("Error enumerating " ++ p_cpv p)])).
  { intros s. unfold enum_package.
    now rewrite (enum_classes_first_raises dd opts p _ _ c others _ Hm Hc). }
  split; [exact Hc|]. split; [exact Hstep|].
  destruct (update_all_ids w opts _ fuel Hj Hf) as (r & E & _ & _ & He).
  exists r. split; [exact E|]. apply He.
  rewrite enumerate_app. cbn [fold_left].
  apply enumerate_from_keeps_erraneous. rewrite Hstep. cbn.
  apply in_or_app. right. now left.
Qed.

Lemma missing_variable_is_logged_and_erraneous_witness :
  exists r,
    update_all (Sample.world_at "7") Sample.one_job
      (enumerate "/distfiles" Sample.one_job
         [Sample.svn_package "dev-util/nowc-9999" "" "svn://host/nowc" "5";
          Sample.svn_package "dev-util/foo-9999" "/wc" "svn://host/foo" "5"])
      None 10 = Some (Ok r) /\
    In "dev-util/nowc-9999" (pd_erraneous r).
Proof.
  destruct (missing_variable_is_logged_and_erraneous
              (Sample.world_at "7") "/distfiles" Sample.one_job []
              [Sample.svn_package "dev-util/foo-9999" "/wc" "svn://host/foo" "5"]
              (Sample.svn_package "dev-util/nowc-9999" "" "svn://host/nowc" "5")
              SvnSupport [] "ESVN_WC_PATH" 10)
    as (_ & _ & r & E & H).
  - reflexivity.
  - cbn. auto.
  - right. reflexivity.
  - cbn. lia.
  - vm_compute. lia.
  - exists r. split; [exact E | exact H].
Defined.

(** C8 as it is stated fails: the identifier of a package without its
    [ESVN_WC_PATH] is put into [erraneous]. *)
Lemma missing_variable_package_is_put_in_erraneous :
  enumerate "/distfiles" Sample.one_job
    [Sample.svn_package "dev-util/nowc-9999" "" "svn://host/nowc" "5"]
  = mkScan [] ["dev-util/nowc-9999"]
      [s1 "Enumerating the packages ...";
       err "Error enumerating dev-util/nowc-9999"].
Proof. reflexivity. Qed.

(** ** The dictionary [rebuilds] *)

Lemma rebuilds_get_none rb d :
  rebuilds_get rb d = None <-> ~ In d (map fst rb).
Proof.
  induction rb as [|[k v] rb IH]; cbn; [tauto|].
  destruct (String.eqb_spec k d) as [-> | N].
  - split; [discriminate | intros H; exfalso; apply H; now left].
  - rewrite IH. split; [intros H [E | Hin]; [contradiction | auto] | tauto].
Qed.

Lemma rebuilds_get_in rb d t : rebuilds_get rb d = Some t -> In (d, t) rb.
Proof.
  induction rb as [|[k v] rb IH]; cbn; [discriminate|].
  destruct (String.eqb_spec k d) as [-> | N].
  - intros H. inversion H. now left.
  - intros H. right. now apply IH.
Qed.

Lemma rebuilds_put_keys rb d v :
  In d (map fst rb) -> map fst (rebuilds_put rb d v) = map fst rb.
Proof.
  induction rb as [|[k x] rb IH]; cbn; [contradiction|].
  destruct (String.eqb_spec k d) as [-> | N]; [reflexivity|].
  intros [E | H]; [contradiction|]. cbn. f_equal. now apply IH.
Qed.

Lemma rebuilds_put_in rb d v k x :
  In (k, x) (rebuilds_put rb d v) -> (k = d /\ x = v) \/ In (k, x) rb.
Proof.
  induction rb as [|[k' x'] rb IH]; cbn.
  - intros [H | []]. inversion H. auto.
  - destruct (String.eqb_spec k' d) as [-> | N]; cbn.
    + intros [H | H]; [inversion H; auto | auto].
    + intros [H | H]; [auto|]. destruct (IH H); auto.
Qed.

Lemma rebuilds_get_put rb d v d' :
  In d (map fst rb) ->
  rebuilds_get (rebuilds_put rb d v) d' =
  if String.eqb d d' then Some v else rebuilds_get rb d'.
Proof.
  induction rb as [|[k x] rb IH]; cbn; [contradiction|].
  destruct (String.eqb_spec k d) as [-> | N]; cbn.
  - intros _. destruct (String.eqb_spec d d'); reflexivity.
  - intros [E | H]; [contradiction|].
    destruct (String.eqb_spec k d') as [-> | N'].
    + destruct (String.eqb_spec d d'); [congruence | reflexivity].
    + now apply IH.
Qed.

Lemma rebuilds_get_app (rb : rebuilds_t) d' v d :
  rebuilds_get (rb ++ [(d', v)])%list d =
  match rebuilds_get rb d with
  | Some t => Some t
  | None => if String.eqb d' d then Some v else None
  end.
Proof.
  induction rb as [|[k x] rb IH]; cbn; [reflexivity|].
  destruct (String.eqb k d); [reflexivity | exact IH].
Qed.

Lemma rebuilds_get_keys rb d t :
  rebuilds_get rb d = Some t -> In d (map fst rb).
Proof.
  intros H. apply rebuilds_get_in in H.
  apply in_map_iff. exists (d, t). auto.
Qed.

Lemma append_ok old v merged :
  append old v = Ok merged ->
  cls v = cls old /\
  exists p rest,
    cpv v = p :: rest /\
    merged = mkVcs (cls old) (cpv old ++ [p]) (env old) (oldrev old)
                   (subprocess old).
Proof.
  unfold append. destruct (class_eqb (cls v) (cls old)) eqn:E; cbn;
    [|discriminate].
  destruct (cpv v) as [|p rest]; [discriminate|].
  intros H. inversion H. split; [|eauto].
  destruct (cls v), (cls old); try discriminate; reflexivity.
Qed.

Section EnumerationInvariants.

Variable dd : string.
Variable opts : options.

(** What the body of [for vcs in vcslf] does to [rebuilds]: nothing, a
    new entry under a new key, or one more identifier under an old key. *)
Lemma enum_class_cases p c rb rb' :
  enum_class dd opts p c rb = Ok rb' ->
  rb' = rb \/
  (exists v d,
      construct p c = Ok v /\ getpath dd v = Ok d /\
      ((rebuilds_get rb d = None /\ rb' = (rb ++ [(d, v)])%list) \/
       (exists old,
           rebuilds_get rb d = Some old /\ cls old = c /\
           rb' = rebuilds_put rb d
                   (mkVcs (cls old) (cpv old ++ [p_cpv p]) (env old)
                          (oldrev old) (subprocess old))))).
Proof.
  unfold enum_class, construct.
  destruct (vcs_match c (p_inherits p)); [|intros H; inversion H; auto].
  destruct (vcs_init c (p_cpv p) _) as [v|] eqn:Hv; cbn; [|discriminate].
  destruct (vcs_init_fields _ _ _ _ Hv) as (Hc & Hp & _).
  destruct (if network opts then Ok true
            else r <~ getsavedrev v;; Ok (truthy r)) as [[|]|];
    cbn; try discriminate; [|intros H; inversion H; auto].
  destruct (getpath dd v) as [d|] eqn:Hd; cbn; [|discriminate].
  destruct (rebuilds_get rb d) as [old|] eqn:Hg.
  - destruct (append old v) as [merged|] eqn:Ha; cbn; [|discriminate].
    intros H. inversion H; subst rb'. right. exists v, d.
    split; [reflexivity|]. split; [assumption|]. right. exists old.
    destruct (append_ok _ _ _ Ha) as (Hcls & q & rest & Hq & ->).
    rewrite Hp in Hq. inversion Hq; subst.
    split; [assumption|]. split; [congruence | reflexivity].
  - intros H. inversion H; subst rb'. right. exists v, d. auto.
Qed.

Lemma enum_class_keyed p c rb rb' :
  keyed dd rb -> enum_class dd opts p c rb = Ok rb' -> keyed dd rb'.
Proof.
  intros [Hnd Hk] H.
  destruct (enum_class_cases _ _ _ _ H)
    as [-> | (v & d & Hc & Hd & [[Hg ->] | (old & Hg & Hcls & ->)])].
  - now split.
  - split.
    + rewrite map_app. cbn. apply rebuilds_get_none in Hg.
      apply NoDup_app; [assumption | repeat constructor; auto|].
      intros x Hx [<- | []]. contradiction.
    + intros k x Hin. apply in_app_or in Hin.
      destruct Hin as [Hin | [Hin | []]]; [now apply Hk|].
      inversion Hin; subst. assumption.
  - pose proof (rebuilds_get_keys _ _ _ Hg) as Hin.
    split; [now rewrite rebuilds_put_keys|].
    intros k x Hx. apply rebuilds_put_in in Hx as [[-> ->] | Hx];
      [|now apply Hk].
    pose proof (Hk d old (rebuilds_get_in _ _ _ Hg)) as Hold.
    unfold getpath in *. exact Hold.
Qed.

Lemma enum_class_tracked d c0 xs p c rb rb' :
  tracked d c0 xs rb -> enum_class dd opts p c rb = Ok rb' ->
  tracked d c0 xs rb'.
Proof.
  intros (t & Hg & Hcls & Hincl) H.
  destruct (enum_class_cases _ _ _ _ H)
    as [-> | (v & d' & Hc & Hd & [[Hg' ->] | (old & Hg' & Hcls' & ->)])].
  - exists t. auto.
  - exists t. rewrite rebuilds_get_app, Hg. auto.
  - unfold tracked.
    rewrite (rebuilds_get_put _ _ _ d (rebuilds_get_keys _ _ _ Hg')).
    destruct (String.eqb_spec d' d) as [-> | N].
    + rewrite Hg in Hg'. inversion Hg'; subst old.
      eexists. split; [reflexivity|]. cbn. split; [assumption|].
      intros x Hx. apply in_or_app. left. now apply Hincl.
    + exists t. auto.
Qed.

Lemma enum_classes_inv (P : rebuilds_t -> Prop) p :
  (forall c rb rb', P rb -> enum_class dd opts p c rb = Ok rb' -> P rb') ->
  forall cs rb, P rb -> P (snd (enum_classes dd opts p cs rb)).
Proof.
  intros Hstep. induction cs as [|c cs IH]; intros rb H; cbn; [assumption|].
  destruct (enum_class dd opts p c rb) as [rb'|e] eqn:E; cbn; [|assumption].
  apply IH. eapply Hstep; eauto.
Qed.

Lemma enum_package_rebuilds p s :
  sc_rebuilds (enum_package dd opts p s) =
  snd (enum_classes dd opts p (vcslf (opt_type opts)) (sc_rebuilds s)).
Proof.
  unfold enum_package.
  destruct (enum_classes dd opts p _ _) as [[u|e] rb]; [reflexivity|].
  destruct e; reflexivity.
Qed.

Lemma enumerate_from_inv (P : rebuilds_t -> Prop) :
  (forall p c rb rb', P rb -> enum_class dd opts p c rb = Ok rb' -> P rb') ->
  forall db s,
    P (sc_rebuilds s) ->
    P (sc_rebuilds (fold_left (fun s p => enum_package dd opts p s) db s)).
Proof.
  intros Hstep. induction db as [|p db IH]; intros s H; cbn; [assumption|].
  apply IH. rewrite enum_package_rebuilds.
  apply enum_classes_inv; [apply Hstep | assumption].
Qed.

Lemma enumerate_keyed db : keyed dd (sc_rebuilds (enumerate dd opts db)).
Proof.
  unfold enumerate. apply (enumerate_from_inv (keyed dd)).
  - intros p c rb rb'. apply enum_class_keyed.
  - split; [constructor | intros k v []].
Qed.

End EnumerationInvariants.

(** ** The processes run for a scan *)

Lemma count_key_nodup (d : string) (l : list string) :
  NoDup l -> (List.length (filter (fun k => String.eqb k d) l) <= 1)%nat.
Proof.
  induction 1 as [|k l Hk Hl IH]; cbn; [lia|].
  destruct (String.eqb_spec k d) as [-> | N]; [|assumption].
  cbn. assert (filter (fun k => String.eqb k d) l = []) as ->; [|cbn; lia].
  clear IH Hl. induction l as [|x l IH]; [reflexivity|]. cbn.
  destruct (String.eqb_spec x d) as [-> | N].
  - exfalso. apply Hk. now left.
  - apply IH. intros H. apply Hk. now right.
Qed.

Lemma count_ev_in d c tr :
  In (Popen d c) tr -> (1 <= count_ev (is_popen d) tr)%nat.
Proof.
  intros H. unfold count_ev.
  assert (Hf : In (Popen d c) (filter (is_popen d) tr)).
  { apply filter_In. split; [assumption|]. cbn. apply String.eqb_refl. }
  destruct (filter (is_popen d) tr); [contradiction | cbn; lia].
Qed.

Section InitialBudget.

Variable dd : string.

Lemma count_at_initial d (h : nat -> vcs) :
  forall (rb : rebuilds_t) start,
    (forall k v, In (k, v) rb -> getpath dd v = Ok k) ->
    (forall i, (i < List.length rb)%nat ->
               h (start + i)%nat = nth i (map snd rb) no_vcs) ->
    count_at dd d h (seq start (List.length rb)) =
    List.length (filter (fun k => String.eqb k d) (map fst rb)).
Proof.
  induction rb as [|[k v] rb IH]; intros start Hk Hh; [reflexivity|].
  cbn [List.length seq map fst]. rewrite count_at_cons.
  pose proof (Hh O (Nat.lt_0_succ _)) as H0.
  rewrite Nat.add_0_r in H0. cbn in H0. rewrite H0.
  rewrite (at_path_ok dd d v k) by (apply Hk; now left).
  rewrite (IH (S start)).
  - cbn [filter]. destruct (String.eqb k d); reflexivity.
  - intros k' v' Hin. apply Hk. now right.
  - intros i Hi. replace (S start + i)%nat with (start + S i)%nat by lia.
    apply (Hh (S i)). cbn. lia.
Qed.

Lemma initial_budget sc d :
  keyed dd (sc_rebuilds sc) ->
  (popen_budget dd d (initial sc None) <= 1)%nat /\
  (recheck_budget dd d (initial sc None) <= 1)%nat.
Proof.
  intros [Hnd Hk].
  assert (Hids : map snd (items (initial sc None))
                 = seq 0 (List.length (sc_rebuilds sc))).
  { cbn.
    replace (List.length (sc_rebuilds sc))
      with (List.length (map fst (sc_rebuilds sc))) by apply length_map.
    apply map_snd_combine_seq. }
  assert (Hc : (count_at dd d (heap (initial sc None))
                         (seq 0 (List.length (sc_rebuilds sc))) <= 1)%nat).
  { rewrite (count_at_initial d _ (sc_rebuilds sc) 0 Hk)
      by (intros i _; reflexivity).
    now apply count_key_nodup. }
  unfold popen_budget, recheck_budget. rewrite Hids.
  change (trace (initial sc None)) with (@nil event).
  change (processes (initial sc None)) with (@nil nat).
  rewrite app_nil_r. cbn [count_ev filter List.length]. lia.
Qed.

End InitialBudget.

(** Without a signal, the loop runs at most one update command and at
    most one post-update revision query in each directory, and it does
    run the update command of every task that was to spawn one. *)
Lemma update_all_trace w opts sc fuel :
  (1 <= jobs opts)%Z ->
  (measure w opts (initial sc None) < fuel)%nat ->
  keyed (distdir w) (sc_rebuilds sc) ->
  exists m,
    loop w opts fuel (initial sc None) = Some (Ok tt, m) /\
    Permutation (packages m) (cpvs_judged w opts Changed (tasks_of sc)) /\
    Permutation (erraneous m)
                (sc_erraneous sc ++ cpvs_judged w opts Failed (tasks_of sc)) /\
    forall d,
      (count_ev (is_popen d) (trace m) <= 1)%nat /\
      (count_ev (is_recheck d) (trace m) <= 1)%nat /\
      (forall t, In (d, t) (sc_rebuilds sc) -> spawns_in w opts d t ->
                 count_ev (is_popen d) (trace m) = 1%nat).
Proof.
  intros Hj Hf Hkey.
  destruct (loop_spec w opts Hj fuel (initial sc None) (initial_inv opts sc) Hf)
    as (m & E & Hi & Hp & P1 & P2 & (_ & HP & HR & HS)).
  exists m. split; [exact E|].
  rewrite !due_initial in *. cbn in P1, P2.
  split; [now symmetry|]. split; [now symmetry|].
  intros d.
  destruct (initial_budget (distdir w) sc d Hkey) as [B1 B2].
  specialize (HP d). specialize (HR d).
  unfold popen_budget, recheck_budget in HP, HR.
  assert (L1 : (count_ev (is_popen d) (trace m) <= 1)%nat).
  { unfold popen_budget in B1. lia. }
  split; [exact L1|]. split; [unfold recheck_budget in B2; lia|].
  intros t Hin Hsp.
  destruct (In_nth _ _ (d, no_vcs) Hin) as (i & Hlt & Hnth).
  assert (Hheap : heap (initial sc None) i = t).
  { cbn. rewrite (nth_indep _ no_vcs (snd (d, no_vcs)))
      by now rewrite length_map.
    now rewrite map_nth, Hnth. }
  assert (Hid : In i (map snd (items (initial sc None)))).
  { cbn.
    replace (List.length (sc_rebuilds sc))
      with (List.length (map fst (sc_rebuilds sc))) by apply length_map.
    rewrite map_snd_combine_seq, length_map. apply in_seq. lia. }
  destruct (HS i Hid) as [[Hin' _] | Hdone].
  - rewrite Hi in Hin'. contradiction.
  - rewrite Hheap in Hdone. destruct (Hdone d Hsp) as (c & Hc).
    pose proof (count_ev_in d c _ Hc). lia.
Qed.

(** ** Packages that share a working copy *)

Section SharedWorkingCopy.

Variable dd : string.
Variable opts : options.

(** A package of one class whose path is a key of [rebuilds] already:
    its identifier is appended to the instance found there, and nothing
    else changes. *)
Lemma enum_package_merges p c v d s told :
  matching p (vcslf (opt_type opts)) = [c] ->
  construct p c = Ok v -> wanted opts v -> getpath dd v = Ok d ->
  rebuilds_get (sc_rebuilds s) d = Some told -> cls told = c ->
  enum_package dd opts p s =
    mkScan (rebuilds_put (sc_rebuilds s) d
              (mkVcs (cls told) (cpv told ++ [p_cpv p]) (env told)
                     (oldrev told) (subprocess told)))
           (sc_erraneous s) (sc_log s).
Proof.
  intros Hm Hc Hw Hp Hg Hcls. unfold enum_package.
  rewrite (enum_classes_single dd opts p _ _ c Hm).
  assert (Hmatch : vcs_match c (p_inherits p) = true).
  { assert (In c (matching p (vcslf (opt_type opts))))
      by (rewrite Hm; now left).
    unfold matching in H. apply filter_In in H. tauto. }
  rewrite (enum_class_accepts dd opts p c _ v d Hmatch Hc Hw Hp), Hg.
  destruct (vcs_init_fields _ _ _ _ Hc) as (Hcv & Hpv & _).
  unfold append. rewrite Hcv, Hcls, Hpv.
  assert (class_eqb c c = true) as -> by (destruct c; reflexivity).
  reflexivity.
Qed.

(** The first package of a path makes the entry. *)
Lemma enum_package_creates p c v d s :
  matching p (vcslf (opt_type opts)) = [c] ->
  construct p c = Ok v -> wanted opts v -> getpath dd v = Ok d ->
  rebuilds_get (sc_rebuilds s) d = None ->
  enum_package dd opts p s =
    mkScan (sc_rebuilds s ++ [(d, v)])%list (sc_erraneous s) (sc_log s).
Proof.
  intros Hm Hc Hw Hp Hg. unfold enum_package.
  rewrite (enum_classes_single dd opts p _ _ c Hm).
  assert (Hmatch : vcs_match c (p_inherits p) = true).
  { assert (In c (matching p (vcslf (opt_type opts))))
      by (rewrite Hm; now left).
    unfold matching in H. apply filter_In in H. tauto. }
  now rewrite (enum_class_accepts dd opts p c _ v d Hmatch Hc Hw Hp), Hg.
Qed.

(** After such a package, its identifier is held under its path. *)
Lemma enum_package_tracks p c v d s xs :
  matching p (vcslf (opt_type opts)) = [c] ->
  construct p c = Ok v -> wanted opts v -> getpath dd v = Ok d ->
  (forall told, rebuilds_get (sc_rebuilds s) d = Some told -> cls told = c) ->
  (xs = [] \/ tracked d c xs (sc_rebuilds s)) ->
  tracked d c (xs ++ [p_cpv p]) (sc_rebuilds (enum_package dd opts p s)).
Proof.
  intros Hm Hc Hw Hp Hcls Hxs.
  destruct (vcs_init_fields _ _ _ _ Hc) as (Hcv & Hpv & _).
  destruct (rebuilds_get (sc_rebuilds s) d) as [told|] eqn:Hg.
  - rewrite (enum_package_merges p c v d s told Hm Hc Hw Hp Hg (Hcls _ eq_refl)).
    cbn [sc_rebuilds]. unfold tracked.
    rewrite (rebuilds_get_put _ _ _ d (rebuilds_get_keys _ _ _ Hg)).
    rewrite String.eqb_refl. eexists. split; [reflexivity|]. cbn.
    split; [now apply Hcls|].
    intros x Hx. apply in_app_or in Hx. apply in_or_app.
    destruct Hx as [Hx | Hx]; [left | now right].
    destruct Hxs as [-> | (t & Ht & _ & Hincl)]; [contradiction|].
    rewrite Hg in Ht. inversion Ht; subst. now apply Hincl.
  - rewrite (enum_package_creates p c v d s Hm Hc Hw Hp Hg).
    cbn [sc_rebuilds]. unfold tracked. rewrite rebuilds_get_app, Hg.
    rewrite String.eqb_refl. exists v. split; [reflexivity|].
    split; [assumption|].
    destruct Hxs as [-> | (t & Ht & _)]; [|congruence].
    rewrite Hpv. cbn. apply incl_refl.
Qed.

Lemma enumerate_from_tracked d c xs db s :
  tracked d c xs (sc_rebuilds s) ->
  tracked d c xs
    (sc_rebuilds (fold_left (fun s p => enum_package dd opts p s) db s)).
Proof.
  apply (enumerate_from_inv dd opts (tracked d c xs)).
  intros p c' rb rb'. apply enum_class_tracked.
Qed.

End SharedWorkingCopy.

(** ** A signal while a task is being started *)

Section Interrupted.

Variable w : world.
Variable opts : options.

(** [abortupdate] on an instance that [startupdate] has not given its
    [subprocess] yet. *)
Lemma abortupdate_unstarted v m :
  subprocess (heap m v) = None ->
  abortupdate v m = (Raise AttributeError, m).
Proof.
  intros H. unfold abortupdate, mbind, load, get, mraise. now rewrite H.
Qed.

(** When the signal comes inside [startupdate], the instance is left
    without [subprocess]: the attribute is assigned last. *)
Lemma startupdate_interrupted i m m1 :
  subprocess (heap m i) = None ->
  startupdate w opts i m = (Raise KeyboardInterrupt, m1) ->
  subprocess (heap m1 i) = None /\
  cur m1 = cur m /\ items m1 = items m /\ processes m1 = processes m /\
  packages m1 = packages m /\ erraneous m1 = erraneous m /\
  cpv (heap m1 i) = cpv (heap m i).
Proof.
  intros Hsub. unfold startupdate, getrev.
  repeat (first [ progress unfold_ops | progress cbn | break_match ]);
    intros H; inversion H; subst; cbn; rewrite ?upd_same; cbn; auto 10.
Qed.

(** The turn in which the signal comes inside [startupdate]: the
    [KeyboardInterrupt] is replaced by the [AttributeError] of
    [abortupdate], which the [except Exception] clause takes for a failed
    task; the loop goes on. *)
Lemma interrupted_start_is_taken_for_a_failure m d v rest m1 :
  items m = (d, v) :: rest ->
  (Z.of_nat (List.length (processes m)) <? jobs opts)%Z = true ->
  ~ In v (processes m) ->
  subprocess (heap m v) = None ->
  startupdate w opts v (set_cur v (set_items rest m))
    = (Raise KeyboardInterrupt, m1) ->
  exists m',
    turn w opts m = (Ok true, m') /\
    items m' = rest /\ processes m' = processes m /\
    packages m' = packages m /\
    erraneous m' = (erraneous m ++ cpv (heap m v))%list.
Proof.
  intros Hit Hlt Hnp Hsub E.
  destruct (startupdate_interrupted v (set_cur v (set_items rest m)) m1 Hsub E)
    as (Hs1 & Hc & Hi & Hp & Hk & He & Hcpv).
  cbn in Hc, Hi, Hp, Hk, He, Hcpv.
  assert (Hd : dispatch w opts m = (Raise AttributeError, m1)).
  { unfold dispatch. unfold mbind at 1. unfold get at 1.
    unfold mbind at 1. unfold get at 1. rewrite Hit. cbv beta iota.
    rewrite Hlt.
    unfold mbind at 1. unfold modify at 1. unfold mbind at 1.
    unfold modify at 1.
    erewrite mbind_raise; [reflexivity|].
    erewrite try_except_raise by (erewrite mbind_raise by exact E; reflexivity).
    cbn [is_KeyboardInterrupt is_Exception negb].
    erewrite mbind_raise; [reflexivity|].
    now apply abortupdate_unstarted. }
  rewrite turn_unfold, Hd.
  destruct (handler_exn opts AttributeError m1 eq_refl)
    as (m' & Eh & Hh & Hi' & _ & Hk' & He' & Hp' & _).
  exists m'. split; [exact Eh|].
  assert (Hmem : mem (cur m1) (processes m1) = false).
  { rewrite Hc, Hp. destruct (mem v (processes m)) eqn:M; [|reflexivity].
    apply mem_spec in M. contradiction. }
  rewrite Hmem, andb_false_r in Hp'.
  repeat split; try congruence.
Qed.

End Interrupted.

(** C2 fails on the code.  The signal comes while [svn info] runs for
    the first task: the loop does not stop, the task is put among the
    erraneous ones, and the second task is updated afterwards. *)
Theorem interrupt_while_starting_does_not_stop_the_loop :
  exists m,
    loop Sample.demo_world Sample.one_job 20
         (initial Sample.two_scan (Some 1)) = Some (Ok tt, m) /\
    packages m = ["x/b-1"] /\ erraneous m = ["x/a-1"] /\
    log m =
      [s1 "Enumerating the packages ..."; s1 "Updating the repositories...";
       s2 "svn://host/a"; err "Error updating [x/a-1]";
       s2 "svn://host/b"; s3 "svn up  --config-dir /store/.subversion";
       s3 "update from 5 to 7"] /\
    trace m =
      [Popen "/b" "svn up  --config-dir /store/.subversion";
       RevQuery true "/b"].
Proof.
  eexists. split; [vm_compute; reflexivity|]. repeat split.
Qed.

(** For comparison, the signal coming while the loop waits for the child
    of the first task: the child is sent the termination signal, the loop
    is left, and the task is in neither sequence. *)
Lemma interrupt_while_waiting_stops_the_loop :
  exists m,
    loop Sample.demo_world Sample.one_job 20
         (initial Sample.two_scan (Some 3)) = Some (Ok tt, m) /\
    packages m = [] /\ erraneous m = [] /\ items m = [("/b", 1%nat)] /\
    subprocess (heap m 0) = Some (Some (mkPopen 3 0 true)) /\
    In (err "Updates interrupted, proceeding with already updated repos.")
       (log m).
Proof.
  eexists. split; [vm_compute; reflexivity|]. repeat split.
  cbn. auto 10.
Qed.

(** * Further properties of the code *)

(** ** [split] and [join] *)

Lemma py_split_not_nil c s : py_split c s <> [].
Proof.
  destruct s as [|a r]; cbn; [discriminate|].
  destruct (Ascii.eqb a c); [discriminate|].
  destruct (py_split c r); discriminate.
Qed.

Lemma py_split_cons c a r :
  py_split c (String a r) =
    if Ascii.eqb a c then "" :: py_split c r
    else String a (hd "" (py_split c r)) :: tl (py_split c r).
Proof.
  cbn. destruct (Ascii.eqb a c); [reflexivity|].
  destruct (py_split c r) eqn:E; [|reflexivity].
  now apply py_split_not_nil in E.
Qed.

Lemma join_cons sep x l :
  l <> [] -> join sep (x :: l) = x ++ sep ++ join sep l.
Proof. destruct l; [congruence|reflexivity]. Qed.

(** Joining the pieces with the separator gives the string back. *)
Lemma join_py_split c s : join (String c "") (py_split c s) = s.
Proof.
  induction s as [|a r IH]; [reflexivity|].
  rewrite py_split_cons. destruct (Ascii.eqb a c) eqn:E.
  - apply Ascii.eqb_eq in E. subst a.
    rewrite join_cons by apply py_split_not_nil. cbn. now rewrite IH.
  - pose proof (py_split_not_nil c r) as N.
    destruct (py_split c r) as [|h t]; [congruence|].
    cbn [hd tl]. destruct t as [|h' t'].
    + cbn in *. now rewrite IH.
    + rewrite (join_cons _ (String a h)) by discriminate.
      rewrite (join_cons _ h) in IH by discriminate.
      cbn [String.append] in *. now rewrite IH.
Qed.

Lemma py_split_free c s :
  contains_char c s = false -> py_split c s = [s].
Proof.
  induction s as [|a r IH]; [reflexivity|].
  cbn [contains_char]. intros H. apply orb_false_iff in H as [Ha Hr].
  rewrite py_split_cons, Ha, (IH Hr). reflexivity.
Qed.

Lemma py_split_app c x s :
  contains_char c x = false ->
  py_split c (x ++ String c s) = x :: py_split c s.
Proof.
  induction x as [|a r IH]; intros H.
  - cbn [String.append]. rewrite py_split_cons, Ascii.eqb_refl. reflexivity.
  - cbn [contains_char] in H. apply orb_false_iff in H as [Ha Hr].
    cbn [String.append]. rewrite py_split_cons, Ha, (IH Hr). reflexivity.
Qed.

(** Splitting what was joined gives the pieces back, when none of them
    holds the separator. *)
Lemma py_split_join c l :
  l <> [] -> Forall (fun x => contains_char c x = false) l ->
  py_split c (join (String c "") l) = l.
Proof.
  induction l as [|x l IH]; [congruence|]. intros _ H.
  inversion H as [|? ? Hx Hl]; subst.
  destruct l as [|y l'].
  - cbn. now apply py_split_free.
  - rewrite join_cons by discriminate.
    change (String c "" ++ join (String c "") (y :: l'))
      with (String c (join (String c "") (y :: l'))).
    rewrite py_split_app by exact Hx. f_equal. apply IH; [discriminate|exact Hl].
Qed.

Lemma py_split_pieces c s :
  Forall (fun x => contains_char c x = false) (py_split c s).
Proof.
  induction s as [|a r IH]; [repeat constructor|].
  rewrite py_split_cons. destruct (Ascii.eqb a c) eqn:E.
  - constructor; [reflexivity|exact IH].
  - pose proof (py_split_not_nil c r) as N.
    destruct (py_split c r) as [|h t]; [congruence|].
    inversion IH; subst. constructor; [|assumption].
    cbn. rewrite E. assumption.
Qed.

Lemma py_split_snoc c s :
  py_split c (s ++ String c "") = (py_split c s ++ [""])%list.
Proof.
  induction s as [|a r IH].
  - cbn. now rewrite Ascii.eqb_refl.
  - cbn [String.append]. rewrite !py_split_cons, IH.
    destruct (Ascii.eqb a c); [reflexivity|].
    pose proof (py_split_not_nil c r) as N.
    destruct (py_split c r); [congruence|reflexivity].
Qed.

(** ** The environment [bashparse] builds *)

Lemma lookup_combine_in (vars vals : list string) k v :
  NoDup vars -> In (k, v) (combine vars vals) ->
  lookup (combine vars vals) k = Some v.
Proof.
  revert vals. induction vars as [|a vars IH]; intros [|b vals] ND H;
    try contradiction.
  inversion ND as [|? ? Hn ND']; subst. cbn in *. destruct H as [H|H].
  - inversion H; subst. now rewrite String.eqb_refl.
  - destruct (String.eqb a k) eqn:E.
    + apply String.eqb_eq in E. subst a. apply in_combine_l in H. contradiction.
    + now apply IH.
Qed.

Lemma lookup_combine_beyond (vars vals : list string) i k :
  NoDup vars -> nth_error vars i = Some k ->
  (List.length vals <= i)%nat ->
  lookup (combine vars vals) k = None.
Proof.
  revert vals i. induction vars as [|a vars IH]; intros vals i ND Hk Hl.
  - reflexivity.
  - destruct vals as [|b vals]; [reflexivity|].
    destruct i as [|i]; [cbn in Hl; lia|].
    inversion ND as [|? ? Hn ND']; subst. cbn in *.
    destruct (String.eqb a k) eqn:E.
    + apply String.eqb_eq in E. subst a. apply nth_error_In in Hk. contradiction.
    + apply (IH vals i); [assumption|assumption|lia].
Qed.

Lemma lookup_combine_some (vars vals : list string) k :
  In k vars -> (List.length vars <= List.length vals)%nat ->
  exists x, lookup (combine vars vals) k = Some x.
Proof.
  revert vals. induction vars as [|a vars IH]; intros vals Hk Hl;
    [contradiction|].
  destruct vals as [|b vals]; [cbn in Hl; lia|]. cbn in *.
  destruct (String.eqb a k) eqn:E; [eauto|].
  destruct Hk as [->|Hk]; [now rewrite String.eqb_refl in E|].
  apply IH; [assumption|lia].
Qed.

(** No class asks for a variable twice. *)
Lemma vars_nodup c : NoDup (reqenv c ++ optenv c).
Proof.
  destruct c; cbn; repeat constructor; cbn; intuition discriminate.
Qed.

(** [bashparse] undoes what the script prints: when the values, none of
    which holds a NUL, are written with NUL between them, every variable
    that has a value is read back with it. *)
Theorem bashparse_recovers_the_values (vars vals : list string) k v :
  NoDup vars -> vals <> [] ->
  Forall (fun x => contains_char nul x = false) vals ->
  In (k, v) (combine vars vals) ->
  getitem (bashparse vars (join (String nul "") vals)) k = Ok v.
Proof.
  intros ND Hne Hv Hin. unfold getitem, bashparse.
  rewrite py_split_join by assumption.
  now rewrite (lookup_combine_in _ _ _ _ ND Hin).
Qed.

Lemma bashparse_recovers_the_values_witness :
  getitem (bashparse ["ESVN_USER"; "ESVN_PASSWORD"]
             (join (String nul "") ["joe"; ""])) "ESVN_PASSWORD" = Ok "".
Proof.
  apply bashparse_recovers_the_values.
  - repeat constructor; cbn; intuition discriminate.
  - discriminate.
  - repeat constructor.
  - cbn. auto.
Defined.

(** When the script has printed fewer fields than the class has required
    variables (nothing at all, when sourcing the environment failed), the
    constructor raises [KeyError]. *)
Theorem constructor_needs_a_field_for_each_required_variable c p out :
  (List.length (py_split nul out) < List.length (reqenv c))%nat ->
  vcs_init c p out = Raise KeyError.
Proof.
  intros H.
  destruct (nth_error (reqenv c) (List.length (py_split nul out))) as [k|] eqn:E.
  2:{ apply nth_error_None in E. lia. }
  apply (init_raises_on_missing c p out k).
  - eapply nth_error_In; eassumption.
  - left. unfold bashparse.
    apply (lookup_combine_beyond _ _ (List.length (py_split nul out)));
      [apply vars_nodup| |lia].
    rewrite nth_error_app1 by lia. exact E.
Qed.

Lemma constructor_needs_a_field_for_each_required_variable_witness :
  vcs_init GitSupport "dev-vcs/foo-9999" "" = Raise KeyError.
Proof.
  apply constructor_needs_a_field_for_each_required_variable. cbn. lia.
Defined.

(** ** What the constructors accept *)

Lemma missingvars_none e req :
  missingvars e req = Ok [] ->
  forall k, In k req -> exists x, getitem e k = Ok x /\ x <> "".
Proof.
  induction req as [|v r IH]; intros H k Hk; [contradiction|].
  cbn in H. destruct (getitem e v) as [x|] eqn:Ex; [|discriminate].
  cbn in H. destruct (missingvars e r) as [m|]; [|discriminate].
  cbn in H. destruct (String.eqb x "") eqn:E; [discriminate|].
  inversion H; subst. destruct Hk as [->|Hk].
  - exists x. split; [assumption|]. intros ->. discriminate.
  - now apply IH.
Qed.

Lemma missingvars_all e req :
  (forall k, In k req -> exists x, getitem e k = Ok x /\ x <> "") ->
  missingvars e req = Ok [].
Proof.
  induction req as [|v r IH]; intros H; [reflexivity|].
  cbn. destruct (H v) as (x & Ex & Nx); [now left|].
  rewrite Ex. cbn. rewrite IH by (intros k Hk; apply H; now right). cbn.
  destruct (String.eqb_spec x ""); [contradiction|reflexivity].
Qed.

Lemma init_required c p out v :
  vcs_init c p out = Ok v ->
  forall k, In k (reqenv c) -> exists x, getitem (env v) k = Ok x /\ x <> "".
Proof.
  intros H. pose proof (vcs_init_fields _ _ _ _ H) as (_ & _ & _ & _ & He).
  apply vcs_init_base in H. unfold VCSSupport_init in H.
  destruct (missingvars _ _) as [m|] eqn:Em; [|discriminate].
  cbn in H. destruct m; [|discriminate]. rewrite He.
  now apply missingvars_none.
Qed.

Lemma str_truthy_false s : str_truthy s = false -> s = "".
Proof. destruct s; [reflexivity|discriminate]. Qed.

Lemma str_truthy_true s : str_truthy s = true -> s <> "".
Proof. destruct s; [discriminate|]. intros _. discriminate. Qed.

Lemma vcs_init_live c p out v : vcs_init c p out = Ok v -> live v.
Proof.
  intros H. pose proof (vcs_init_fields _ _ _ _ H) as (Hc & _).
  pose proof (init_required _ _ _ _ H) as Hr.
  pose proof (vcs_init_base _ _ _ _ H) as Hb.
  unfold vcs_init in H. rewrite Hb in H. cbn [rbind] in H.
  unfold live. rewrite Hc. destruct c.
  - destruct (getitem (env v) "EGIT_COMMIT") as [commit|] eqn:E1; [|discriminate].
    cbn [rbind] in H. destruct (str_truthy commit) eqn:T.
    + destruct (getitem (env v) "EGIT_BRANCH") as [branch|] eqn:E2;
        [|discriminate].
      cbn [rbind] in H. destruct (String.eqb commit branch) eqn:E;
        [|discriminate].
      apply String.eqb_eq in E. exists commit, branch. auto.
    + apply str_truthy_false in T. subst.
      destruct (Hr "EGIT_BRANCH") as (b & Eb & _); [cbn; auto|].
      exists "", b. auto.
  - destruct (getitem (env v) "EHG_REVISION") as [r|] eqn:E1; [|discriminate].
    cbn [rbind] in H. exists r. split; [reflexivity|].
    destruct (str_truthy r) eqn:T.
    + destruct (String.eqb r "tip") eqn:E; [|discriminate].
      apply String.eqb_eq in E. auto.
    + apply str_truthy_false in T. auto.
  - destruct (getitem (env v) "ESVN_REPO_URI") as [uri|] eqn:E1; [|discriminate].
    cbn [rbind] in H. exists uri. split; [reflexivity|].
    destruct (str_truthy uri && contains_char at_sign uri) eqn:T; [discriminate|].
    destruct (getitem (env v) "ESVN_REVISION") as [r|] eqn:E2; [|discriminate].
    cbn [rbind] in H. destruct (str_truthy r) eqn:Tr; [discriminate|].
    apply str_truthy_false in Tr. subst r. split; [|reflexivity].
    destruct (str_truthy uri) eqn:Tu; [exact T|].
    apply str_truthy_false in Tu. now subst.
Qed.

(** The call of the constructor of a class returns an instance exactly
    when what the script wrote can be decoded, every required variable
    has a value that is not empty and no revision is pinned; the
    instance then holds the one identifier and the parsed environment,
    and has neither [oldrev] nor [subprocess]. *)
Theorem constructor_accepts_the_complete_live_environments c p raw v :
  vcs_call c p raw = Ok v <->
  valid_utf8 raw = true /\
  v = mkVcs c [p] (bashparse (reqenv c ++ optenv c) raw) None None /\
  (forall k, In k (reqenv c) ->
             exists x, getitem (env v) k = Ok x /\ x <> "") /\
  live v.
Proof.
  unfold vcs_call, call_decode.
  destruct (valid_utf8 raw); cbn [rbind];
    [|split; [discriminate | intros [H _]; discriminate H]].
  split.
  - intros H. split; [reflexivity|].
    pose proof (vcs_init_fields _ _ _ _ H) as (Hc & Hp & Ho & Hs & He).
    split; [|split; [now apply (init_required c p raw)
                    |now apply (vcs_init_live c p raw)]].
    destruct v; cbn in *; congruence.
  - intros (_ & -> & Hr & Hl). cbn [env] in Hr.
    unfold vcs_init, VCSSupport_init. rewrite (missingvars_all _ _ Hr).
    cbn [rbind List.length Nat.ltb Nat.leb env].
    unfold live in Hl. cbn [cls env] in Hl. destruct c.
    + destruct Hl as (commit & branch & -> & E2 & Hcb). cbn [rbind].
      destruct (str_truthy commit) eqn:T; [|reflexivity].
      rewrite E2. cbn [rbind]. destruct Hcb as [->| ->]; [discriminate|].
      now rewrite String.eqb_refl.
    + destruct Hl as (r & -> & [->| ->]); reflexivity.
    + destruct Hl as (uri & -> & Hat & ->). cbn [rbind].
      now rewrite Hat, andb_false_r.
Qed.

Lemma complete_env c out k :
  (List.length (reqenv c ++ optenv c) <= List.length (py_split nul out))%nat ->
  In k (reqenv c ++ optenv c) ->
  exists x, getitem (bashparse (reqenv c ++ optenv c) out) k = Ok x.
Proof.
  intros Hl Hk. unfold getitem, bashparse.
  destruct (lookup_combine_some _ _ k Hk Hl) as [x ->]. eauto.
Qed.

Ltac have_var Hall k :=
  let x := fresh "x" in
  let E := fresh "E" in
  destruct (Hall k) as [x E]; [cbn; tauto|]; rewrite ?E; cbn [rbind].

(** An instance made from an output that has a field for every variable
    of its class: no method looks for a variable in vain.  [getsavedrev]
    and [getupdatecmd] return, the difference can be printed, [getpath]
    returns or, for Mercurial, fails its assertion, and [str] returns or
    raises [TypeError]. *)
Theorem constructed_instance_never_misses_a_variable c p out v :
  vcs_init c p out = Ok v ->
  (List.length (reqenv c ++ optenv c) <= List.length (py_split nul out))%nat ->
  (exists r, getsavedrev v = Ok r) /\
  (exists cmd, getupdatecmd v = Ok cmd) /\
  diffstat_pure v = Ok tt /\
  (forall dd,
      (exists d, getpath dd v = Ok d) \/
      (c = HgSupport /\ getpath dd v = Raise AssertionError)) /\
  ((exists s, vcs_str v = Ok s) \/ vcs_str v = Raise TypeError).
Proof.
  intros H Hl.
  pose proof (vcs_init_fields _ _ _ _ H) as (Hc & _ & _ & _ & He).
  assert (Hall : forall k, In k (reqenv c ++ optenv c) ->
                           exists x, getitem (env v) k = Ok x).
  { intros k Hk. rewrite He. now apply complete_env. }
  clear H He Hl. unfold getsavedrev, getupdatecmd, diffstat_pure, getpath, vcs_str.
  rewrite Hc. destruct c.
  - have_var Hall "EGIT_VERSION". have_var Hall "EGIT_HAS_SUBMODULES".
    have_var Hall "EGIT_UPDATE_CMD". have_var Hall "EGIT_OPTIONS".
    have_var Hall "EGIT_BRANCH". have_var Hall "EGIT_DIFFSTAT_CMD".
    have_var Hall "EGIT_STORE_DIR". have_var Hall "EGIT_PROJECT".
    have_var Hall "EGIT_REPO_URI".
    repeat split; eauto.
    + destruct (str_truthy x0); eauto.
    + destruct (str_truthy x7); eauto.
  - have_var Hall "EHG_PULL_CMD". have_var Hall "EHG_REPO_URI".
    have_var Hall "EHG_PROJECT".
    repeat split; eauto.
    + intros dd. destruct (String.eqb _ ""); eauto.
    + destruct (str_truthy x0); eauto.
  - have_var Hall "ESVN_WC_REVISION". have_var Hall "ESVN_UPDATE_CMD".
    have_var Hall "ESVN_OPTIONS". have_var Hall "ESVN_STORE_DIR".
    have_var Hall "ESVN_USER". have_var Hall "ESVN_PASSWORD".
    have_var Hall "ESVN_WC_PATH". have_var Hall "ESVN_REPO_URI".
    repeat split; eauto.
    + destruct (str_truthy x3); eauto.
    + destruct (str_truthy x6); eauto.
Qed.

Lemma constructed_instance_never_misses_a_variable_witness :
  (exists r, getsavedrev Sample.hg_fresh = Ok r) /\
  (exists cmd, getupdatecmd Sample.hg_fresh = Ok cmd) /\
  diffstat_pure Sample.hg_fresh = Ok tt /\
  (forall dd,
      (exists d, getpath dd Sample.hg_fresh = Ok d) \/
      (HgSupport = HgSupport /\
       getpath dd Sample.hg_fresh = Raise AssertionError)) /\
  ((exists s, vcs_str Sample.hg_fresh = Ok s) \/
   vcs_str Sample.hg_fresh = Raise TypeError).
Proof.
  apply (constructed_instance_never_misses_a_variable
           HgSupport "dev-vcs/bar-9999"
           (Sample.fields ["bar"; "hg pull"; "http://host/bar"; ""])).
  - reflexivity.
  - cbn. lia.
Defined.

(** ** A task that cannot be printed *)

(** [str] of an instance whose repository URI is empty returns the list
    of identifiers, which is a [TypeError].  [startupdate] begins by
    printing the instance: for such a task it raises before anything is
    written or run, whatever the state and the signal, and in a run as a
    whole the identifiers of the task end in the erraneous sequence. *)
Theorem task_without_uri_is_erraneous w opts sc fuel t :
  (1 <= jobs opts)%Z ->
  (measure w opts (initial sc None) < fuel)%nat ->
  In t (tasks_of sc) ->
  getitem (env t) (uri_var (cls t)) = Ok "" ->
  (forall i m, heap m i = t ->
               startupdate w opts i m = (Raise TypeError, m)) /\
  exists r,
    update_all w opts sc None fuel = Some (Ok r) /\
    forall x, In x (cpv t) -> In x (pd_erraneous r).
Proof.
  intros Hj Hf Ht Hu.
  assert (Hs : vcs_str t = Raise TypeError).
  { unfold vcs_str. unfold uri_var in Hu. now rewrite Hu. }
  split.
  - intros i m <-. unfold startupdate, mbind, load, get, lift.
    now rewrite Hs.
  - destruct (update_all_spec w opts sc fuel Hj Hf) as (r & Hr & _ & He).
    exists r. split; [assumption|]. intros x Hx.
    eapply Permutation_in; [apply Permutation_sym; exact He|].
    apply in_or_app. right.
    apply (cpvs_judged_in w opts Failed t); [assumption| |assumption].
    unfold judge, start_pure. now rewrite Hs.
Qed.

Lemma task_without_uri_is_erraneous_witness :
  exists r,
    update_all Sample.demo_world Sample.one_job Cases.anonymous_scan None 20
      = Some (Ok r) /\
    In "x/a-1" (pd_erraneous r).
Proof.
  destruct (task_without_uri_is_erraneous
              Sample.demo_world Sample.one_job Cases.anonymous_scan 20
              (nth 0 (tasks_of Cases.anonymous_scan) no_vcs))
    as [_ (r & E & Hin)].
  - cbn. lia.
  - vm_compute. lia.
  - vm_compute. auto.
  - reflexivity.
  - exists r. split; [exact E|]. apply Hin. vm_compute. auto.
Defined.

(** ** The working copy of a Mercurial package *)

Lemma rstrip_keeps x r :
  x <> "" -> rstrip_slash_rev (x :: r) = x :: r.
Proof. intros H. cbn. destruct x; [congruence|reflexivity]. Qed.

Lemma rev_last_cons {A} (l : list A) d :
  l <> [] -> rev l = last l d :: rev (removelast l).
Proof.
  intros H. rewrite (app_removelast_last d H) at 1.
  now rewrite rev_app_distr.
Qed.

Lemma last_in {A} (l : list A) d : l <> [] -> In (last l d) l.
Proof.
  induction l as [|a [|b l] IH]; intros H; [congruence|now left|].
  right. apply IH. discriminate.
Qed.

Lemma basename_slash s : basename (s ++ "/") = "".
Proof.
  unfold basename. change "/" with (String slash "").
  now rewrite py_split_snoc, last_last.
Qed.

Lemma dirname_slash s :
  basename s <> "" -> dirname (s ++ "/") = s.
Proof.
  intros H. unfold dirname.
  change (s ++ "/") with (s ++ String slash "").
  rewrite py_split_snoc, removelast_last.
  pose proof (py_split_not_nil slash s) as N.
  destruct (py_split slash s) as [|h t] eqn:E; [congruence|].
  cbv iota. rewrite <- E in *.
  rewrite (rev_last_cons _ "" N).
  rewrite rstrip_keeps by exact H.
  rewrite <- (rev_last_cons _ "" N), rev_involutive.
  apply (join_py_split slash).
Qed.

Lemma all_slashes_pieces u :
  all_slashes u = true <-> Forall (eq "") (py_split slash u).
Proof.
  induction u as [|a r IH].
  - cbn. split; [repeat constructor|reflexivity].
  - cbn [all_slashes]. rewrite py_split_cons.
    destruct (Ascii.eqb a slash); cbn [andb].
    + rewrite IH. split; [now constructor|]. intros H. now inversion H.
    + split; [discriminate|]. intros H. inversion H. discriminate.
Qed.

Lemma rstrip_cases l :
  (rstrip_slash_rev l = [] /\ Forall (eq "") l) \/
  (exists k ks, rstrip_slash_rev l = k :: ks /\ k <> "" /\
                incl (k :: ks) l).
Proof.
  induction l as [|x r IH]; [left; split; [reflexivity|constructor]|].
  destruct x as [|a x].
  - cbn. destruct IH as [[E F]|(k & ks & E & N & I)].
    + left. split; [assumption|now constructor].
    + right. exists k, ks. split; [assumption|]. split; [assumption|].
      intros y Hy. right. now apply I.
  - right. exists (String a x), r. split; [reflexivity|].
    split; [discriminate|]. apply incl_refl.
Qed.

(** The name [getpath] takes from the URI is empty exactly for a URI made
    of slashes only; otherwise it holds no slash. *)
Lemma hg_basename_cases u :
  (all_slashes u = true /\ hg_basename u = "") \/
  (all_slashes u = false /\ hg_basename u <> "" /\
   contains_char slash (hg_basename u) = false).
Proof.
  unfold hg_basename.
  pose proof (py_split_not_nil slash u) as N.
  pose proof (py_split_pieces slash u) as P.
  rewrite Forall_forall in P.
  destruct (str_truthy (basename u)) eqn:T.
  - right. apply str_truthy_true in T. split; [|split; [assumption|]].
    + destruct (all_slashes u) eqn:A; [|reflexivity].
      apply all_slashes_pieces in A. rewrite Forall_forall in A.
      exfalso. apply T. symmetry. apply A. now apply last_in.
    + apply P. now apply last_in.
  - apply str_truthy_false in T. unfold dirname.
    pose proof (app_removelast_last "" N) as Hp.
    unfold basename in T. rewrite T in Hp.
    destruct (removelast (py_split slash u)) as [|h t] eqn:Eh.
    + left. split; [|reflexivity].
      apply all_slashes_pieces. rewrite Hp. repeat constructor.
    + rewrite <- Eh in *.
      destruct (rstrip_cases (rev (removelast (py_split slash u))))
        as [[E F]|(k & ks & E & Nk & I)]; rewrite E.
      * left. split.
        -- apply all_slashes_pieces. rewrite Hp. apply Forall_app. split.
           ++ rewrite Forall_forall in *. intros x Hx. apply F.
              now apply in_rev in Hx.
           ++ repeat constructor.
        -- apply basename_slash.
      * assert (Hin : forall x, In x (k :: ks) -> In x (py_split slash u)).
        { intros x Hx. rewrite Hp. apply in_or_app. left.
          apply in_rev. now apply I. }
        assert (Eb : basename (join "/" (rev (k :: ks))) = k).
        { unfold basename. change "/" with (String slash "").
          rewrite py_split_join.
          - cbn [rev]. apply last_last.
          - cbn [rev]. destruct (rev ks); discriminate.
          - rewrite Forall_forall. intros x Hx. apply P, Hin.
            now apply in_rev. }
        right. rewrite Eb. split; [|split; [assumption|]].
        -- destruct (all_slashes u) eqn:A; [|reflexivity].
           apply all_slashes_pieces in A. rewrite Forall_forall in A.
           exfalso. apply Nk. symmetry. apply A, Hin. now left.
        -- apply P, Hin. now left.
Qed.

(** [HgSupport.getpath] fails its assertion exactly when the URI is made
    of slashes only.  Otherwise the working copy is
    [<distdir>/hg-src/<project>/<name>], where the name is not empty and
    holds no slash: it names one directory under that of the project. *)
Theorem hg_path_needs_a_name_in_the_uri dd v uri p :
  cls v = HgSupport ->
  getitem (env v) "EHG_REPO_URI" = Ok uri ->
  getitem (env v) "EHG_PROJECT" = Ok p ->
  (all_slashes uri = true /\ getpath dd v = Raise AssertionError) \/
  (all_slashes uri = false /\
   exists name,
     name <> "" /\ contains_char slash name = false /\
     getpath dd v = Ok (dd ++ "/hg-src/" ++ p ++ "/" ++ name)).
Proof.
  intros Hc Hu Hp. unfold getpath. rewrite Hc, Hu. cbn [rbind].
  fold (hg_basename uri).
  destruct (hg_basename_cases uri) as [[A E]|(A & N & S)].
  - left. split; [assumption|]. now rewrite E.
  - right. split; [assumption|]. exists (hg_basename uri).
    split; [assumption|]. split; [assumption|].
    destruct (String.eqb_spec (hg_basename uri) ""); [contradiction|].
    now rewrite Hp.
Qed.

Lemma hg_path_needs_a_name_in_the_uri_witness :
  getpath "/distfiles" (Cases.hg_at "//") = Raise AssertionError /\
  exists name,
    contains_char slash name = false /\
    getpath "/distfiles" (Cases.hg_at "http://host/bar//")
      = Ok ("/distfiles" ++ "/hg-src/" ++ "bar" ++ "/" ++ name).
Proof.
  split.
  - destruct (hg_path_needs_a_name_in_the_uri
                "/distfiles" (Cases.hg_at "//") "//" "bar"
                eq_refl eq_refl eq_refl) as [[_ E]|[A _]];
      [exact E|discriminate A].
  - destruct (hg_path_needs_a_name_in_the_uri
                "/distfiles" (Cases.hg_at "http://host/bar//")
                "http://host/bar//" "bar"
                eq_refl eq_refl eq_refl) as [[A _]|(_ & name & _ & S & E)];
      [discriminate A|]. exists name. split; assumption.
Defined.

(** A slash at the end of the URI does not change the working copy: the
    packages of [<uri>] and of [<uri>/] are updated in one directory. *)
Theorem hg_path_ignores_a_trailing_slash dd v v' uri p :
  cls v = HgSupport -> cls v' = HgSupport ->
  getitem (env v) "EHG_REPO_URI" = Ok uri ->
  getitem (env v') "EHG_REPO_URI" = Ok (uri ++ "/") ->
  getitem (env v) "EHG_PROJECT" = Ok p ->
  getitem (env v') "EHG_PROJECT" = Ok p ->
  basename uri <> "" ->
  getpath dd v = Ok (dd ++ "/hg-src/" ++ p ++ "/" ++ basename uri) /\
  getpath dd v' = getpath dd v.
Proof.
  intros Hc Hc' Hu Hu' Hp Hp' Hb.
  assert (T : str_truthy (basename uri) = true).
  { destruct (basename uri); [congruence|reflexivity]. }
  assert (E : getpath dd v
              = Ok (dd ++ "/hg-src/" ++ p ++ "/" ++ basename uri)).
  { unfold getpath. rewrite Hc, Hu. cbn [rbind]. rewrite T.
    destruct (String.eqb_spec (basename uri) ""); [contradiction|].
    now rewrite Hp. }
  split; [exact E|]. rewrite E.
  unfold getpath. rewrite Hc', Hu'. cbn [rbind].
  rewrite basename_slash. cbn [str_truthy]. rewrite (dirname_slash _ Hb).
  destruct (String.eqb_spec (basename uri) ""); [contradiction|].
  now rewrite Hp'.
Qed.

Lemma hg_path_ignores_a_trailing_slash_witness :
  getpath "/distfiles" (Cases.hg_at "http://host/bar")
    = Ok "/distfiles/hg-src/bar/bar" /\
  getpath "/distfiles" (Cases.hg_at "http://host/bar/")
    = getpath "/distfiles" (Cases.hg_at "http://host/bar").
Proof.
  apply (hg_path_ignores_a_trailing_slash
           "/distfiles" (Cases.hg_at "http://host/bar")
           (Cases.hg_at "http://host/bar/") "http://host/bar" "bar");
    try reflexivity.
  vm_compute. discriminate.
Defined.

(** ** The options that reach the loop *)

Lemma with_jobs_same o : with_jobs (jobs o) o = o.
Proof. now destruct o. Qed.

(** The options are refused, with exit status 1, exactly when
    [--local-rev] comes with [--no-network] or the number of jobs is not
    positive.  Otherwise [main] goes on with the options as they are, but
    for the number of jobs, which is that of the command line when the
    network is used and one when it is not, and for [setuid], which is
    kept only with [FEATURES=userpriv]; so the loop is entered with at
    least one job. *)
Theorem checked_options_fit_the_loop h c :
  match snd (check_options h c) with
  | inl code =>
      code = 1%Z /\
      (local_rev (co c) && negb (network (co c))
       || (jobs (co c) <=? 0)%Z) = true
  | inr c' =>
      (local_rev (co c) && negb (network (co c))
       || (jobs (co c) <=? 0)%Z) = false /\
      c' = mkCmdline
             (with_jobs (if network (co c) then jobs (co c) else 1%Z) (co c))
             (setuid c && userpriv h) (unprivileged_user c) /\
      (1 <= jobs (co c'))%Z
  end.
Proof.
  unfold check_options.
  assert (Hsu : (if setuid c && negb (userpriv h) then false else setuid c)
                = setuid c && userpriv h).
  { destruct (setuid c), (userpriv h); reflexivity. }
  rewrite Hsu.
  destruct (local_rev (co c) && negb (network (co c))) eqn:E1; cbn [snd orb].
  { auto. }
  destruct (Z.leb_spec (jobs (co c)) 0) as [E2|E2]; cbn [snd].
  { auto. }
  destruct ((1 <? jobs (co c))%Z && negb (network (co c))) eqn:E3;
    cbn [snd co]; (split; [reflexivity|]).
  - apply andb_true_iff in E3 as [_ E3]. apply negb_true_iff in E3.
    rewrite E3. split; [reflexivity|]. cbn. lia.
  - destruct (network (co c)) eqn:N; rewrite ?with_jobs_same.
    + split; [reflexivity|lia].
    + rewrite andb_true_r in E3. apply Z.ltb_ge in E3.
      assert (jobs (co c) = 1%Z) as J by lia.
      split; [|lia]. f_equal. rewrite <- J. symmetry. apply with_jobs_same.
Qed.

(** What the check of the options leaves of them. *)
Lemma check_options_keeps h c l1 c1 :
  check_options h c = (l1, inr c1) ->
  (1 <= jobs (co c1))%Z /\
  local_rev (co c1) = local_rev (co c) /\
  network (co c1) = network (co c) /\
  opt_type (co c1) = opt_type (co c) /\
  erraneous_merge (co c1) = erraneous_merge (co c) /\
  unprivileged_user c1 = unprivileged_user c.
Proof.
  unfold check_options.
  destruct (local_rev (co c) && negb (network (co c))); [discriminate|].
  destruct (Z.leb_spec (jobs (co c)) 0) as [J|J]; [discriminate|].
  destruct ((1 <? jobs (co c))%Z && negb (network (co c)));
    intros E; inversion E; subst; cbn; repeat split; lia.
Qed.

(** ** What is done with the result *)

Lemma to_rebuild_merge opts d :
  (if erraneous_merge opts && (0 <? List.length (pd_erraneous d))%nat
   then (pd_packages d ++ pd_erraneous d)%list else pd_packages d)
  = to_rebuild opts d.
Proof.
  unfold to_rebuild. destruct (erraneous_merge opts); cbn [andb].
  - destruct (pd_erraneous d); [now rewrite app_nil_r|reflexivity].
  - now rewrite app_nil_r.
Qed.

(** The last part of [main].  With nothing to rebuild it says so and
    returns 0.  Otherwise, after lines of text and perhaps [quickpkg],
    it prints with [--pretend] one [>=<identifier>] for each package, in
    order, and returns 0, and without it replaces the process by
    [emerge --oneshot], the arguments of the user and the same atoms;
    [ESCM_OFFLINE] is set when [offline] holds and no erraneous package
    is merged.  The packages are the updated ones, followed with
    [erraneous_merge] by the erraneous ones. *)
Theorem finish_prints_or_rebuilds_the_packages opts args d :
  match to_rebuild opts d with
  | [] => finish opts args d = ([Say (s1 "No updates found")], Returned 0)
  | _ :: _ =>
      exists pre,
        Forall (fun a => is_say a || is_quickpkg a = true) pre /\
        finish opts args d =
          if pretend opts then
            ((pre ++ map (fun p => Print (String.append ">=" p))
                         (to_rebuild opts d))%list, Returned 0)
          else
            ((pre ++ [Emerge
                        (offline opts
                         && negb (erraneous_merge opts
                                  && (0 <? List.length (pd_erraneous d))%nat))
                        (["emerge"; "--oneshot"] ++ args
                         ++ map (String.append ">=") (to_rebuild opts d))])%list,
             Replaced)
  end.
Proof.
  unfold finish. cbv zeta. rewrite !to_rebuild_merge.
  destruct (to_rebuild opts d) as [|x l] eqn:E.
  - cbn. now rewrite andb_false_r.
  - cbn [List.length Nat.ltb Nat.leb]. rewrite andb_true_r.
    destruct (pretend opts).
    + match goal with
      | |- exists pre, _ /\ ((?q ++ ?a ++ ?m ++ ?p)%list, _) = _ =>
          exists (q ++ a ++ m)%list
      end.
      split; [|now rewrite <- !app_assoc].
      destruct (quickpkg opts), (erraneous_merge opts && _); cbn;
        repeat constructor.
    + match goal with
      | |- exists pre, _ /\ ((?q ++ ?m ++ [?a; ?b; ?e])%list, _) = _ =>
          exists (q ++ m ++ [a; b])%list
      end.
      split; [|now rewrite <- !app_assoc].
      destruct (quickpkg opts), (erraneous_merge opts && _), (offline opts);
        cbn; repeat constructor.
Qed.


Ltac in_acts :=
  repeat match goal with
    | H : _ \/ _ |- _ => destruct H
    | H : False |- _ => destruct H
    | H : In _ (_ ++ _) |- _ => apply in_app_or in H
    | H : In _ (map _ _) |- _ =>
        apply in_map_iff in H; destruct H as (? & ? & ?)
    | H : In _ (if ?b then _ else _) |- _ => destruct b
    | H : In _ [] |- _ => destruct H
    | H : In _ (_ :: _) |- _ => cbn [In] in H
    | H : @eq action _ _ |- _ => first [discriminate H | inversion H; clear H; subst]
    end.

(** [quickpkg] is called exactly when [--quickpkg] is given and there is
    a package to rebuild, with [--pretend] as without it; it is given
    every package that is printed or rebuilt, as [=<identifier>]. *)
Theorem quickpkg_is_called_even_when_pretending opts args d cmd :
  In (Quickpkg cmd) (fst (finish opts args d)) <->
  quickpkg opts = true /\ to_rebuild opts d <> [] /\
  cmd = (["/usr/sbin/quickpkg"; "--include-config=y"]
         ++ map (String.append "=") (to_rebuild opts d))%list.
Proof.
  unfold finish. cbv zeta. rewrite !to_rebuild_merge.
  destruct (to_rebuild opts d) as [|x l] eqn:E.
  - cbn. rewrite andb_false_r. cbn. split.
    + intros H. in_acts.
    + intros (_ & N & _). congruence.
  - cbn [List.length Nat.ltb Nat.leb]. rewrite andb_true_r.
    destruct (quickpkg opts); destruct (pretend opts); cbn [fst]; split;
      try (intros H; in_acts; repeat split; discriminate);
      try (intros (Q & _); discriminate Q);
      intros (_ & _ & ->); apply in_or_app; left; cbn; auto.
Qed.

(** Who goes on after the test of the privileges.  [main] returns 1
    only for a user who is neither the superuser nor allowed by
    [--unprivileged-user]; the portage user goes on with [--pretend]
    forced; privileges are dropped, in the process or in a forked child,
    only by the superuser with [setuid], and in the process only when
    there is nothing left to do but print ([--pretend] without
    [--quickpkg]). *)
Theorem privileges_are_dropped_only_by_root h c :
  match snd (privileges h c) with
  | inl code =>
      code = 1%Z /\ unprivileged_user c = false /\ euid h <> 0%Z
  | inr (c', r) =>
      setuid c' = setuid c /\
      unprivileged_user c' = unprivileged_user c /\
      (unprivileged_user c = true \/ euid h = 0%Z \/
       (uid h = portage_uid h /\ pretend (co c') = true)) /\
      match r with
      | Alone =>
          co c' = co c \/
          (co c' = with_pretend true (co c) /\
           euid h <> 0%Z /\ uid h = portage_uid h)
      | Dropped =>
          co c' = co c /\ euid h = 0%Z /\ setuid c = true /\
          pretend (co c) = true /\ quickpkg (co c) = false
      | Forked =>
          co c' = co c /\ euid h = 0%Z /\ setuid c = true /\
          (pretend (co c) = false \/ quickpkg (co c) = true)
      end
  end.
Proof.
  unfold privileges.
  destruct (setuid c); destruct (Z.eqb_spec (portage_uid h) 0);
    destruct (Z.eqb_spec (portage_gid h) 0);
    destruct (Z.eqb_spec (euid h) 0);
    destruct (Z.eqb_spec (uid h) (portage_uid h));
    destruct (pretend (co c)) eqn:P; destruct (quickpkg (co c)) eqn:Q;
    destruct (unprivileged_user c) eqn:U;
    cbn -[privileges_text]; rewrite ?P, ?Q; intuition congruence.
Qed.

(** What the test of the privileges leaves of the options, and who
    passes it. *)
Lemma privileges_keeps h c l2 c2 r :
  privileges h c = (l2, inr (c2, r)) ->
  (co c2 = co c \/ co c2 = with_pretend true (co c)) /\
  (unprivileged_user c = true \/ euid h = 0%Z \/ pretend (co c2) = true).
Proof.
  unfold privileges.
  destruct (setuid c); destruct (Z.eqb_spec (portage_uid h) 0);
    destruct (Z.eqb_spec (portage_gid h) 0);
    destruct (Z.eqb_spec (euid h) 0);
    destruct (Z.eqb_spec (uid h) (portage_uid h));
    destruct (pretend (co c)) eqn:P; destruct (quickpkg (co c)) eqn:Q;
    destruct (unprivileged_user c) eqn:U;
    cbn -[privileges_text]; intros H; inversion H; subst; cbn; auto.
Qed.



(** ** The run as a whole *)

Lemma loop_more_fuel w o f :
  forall m r, loop w o f m = Some r ->
  forall f', (f <= f')%nat -> loop w o f' m = Some r.
Proof.
  induction f as [|f IH]; intros m r H f' Hle; [discriminate|].
  destruct f' as [|f']; [lia|]. cbn in *.
  destruct (turn w o m) as [[[|]|e] m']; auto.
  apply IH; [assumption|lia].
Qed.

Lemma update_all_more_fuel w o sc sig f f' r :
  update_all w o sc sig f = Some r -> (f <= f')%nat ->
  update_all w o sc sig f' = Some r.
Proof.
  unfold update_all. intros H Hle.
  destruct (loop w o f (initial sc sig)) as [x|] eqn:E; [|discriminate].
  now rewrite (loop_more_fuel _ _ _ _ _ E f' Hle).
Qed.

(** However many turns were allowed: a loop that has ended without a
    signal has the result the verdicts on the tasks give. *)
Lemma update_all_result w o sc f d :
  (1 <= jobs o)%Z ->
  update_all w o sc None f = Some (Ok d) ->
  Permutation (pd_packages d) (cpvs_judged w o Changed (tasks_of sc)) /\
  Permutation (pd_erraneous d)
              (sc_erraneous sc ++ cpvs_judged w o Failed (tasks_of sc)).
Proof.
  intros Hj H.
  set (f' := Nat.max f (S (measure w o (initial sc None)))).
  destruct (update_all_spec w o sc f' Hj) as (r & E & P & Q); [lia|].
  rewrite (update_all_more_fuel _ _ _ _ f f' _ H) in E by lia.
  inversion E; subst. auto.
Qed.

Lemma judge_ext w o o' t :
  local_rev o = local_rev o' -> network o = network o' ->
  judge w o t = judge w o' t.
Proof.
  intros H1 H2. unfold judge, start_pure, oldrev_pure. now rewrite H1, H2.
Qed.

Lemma cpvs_judged_ext w o o' X l :
  local_rev o = local_rev o' -> network o = network o' ->
  cpvs_judged w o X l = cpvs_judged w o' X l.
Proof.
  intros H1 H2. unfold cpvs_judged. f_equal. apply filter_ext.
  intros t. now rewrite (judge_ext w o o' t H1 H2).
Qed.

Lemma enum_classes_ext dd o o' p cs :
  network o = network o' ->
  forall rb, enum_classes dd o p cs rb = enum_classes dd o' p cs rb.
Proof.
  intros H. induction cs as [|c cs IH]; intros rb; [reflexivity|].
  cbn. unfold enum_class. rewrite H.
  destruct (vcs_match c (p_inherits p)); [|apply IH].
  destruct (vcs_init _ _ _) as [v|]; [|reflexivity]. cbn [rbind].
  destruct (if network o' then _ else _) as [[|]|]; cbn [rbind];
    try reflexivity; try apply IH.
  destruct (getpath dd v); [|reflexivity]. cbn [rbind].
  destruct (rebuilds_get rb a); [|apply IH].
  destruct (append v0 v); cbn [rbind]; [apply IH|reflexivity].
Qed.

Lemma enumerate_ext dd o o' db :
  network o = network o' -> opt_type o = opt_type o' ->
  enumerate dd o db = enumerate dd o' db.
Proof.
  intros H1 H2. unfold enumerate.
  generalize (mkScan [] [] [s1 "Enumerating the packages ..."]).
  induction db as [|p db IH]; intros s; [reflexivity|]. cbn [fold_left].
  rewrite IH. f_equal. unfold enum_package.
  now rewrite H2, (enum_classes_ext dd o o' p _ H1).
Qed.

Lemma finish_emerge opts args d off cmd :
  In (Emerge off cmd) (fst (finish opts args d)) ->
  pretend opts = false /\
  cmd = (["emerge"; "--oneshot"] ++ args
         ++ map (String.append ">=") (to_rebuild opts d))%list.
Proof.
  unfold finish. cbv zeta. rewrite !to_rebuild_merge.
  destruct (to_rebuild opts d) as [|x l] eqn:E.
  - cbn. rewrite andb_false_r. cbn. intros H. in_acts.
  - cbn [List.length Nat.ltb Nat.leb]. rewrite andb_true_r.
    destruct (quickpkg opts); destruct (pretend opts); cbn [fst];
      intros H; in_acts; auto.
Qed.

Lemma parent_main_acts opts args pipe a :
  In a (fst (parent_main opts args pipe)) ->
  a = KillChild \/ exists d, pipe = Some d /\ In a (fst (finish opts args d)).
Proof.
  unfold parent_main. destruct pipe as [d|]; cbn.
  - destruct (finish opts args d) as [acts [code| |e]] eqn:E; cbn;
      intros H; try apply in_app_or in H; in_acts; eauto;
      right; exists d; rewrite E; auto.
  - intros [H|[]]; auto.
Qed.

(** The options and the result of the scan of a run that went as far as
    the end of the loop. *)
Lemma main_tail_inv h w db args sig fuel c said acts e :
  main_tail h w db args sig fuel c = Some (said, acts, e) ->
  (acts = [] /\ exists code, e = Returned code) \/
  exists c1 c2 r l1 l2 res,
    check_options h c = (l1, inr c1) /\
    privileges h c1 = (l2, inr (c2, r)) /\
    update_all w (co c2) (enumerate (distdir w) (co c2) db) sig fuel
      = Some res /\
    match r, res with
    | Forked, Ok d => (acts, e) = parent_main (co c2) args (Some d)
    | Forked, Raise _ => (acts, e) = parent_main (co c2) args None
    | _, Ok d => (acts, e) = finish (co c2) args d
    | _, Raise x => acts = [] /\ e = Raised x
    end.
Proof.
  unfold main_tail. intros H.
  destruct (check_options h c) as [l1 [code|c1]] eqn:E1.
  { inversion H. eauto. }
  destruct (privileges h c1) as [l2 [code|[c2 r]]] eqn:E2.
  { inversion H. eauto. }
  cbv zeta in H.
  destruct (update_all _ _ _ _ _) as [res|] eqn:E3; [|discriminate].
  right. exists c1, c2, r, l1, l2, res.
  split; [reflexivity|]. split; [exact E2|]. split; [exact E3|].
  destruct r, res as [d|x];
    try (destruct (finish _ _ _) as [a b] eqn:F);
    try (destruct (parent_main _ _ _) as [a b] eqn:F);
    inversion H; subst; auto.
Qed.

(** [emerge] is only called by a process that was started as the
    superuser, or with [--unprivileged-user]: a run that was started
    otherwise ends before the enumeration, or only prints the list. *)
Theorem emerge_runs_as_root_or_by_request
  h w db args sig fuel c said acts e off cmd :
  main_tail h w db args sig fuel c = Some (said, acts, e) ->
  In (Emerge off cmd) acts ->
  euid h = 0%Z \/ unprivileged_user c = true.
Proof.
  intros H Hin.
  destruct (main_tail_inv _ _ _ _ _ _ _ _ _ _ H)
    as [[-> _]|(c1 & c2 & r & l1 & l2 & res & E1 & E2 & E3 & Hr)];
    [contradiction|].
  destruct (check_options_keeps _ _ _ _ E1) as (_ & _ & _ & _ & _ & U1).
  destruct (privileges_keeps _ _ _ _ _ E2) as (_ & Hp).
  assert (P : pretend (co c2) = false).
  { destruct r, res as [d|x]; try (apply proj1 in Hr; subst; contradiction);
      try (apply (f_equal fst) in Hr; cbn [fst] in Hr; subst acts).
    - now apply finish_emerge in Hin.
    - now apply finish_emerge in Hin.
    - apply parent_main_acts in Hin as [Hk|(d' & _ & Hin)]; [discriminate|].
      now apply finish_emerge in Hin.
    - apply parent_main_acts in Hin as [Hk|(d' & Hd & _)]; discriminate. }
  rewrite U1 in Hp. destruct Hp as [Hp|[Hp|Hp]]; auto. congruence.
Qed.

(** What the two checks leave of the options. *)
Lemma checked_options h c l1 c1 l2 c2 r :
  check_options h c = (l1, inr c1) ->
  privileges h c1 = (l2, inr (c2, r)) ->
  (1 <= jobs (co c2))%Z /\
  local_rev (co c2) = local_rev (co c) /\
  network (co c2) = network (co c) /\
  opt_type (co c2) = opt_type (co c) /\
  erraneous_merge (co c2) = erraneous_merge (co c).
Proof.
  intros E1 E2.
  destruct (check_options_keeps _ _ _ _ E1) as (J & F1 & F2 & F3 & F4 & _).
  destruct (privileges_keeps _ _ _ _ _ E2) as ([O|O] & _); rewrite O; cbn;
    auto.
Qed.

(** Without a signal [main] ends, whatever the options, the packages and
    the answers of the programs: the options with which the loop would
    not be entered are refused, and with the others the loop ends after
    a number of turns that the tasks bound. *)
Theorem main_tail_ends h w db args c :
  exists n, forall fuel,
    (n <= fuel)%nat ->
    exists r, main_tail h w db args None fuel c = Some r.
Proof.
  unfold main_tail.
  destruct (check_options h c) as [l1 [code|c1]] eqn:E1.
  { exists O. eauto. }
  destruct (privileges h c1) as [l2 [code|[c2 r]]] eqn:E2.
  { exists O. eauto. }
  destruct (checked_options _ _ _ _ _ _ _ E1 E2) as (J & _).
  cbv zeta.
  exists (S (measure w (co c2)
               (initial (enumerate (distdir w) (co c2) db) None))).
  intros fuel Hf.
  destruct (update_all_spec w (co c2) (enumerate (distdir w) (co c2) db)
              fuel J) as (d & E & _); [lia|].
  rewrite E. destruct r;
    try (destruct (finish _ _ _) as [a b]);
    try (destruct (parent_main _ _ _) as [a b]); eauto.
Qed.

Lemma finish_replaced o args d acts :
  finish o args d = (acts, Replaced) ->
  exists pre off,
    acts = (pre ++ [Emerge off
                      (["emerge"; "--oneshot"] ++ args
                       ++ map (String.append ">=") (to_rebuild o d))])%list.
Proof.
  unfold finish. cbv zeta. rewrite !to_rebuild_merge.
  destruct (_ <? 1)%nat; [discriminate|].
  destruct (pretend o); [discriminate|].
  intros H. inversion H.
  match goal with
  | |- exists pre off, (?q ++ ?m ++ [?a; ?b; Emerge ?f _])%list = _ =>
      exists (q ++ m ++ [a; b])%list, f
  end.
  now rewrite <- !app_assoc.
Qed.

Lemma parent_main_replaced o args pipe acts :
  parent_main o args pipe = (acts, Replaced) ->
  exists d, pipe = Some d /\ finish o args d = (acts, Replaced).
Proof.
  unfold parent_main. destruct pipe as [d|]; cbn; [|discriminate].
  destruct (finish o args d) as [a [code| |e]] eqn:F; intros H;
    inversion H; subst; eauto.
Qed.

(** When [main] ends by calling [emerge], the command line holds
    [>=<identifier>] for every identifier of a task found changed and,
    with [erraneous_merge], of a task that failed; and beside [emerge],
    [--oneshot] and the arguments of the user it holds nothing but such
    atoms of installed packages. *)
Theorem changed_packages_are_given_to_emerge h w db args fuel c said acts :
  main_tail h w db args None fuel c = Some (said, acts, Replaced) ->
  exists off cmd,
    In (Emerge off cmd) acts /\
    (forall t x,
        In t (tasks_of (enumerate (distdir w) (co c) db)) ->
        In x (cpv t) ->
        judge w (co c) t = Changed \/
        (judge w (co c) t = Failed /\ erraneous_merge (co c) = true) ->
        In (">=" ++ x) cmd) /\
    (forall a,
        In a cmd ->
        a = "emerge" \/ a = "--oneshot" \/ In a args \/
        exists q, In q db /\ a = ">=" ++ p_cpv q).
Proof.
  intros H.
  destruct (main_tail_inv _ _ _ _ _ _ _ _ _ _ H)
    as [[_ [code Hc]]|(c1 & c2 & r & l1 & l2 & res & E1 & E2 & E3 & Hr)];
    [discriminate|].
  destruct (checked_options _ _ _ _ _ _ _ E1 E2) as (J & Hl & Hn & Ht & Hm).
  assert (Hd : exists d, res = Ok d /\ finish (co c2) args d = (acts, Replaced)).
  { destruct r, res as [d|x];
      try (apply proj2 in Hr; discriminate);
      try (exists d; split; [reflexivity|now symmetry]);
      symmetry in Hr; apply parent_main_replaced in Hr as (d' & Hp & Hf);
      inversion Hp; subst; eauto. }
  destruct Hd as (d & -> & Hf).
  rewrite (enumerate_ext _ (co c2) (co c) db Hn Ht) in E3.
  destruct (update_all_result _ _ _ _ _ J E3) as [P Q].
  rewrite (cpvs_judged_ext w (co c2) (co c) _ _ Hl Hn) in P.
  rewrite (cpvs_judged_ext w (co c2) (co c) _ _ Hl Hn) in Q.
  destruct (finish_replaced _ _ _ _ Hf) as (pre & off & ->).
  eexists off, _. split; [apply in_or_app; right; left; reflexivity|].
  split.
  - intros t x Hin Hx Hj. apply in_or_app. right. apply in_or_app. right.
    apply in_map. unfold to_rebuild. apply in_or_app.
    destruct Hj as [Hj|[Hj He]].
    + left. apply (Permutation_in x (Permutation_sym P)).
      now apply (cpvs_judged_in w (co c) Changed t).
    + right. rewrite Hm, He.
      apply (Permutation_in x (Permutation_sym Q)). apply in_or_app. right.
      now apply (cpvs_judged_in w (co c) Failed t).
  - intros a Ha. cbn [app In] in Ha. destruct Ha as [<-|[<-|Ha]]; auto.
    apply in_app_or in Ha as [Ha|Ha]; auto.
    right. right. right. apply in_map_iff in Ha as (x & <- & Hx).
    assert (Hs : In x (scan_ids (enumerate (distdir w) (co c) db))).
    { unfold scan_ids, to_rebuild in *. apply in_app_or in Hx as [Hx|Hx].
      - apply in_or_app. left. apply (Permutation_in x P) in Hx.
        now apply cpvs_judged_ids in Hx.
      - destruct (erraneous_merge (co c2)); [|contradiction].
        apply (Permutation_in x Q) in Hx. apply in_app_or in Hx as [Hx|Hx].
        + apply in_or_app. now right.
        + apply in_or_app. left. now apply cpvs_judged_ids in Hx. }
    apply enumerate_ids in Hs as (q & Hq & ->). eauto.
Qed.


Lemma changed_packages_are_given_to_emerge_witness :
  exists off cmd,
    In (Emerge off cmd) (snd (fst Cases.demo_run)) /\
    In ">=x/a-2" cmd /\ In ">=x/c-1" cmd.
Proof.
  destruct (changed_packages_are_given_to_emerge
              Cases.root_host Sample.demo_world Sample.demo_db ["--ask"] 20
              Cases.plain (fst (fst Cases.demo_run)) (snd (fst Cases.demo_run)))
    as (off & cmd & Hin & Hch & _).
  - vm_compute. reflexivity.
  - exists off, cmd. split; [exact Hin|]. clear Hin. split.
    + apply (Hch (nth 0 (tasks_of (enumerate "/distfiles" Sample.one_job
                                     Sample.demo_db)) no_vcs) "x/a-2").
      * vm_compute. left. reflexivity.
      * vm_compute. right. left. reflexivity.
      * left. vm_compute. reflexivity.
    + apply (Hch (nth 2 (tasks_of (enumerate "/distfiles" Sample.one_job
                                     Sample.demo_db)) no_vcs) "x/c-1").
      * vm_compute. right. right. left. reflexivity.
      * vm_compute. left. reflexivity.
      * right. split; vm_compute; reflexivity.
Defined.

Lemma emerge_runs_as_root_or_by_request_witness :
  euid Cases.root_host = 0%Z \/ unprivileged_user Cases.plain = true.
Proof.
  apply (emerge_runs_as_root_or_by_request
           Cases.root_host Sample.demo_world Sample.demo_db ["--ask"] None 20
           Cases.plain (fst (fst Cases.demo_run)) (snd (fst Cases.demo_run))
           Replaced false
           ["emerge"; "--oneshot"; "--ask"; ">=x/a-1"; ">=x/a-2"; ">=x/b-1";
            ">=x/c-1"]).
  - vm_compute. reflexivity.
  - vm_compute. right. right. right. left. reflexivity.
Defined.

(** * The loop under any signal *)

Ltac quiet_tac :=
  unfold quiet; cbn; repeat split; auto;
  unfold upd; repeat match goal with
                | |- context [Nat.eqb ?a ?b] =>
                    destruct (Nat.eqb_spec a b); subst
                end; cbn; auto; try congruence.

Lemma quiet_refl m : quiet m m.
Proof. unfold quiet. repeat split; auto. Qed.

Lemma quiet_trans a b c : quiet a b -> quiet b c -> quiet a c.
Proof.
  intros (A1 & A2 & A3 & A4 & A5) (B1 & B2 & B3 & B4 & B5).
  unfold quiet. repeat split; try congruence.
  - destruct (A5 j), (B5 j). congruence.
  - destruct (A5 j), (B5 j). auto.
Qed.

Lemma grows_refl m : grows m m.
Proof.
  unfold grows. split; [auto|].
  split; exists []; rewrite app_nil_r; split; auto; contradiction.
Qed.

Lemma grows_trans a b c : grows a b -> grows b c -> grows a c.
Proof.
  intros (A1 & (pa & A4 & A5) & (ea & A6 & A7))
         (B1 & (pb & B4 & B5) & (eb & B6 & B7)).
  assert (Hc : forall j, cpv (heap b j) = cpv (heap a j))
    by (intros j; apply A1).
  unfold grows. split; [|split].
  - intros j. destruct (A1 j), (B1 j). split; [congruence|auto].
  - exists (pa ++ pb)%list. split; [rewrite B4, A4; now rewrite app_assoc|].
    intros x Hx. apply in_app_or in Hx as [Hx|Hx]; [auto|].
    destruct (B5 x Hx) as [j Hj]. exists j. now rewrite <- Hc.
  - exists (ea ++ eb)%list. split; [rewrite B6, A6; now rewrite app_assoc|].
    intros x Hx. apply in_app_or in Hx as [Hx|Hx]; [auto|].
    destruct (B7 x Hx) as [j Hj]. exists j. now rewrite <- Hc.
Qed.

Lemma quiet_grows m m' : quiet m m' -> grows m m'.
Proof.
  intros (A1 & A2 & A3 & A4 & A5). unfold grows. split; [exact A5|].
  split; exists []; rewrite app_nil_r; split; auto; contradiction.
Qed.

Lemma quiet_bounded opts m m' : quiet m m' -> bounded opts m -> bounded opts m'.
Proof.
  intros (A1 & A2 & A3 & A4 & A5) [B1 B2]. unfold bounded. rewrite A2.
  split; [|assumption]. intros i Hi. apply A5. auto.
Qed.

Lemma remove_first_shorter i l :
  (List.length (remove_first i l) <= List.length l)%nat.
Proof.
  induction l as [|j l IH]; cbn; [lia|].
  destruct (Nat.eqb j i); cbn; lia.
Qed.

Section AnySignal.
Variable w : world.
Variable opts : options.

Lemma startupdate_quiet i m r m' :
  startupdate w opts i m = (r, m') ->
  quiet m m' /\ (r = Ok tt -> has_subprocess (heap m' i) = true).
Proof.
  unfold startupdate, getrev.
  repeat (first [ progress unfold_ops | progress cbn | break_match ]);
    intros H; inversion H; subst; (split; [quiet_tac|]);
    try discriminate; intros _; cbn; rewrite ?upd_same; reflexivity.
Qed.

Lemma endupdate_quiet i b m r m' :
  endupdate w opts i b m = (r, m') -> quiet m m'.
Proof.
  unfold endupdate, poll, getrev, diffstat.
  repeat (first [ progress unfold_ops | progress cbn | break_match ]);
    intros H; inversion H; subst; quiet_tac.
Qed.

Lemma abortupdate_quiet i m r m' :
  abortupdate i m = (r, m') ->
  quiet m m' /\ (has_subprocess (heap m i) = true -> r = Ok tt).
Proof.
  unfold abortupdate, has_subprocess.
  repeat (first [ progress unfold_ops | progress cbn | break_match ]);
    intros H; inversion H; subst; (split; [quiet_tac|]);
    try reflexivity; discriminate.
Qed.

Lemma tick_quiet m r m' : tick m = (r, m') -> quiet m m'.
Proof.
  unfold tick. destruct (sigint m) as [[|n]|]; intros H; inversion H;
    quiet_tac.
Qed.

(** What polling the children keeps: an instance may have left
    [processes]. *)
Lemma poll_all_any ps :
  forall m r m',
    poll_all w opts ps m = (r, m') ->
    bounded opts m -> grows m m' /\ bounded opts m'.
Proof.
  induction ps as [|v rest IH]; intros m r m' H B.
  - inversion H; subst. split; [apply grows_refl|assumption].
  - cbn [poll_all] in H. unfold mbind, modify in H.
    destruct (endupdate w opts v false (set_cur v m)) as [[o|e] m1] eqn:E.
    + apply endupdate_quiet in E.
      assert (Q : quiet m (set_ret o m1)).
      { destruct E as (E1 & E2 & E3 & E4 & E5). unfold quiet. cbn. auto. }
      destruct o as [b|].
      * inversion H; subst. split.
        -- eapply grows_trans; [apply quiet_grows; exact Q|].
           unfold grows. cbn. split; [auto|].
           split; exists []; rewrite app_nil_r; split; auto; contradiction.
        -- apply (quiet_bounded opts _ _ Q) in B. destruct B as [B1 B2].
           unfold bounded. cbn in *. split.
           ++ intros i Hi. apply B1. eapply remove_first_incl; eassumption.
           ++ pose proof (remove_first_shorter v (processes m1)). lia.
      * destruct (IH _ _ _ H (quiet_bounded opts _ _ Q B)) as [G B'].
        split; [|assumption].
        eapply grows_trans; [apply quiet_grows; exact Q|exact G].
    + inversion H; subst. apply endupdate_quiet in E.
      assert (Q : quiet m m').
      { destruct E as (E1 & E2 & E3 & E4 & E5). unfold quiet. cbn in *. auto. }
      split; [now apply quiet_grows|now apply (quiet_bounded opts m)].
Qed.

End AnySignal.

Section AnySignalHandlers.
Variable w : world.
Variable opts : options.

(** [abort_all] on started instances ends without an exception. *)
Lemma abort_all_any ps :
  forall m r m',
    abort_all ps m = (r, m') ->
    (forall i, In i ps -> has_subprocess (heap m i) = true) ->
    r = Ok tt /\ quiet m m'.
Proof.
  induction ps as [|v rest IH]; intros m r m' H S.
  - inversion H; subst. split; [reflexivity|apply quiet_refl].
  - cbn [abort_all] in H. unfold mbind, modify in H.
    destruct (abortupdate v (set_cur v m)) as [[u|e] m1] eqn:E;
      apply abortupdate_quiet in E as [Q R].
    + assert (Q' : quiet m m1).
      { destruct Q as (E1 & E2 & E3 & E4 & E5). unfold quiet. cbn in *. auto. }
      destruct (IH _ _ _ H) as [-> Q2].
      * intros i Hi. apply Q'. apply S. now right.
      * split; [reflexivity|]. eapply quiet_trans; eassumption.
    + cbn in R. specialize (R (S v (or_introl eq_refl))). discriminate.
Qed.

Lemma collect_any m r m' :
  collect w opts m = (r, m') ->
  bounded opts m -> grows m m' /\ bounded opts m'.
Proof.
  unfold collect, mbind, get, load, modify, mret. intros H B.
  destruct (poll_all w opts (processes m) m) as [[u|e] m1] eqn:E;
    destruct (poll_all_any w opts _ _ _ _ E B) as [G B1].
  - destruct (ret m1) as [[|]|]; inversion H; subst; try (split; assumption).
    split.
    + eapply grows_trans; [exact G|].
      unfold grows. cbn. split; [auto|]. split.
      * exists (cpv (heap m1 (cur m1))). split; [reflexivity|]. eauto.
      * exists []. rewrite app_nil_r. split; [reflexivity|]. contradiction.
    + exact B1.
  - inversion H; subst. split; assumption.
Qed.

Lemma handler_any e m r m' :
  handler opts e m = (r, m') ->
  bounded opts m ->
  (exists b, r = Ok b) /\ grows m m' /\ bounded opts m'.
Proof.
  unfold handler. intros H B. destruct (is_KeyboardInterrupt e).
  - unfold mbind, out_line, modify, get, mret in H. cbn in H.
    destruct (abort_all (processes m) _) as [[u|x] m1] eqn:E;
      apply abort_all_any in E as [Er Q]; try (apply B); try discriminate.
    inversion H; subst. split; [eauto|].
    assert (Q' : quiet m m').
    { destruct Q as (E1 & E2 & E3 & E4 & E5). unfold quiet. cbn in *. auto. }
    split; [now apply quiet_grows|now apply (quiet_bounded opts m)].
  - unfold mbind, out_line, modify, get, load, mret in H. cbn -[mem] in H.
    destruct B as [B1 B2].
    destruct (negb (jobs opts =? 1)%Z && mem (cur m) (processes m));
      inversion H; subst; (split; [eauto|]); unfold grows, bounded; cbn.
    + split; [split; [intros j; split; auto|split]|split].
      * exists []. rewrite app_nil_r. split; [reflexivity|]. contradiction.
      * exists (cpv (heap m (cur m))). split; [reflexivity|]. eauto.
      * intros i Hi. apply B1. eapply remove_first_incl; eassumption.
      * pose proof (remove_first_shorter (cur m) (processes m)). lia.
    + split; [split; [intros j; split; auto|split]|split; assumption].
      * exists []. rewrite app_nil_r. split; [reflexivity|]. contradiction.
      * exists (cpv (heap m (cur m))). split; [reflexivity|]. eauto.
Qed.

End AnySignalHandlers.

Section AnySignalTurn.
Variable w : world.
Variable opts : options.

(** The [if]/[elif]/[else] of a turn, call by call. *)
Lemma dispatch_unfold m :
  dispatch w opts m =
    let idle :=
      match processes m with
      | [] => (Ok false, m)
      | _ =>
          match tick m with
          | (Ok _, m1) => (Ok true, m1)
          | (Raise e, m1) => (Raise e, m1)
          end
      end in
    match items m with
    | (_, v) :: rest =>
        if (Z.of_nat (List.length (processes m)) <? jobs opts)%Z then
          match startupdate w opts v (set_cur v (set_items rest m)) with
          | (Ok _, ms) =>
              if (jobs opts =? 1)%Z then
                match endupdate w opts v true ms with
                | (Ok r, me) => (Ok true, set_ret r me)
                | (Raise e, me) =>
                    if is_KeyboardInterrupt e then
                      match abortupdate v me with
                      | (Ok _, ma) => (Raise e, ma)
                      | (Raise e', ma) => (Raise e', ma)
                      end
                    else (Raise e, me)
                end
              else (Ok true, set_processes (processes ms ++ [v]) ms)
          | (Raise e, ms) =>
              if is_KeyboardInterrupt e then
                match abortupdate v ms with
                | (Ok _, ma) => (Raise e, ma)
                | (Raise e', ma) => (Raise e', ma)
                end
              else (Raise e, ms)
          end
        else idle
    | [] => idle
    end.
Proof.
  unfold dispatch, mbind, get, modify, try_except, mret, mraise, sleep.
  cbv zeta.
  destruct (items m) as [|[d v] rest];
    [destruct (processes m); reflexivity|].
  destruct (_ <? _)%Z; [|destruct (processes m); reflexivity].
  destruct (startupdate _ _ _ _) as [[u|e] ms].
  - destruct (_ =? 1)%Z; [|reflexivity].
    destruct (endupdate _ _ _ _ _) as [[r|e] me]; [reflexivity|].
    destruct (is_KeyboardInterrupt e); [|reflexivity].
    destruct (abortupdate v me) as [[u'|e'] ma]; reflexivity.
  - destruct (is_KeyboardInterrupt e); [|reflexivity].
    destruct (abortupdate v ms) as [[u'|e'] ma]; reflexivity.
Qed.

Lemma quiet_from m0 m m' :
  heap m0 = heap m -> processes m0 = processes m ->
  packages m0 = packages m -> erraneous m0 = erraneous m ->
  quiet m0 m' ->
  grows m m' /\ processes m' = processes m /\
  forall j, has_subprocess (heap m j) = true ->
            has_subprocess (heap m' j) = true.
Proof.
  intros H1 H2 H3 H4 (Q1 & Q2 & Q3 & Q4 & Q5).
  rewrite H1 in Q5. split; [|split; [congruence|apply Q5]].
  unfold grows. split; [exact Q5|].
  split; exists []; rewrite app_nil_r; split; try congruence; contradiction.
Qed.

Lemma grows_bounded m m' :
  grows m m' -> processes m' = processes m ->
  bounded opts m -> bounded opts m'.
Proof.
  intros (G & _) P [B1 B2]. unfold bounded. rewrite P. split; [|assumption].
  intros i Hi. apply G. auto.
Qed.

Lemma set_ret_grows r m : grows m (set_ret r m).
Proof.
  unfold grows. cbn. split; [auto|].
  split; exists []; rewrite app_nil_r; split; auto; contradiction.
Qed.

Lemma dispatch_any m r m1 :
  dispatch w opts m = (r, m1) ->
  bounded opts m -> grows m m1 /\ bounded opts m1.
Proof.
  rewrite dispatch_unfold. cbv zeta. intros H B.
  assert (Idle :
            match processes m with
            | [] => (Ok false, m)
            | _ :: _ =>
                match tick m with
                | (Ok _, m1) => (Ok true, m1)
                | (Raise e, m1) => (Raise e, m1)
                end
            end = (r, m1) -> grows m m1 /\ bounded opts m1).
  { clear H. intros H. destruct (processes m) eqn:P.
    - inversion H; subst. split; [apply grows_refl|assumption].
    - destruct (tick m) as [[u|e] mt] eqn:T; inversion H; subst;
        apply tick_quiet in T;
        (split; [now apply quiet_grows|now apply (quiet_bounded opts m)]). }
  destruct (items m) as [|[d v] rest]; [auto|].
  destruct (_ <? _)%Z eqn:L; [|auto]. clear Idle.
  apply Z.ltb_lt in L.
  destruct (startupdate _ _ _ _) as [[u|e] ms] eqn:S;
    apply startupdate_quiet in S as [Qs Hs];
    apply (quiet_from _ m) in Qs as (Gs & Ps & Ss); try reflexivity.
  - specialize (Hs (f_equal _ (match u with tt => eq_refl end))).
    destruct (_ =? 1)%Z.
    + destruct (endupdate _ _ _ _ _) as [[o|e] me] eqn:E;
        apply endupdate_quiet in E;
        apply (quiet_from _ ms) in E as (Ge & Pe & Se); try reflexivity.
      * inversion H; subst. split.
        -- eapply grows_trans; [exact Gs|].
           eapply grows_trans; [exact Ge|apply set_ret_grows].
        -- apply (grows_bounded m); [| |assumption].
           ++ eapply grows_trans; [exact Gs|].
              eapply grows_trans; [exact Ge|apply set_ret_grows].
           ++ cbn. congruence.
      * assert (Gme : grows m me) by (eapply grows_trans; eassumption).
        assert (Bme : bounded opts me)
          by (apply (grows_bounded m); [assumption|congruence|assumption]).
        destruct (is_KeyboardInterrupt e).
        -- destruct (abortupdate v me) as [[u'|e'] ma] eqn:A;
             apply abortupdate_quiet in A as [Qa _];
             inversion H; subst;
             (split; [eapply grows_trans; [exact Gme|now apply quiet_grows]
                     |now apply (quiet_bounded opts me)]).
        -- inversion H; subst. split; assumption.
    + inversion H; subst. split.
      * eapply grows_trans; [exact Gs|]. unfold grows. cbn. split; [auto|].
        split; exists []; rewrite app_nil_r; split; auto; contradiction.
      * destruct B as [B1 B2]. unfold bounded. cbn. rewrite Ps. split.
        -- intros i Hi. apply in_app_or in Hi as [Hi|[<-|[]]]; auto.
        -- rewrite length_app. cbn. lia.
  - assert (Bms : bounded opts ms)
      by (apply (grows_bounded m); assumption).
    destruct (is_KeyboardInterrupt e).
    + destruct (abortupdate v ms) as [[u'|e'] ma] eqn:A;
        apply abortupdate_quiet in A as [Qa _];
        inversion H; subst;
        (split; [eapply grows_trans; [exact Gs|now apply quiet_grows]
                |now apply (quiet_bounded opts ms)]).
    + inversion H; subst. split; assumption.
Qed.

(** One turn, whatever the signal and the answers: no exception leaves
    it. *)
Lemma turn_any m r m' :
  turn w opts m = (r, m') ->
  bounded opts m ->
  (exists b, r = Ok b) /\ grows m m' /\ bounded opts m'.
Proof.
  rewrite turn_unfold. intros H B.
  destruct (dispatch w opts m) as [[[|]|e] m1] eqn:D;
    destruct (dispatch_any _ _ _ D B) as [G1 B1].
  - unfold try_except in H.
    destruct (collect w opts m1) as [[b|e] m2] eqn:C;
      destruct (collect_any w opts _ _ _ C B1) as [G2 B2].
    + inversion H; subst. split; [eauto|]. split; [|assumption].
      eapply grows_trans; eassumption.
    + destruct (handler_any opts _ _ _ _ H B2) as (Hr & G3 & B3).
      split; [assumption|]. split; [|assumption].
      eapply grows_trans; [exact G1|]. eapply grows_trans; eassumption.
  - inversion H; subst. split; [eauto|]. split; assumption.
  - destruct (handler_any opts _ _ _ _ H B1) as (Hr & G3 & B3).
    split; [assumption|]. split; [|assumption].
    eapply grows_trans; eassumption.
Qed.

End AnySignalTurn.

Ltac calm_tac :=
  unfold calm; cbn; repeat split; auto;
  try (intros; rewrite ?upd_other by assumption; reflexivity);
  rewrite ?upd_same; reflexivity.

Section MethodsKeep.
Variable w : world.
Variable opts : options.

Lemma startupdate_calm i m r m' :
  startupdate w opts i m = (r, m') ->
  calm i m m' /\
  (r = Ok tt -> (polls_of (heap m' i) <= budget w (heap m i))%nat).
Proof.
  unfold startupdate, getrev.
  repeat (first [ progress unfold_ops | progress cbn | break_match ]);
    intros H; inversion H; subst; (split; [calm_tac|]);
    try discriminate; intros _; cbn; rewrite ?upd_same; unfold polls_of, budget;
    cbn;
    repeat match goal with
      | E : getpath _ _ = _ |- _ => rewrite E; clear E
      end; lia.
Qed.

Lemma endupdate_calm i b m r m' :
  endupdate w opts i b m = (r, m') ->
  calm i m m' /\
  (polls_of (heap m' i) <= polls_of (heap m i))%nat /\
  (r = Ok None -> (polls_of (heap m' i) < polls_of (heap m i))%nat).
Proof.
  unfold endupdate, poll, getrev, diffstat.
  repeat (first [ progress unfold_ops | progress cbn | break_match ]);
    intros H; inversion H; subst; (split; [calm_tac|]);
    (split; [|try discriminate]); cbn; rewrite ?upd_same;
    unfold polls_of; cbn;
    repeat match goal with
      | E : subprocess _ = _ |- _ => rewrite E; clear E
      | E : polls_left _ = _ |- _ => rewrite E; clear E
      end; try lia.
Qed.

Lemma abortupdate_calm i m r m' :
  abortupdate i m = (r, m') ->
  calm i m m' /\ polls_of (heap m' i) = polls_of (heap m i).
Proof.
  unfold abortupdate.
  repeat (first [ progress unfold_ops | progress cbn | break_match ]);
    intros H; inversion H; subst; (split; [calm_tac|]);
    cbn; rewrite ?upd_same; unfold polls_of; cbn;
    repeat match goal with
      | E : subprocess _ = _ |- _ => rewrite E; clear E
      end; reflexivity.
Qed.
End MethodsKeep.

Lemma list_sum_perm l l' :
  Permutation l l' -> list_sum l = list_sum l'.
Proof.
  induction 1; unfold list_sum in *; cbn [fold_right] in *; lia.
Qed.

Section EffortFacts.
Variable w : world.
Variable opts : options.

Lemma budget_ext v v' :
  cls v' = cls v -> env v' = env v -> budget w v' = budget w v.
Proof.
  intros Hc He. unfold budget, getpath. now rewrite Hc, He.
Qed.

Lemma eases_refl m : eases w m m.
Proof.
  unfold eases. split; [reflexivity|]. split; [auto|].
  exists []. reflexivity.
Qed.

Lemma eases_trans a b c : eases w a b -> eases w b c -> eases w a c.
Proof.
  intros (A1 & A2 & (g1 & A3)) (B1 & B2 & (g2 & B3)).
  unfold eases. split; [congruence|]. split.
  - intros j. destruct (A2 j), (B2 j). split; [congruence|lia].
  - exists (g1 ++ g2)%list. rewrite A3. rewrite <- app_assoc.
    apply Permutation_app_head. exact B3.
Qed.

(** Easing does not add to the effort, and takes from it when an
    instance has left [processes]. *)
Lemma eases_effort m m' :
  eases w m m' -> (effort w m' <= effort w m)%nat.
Proof.
  intros (E1 & E2 & (gone & E3)). unfold effort. rewrite E1.
  assert (H1 : (list_sum (map (fun kv => budget w (heap m' (snd kv))) (items m))
                = list_sum (map (fun kv => budget w (heap m (snd kv))) (items m)))).
  { f_equal. apply map_ext. intros kv. apply E2. }
  assert (H2 : (list_sum (map (fun i => S (polls_of (heap m' i))) (processes m'))
                <= list_sum (map (fun i => S (polls_of (heap m i))) (processes m'))
               )%nat).
  { apply list_sum_le. intros i _. destruct (E2 i). lia. }
  assert (H3 : list_sum (map (fun i => S (polls_of (heap m i))) (processes m))
               = (list_sum (map (fun i => S (polls_of (heap m i))) gone)
                  + list_sum (map (fun i => S (polls_of (heap m i)))
                                  (processes m')))%nat).
  { rewrite (list_sum_perm _ _ (Permutation_map _ E3)).
    now rewrite map_app, list_sum_app. }
  lia.
Qed.

Lemma eases_removed m m' i :
  items m' = items m ->
  (forall j, budget w (heap m' j) = budget w (heap m j) /\
             (polls_of (heap m' j) <= polls_of (heap m j))%nat) ->
  In i (processes m) ->
  processes m' = remove_first i (processes m) ->
  eases w m m' /\ (effort w m' < effort w m)%nat.
Proof.
  intros E1 E2 Hi Hp.
  assert (E : eases w m m').
  { unfold eases. split; [assumption|]. split; [assumption|].
    exists [i]. rewrite Hp. now apply remove_first_perm. }
  split; [assumption|]. unfold effort. rewrite E1, Hp.
  assert (H1 : (list_sum (map (fun kv => budget w (heap m' (snd kv))) (items m))
                = list_sum (map (fun kv => budget w (heap m (snd kv))) (items m)))).
  { f_equal. apply map_ext. intros kv. apply E2. }
  rewrite (list_sum_remove_first (fun i => S (polls_of (heap m i))) i
             (processes m) Hi).
  assert (H2 : (list_sum (map (fun i => S (polls_of (heap m' i)))
                           (remove_first i (processes m)))
                <= list_sum (map (fun i => S (polls_of (heap m i)))
                                 (remove_first i (processes m))))%nat).
  { apply list_sum_le. intros k _. destruct (E2 k). lia. }
  lia.
Qed.

Lemma eases_polled m m' i :
  items m' = items m -> processes m' = processes m ->
  (forall j, budget w (heap m' j) = budget w (heap m j) /\
             (polls_of (heap m' j) <= polls_of (heap m j))%nat) ->
  In i (processes m) ->
  (polls_of (heap m' i) < polls_of (heap m i))%nat ->
  (effort w m' < effort w m)%nat.
Proof.
  intros E1 Ep E2 Hi Hlt. unfold effort. rewrite E1, Ep.
  assert (H1 : (list_sum (map (fun kv => budget w (heap m' (snd kv))) (items m))
                = list_sum (map (fun kv => budget w (heap m (snd kv))) (items m)))).
  { f_equal. apply map_ext. intros kv. apply E2. }
  rewrite (list_sum_remove_first (fun i => S (polls_of (heap m i))) i
             (processes m) Hi).
  rewrite (list_sum_remove_first (fun i => S (polls_of (heap m' i))) i
             (processes m) Hi).
  assert (H2 : (list_sum (map (fun i => S (polls_of (heap m' i)))
                           (remove_first i (processes m)))
                <= list_sum (map (fun i => S (polls_of (heap m i)))
                                 (remove_first i (processes m))))%nat).
  { apply list_sum_le. intros k _. destruct (E2 k). lia. }
  lia.
Qed.

(** What a method of an instance does to the budgets and the polls. *)
Lemma calm_lighter i m m' :
  calm i m m' ->
  (polls_of (heap m' i) <= polls_of (heap m i))%nat ->
  forall j, budget w (heap m' j) = budget w (heap m j) /\
            (polls_of (heap m' j) <= polls_of (heap m j))%nat.
Proof.
  intros (_ & _ & _ & _ & _ & Ho & Hc & _ & He) Hp j.
  destruct (Nat.eq_dec j i) as [->|N].
  - split; [now apply budget_ext|assumption].
  - rewrite (Ho j N). auto.
Qed.

End EffortFacts.

Section Easing.
Variable w : world.
Variable opts : options.

Lemma eases_orderly m m' : eases w m m' -> orderly opts m -> orderly opts m'.
Proof.
  intros (E1 & _ & (gone & E3)) [N J]. unfold orderly. rewrite E1. split.
  - assert (P : Permutation (map snd (items m) ++ processes m)
                  (gone ++ map snd (items m) ++ processes m')).
    { rewrite E3. rewrite !app_assoc. apply Permutation_app_tail.
      apply Permutation_app_comm. }
    apply (Permutation_NoDup P) in N. now apply NoDup_app_remove_l in N.
  - intros H. rewrite (J H) in E3. apply Permutation_nil in E3.
    now apply app_eq_nil in E3.
Qed.

Lemma poll_all_eases ps :
  forall m r m',
    poll_all w opts ps m = (r, m') ->
    incl ps (processes m) ->
    eases w m m' /\
    (forall u, r = Ok u -> ps <> [] -> (effort w m' < effort w m)%nat) /\
    (forall e, r = Raise e -> In (cur m') (processes m')).
Proof.
  induction ps as [|v rest IH]; intros m r m' H I.
  - inversion H; subst. split; [apply eases_refl|].
    split; [congruence|discriminate].
  - cbn [poll_all] in H. unfold mbind, modify in H.
    assert (Hv : In v (processes m)) by (apply I; now left).
    destruct (endupdate w opts v false (set_cur v m)) as [[o|e] m1] eqn:E;
      apply endupdate_calm in E as (C & P1 & P2);
      pose proof (calm_lighter w v _ _ C P1) as L;
      destruct C as (C1 & C2 & _ & _ & C5 & _); cbn in C1, C2, C5, L.
    + destruct o as [b|].
      * injection H as <- <-. cbn.
        destruct (eases_removed w m
                    (set_processes (remove_first v (processes m1))
                                   (set_ret (Some b) m1)) v)
          as [E S]; cbn; try assumption; try congruence.
        split; [exact E|]. split; [auto|discriminate].
      * specialize (P2 eq_refl). cbn in P2.
        assert (E2 : eases w m (set_ret None m1)).
        { unfold eases. cbn. split; [assumption|]. split; [assumption|].
          exists []. cbn. now rewrite C2. }
        assert (S2 : (effort w (set_ret None m1) < effort w m)%nat).
        { apply (eases_polled w m (set_ret None m1) v); cbn; assumption. }
        destruct (IH _ _ _ H) as (E3 & _ & R3).
        { cbn. rewrite C2. intros x Hx. apply I. now right. }
        split; [eapply eases_trans; eassumption|]. split; [|exact R3].
        intros u _ _. pose proof (eases_effort w _ _ E3). lia.
    + injection H as <- <-. split; [|split; [discriminate|]].
      * unfold eases. split; [assumption|]. split; [assumption|].
        exists []. cbn. now rewrite C2.
      * intros _ _. rewrite C5, C2. exact Hv.
Qed.

Lemma collect_eases m r m' :
  collect w opts m = (r, m') ->
  eases w m m' /\
  (forall b, r = Ok b -> processes m <> [] -> (effort w m' < effort w m)%nat) /\
  (forall e, r = Raise e -> In (cur m') (processes m')).
Proof.
  unfold collect, mbind, load, get, modify, mret. intros H.
  destruct (poll_all w opts (processes m) m) as [[u|e] m1] eqn:E;
    destruct (poll_all_eases _ _ _ _ E (incl_refl _)) as (E1 & S1 & R1).
  - assert (K : forall m2, heap m2 = heap m1 -> items m2 = items m1 ->
                           processes m2 = processes m1 ->
                           (r, m') = (Ok true, m2) ->
                           eases w m m' /\
                           (forall b, r = Ok b -> processes m <> [] ->
                                      (effort w m' < effort w m)%nat) /\
                           (forall e, r = Raise e -> In (cur m') (processes m'))).
    { intros m2 Hh Hi Hp Heq. inversion Heq; subst.
      assert (E2 : eases w m1 m2).
      { unfold eases. rewrite Hh, Hi, Hp. split; [reflexivity|].
        split; [auto|]. exists []. reflexivity. }
      split; [eapply eases_trans; eassumption|]. split; [|discriminate].
      intros b _ Hne. pose proof (S1 u eq_refl Hne).
      pose proof (eases_effort w _ _ E2). lia. }
    destruct (ret m1) as [[|]|]; symmetry in H;
      (eapply K; [| | |exact H]; reflexivity).
  - inversion H; subst. split; [assumption|]. split; [discriminate|].
    intros x _. now apply (R1 e).
Qed.

(** The clause for [Exception]: the loop goes on. *)
Lemma handler_eases e m r m' :
  handler opts e m = (r, m') ->
  is_KeyboardInterrupt e = false ->
  r = Ok true /\ eases w m m' /\
  (In (cur m) (processes m) -> jobs opts <> 1%Z ->
   (effort w m' < effort w m)%nat).
Proof.
  intros H K.
  assert (Ex : is_Exception e = true).
  { unfold is_KeyboardInterrupt in K. now destruct (is_Exception e). }
  destruct (handler_exn opts e m Ex) as (m2 & E & Hh & Hi & _ & _ & _ & Hp & _).
  rewrite E in H. inversion H; subst.
  assert (L : forall j, budget w (heap m' j) = budget w (heap m j) /\
                        (polls_of (heap m' j) <= polls_of (heap m j))%nat).
  { intros j. rewrite Hh. auto. }
  split; [reflexivity|].
  destruct (negb (jobs opts =? 1)%Z && mem (cur m) (processes m)) eqn:C.
  - apply andb_true_iff in C as [_ C]. apply mem_spec in C.
    destruct (eases_removed w m m' (cur m) Hi L C Hp) as [E1 S1]. auto.
  - split.
    + unfold eases. split; [assumption|]. split; [assumption|].
      exists []. cbn. now rewrite Hp.
    + intros Hin Hj. apply andb_false_iff in C as [C|C].
      * apply negb_false_iff in C. apply Z.eqb_eq in C. contradiction.
      * apply mem_spec in Hin. congruence.
Qed.

(** The clause for [KeyboardInterrupt]: the loop is left. *)
Lemma handler_interrupt e m r m' :
  handler opts e m = (r, m') ->
  is_KeyboardInterrupt e = true ->
  r = Ok false \/ exists x, r = Raise x.
Proof.
  unfold handler. intros H K. rewrite K in H.
  unfold mbind, out_line, modify, get, mret in H. cbn in H.
  destruct (abort_all (processes m) _) as [[u|x] m1]; inversion H; eauto.
Qed.

End Easing.

Section DispatchEffort.
Variable w : world.
Variable opts : options.

(** A method of an instance that is not in [processes] leaves the
    effort as it is. *)
Lemma calm_keeps v m m' :
  calm v m m' -> ~ In v (processes m) ->
  items m' = items m /\ processes m' = processes m /\
  effort w m' = effort w m /\
  budget w (heap m' v) = budget w (heap m v).
Proof.
  intros (C1 & C2 & _ & _ & _ & Ho & Hc & _ & He) Hn.
  assert (B : forall j, budget w (heap m' j) = budget w (heap m j)).
  { intros j. destruct (Nat.eq_dec j v) as [->|N];
      [now apply budget_ext|now rewrite Ho]. }
  split; [assumption|]. split; [assumption|]. split; [|apply B].
  unfold effort. rewrite C1, C2. f_equal; [f_equal|].
  - f_equal. apply map_ext. intros kv. apply B.
  - f_equal. apply map_ext_in. intros i Hi. rewrite Ho; [reflexivity|].
    intros ->. contradiction.
Qed.

Lemma effort_popped m d v rest :
  items m = (d, v) :: rest ->
  effort w m
  = (2 + budget w (heap m v) + effort w (set_cur v (set_items rest m)))%nat.
Proof.
  intros H. unfold effort. rewrite H. cbn [set_cur set_items items processes heap].
  cbn [List.length map snd]. unfold list_sum. cbn [fold_right]. lia.
Qed.

Lemma effort_pushed m v :
  effort w (set_processes (processes m ++ [v]) m)
  = (effort w m + S (polls_of (heap m v)))%nat.
Proof.
  unfold effort. cbn [set_processes items processes heap].
  rewrite map_app, list_sum_app. cbn. lia.
Qed.

Lemma dispatch_effort m r m1 :
  dispatch w opts m = (r, m1) ->
  orderly opts m ->
  orderly opts m1 /\
  ((eases w m m1 /\ processes m1 = processes m /\
    (r = Ok false \/
     (processes m <> [] /\ (r = Ok true \/ r = Raise KeyboardInterrupt)))) \/
   (effort w m1 < effort w m)%nat).
Proof.
  rewrite dispatch_unfold. cbv zeta. intros H O.
  assert (Idle :
            match processes m with
            | [] => (Ok false, m)
            | _ :: _ =>
                match tick m with
                | (Ok _, m1) => (Ok true, m1)
                | (Raise e, m1) => (Raise e, m1)
                end
            end = (r, m1) ->
            orderly opts m1 /\
            ((eases w m m1 /\ processes m1 = processes m /\
              (r = Ok false \/
               (processes m <> [] /\
                (r = Ok true \/ r = Raise KeyboardInterrupt)))) \/
             (effort w m1 < effort w m)%nat)).
  { clear H. intros H. destruct (processes m) as [|p ps] eqn:P.
    - injection H as <- <-. split; [assumption|]. left.
      split; [apply eases_refl|]. auto.
    - assert (T : forall x mt, tick m = (x, mt) ->
                    heap mt = heap m /\ items mt = items m /\
                    processes mt = processes m /\
                    (x = Ok tt \/ x = Raise KeyboardInterrupt)).
      { unfold tick. intros x mt. destruct (sigint m) as [[|n]|];
          intros E; injection E as <- <-; cbn; auto. }
      destruct (tick m) as [x mt] eqn:E.
      destruct (T _ _ eq_refl) as (Th & Ti & Tp & Tx).
      assert (Em : eases w m mt).
      { unfold eases. rewrite Th, Ti, Tp. split; [reflexivity|].
        split; [auto|]. exists []. reflexivity. }
      assert (R : r = Ok true \/ r = Raise KeyboardInterrupt).
      { destruct Tx as [->| ->]; injection H as <- _; auto. }
      assert (Hm : m1 = mt) by (destruct x; now injection H).
      subst m1. split; [now apply (eases_orderly w opts m)|]. left.
      split; [assumption|]. split; [congruence|]. right.
      split; [rewrite <- P in *; congruence|assumption]. }
  destruct (items m) as [|[d v] rest] eqn:It; [auto|].
  destruct (_ <? _)%Z eqn:L; [|auto]. clear Idle.
  destruct O as [N J]. rewrite It in N. cbn [map snd app] in N.
  inversion N as [|? ? Nv N']; subst.
  assert (Nvp : ~ In v (processes m)).
  { intros Hin. apply Nv. apply in_or_app. now right. }
  pose proof (effort_popped m d v rest It) as Ep.
  set (m0 := set_cur v (set_items rest m)) in *.
  assert (I0 : items m0 = rest) by reflexivity.
  assert (P0 : processes m0 = processes m) by reflexivity.
  assert (H0 : heap m0 = heap m) by reflexivity.
  assert (K : forall mx,
             items mx = rest -> processes mx = processes m ->
             orderly opts mx).
  { intros mx Hi Hp. unfold orderly. rewrite Hi, Hp. auto. }
  destruct (startupdate _ _ _ _) as [[u|e] ms] eqn:S;
    apply startupdate_calm in S as [Cs Hs];
    destruct (calm_keeps v m0 ms Cs Nvp) as (Is & Ps & Es & Bs).
  - specialize (Hs (f_equal _ (match u with tt => eq_refl end))).
    destruct (_ =? 1)%Z eqn:J1.
    + destruct (endupdate _ _ _ _ _) as [[o|e] me] eqn:E;
        apply endupdate_calm in E as (Ce & _);
        destruct (calm_keeps v ms me Ce) as (Ie & Pe & Ee & _);
        try (rewrite Ps; exact Nvp).
      * injection H as <- <-. split.
        -- apply K; cbn; congruence.
        -- right. change (effort w (set_ret o me)) with (effort w me). lia.
      * destruct (is_KeyboardInterrupt e).
        -- destruct (abortupdate v me) as [[u'|e'] ma] eqn:A;
             apply abortupdate_calm in A as [Ca _];
             destruct (calm_keeps v me ma Ca) as (Ia & Pa & Ea & _);
             try (rewrite Pe, Ps; exact Nvp);
             injection H as <- <-;
             (split; [apply K; congruence|right; lia]).
        -- injection H as <- <-. split; [apply K; congruence|right; lia].
    + injection H as <- <-. split.
      * unfold orderly. cbn. rewrite Is, Ps. split.
        -- rewrite app_assoc.
           eapply Permutation_NoDup; [apply Permutation_cons_append|exact N].
        -- intros Hj. rewrite Hj in J1. discriminate.
      * right. rewrite effort_pushed. cbn in Hs. lia.
  - destruct (is_KeyboardInterrupt e).
    + destruct (abortupdate v ms) as [[u'|e'] ma] eqn:A;
        apply abortupdate_calm in A as [Ca _];
        destruct (calm_keeps v ms ma Ca) as (Ia & Pa & Ea & _);
        try (rewrite Ps; exact Nvp);
        injection H as <- <-;
        (split; [apply K; congruence|right; lia]).
    + injection H as <- <-. split; [apply K; congruence|right; lia].
Qed.

End DispatchEffort.

Section LoopEnds.
Variable w : world.
Variable opts : options.

(** One turn, whatever the signal: when the loop goes on, it is nearer
    to its end. *)
Lemma turn_effort m r m' :
  turn w opts m = (r, m') ->
  orderly opts m -> bounded opts m ->
  exists b, r = Ok b /\
            (b = true -> orderly opts m' /\ (effort w m' < effort w m)%nat).
Proof.
  intros H O B.
  destruct (turn_any w opts _ _ _ H B) as ([b ->] & _ & _).
  exists b. split; [reflexivity|]. intros ->.
  rewrite turn_unfold in H.
  destruct (dispatch w opts m) as [[[|]|e] m1] eqn:D;
    destruct (dispatch_effort w opts _ _ _ D O) as [O1 Hd];
    destruct (dispatch_any w opts _ _ _ D B) as [_ B1].
  - assert (L1 : (effort w m1 <= effort w m)%nat).
    { destruct Hd as [(E & _)|Hd]; [now apply eases_effort|lia]. }
    unfold try_except in H.
    destruct (collect w opts m1) as [[b2|e] m2] eqn:C;
      destruct (collect_eases w opts _ _ _ C) as (E2 & S2 & R2);
      pose proof (eases_orderly w opts _ _ E2 O1) as O2.
    + injection H as _ <-. split; [assumption|].
      destruct Hd as [(E & P & [Hf|(Hne & _)])|Hd].
      * discriminate.
      * rewrite <- P in Hne. pose proof (S2 b2 eq_refl Hne). lia.
      * pose proof (eases_effort w _ _ E2). lia.
    + destruct (is_KeyboardInterrupt e) eqn:K.
      * destruct (handler_interrupt opts _ _ _ _ H K) as [Hf|[x Hx]];
          discriminate.
      * destruct (handler_eases w opts _ _ _ _ H K) as (_ & E3 & S3).
        split; [now apply (eases_orderly w opts m2)|].
        pose proof (eases_effort w _ _ E2).
        assert (Hin : In (cur m2) (processes m2)) by now apply (R2 e).
        assert (Hj : jobs opts <> 1%Z).
        { intros Hj. destruct O2 as [_ J]. rewrite (J Hj) in Hin.
          contradiction. }
        specialize (S3 Hin Hj). lia.
  - discriminate.
  - destruct (is_KeyboardInterrupt e) eqn:K.
    + destruct (handler_interrupt opts _ _ _ _ H K) as [Hf|[x Hx]];
        discriminate.
    + destruct (handler_eases w opts _ _ _ _ H K) as (_ & E3 & _).
      split; [now apply (eases_orderly w opts m1)|].
      pose proof (eases_effort w _ _ E3).
      destruct Hd as [(_ & _ & [Hf|(_ & [Hf|Hf])])|Hd]; try discriminate.
      * injection Hf as ->. discriminate.
      * lia.
Qed.

(** The loop ends, by [break], within the turns the effort allows. *)
Lemma loop_total fuel :
  forall m,
    orderly opts m -> bounded opts m -> (effort w m < fuel)%nat ->
    exists m',
      loop w opts fuel m = Some (Ok tt, m') /\
      grows m m' /\ bounded opts m'.
Proof.
  induction fuel as [|fuel IH]; intros m O B F; [lia|].
  cbn [loop]. destruct (turn w opts m) as [r m1] eqn:T.
  destruct (turn_effort _ _ _ T O B) as (b & -> & Hb).
  destruct (turn_any w opts _ _ _ T B) as (_ & G1 & B1).
  destruct b.
  - destruct (Hb eq_refl) as [O1 L].
    destruct (IH m1 O1 B1) as (m' & E & G & B'); [lia|].
    exists m'. split; [assumption|]. split; [|assumption].
    eapply grows_trans; eassumption.
  - exists m1. auto.
Qed.

Lemma turns_bounded n :
  forall m, bounded opts m -> bounded opts (turns w opts n m).
Proof.
  induction n as [|n IH]; intros m B; [assumption|].
  cbn [turns]. destruct (turn w opts m) as [r m1] eqn:T.
  destruct (turn_any w opts _ _ _ T B) as (_ & _ & B1).
  destruct r as [[|]|e]; auto.
Qed.

End LoopEnds.

Lemma initial_orderly opts sc sig : orderly opts (initial sc sig).
Proof.
  unfold orderly, initial. cbn. split; [|reflexivity].
  rewrite app_nil_r.
  replace (List.length (sc_rebuilds sc))
    with (List.length (map fst (sc_rebuilds sc))) by apply length_map.
  rewrite map_snd_combine_seq. apply seq_NoDup.
Qed.

Lemma initial_bounded opts sc sig : bounded opts (initial sc sig).
Proof.
  unfold bounded, initial. cbn. split; [contradiction|lia].
Qed.

Lemma initial_ids sc sig j x :
  In x (cpv (heap (initial sc sig) j)) -> In x (rebuilds_ids (sc_rebuilds sc)).
Proof.
  unfold initial. cbn. intros H.
  destruct (Nat.lt_ge_cases j (List.length (map snd (sc_rebuilds sc)))) as [L|L].
  - unfold rebuilds_ids. apply in_flat_map.
    pose proof (nth_In _ no_vcs L) as Hin.
    apply in_map_iff in Hin as (kv & E & Hkv).
    exists kv. split; [assumption|]. now rewrite E.
  - rewrite nth_overflow in H by assumption. contradiction.
Qed.

(** Whatever the signal and the answers of the programs, and whatever
    the number of jobs, the loop ends, by [break] or by an exception
    that leaves it: it takes no more turns than the tasks and the polls
    of their children allow.  The erraneous sequence then begins with
    that of the enumeration, and everything else in the two sequences is
    an identifier of a task. *)
Theorem loop_ends_whatever_the_signal w opts sc sig fuel :
  (effort w (initial sc sig) < fuel)%nat ->
  exists r m more,
    loop w opts fuel (initial sc sig) = Some (r, m) /\
    erraneous m = (sc_erraneous sc ++ more)%list /\
    (forall x, In x (packages m ++ more) ->
               In x (rebuilds_ids (sc_rebuilds sc))).
Proof.
  intros F.
  destruct (loop_total w opts fuel _ (initial_orderly opts sc sig)
              (initial_bounded opts sc sig) F)
    as (m & E & (_ & (a & Pa & Ha) & (b & Pb & Hb)) & _).
  exists (Ok tt), m, b. split; [assumption|]. split; [exact Pb|].
  cbn in Pa. rewrite Pa. intros x Hx.
  apply in_app_or in Hx as [Hx|Hx].
  - destruct (Ha x Hx) as [j Hj]. eapply initial_ids; eassumption.
  - destruct (Hb x Hx) as [j Hj]. eapply initial_ids; eassumption.
Qed.

(** After any number of turns, whatever the signal, [processes] holds
    no more instances than there are jobs (none when the number of jobs
    is not positive), and each of them has been started. *)
Theorem running_children_never_exceed_jobs w opts sc sig n :
  (Z.of_nat (List.length (processes (turns w opts n (initial sc sig))))
   <= Z.max 0 (jobs opts))%Z /\
  forallb (fun i => has_subprocess (heap (turns w opts n (initial sc sig)) i))
          (processes (turns w opts n (initial sc sig))) = true.
Proof.
  destruct (turns_bounded w opts n _ (initial_bounded opts sc sig)) as [S L].
  split; [assumption|]. apply forallb_forall. exact S.
Qed.

Section Sequential.
Variable w : world.
Variable opts : options.
Hypothesis Hj : jobs opts = 1%Z.

(** With one job, a turn takes the first task and settles it. *)
Lemma turn_sequential m d v rest :
  sigint m = None -> processes m = [] -> items m = (d, v) :: rest ->
  exists m',
    turn w opts m = (Ok true, m') /\
    sigint m' = None /\ processes m' = [] /\ items m' = rest /\
    (forall j, j <> v -> heap m' j = heap m j) /\
    settled m m' (judge w opts (heap m v)) (cpv (heap m v)).
Proof.
  intros Hs Hp Hi.
  destruct (dispatch_start w opts m d v rest Hs Hi) as (m1 & F1 & _ & Hd).
  { rewrite Hp, Hj. reflexivity. }
  destruct F1 as (F1i & F1p & F1k & F1e & _ & F1c & F1s & F1h & _ & F1v & _).
  cbn in F1i, F1p, F1k, F1e, F1c, F1s, F1h, F1v.
  rewrite turn_unfold.
  assert (Hx : forall e mx,
             is_Exception e = true ->
             sigint mx = None -> processes mx = [] -> items mx = rest ->
             packages mx = packages m -> erraneous mx = erraneous m ->
             cur mx = v -> (forall j, j <> v -> heap mx j = heap m j) ->
             cpv (heap mx v) = cpv (heap m v) ->
             exists m',
               handler opts e mx = (Ok true, m') /\
               sigint m' = None /\ processes m' = [] /\ items m' = rest /\
               (forall j, j <> v -> heap m' j = heap m j) /\
               settled m m' Failed (cpv (heap m v))).
  { intros e mx He Xs Xp Xi Xk Xe Xc Xh Xv.
    destruct (handler_exn opts e mx He)
      as (m' & E & Hh & Hit & Hsig & Hk & Her & Hpr & _).
    exists m'. split; [assumption|]. split; [congruence|].
    split; [|split; [congruence|split]].
    - rewrite Hpr, Xp.
      destruct (negb (jobs opts =? 1)%Z && mem (cur mx) []); reflexivity.
    - intros j Hne. rewrite Hh. auto.
    - cbn. split; [congruence|]. rewrite Her, Xc, Xv, Xe. reflexivity. }
  unfold judge. destruct (start_pure w opts (heap m v)) as [v'|e] eqn:S.
  - destruct Hd as [Hv Hd]. rewrite Hj in Hd. cbn [Z.eqb Pos.eqb] in Hd.
    destruct Hd as (m2 & F2 & Hv2 & _ & Hd).
    destruct F2 as (F2i & F2p & F2k & F2e & _ & F2c & F2s & F2h & _ & F2v & _).
    unfold judge_started.
    destruct (end_pure w v') as [b|e] eqn:E; rewrite Hd.
    + destruct (collect_idle w opts (set_ret (Some b) m2))
        as (m' & Ec & Hh & Hit & Hsig & Hpr & Her & Hk & _).
      { cbn. congruence. }
      cbn in Hh, Hit, Hsig, Her, Hk.
      exists m'. split; [assumption|]. split; [congruence|].
      split; [assumption|]. split; [congruence|]. split.
      * intros j Hne. rewrite Hh, F2h, F1h; auto.
      * assert (Hc : cpv (heap m2 (cur m2)) = cpv (heap m v))
          by (rewrite F2c, F1c; congruence).
        destruct b; cbn; rewrite Hk, ?Hc; split; congruence.
    + apply (Hx e m2); try congruence.
      * eapply end_pure_exn; eassumption.
      * intros j Hne. rewrite F2h, F1h; auto.
  - rewrite Hd. apply (Hx e m1); try congruence;
      [eapply start_pure_exn; eassumption|exact F1h].
Qed.

Lemma due_item_same X m m' (kv : string * nat) :
  heap m' (snd kv) = heap m (snd kv) ->
  due_item w opts X m' kv = due_item w opts X m kv.
Proof. intros H. unfold due_item. now rewrite H. Qed.

(** With one job the tasks are settled one after the other, in the order
    of [items], in one turn each. *)
Lemma loop_sequential its :
  forall m,
    items m = its -> sigint m = None -> processes m = [] ->
    NoDup (map snd its) ->
    exists m',
      loop w opts (S (List.length its)) m = Some (Ok tt, m') /\
      packages m'
      = (packages m ++ flat_map (due_item w opts Changed m) its)%list /\
      erraneous m'
      = (erraneous m ++ flat_map (due_item w opts Failed m) its)%list.
Proof.
  induction its as [|[d v] rest IH]; intros m Hi Hs Hp Hn.
  - exists m. cbn [loop List.length flat_map]. rewrite turn_unfold.
    rewrite (dispatch_idle w opts m Hs (or_introl Hi)), Hp.
    now rewrite !app_nil_r.
  - destruct (turn_sequential m d v rest Hs Hp Hi)
      as (m1 & T & Hs1 & Hp1 & Hi1 & Hh1 & St).
    cbn [map snd] in Hn. apply NoDup_cons_iff in Hn as [Hv Hn'].
    destruct (IH m1 Hi1 Hs1 Hp1 Hn') as (m' & L & Pk & Pe).
    exists m'. split.
    + change (loop w opts (S (List.length ((d, v) :: rest))) m)
        with (match turn w opts m with
              | (Ok true, m') => loop w opts (S (List.length rest)) m'
              | (Ok false, m') => Some (Ok tt, m')
              | (Raise e, m') => Some (Raise e, m')
              end).
      now rewrite T.
    + assert (Hd : forall X,
                 flat_map (due_item w opts X m1) rest
                 = flat_map (due_item w opts X m) rest).
      { intros X. apply flat_map_ext_in. intros kv Hkv.
        apply due_item_same. apply Hh1. intros E. apply Hv.
        rewrite <- E. now apply in_map. }
      assert (Hc : packages m1
                   = (packages m ++ due_item w opts Changed m (d, v))%list
                   /\ erraneous m1
                      = (erraneous m ++ due_item w opts Failed m (d, v))%list).
      { unfold due_item. cbn [snd]. unfold settled in St.
        destruct (judge w opts (heap m v)); cbn [verdict_eqb];
          destruct St as [-> ->]; rewrite ?app_nil_r; auto. }
      destruct Hc as [Hc He].
      rewrite Pk, Pe, !Hd, Hc, He. cbn [flat_map].
      now rewrite <- !app_assoc.
Qed.

End Sequential.

(** With one job and without a signal the loop takes one turn for each
    task and one to leave, and the two sequences are in the order of the
    dictionary: the identifiers of the tasks found changed, and after the
    erraneous ones of the enumeration those of the tasks that failed. *)
Theorem one_job_keeps_the_order_of_the_tasks w opts sc :
  jobs opts = 1%Z ->
  exists r,
    update_all w opts sc None (S (List.length (sc_rebuilds sc)))
      = Some (Ok r) /\
    pd_packages r = cpvs_judged w opts Changed (tasks_of sc) /\
    pd_erraneous r
    = (sc_erraneous sc ++ cpvs_judged w opts Failed (tasks_of sc))%list.
Proof.
  intros Hj.
  destruct (initial_orderly opts sc None) as [N _]. rewrite app_nil_r in N.
  destruct (loop_sequential w opts Hj (items (initial sc None))
              (initial sc None) eq_refl eq_refl eq_refl N)
    as (m & L & Pk & Pe).
  assert (Hl : List.length (items (initial sc None))
               = List.length (sc_rebuilds sc)).
  { cbn. rewrite length_combine, length_map, length_seq. lia. }
  rewrite Hl in L. unfold update_all. rewrite L.
  exists (pdata_of m). split; [reflexivity|].
  pose proof (due_initial w opts Changed sc) as Dc.
  pose proof (due_initial w opts Failed sc) as Df.
  unfold due in Dc, Df. cbn [processes initial flat_map] in Dc, Df.
  rewrite app_nil_r in Dc, Df.
  cbn [pdata_of pd_packages pd_erraneous]. rewrite Pk, Pe.
  split; [rewrite <- Dc|rewrite <- Df]; reflexivity.
Qed.

Section Interrupt.
Variable w : world.
Variable opts : options.

Lemma abortupdate_stops i m :
  has_subprocess (heap m i) = true ->
  exists m',
    abortupdate i m = (Ok tt, m') /\
    items m' = items m /\ processes m' = processes m /\
    packages m' = packages m /\ erraneous m' = erraneous m /\
    trace m' = trace m /\ log m' = log m /\ sigint m' = sigint m /\
    stopped (heap m' i) /\
    (forall j, has_subprocess (heap m j) = true ->
               has_subprocess (heap m' j) = true) /\
    (forall j, stopped (heap m j) -> stopped (heap m' j)).
Proof.
  unfold abortupdate, has_subprocess, stopped, mbind, load, get, store,
    modify, mret, mraise.
  destruct (subprocess (heap m i)) as [[p|]|] eqn:E; [| |discriminate];
    intros _; eexists; (split; [reflexivity|]); cbn; rewrite ?upd_same;
    cbn; rewrite ?E; repeat split; auto;
    intros j; unfold upd; destruct (Nat.eqb_spec j i); subst; cbn; auto.
Qed.

Lemma abort_all_stops ps :
  forall m,
    (forall i, In i ps -> has_subprocess (heap m i) = true) ->
    exists m',
      abort_all ps m = (Ok tt, m') /\
      items m' = items m /\ processes m' = processes m /\
      packages m' = packages m /\ erraneous m' = erraneous m /\
      trace m' = trace m /\ log m' = log m /\ sigint m' = sigint m /\
      (forall i, In i ps -> stopped (heap m' i)) /\
      (forall j, stopped (heap m j) -> stopped (heap m' j)).
Proof.
  induction ps as [|v rest IH]; intros m S.
  - exists m. cbn. repeat split; auto. contradiction.
  - destruct (abortupdate_stops v (set_cur v m))
      as (m1 & E & H1 & H2 & H3 & H4 & H5 & H6 & H7 & Hv & Hs & Hk).
    { apply S. now left. }
    cbn in H1, H2, H3, H4, H5, H6, H7, Hs, Hk.
    destruct (IH m1) as (m' & E' & I1 & I2 & I3 & I4 & I5 & I6 & I7 & Ia & Ik).
    { intros i Hi. apply Hs. apply S. now right. }
    exists m'. split.
    + cbn [abort_all]. unfold mbind at 1. unfold modify at 1.
      unfold mbind at 1. now rewrite E.
    + repeat split; try congruence.
      * intros i [<-|Hi]; auto.
      * intros j Hj. auto.
Qed.

Lemma terminate_twice v : terminate (terminate v) = terminate v.
Proof.
  unfold terminate. destruct (subprocess v) as [[p|]|] eqn:E; cbn;
    rewrite ?E; reflexivity.
Qed.

Lemma abortupdate_exact i m :
  has_subprocess (heap m i) = true ->
  exists m',
    abortupdate i m = (Ok tt, m') /\
    forall j, heap m' j = if Nat.eqb j i then terminate (heap m i)
                          else heap m j.
Proof.
  unfold abortupdate, has_subprocess, terminate, mbind, load, get, store,
    modify, mret, mraise.
  destruct (subprocess (heap m i)) as [[p|]|] eqn:E; [| |discriminate];
    intros _; eexists; (split; [reflexivity|]); cbn; intros j; unfold upd;
    destruct (Nat.eqb_spec j i); subst; reflexivity.
Qed.

Lemma abort_all_exact ps :
  forall m,
    (forall i, In i ps -> has_subprocess (heap m i) = true) ->
    exists m',
      abort_all ps m = (Ok tt, m') /\
      forall j, heap m' j = if mem j ps then terminate (heap m j)
                            else heap m j.
Proof.
  induction ps as [|v rest IH]; intros m S.
  - exists m. split; reflexivity.
  - destruct (abortupdate_exact v (set_cur v m)) as (m1 & E & H1).
    { apply S. now left. }
    cbn [heap set_cur] in H1.
    destruct (IH m1) as (m' & E' & H').
    { intros i Hi. rewrite H1. destruct (Nat.eqb_spec i v) as [->|_].
      - unfold has_subprocess, terminate.
        pose proof (S v (or_introl eq_refl)) as Sv.
        unfold has_subprocess in Sv.
        destruct (subprocess (heap m v)) as [[p|]|] eqn:Ev; cbn;
          rewrite ?Ev; congruence.
      - apply S. now right. }
    exists m'. split.
    + cbn [abort_all]. unfold mbind at 1. unfold modify at 1.
      unfold mbind at 1. now rewrite E.
    + intros j. rewrite H', !H1. unfold mem. cbn [existsb].
      destruct (Nat.eqb_spec j v) as [->|_]; cbn [orb].
      * destruct (existsb (Nat.eqb v) rest); [apply terminate_twice|reflexivity].
      * reflexivity.
Qed.

(** The signal that comes while the loop sleeps: the interruption is
    reported, every child in [processes] is sent the termination signal
    and is otherwise left as it is (none is waited for or polled), the
    other instances are untouched, no program is run, the lists of the
    loop stay as they are, and the loop is left. *)
Theorem interrupt_while_sleeping_stops_every_child m :
  sigint m = Some O ->
  processes m <> [] ->
  items m = [] \/
  (Z.of_nat (List.length (processes m)) <? jobs opts)%Z = false ->
  (forall i, In i (processes m) -> has_subprocess (heap m i) = true) ->
  exists m',
    turn w opts m = (Ok false, m') /\
    loop w opts 1 m = Some (Ok tt, m') /\
    packages m' = packages m /\ erraneous m' = erraneous m /\
    items m' = items m /\ trace m' = trace m /\
    (forall i, In i (processes m) -> stopped (heap m' i)) /\
    processes m' = processes m /\
    log m'
    = (log m
       ++ [err "Updates interrupted, proceeding with already updated repos."])%list /\
    (forall j, heap m' j = if mem j (processes m) then terminate (heap m j)
                           else heap m j).
Proof.
  intros Hs Hp Hi S.
  assert (D : dispatch w opts m = (Raise KeyboardInterrupt, set_sigint None m)).
  { rewrite dispatch_unfold. cbv zeta. unfold tick. rewrite Hs.
    destruct (processes m) as [|p ps]; [congruence|].
    destruct (items m) as [|[d v] rest]; [reflexivity|].
    destruct Hi as [Hi|Hi]; [discriminate|]. now rewrite Hi. }
  destruct (abort_all_stops (processes m)
              (set_log (log m ++ [err "Updates interrupted, proceeding with already updated repos."])
                       (set_sigint None m)))
    as (m' & E & I1 & I2 & I3 & I4 & I5 & I6 & I7 & Ia & _).
  { exact S. }
  destruct (abort_all_exact (processes m)
              (set_log (log m ++ [err "Updates interrupted, proceeding with already updated repos."])
                       (set_sigint None m)))
    as (m2 & E2 & Hh).
  { exact S. }
  assert (m2 = m') by congruence. subst m2.
  cbn in I1, I2, I3, I4, I5, I6, I7, Hh.
  assert (T : turn w opts m = (Ok false, m')).
  { rewrite turn_unfold, D. unfold handler. cbn [is_KeyboardInterrupt is_Exception negb].
    unfold mbind, out_line, modify, get, mret. cbn. now rewrite E. }
  exists m'. split; [exact T|]. split; [cbn; now rewrite T|].
  repeat split; auto.
Qed.

End Interrupt.

Ltac spawns_tac :=
  unfold spawns; cbn; rewrite ?filter_app; cbn; rewrite ?app_nil_r;
  reflexivity.

Section Offline.
Variable w : world.
Variable opts : options.
Hypothesis Hn : network opts = false.

Lemma startupdate_offline i m r m' :
  startupdate w opts i m = (r, m') -> spawns m' = spawns m.
Proof.
  unfold startupdate, getrev. rewrite Hn.
  repeat (first [ progress unfold_ops | progress cbn | break_match ]);
    intros H; inversion H; subst; spawns_tac.
Qed.

Lemma endupdate_offline i b m r m' :
  endupdate w opts i b m = (r, m') -> spawns m' = spawns m.
Proof.
  unfold endupdate, poll, getrev, diffstat.
  repeat (first [ progress unfold_ops | progress cbn | break_match ]);
    intros H; inversion H; subst; spawns_tac.
Qed.

Lemma abortupdate_offline i m r m' :
  abortupdate i m = (r, m') -> spawns m' = spawns m.
Proof.
  unfold abortupdate.
  repeat (first [ progress unfold_ops | progress cbn | break_match ]);
    intros H; inversion H; subst; spawns_tac.
Qed.

Lemma tick_offline m r m' : tick m = (r, m') -> spawns m' = spawns m.
Proof.
  unfold tick. destruct (sigint m) as [[|n]|]; intros H; inversion H;
    reflexivity.
Qed.

Lemma poll_all_offline ps :
  forall m r m', poll_all w opts ps m = (r, m') -> spawns m' = spawns m.
Proof.
  induction ps as [|v rest IH]; intros m r m' H.
  - now inversion H.
  - cbn [poll_all] in H. unfold mbind, modify in H.
    destruct (endupdate w opts v false (set_cur v m)) as [[o|e] m1] eqn:E;
      apply endupdate_offline in E.
    + destruct o as [b|].
      * inversion H; subst. exact E.
      * apply IH in H. now rewrite H.
    + inversion H; subst. exact E.
Qed.

Lemma abort_all_offline ps :
  forall m r m', abort_all ps m = (r, m') -> spawns m' = spawns m.
Proof.
  induction ps as [|v rest IH]; intros m r m' H.
  - now inversion H.
  - cbn [abort_all] in H. unfold mbind, modify in H.
    destruct (abortupdate v (set_cur v m)) as [[u|e] m1] eqn:E;
      apply abortupdate_offline in E.
    + apply IH in H. now rewrite H.
    + inversion H; subst. exact E.
Qed.

Lemma dispatch_offline m r m1 :
  dispatch w opts m = (r, m1) -> spawns m1 = spawns m.
Proof.
  rewrite dispatch_unfold. cbv zeta. intros H.
  assert (Idle :
            match processes m with
            | [] => (Ok false, m)
            | _ :: _ =>
                match tick m with
                | (Ok _, m1) => (Ok true, m1)
                | (Raise e, m1) => (Raise e, m1)
                end
            end = (r, m1) -> spawns m1 = spawns m).
  { clear H. intros H. destruct (processes m).
    - now inversion H.
    - destruct (tick m) as [[u|e] mt] eqn:T; inversion H; subst;
        now apply tick_offline in T. }
  destruct (items m) as [|[d v] rest]; [auto|].
  destruct (_ <? _)%Z; [|auto]. clear Idle.
  destruct (startupdate _ _ _ _) as [[u|e] ms] eqn:S;
    apply startupdate_offline in S; change (spawns (set_cur v (set_items rest m)))
      with (spawns m) in S.
  - destruct (_ =? 1)%Z.
    + destruct (endupdate _ _ _ _ _) as [[o|e] me] eqn:E;
        apply endupdate_offline in E.
      * inversion H; subst. change (spawns (set_ret o me)) with (spawns me).
        congruence.
      * destruct (is_KeyboardInterrupt e).
        -- destruct (abortupdate v me) as [[u'|e'] ma] eqn:A;
             apply abortupdate_offline in A; inversion H; subst; congruence.
        -- inversion H; subst. congruence.
    + inversion H; subst. exact S.
  - destruct (is_KeyboardInterrupt e).
    + destruct (abortupdate v ms) as [[u'|e'] ma] eqn:A;
        apply abortupdate_offline in A; inversion H; subst; congruence.
    + inversion H; subst. exact S.
Qed.

Lemma collect_offline m r m' :
  collect w opts m = (r, m') -> spawns m' = spawns m.
Proof.
  unfold collect, mbind, load, get, modify, mret. intros H.
  destruct (poll_all w opts (processes m) m) as [[u|e] m1] eqn:E;
    apply poll_all_offline in E.
  - destruct (ret m1) as [[|]|]; inversion H; subst; exact E.
  - inversion H; subst. exact E.
Qed.

Lemma handler_offline e m r m' :
  handler opts e m = (r, m') -> spawns m' = spawns m.
Proof.
  unfold handler. destruct (is_KeyboardInterrupt e).
  - unfold mbind, out_line, modify, get, mret. cbn. intros H.
    destruct (abort_all (processes m) _) as [[u|x] m1] eqn:E;
      apply abort_all_offline in E; inversion H; subst; exact E.
  - unfold mbind, out_line, modify, get, load, mret. cbn -[mem].
    destruct (negb (jobs opts =? 1)%Z && mem (cur m) (processes m));
      intros H; inversion H; reflexivity.
Qed.

Lemma turn_offline m r m' :
  turn w opts m = (r, m') -> spawns m' = spawns m.
Proof.
  rewrite turn_unfold. intros H.
  destruct (dispatch w opts m) as [[[|]|e] m1] eqn:D;
    apply dispatch_offline in D.
  - unfold try_except in H.
    destruct (collect w opts m1) as [[b|e] m2] eqn:C;
      apply collect_offline in C.
    + inversion H; subst. congruence.
    + apply handler_offline in H. congruence.
  - inversion H; subst. exact D.
  - apply handler_offline in H. congruence.
Qed.

Lemma loop_offline fuel :
  forall m r m', loop w opts fuel m = Some (r, m') -> spawns m' = spawns m.
Proof.
  induction fuel as [|fuel IH]; intros m r m' H; [discriminate|].
  cbn [loop] in H. destruct (turn w opts m) as [[[|]|e] m1] eqn:T;
    apply turn_offline in T.
  - apply IH in H. congruence.
  - inversion H; subst. exact T.
  - inversion H; subst. exact T.
Qed.

End Offline.

(** With [--no-network] no update command is started, whatever the
    signal: the loop ends without a [Popen] among the programs run. *)
Theorem no_network_runs_no_update_command w opts sc sig fuel :
  network opts = false ->
  (effort w (initial sc sig) < fuel)%nat ->
  exists m,
    loop w opts fuel (initial sc sig) = Some (Ok tt, m) /\
    filter is_spawn (trace m) = [].
Proof.
  intros Hn F.
  destruct (loop_total w opts fuel _ (initial_orderly opts sc sig)
              (initial_bounded opts sc sig) F) as (m & E & _).
  exists m. split; [exact E|].
  apply (loop_offline w opts Hn) in E. exact E.
Qed.

Lemma loop_ends_whatever_the_signal_witness :
  exists r m more,
    loop Sample.demo_world Sample.three_jobs 20
         (initial Sample.two_scan (Some 1%nat)) = Some (r, m) /\
    erraneous m = (sc_erraneous Sample.two_scan ++ more)%list /\
    (forall x, In x (packages m ++ more) ->
               In x (rebuilds_ids (sc_rebuilds Sample.two_scan))).
Proof.
  apply loop_ends_whatever_the_signal. vm_compute. lia.
Defined.

Lemma one_job_keeps_the_order_of_the_tasks_witness :
  exists r,
    update_all Sample.demo_world Sample.one_job Sample.demo_scan None
               (S (List.length (sc_rebuilds Sample.demo_scan)))
      = Some (Ok r) /\
    pd_packages r
    = cpvs_judged Sample.demo_world Sample.one_job Changed
                  (tasks_of Sample.demo_scan) /\
    pd_erraneous r
    = (sc_erraneous Sample.demo_scan
       ++ cpvs_judged Sample.demo_world Sample.one_job Failed
                      (tasks_of Sample.demo_scan))%list.
Proof.
  apply one_job_keeps_the_order_of_the_tasks. reflexivity.
Defined.

Lemma interrupt_while_sleeping_stops_every_child_witness :
  exists m',
    turn Sample.demo_world Sample.three_jobs Cases.busy = (Ok false, m') /\
    loop Sample.demo_world Sample.three_jobs 1 Cases.busy
      = Some (Ok tt, m') /\
    packages m' = packages Cases.busy /\
    erraneous m' = erraneous Cases.busy /\
    items m' = items Cases.busy /\ trace m' = trace Cases.busy /\
    (forall i, In i (processes Cases.busy) -> stopped (heap m' i)) /\
    processes m' = processes Cases.busy /\
    log m'
    = (log Cases.busy
       ++ [err "Updates interrupted, proceeding with already updated repos."])%list /\
    (forall j, heap m' j = if mem j (processes Cases.busy)
                           then terminate (heap Cases.busy j)
                           else heap Cases.busy j).
Proof.
  apply interrupt_while_sleeping_stops_every_child.
  - reflexivity.
  - discriminate.
  - left. reflexivity.
  - intros i _. reflexivity.
Defined.

Lemma no_network_runs_no_update_command_witness :
  exists m,
    loop Sample.demo_world Sample.no_network 20
         (initial Sample.demo_scan None) = Some (Ok tt, m) /\
    filter is_spawn (trace m) = [].
Proof.
  apply no_network_runs_no_update_command; [reflexivity|].
  vm_compute. lia.
Defined.

(** * The commands that are spawned, and the packages of one working copy *)

Lemma same_class_env dd v v' :
  cls v' = cls v -> env v' = env v ->
  getpath dd v' = getpath dd v /\ getupdatecmd v' = getupdatecmd v.
Proof.
  intros Hc He. unfold getpath, getupdatecmd. now rewrite Hc, He.
Qed.

Lemma own_refl dd m : own_commands dd m m.
Proof.
  split; [auto|]. exists []. split; [now rewrite app_nil_r|]. contradiction.
Qed.

Lemma own_trans dd a b c : own_commands dd a b -> own_commands dd b c -> own_commands dd a c.
Proof.
  intros [H1 (e1 & T1 & P1)] [H2 (e2 & T2 & P2)]. split.
  - intros j. destruct (H1 j), (H2 j). split; congruence.
  - exists (e1 ++ e2)%list. split; [rewrite T2, T1; symmetry; apply app_assoc|].
    intros d cmd Hin. apply in_app_or in Hin as [Hin|Hin]; [now apply P1|].
    destruct (P2 d cmd Hin) as (j & Hp & Hc). exists j.
    destruct (H1 j) as [Hcl He].
    destruct (same_class_env dd (heap a j) (heap b j) Hcl He) as [Ep Ec].
    split; congruence.
Qed.

Ltac own_tac i :=
  split;
  [ intros ?j; cbn; unfold upd;
    repeat match goal with
           | |- context [Nat.eqb ?a ?b] => destruct (Nat.eqb_spec a b); subst
           end; cbn; auto
  | eexists; split;
    [ cbn; first [ symmetry; apply app_nil_r
                 | rewrite <- ?app_assoc; reflexivity ]
    | cbn; intros ?d ?cmd Hin;
      repeat match goal with
             | H : _ \/ _ |- _ => destruct H
             | H : False |- _ => destruct H
             | H : _ = Popen _ _ |- _ => inversion H; subst; clear H
             end;
      try (exists i; split; assumption) ] ].

Ltac own_same :=
  split; [intros; cbn; auto
         | exists []; cbn; split; [now rewrite app_nil_r | contradiction]].

Section Commands.
Variable w : world.
Variable opts : options.

Lemma startupdate_own i m r m' :
  startupdate w opts i m = (r, m') -> own_commands (distdir w) m m'.
Proof.
  unfold startupdate, getrev.
  repeat (first [ progress unfold_ops | progress cbn | break_match ]);
    intros H; inversion H; subst; own_tac i.
Qed.

Lemma endupdate_own i b m r m' :
  endupdate w opts i b m = (r, m') -> own_commands (distdir w) m m'.
Proof.
  unfold endupdate, poll, getrev, diffstat.
  repeat (first [ progress unfold_ops | progress cbn | break_match ]);
    intros H; inversion H; subst; own_tac i.
Qed.

Lemma abortupdate_own i m r m' :
  abortupdate i m = (r, m') -> own_commands (distdir w) m m'.
Proof.
  unfold abortupdate.
  repeat (first [ progress unfold_ops | progress cbn | break_match ]);
    intros H; inversion H; subst; own_tac i.
Qed.

Lemma tick_own m r m' : tick m = (r, m') -> own_commands (distdir w) m m'.
Proof.
  unfold tick. destruct (sigint m) as [[|n]|]; intros H; inversion H;
    own_same.
Qed.

Lemma poll_all_own ps :
  forall m r m', poll_all w opts ps m = (r, m') -> own_commands (distdir w) m m'.
Proof.
  induction ps as [|v rest IH]; intros m r m' H.
  - inversion H. apply own_refl.
  - cbn [poll_all] in H. unfold mbind, modify in H.
    destruct (endupdate w opts v false (set_cur v m)) as [[o|e] m1] eqn:E;
      apply endupdate_own in E; change (own_commands (distdir w) m m1) in E.
    + destruct o as [b|].
      * inversion H; subst. exact E.
      * apply IH in H. change (own_commands (distdir w) m1 m') in H.
        eapply own_trans; eassumption.
    + inversion H; subst. exact E.
Qed.

Lemma abort_all_own ps :
  forall m r m', abort_all ps m = (r, m') -> own_commands (distdir w) m m'.
Proof.
  induction ps as [|v rest IH]; intros m r m' H.
  - inversion H. apply own_refl.
  - cbn [abort_all] in H. unfold mbind, modify in H.
    destruct (abortupdate v (set_cur v m)) as [[u|e] m1] eqn:E;
      apply abortupdate_own in E; change (own_commands (distdir w) m m1) in E.
    + apply IH in H. eapply own_trans; eassumption.
    + inversion H; subst. exact E.
Qed.

Lemma dispatch_own m r m1 :
  dispatch w opts m = (r, m1) -> own_commands (distdir w) m m1.
Proof.
  rewrite dispatch_unfold. cbv zeta. intros H.
  assert (Idle :
            match processes m with
            | [] => (Ok false, m)
            | _ :: _ =>
                match tick m with
                | (Ok _, m1) => (Ok true, m1)
                | (Raise e, m1) => (Raise e, m1)
                end
            end = (r, m1) -> own_commands (distdir w) m m1).
  { clear H. intros H. destruct (processes m).
    - inversion H. apply own_refl.
    - destruct (tick m) as [[u|e] mt] eqn:T; inversion H; subst;
        now apply tick_own in T. }
  destruct (items m) as [|[d v] rest]; [auto|].
  destruct (_ <? _)%Z; [|auto]. clear Idle.
  destruct (startupdate _ _ _ _) as [[u|e] ms] eqn:S;
    apply startupdate_own in S; change (own_commands (distdir w) m ms) in S.
  - destruct (_ =? 1)%Z.
    + destruct (endupdate _ _ _ _ _) as [[o|e] me] eqn:E;
        apply endupdate_own in E.
      * inversion H; subst.
        change (own_commands (distdir w) m me). eapply own_trans; eassumption.
      * destruct (is_KeyboardInterrupt e).
        -- destruct (abortupdate v me) as [[u'|e'] ma] eqn:A;
             apply abortupdate_own in A; inversion H; subst;
             (eapply own_trans; [|exact A]); eapply own_trans; eassumption.
        -- inversion H; subst. eapply own_trans; eassumption.
    + inversion H; subst. exact S.
  - destruct (is_KeyboardInterrupt e).
    + destruct (abortupdate v ms) as [[u'|e'] ma] eqn:A;
        apply abortupdate_own in A; inversion H; subst;
        eapply own_trans; eassumption.
    + inversion H; subst. exact S.
Qed.

Lemma collect_own m r m' :
  collect w opts m = (r, m') -> own_commands (distdir w) m m'.
Proof.
  unfold collect, mbind, load, get, modify, mret. intros H.
  destruct (poll_all w opts (processes m) m) as [[u|e] m1] eqn:E;
    apply poll_all_own in E.
  - destruct (ret m1) as [[|]|]; inversion H; subst; exact E.
  - inversion H; subst. exact E.
Qed.

Lemma handler_own e m r m' :
  handler opts e m = (r, m') -> own_commands (distdir w) m m'.
Proof.
  unfold handler. destruct (is_KeyboardInterrupt e).
  - unfold mbind, out_line, modify, get, mret. cbn. intros H.
    destruct (abort_all (processes m) _) as [[u|x] m1] eqn:E;
      apply abort_all_own in E; inversion H; subst; exact E.
  - unfold mbind, out_line, modify, get, load, mret. cbn -[mem].
    destruct (negb (jobs opts =? 1)%Z && mem (cur m) (processes m));
      intros H; inversion H; own_same.
Qed.

Lemma turn_own m r m' :
  turn w opts m = (r, m') -> own_commands (distdir w) m m'.
Proof.
  rewrite turn_unfold. intros H.
  destruct (dispatch w opts m) as [[[|]|e] m1] eqn:D;
    apply dispatch_own in D.
  - unfold try_except in H.
    destruct (collect w opts m1) as [[b|e] m2] eqn:C;
      apply collect_own in C.
    + inversion H; subst. eapply own_trans; eassumption.
    + apply handler_own in H. eapply own_trans; [|exact H].
      eapply own_trans; eassumption.
  - inversion H; subst. exact D.
  - apply handler_own in H. eapply own_trans; eassumption.
Qed.

Lemma loop_own fuel :
  forall m r m', loop w opts fuel m = Some (r, m') -> own_commands (distdir w) m m'.
Proof.
  induction fuel as [|fuel IH]; intros m r m' H; [discriminate|].
  cbn [loop] in H. destruct (turn w opts m) as [[[|]|e] m1] eqn:T;
    apply turn_own in T.
  - apply IH in H. eapply own_trans; eassumption.
  - inversion H; subst. exact T.
  - inversion H; subst. exact T.
Qed.

End Commands.

Lemma keyed_unique dd rb d v v' :
  keyed dd rb -> In (d, v) rb -> In (d, v') rb -> v = v'.
Proof.
  intros [Hn _]. induction rb as [|[k x] rb IH]; intros H1 H2; [contradiction|].
  cbn in Hn. inversion Hn as [|? ? Hk Hn']; subst.
  destruct H1 as [H1|H1], H2 as [H2|H2].
  - congruence.
  - inversion H1; subst. exfalso. apply Hk.
    apply in_map_iff. exists (d, v'). auto.
  - inversion H2; subst. exfalso. apply Hk.
    apply in_map_iff. exists (d, v). auto.
  - now apply IH.
Qed.

(** In the state in which the loop is entered, the instance that works
    in a directory is the task [rebuilds] has under that key. *)
Lemma initial_task_at dd sc sig d t j :
  keyed dd (sc_rebuilds sc) ->
  rebuilds_get (sc_rebuilds sc) d = Some t ->
  getpath dd (heap (initial sc sig) j) = Ok d ->
  heap (initial sc sig) j = t.
Proof.
  intros Hk Hg Hp. cbn in *.
  destruct (Nat.lt_ge_cases j (List.length (map snd (sc_rebuilds sc))))
    as [L|L].
  - pose proof (nth_In _ no_vcs L) as Hin.
    apply in_map_iff in Hin as ([k v] & E & Hkv). cbn in E.
    rewrite <- E in *. pose proof (proj2 Hk k v Hkv) as Hpk.
    assert (k = d) by congruence. subst k.
    eapply keyed_unique; [exact Hk|exact Hkv|]. now apply rebuilds_get_in.
  - rewrite nth_overflow in Hp by assumption. discriminate Hp.
Qed.

(** C5, as the code has it.  Two packages [a] and [b] that each inherit
    one eclass of those looked for, that of one class [c], whose
    instances are constructed, are both wanted and derive the same path
    [d], [a] coming first and no instance of another class being at [d]
    before.  After the enumeration the keys of [rebuilds] are distinct,
    and the one instance under [d] holds both identifiers; merging [b]
    only appends its identifier to the instance that is there.  In the
    run, which is not interrupted and has one job at least, a command
    is spawned in [d] at most once, and exactly once when the task
    starts with the network in use, and it is the update command of the
    task; the revision query that follows the update is made at most
    once; and the identifiers of the task go together: all to the
    updated ones when the task is changed, all to the erraneous ones
    when it failed, and when it is unchanged the two sequences are made
    of the other tasks only. *)
Theorem shared_working_copy_is_one_task :
  forall (w : world) (opts : options)
         (before between after : list package) (a b : package)
         (c : vcs_class) (va vb : vcs) (d : string) (fuel : nat),
    matching a (vcslf (opt_type opts)) = [c] ->
    matching b (vcslf (opt_type opts)) = [c] ->
    construct a c = Ok va -> construct b c = Ok vb ->
    wanted opts va -> wanted opts vb ->
    getpath (distdir w) va = Ok d -> getpath (distdir w) vb = Ok d ->
    (forall told,
        rebuilds_get
          (sc_rebuilds (enumerate (distdir w) opts before)) d = Some told ->
        cls told = c) ->
    (1 <= jobs opts)%Z ->
    (measure w opts
       (initial (enumerate (distdir w) opts
                   (before ++ a :: between ++ b :: after)) None)
     < fuel)%nat ->
    exists t m,
      rebuilds_get
        (sc_rebuilds (enumerate (distdir w) opts
                        (before ++ a :: between ++ b :: after))) d = Some t /\
      NoDup (map fst (sc_rebuilds
                        (enumerate (distdir w) opts
                           (before ++ a :: between ++ b :: after)))) /\
      In (p_cpv a) (cpv t) /\ In (p_cpv b) (cpv t) /\
      (forall s told,
          rebuilds_get (sc_rebuilds s) d = Some told -> cls told = c ->
          enum_package (distdir w) opts b s =
          mkScan (rebuilds_put (sc_rebuilds s) d
                    (mkVcs (cls told) (cpv told ++ [p_cpv b]) (env told)
                           (oldrev told) (subprocess told)))
                 (sc_erraneous s) (sc_log s)) /\
      loop w opts fuel
           (initial (enumerate (distdir w) opts
                       (before ++ a :: between ++ b :: after)) None)
        = Some (Ok tt, m) /\
      (count_ev (is_popen d) (trace m) <= 1)%nat /\
      (spawns_in w opts d t -> count_ev (is_popen d) (trace m) = 1%nat) /\
      (count_ev (is_recheck d) (trace m) <= 1)%nat /\
      (forall cmd, In (Popen d cmd) (trace m) -> getupdatecmd t = Ok cmd) /\
      match judge w opts t with
      | Changed => incl (cpv t) (packages m)
      | Failed => incl (cpv t) (erraneous m)
      | Unchanged =>
          exists bf af,
            tasks_of (enumerate (distdir w) opts
                        (before ++ a :: between ++ b :: after))
              = (bf ++ t :: af)%list /\
            Permutation (packages m)
                        (cpvs_judged w opts Changed (bf ++ af)) /\
            Permutation
              (erraneous m)
              (sc_erraneous (enumerate (distdir w) opts
                               (before ++ a :: between ++ b :: after))
               ++ cpvs_judged w opts Failed (bf ++ af))
      end.
Proof.
  intros w opts before between after a b c va vb d fuel
         Hma Hmb Hca Hcb Hwa Hwb Hpa Hpb Hfirst Hj Hf.
  set (dd := distdir w) in *.
  set (sc := enumerate dd opts (before ++ a :: between ++ b :: after)) in *.
  assert (Hmerge : forall s told,
             rebuilds_get (sc_rebuilds s) d = Some told -> cls told = c ->
             enum_package dd opts b s =
             mkScan (rebuilds_put (sc_rebuilds s) d
                       (mkVcs (cls told) (cpv told ++ [p_cpv b]) (env told)
                              (oldrev told) (subprocess told)))
                    (sc_erraneous s) (sc_log s)).
  { intros s told Hg Hc. eapply enum_package_merges; eauto. }
  assert (Htr : tracked d c [p_cpv a; p_cpv b] (sc_rebuilds sc)).
  { unfold sc. rewrite enumerate_app. cbn [fold_left].
    rewrite fold_left_app. cbn [fold_left].
    apply enumerate_from_tracked.
    apply (enum_package_tracks dd opts b c vb d _ [p_cpv a] Hmb Hcb Hwb Hpb).
    - intros told Hg.
      assert (T : tracked d c [p_cpv a]
                    (sc_rebuilds
                       (fold_left (fun s p => enum_package dd opts p s) between
                          (enum_package dd opts a (enumerate dd opts before))))).
      { apply enumerate_from_tracked.
        apply (enum_package_tracks dd opts a c va d _ [] Hma Hca Hwa Hpa Hfirst).
        now left. }
      destruct T as (t & Ht & Hc & _). rewrite Hg in Ht. congruence.
    - right. apply enumerate_from_tracked.
      apply (enum_package_tracks dd opts a c va d _ [] Hma Hca Hwa Hpa Hfirst).
      now left. }
  destruct Htr as (t & Hg & Hcls & Hincl).
  pose proof (enumerate_keyed dd opts (before ++ a :: between ++ b :: after))
    as Hkey.
  fold sc in Hkey.
  destruct (update_all_trace w opts sc fuel Hj Hf Hkey)
    as (m & E & P & Q & Hcount).
  destruct (Hcount d) as (C1 & C2 & C3).
  exists t, m.
  split; [exact Hg|]. split; [exact (proj1 Hkey)|].
  split; [apply Hincl; cbn; auto|]. split; [apply Hincl; cbn; auto|].
  split; [exact Hmerge|]. split; [exact E|]. split; [exact C1|].
  split; [intros Hsp; apply (C3 t); [now apply rebuilds_get_in | exact Hsp]|].
  split; [exact C2|].
  split.
  { intros cmd Hc.
    destruct (loop_own w opts fuel _ _ _ E) as [_ (evs & Ht & Hcmd)].
    cbn [trace initial app] in Ht. rewrite Ht in Hc.
    destruct (Hcmd d cmd Hc) as (j & Hpj & Hcj).
    rewrite (initial_task_at (distdir w) sc None d t j Hkey Hg Hpj) in Hcj.
    exact Hcj. }
  assert (Hin : In t (tasks_of sc)).
  { unfold tasks_of. apply in_map_iff. exists (d, t).
    split; [reflexivity | now apply rebuilds_get_in]. }
  destruct (judge w opts t) eqn:Hjt.
  - intros x Hx. apply (Permutation_in x (Permutation_sym P)).
    eapply cpvs_judged_in; eauto.
  - destruct (in_split _ _ Hin) as (bf & af & Hs).
    exists bf, af. split; [exact Hs|].
    rewrite Hs, !cpvs_judged_app in P, Q.
    unfold cpvs_judged at 2 in P. unfold cpvs_judged at 2 in Q.
    cbn [filter] in P, Q. rewrite Hjt in P, Q. cbn in P, Q.
    rewrite !cpvs_judged_app. split; assumption.
  - intros x Hx. apply (Permutation_in x (Permutation_sym Q)).
    apply in_or_app. right. eapply cpvs_judged_in; eauto.
Qed.

Lemma shared_working_copy_is_one_task_witness :
  exists t m,
    rebuilds_get (sc_rebuilds Sample.demo_scan) "/a" = Some t /\
    In "x/a-1" (cpv t) /\ In "x/a-2" (cpv t) /\
    loop Sample.demo_world Sample.three_jobs 20
         (initial Sample.demo_scan None) = Some (Ok tt, m) /\
    count_ev (is_popen "/a") (trace m) = 1%nat /\
    (forall cmd, In (Popen "/a" cmd) (trace m) -> getupdatecmd t = Ok cmd) /\
    incl (cpv t) (packages m).
Proof.
  pose (a := Sample.svn_package "x/a-1" "/a" "svn://host/a" "1").
  pose (b := Sample.svn_package "x/a-2" "/a" "svn://host/a" "1").
  pose (va := match construct a SvnSupport with Ok v => v | Raise _ => no_vcs end).
  pose (vb := match construct b SvnSupport with Ok v => v | Raise _ => no_vcs end).
  destruct (shared_working_copy_is_one_task
              Sample.demo_world Sample.three_jobs []
              [Sample.svn_package "x/b-1" "/b" "svn://host/b" "5"]
              [Sample.svn_package "x/c-1" "/c" "svn://host/c" "5"]
              a b SvnSupport va vb "/a" 20)
    as (t & m & Hg & _ & Ha & Hb & _ & E & _ & C3 & _ & Hcmd & Hj).
  - reflexivity.
  - reflexivity.
  - reflexivity.
  - reflexivity.
  - left. reflexivity.
  - left. reflexivity.
  - reflexivity.
  - reflexivity.
  - intros told H. discriminate H.
  - cbn. lia.
  - vm_compute. lia.
  - exists t, m.
    assert (Ht : t = match rebuilds_get (sc_rebuilds Sample.demo_scan) "/a"
                     with Some x => x | None => no_vcs end).
    { change (enumerate (distdir Sample.demo_world) Sample.three_jobs
                ([] ++ a :: [Sample.svn_package "x/b-1" "/b" "svn://host/b" "5"]
                    ++ b :: [Sample.svn_package "x/c-1" "/c" "svn://host/c" "5"]))
        with Sample.demo_scan in Hg.
      now rewrite Hg. }
    split; [exact Hg|]. split; [exact Ha|]. split; [exact Hb|].
    split; [exact E|]. split; [|split; [exact Hcmd|]].
    + apply C3. rewrite Ht. eexists. split; [vm_compute; reflexivity|].
      split; reflexivity.
    + rewrite Ht in Hj. vm_compute in Hj. rewrite Ht. exact Hj.
Defined.

(** C5 as it is stated fails: with [--no-network] the two packages of
    one working copy are one task, and both are found updated, but no
    update command is run at all. *)
Lemma shared_working_copy_without_network_runs_no_update :
  exists m,
    map (fun kv => cpv (snd kv))
        (sc_rebuilds
           (enumerate "/distfiles" Sample.no_network
              [Sample.svn_package "x/a-1" "/a" "svn://host/a" "1";
               Sample.svn_package "x/a-2" "/a" "svn://host/a" "1"]))
      = [["x/a-1"; "x/a-2"]] /\
    loop Sample.demo_world Sample.no_network 20
         (initial (enumerate "/distfiles" Sample.no_network
                     [Sample.svn_package "x/a-1" "/a" "svn://host/a" "1";
                      Sample.svn_package "x/a-2" "/a" "svn://host/a" "1"])
                  None)
      = Some (Ok tt, m) /\
    packages m = ["x/a-1"; "x/a-2"] /\
    count_ev (is_popen "/a") (trace m) = O /\
    count_ev (is_recheck "/a") (trace m) = 1%nat.
Proof.
  eexists. split; [reflexivity|]. split; [vm_compute; reflexivity|].
  repeat split.
Qed.

(** * The enumeration: packages that are passed over *)

Lemma scan_eta s : mkScan (sc_rebuilds s) (sc_erraneous s) (sc_log s) = s.
Proof. now destruct s. Qed.

Lemma existsb_eqb_in x l : existsb (String.eqb x) l = true <-> In x l.
Proof.
  rewrite existsb_exists. split.
  - intros (y & Hy & E). apply String.eqb_eq in E. now subst.
  - intros H. exists x. split; [assumption|apply String.eqb_refl].
Qed.

Lemma vcslf_in c types :
  In c (vcslf types) <-> types = [] \/ In (inherit c) types.
Proof.
  unfold vcslf. destruct types as [|t ts].
  - split; [auto|]. intros _. destruct c; cbn; auto.
  - rewrite filter_In, existsb_eqb_in. split.
    + intros [_ H]. now right.
    + intros [H|H]; [discriminate|]. split; [|assumption].
      destruct c; cbn; auto.
Qed.

Section EnumerationEdges.
Variable dd : string.
Variable opts : options.

Lemma enum_classes_none p cs rb :
  (forall c, In c cs -> vcs_match c (p_inherits p) = false) ->
  enum_classes dd opts p cs rb = (Ok tt, rb).
Proof.
  induction cs as [|c cs IH]; intros H; [reflexivity|].
  cbn [enum_classes]. rewrite (enum_class_no_match dd opts p c rb).
  - apply IH. intros c' Hc. apply H. now right.
  - apply H. now left.
Qed.

(** A package that inherits none of the eclasses that are looked for
    (those of the three classes, or with [--type] those named) is passed
    over: the scan stays as it is, nothing is written. *)
Theorem unselected_package_is_ignored p s :
  (forall c, opt_type opts = [] \/ In (inherit c) (opt_type opts) ->
             ~ In (inherit c) (p_inherits p)) ->
  enum_package dd opts p s = s.
Proof.
  intros H. unfold enum_package. rewrite enum_classes_none.
  - apply scan_eta.
  - intros c Hc. apply vcslf_in in Hc. specialize (H c Hc).
    unfold vcs_match. destruct (existsb _ _) eqn:E; [|reflexivity].
    apply existsb_eqb_in in E. contradiction.
Qed.

(** With [--no-network] a package is a task only when it has a saved
    revision: a Mercurial package, which never has one, and a package
    whose saved revision is empty are passed over without a word, and
    are neither updated nor erraneous. *)
Theorem package_without_saved_revision_is_left_out p c v s :
  network opts = false ->
  matching p (vcslf (opt_type opts)) = [c] ->
  construct p c = Ok v ->
  c = HgSupport \/ getsavedrev v = Ok (PStr "") ->
  enum_package dd opts p s = s.
Proof.
  intros Hn Hm Hc Hs. unfold enum_package.
  rewrite (enum_classes_single dd opts p _ _ c Hm).
  assert (Hin : In c (matching p (vcslf (opt_type opts))))
    by (rewrite Hm; now left).
  apply filter_In in Hin as [_ Hv].
  assert (Hr : exists r, getsavedrev v = Ok r /\ truthy r = false).
  { destruct Hs as [->|Hs]; [|eauto].
    apply vcs_init_fields in Hc as (Hcls & _). exists PNone.
    unfold getsavedrev. now rewrite Hcls. }
  destruct Hr as (r & Hr & Ht).
  unfold enum_class. rewrite Hv. unfold construct in Hc. rewrite Hc.
  cbn [rbind]. rewrite Hn, Hr. cbn [rbind]. rewrite Ht. apply scan_eta.
Qed.

(** A package whose working copy is already that of a task of another
    class: [append] raises [ValueError], the task is left as it is, and
    the package is logged and put among the erraneous ones. *)
Theorem same_path_in_another_class_is_an_error p c v d old s :
  matching p (vcslf (opt_type opts)) = [c] ->
  construct p c = Ok v -> wanted opts v -> getpath dd v = Ok d ->
  rebuilds_get (sc_rebuilds s) d = Some old ->
  cls old <> c ->
  append old v = Raise ValueError /\
  enum_package dd opts p s
  = mkScan (sc_rebuilds s) (sc_erraneous s ++ [p_cpv p])
           (sc_log s ++ [err ("Error enumerating " ++ p_cpv p)]).
Proof.
  intros Hm Hc Hw Hp Hg Hne.
  assert (Ha : append old v = Raise ValueError).
  { unfold append. apply vcs_init_fields in Hc as (Hcls & _). rewrite Hcls.
    destruct c, (cls old); cbn; congruence. }
  split; [exact Ha|]. unfold enum_package.
  rewrite (enum_classes_single dd opts p _ _ c Hm).
  assert (Hin : In c (matching p (vcslf (opt_type opts))))
    by (rewrite Hm; now left).
  apply filter_In in Hin as [_ Hv].
  rewrite (enum_class_accepts dd opts p c _ v d Hv Hc Hw Hp), Hg, Ha.
  reflexivity.
Qed.

End EnumerationEdges.

Lemma unselected_package_is_ignored_witness :
  enum_package "/distfiles" Cases.git_only
               (Sample.svn_package "x/a-1" "/a" "svn://host/a" "5")
               Sample.demo_scan
  = Sample.demo_scan.
Proof.
  apply unselected_package_is_ignored.
  intros c [H|H]; [discriminate|].
  destruct c; cbn in H |- *; intuition discriminate.
Defined.

Lemma package_without_saved_revision_is_left_out_witness :
  enum_package "/distfiles" Sample.no_network Cases.hg_package
               Sample.demo_scan
  = Sample.demo_scan.
Proof.
  apply (package_without_saved_revision_is_left_out
           "/distfiles" Sample.no_network Cases.hg_package HgSupport
           Sample.hg_fresh);
    try reflexivity.
  now left.
Defined.

Lemma same_path_in_another_class_is_an_error_witness :
  exists old,
    rebuilds_get (sc_rebuilds Cases.git_first) "/store/git/foo" = Some old /\
    append old (Sample.svn_fresh "5") = Raise ValueError /\
    sc_erraneous (enum_package "/distfiles" Sample.one_job Cases.svn_on_git
                               Cases.git_first) = ["x/s-1"] /\
    sc_rebuilds (enum_package "/distfiles" Sample.one_job Cases.svn_on_git
                              Cases.git_first) = sc_rebuilds Cases.git_first.
Proof.
  pose (old := nth 0 (tasks_of Cases.git_first) no_vcs).
  destruct (same_path_in_another_class_is_an_error
              "/distfiles" Sample.one_job Cases.svn_on_git SvnSupport
              (mkVcs SvnSupport ["x/s-1"]
                 (bashparse (reqenv SvnSupport ++ optenv SvnSupport)
                    (Sample.svn_bash "/store/git/foo" "svn://host/s" "5"))
                 None None)
              "/store/git/foo" old Cases.git_first) as [Ha He].
  - reflexivity.
  - reflexivity.
  - left. reflexivity.
  - reflexivity.
  - reflexivity.
  - discriminate.
  - exists old. split; [reflexivity|]. split; [reflexivity|].
    rewrite He. split; reflexivity.
Defined.

(** * The types named in the configuration file *)

Lemma remove_str_app done t r :
  ~ In t done -> remove_str t (done ++ t :: r) = Ok (done ++ r)%list.
Proof.
  induction done as [|x done IH]; intros H; cbn.
  - now rewrite String.eqb_refl.
  - destruct (String.eqb_spec x t) as [->|N].
    + exfalso. apply H. now left.
    + rewrite IH; [reflexivity|]. intros Hin. apply H. now right.
Qed.

Lemma prune_spec todo :
  forall done,
    Forall (fun t => known t = true) done ->
    prune todo (done ++ todo)
    = Ok ((done ++ filter known todo)%list,
          map (fun t => err ("Incorrect value within type: " ++ t))
              (filter (fun t => negb (known t)) todo)).
Proof.
  induction todo as [|t r IH]; intros done Hd.
  - reflexivity.
  - cbn [prune filter]. fold (known t). destruct (known t) eqn:K; cbn [negb].
    + replace (done ++ t :: r)%list with ((done ++ [t]) ++ r)%list
        by (now rewrite <- app_assoc).
      rewrite IH.
      * now rewrite <- app_assoc.
      * apply Forall_app. split; [assumption|]. now repeat constructor.
    + rewrite remove_str_app.
      * cbn [rbind]. rewrite (IH done Hd). reflexivity.
      * intros Hin. rewrite Forall_forall in Hd. apply Hd in Hin. congruence.
Qed.

(** [deftypes] never fails.  For a value that is not empty it is the
    list of the names between the commas that are names of a supported
    VCS, in their order and as often as they are written; every other
    name is reported, once for each time it is written. *)
Theorem deftypes_keeps_the_known_names t :
  deftypes t =
    if String.eqb t "" then Ok (None, [])
    else Ok (Some (filter known (py_split comma t)),
             map (fun x => err ("Incorrect value within type: " ++ x))
                 (filter (fun x => negb (known x)) (py_split comma t))).
Proof.
  unfold deftypes. destruct (String.eqb t ""); [reflexivity|].
  pose proof (prune_spec (py_split comma t) [] (Forall_nil _)) as P.
  cbn [app] in P. rewrite P. reflexivity.
Qed.

Lemma known_inherit c : known (inherit c) = true.
Proof. destruct c; reflexivity. Qed.

(** The classes looked for when [--type] is not given and the
    configuration names the types [l]: those whose name is among them,
    and all the classes when no name of [l] is that of a supported
    VCS. *)
Theorem configured_types_select_the_classes l c :
  In c (vcslf (effective_types [] (Some (filter known l)))) <->
  filter known l = [] \/ In (inherit c) l.
Proof.
  cbn [effective_types]. unfold vcslf.
  destruct (filter known l) as [|x xs] eqn:E.
  - split; [auto|]. intros _. destruct c; cbn; auto.
  - rewrite filter_In, existsb_eqb_in, <- E, filter_In. split.
    + intros (_ & H & _). now right.
    + intros [H|H]; [congruence|]. split; [destruct c; cbn; auto|].
      split; [assumption|apply known_inherit].
Qed.

(** * Privileges, colours, configuration files and the revision of svn *)

(** ** The run with and without the child *)

Lemma loop_never_raises w opts fuel :
  forall m r m',
    loop w opts fuel m = Some (r, m') -> bounded opts m -> r = Ok tt.
Proof.
  induction fuel as [|fuel IH]; intros m r m' H B; [discriminate|].
  cbn [loop] in H. destruct (turn w opts m) as [x m1] eqn:T.
  destruct (turn_any w opts _ _ _ T B) as ([b ->] & _ & B1).
  destruct b; [eauto|]. now inversion H.
Qed.

Lemma update_all_never_raises w opts sc sig fuel e :
  update_all w opts sc sig fuel <> Some (Raise e).
Proof.
  unfold update_all. destruct (loop _ _ _ _) as [[r m]|] eqn:L; [|discriminate].
  apply loop_never_raises in L; [|apply initial_bounded]. subst.
  discriminate.
Qed.

(** For the superuser on a system where privileges can be dropped, and
    when no signal comes, the run that drops privileges or forks a child
    to do the updates ends as the run that does them itself, and its
    commands are the same, but for the child being killed at the end. *)
Theorem dropping_privileges_changes_nothing
  h w db args fuel o u said acts e :
  can_drop h ->
  main_tail h w db args None fuel (mkCmdline o false u) = Some (said, acts, e) ->
  exists said' acts',
    main_tail h w db args None fuel (mkCmdline o true u)
      = Some (said', acts', e) /\
    (acts' = acts \/ acts' = (acts ++ [KillChild])%list).
Proof.
  intros (He & Hu & Hp & Hg) H. unfold main_tail in *.
  assert (C : forall su,
             check_options h (mkCmdline o su u)
             = (fst (check_options h (mkCmdline o false u)),
                match snd (check_options h (mkCmdline o false u)) with
                | inl code => inl code
                | inr c => inr (mkCmdline (co c) su u)
                end)).
  { intros su. unfold check_options. cbn [co setuid unprivileged_user].
    rewrite Hu. cbn [negb andb]. rewrite !andb_false_r.
    destruct (local_rev o && negb (network o)); [reflexivity|].
    destruct (jobs o <=? 0)%Z; [reflexivity|].
    destruct ((1 <? jobs o)%Z && negb (network o)); reflexivity. }
  rewrite (C true). rewrite (C false) in H.
  destruct (check_options h (mkCmdline o false u)) as [l1 [code|c1]];
    cbn [fst snd] in *.
  { inversion H; subst. eauto. }
  unfold privileges in *. cbn [co setuid unprivileged_user] in *.
  rewrite He in *. cbn [Z.eqb negb andb] in *.
  destruct (Z.eqb_spec (portage_uid h) 0) as [|_]; [contradiction|].
  destruct (Z.eqb_spec (portage_gid h) 0) as [|_]; [contradiction|].
  cbn [negb andb] in *. rewrite andb_false_r in *. cbn [app] in H.
  destruct (pretend (co c1) && negb (quickpkg (co c1)));
    cbv beta iota zeta in *; cbn [negb] in *; rewrite ?andb_false_r in *;
    cbv beta iota zeta in *; cbn [app co] in *.
  - destruct (update_all _ _ _ _ _) as [[d|x]|]; [| |discriminate].
    + destruct (finish (co c1) args d) as [a b]. inversion H; subst. eauto.
    + inversion H; subst. eauto.
  - destruct (update_all _ _ _ _ _) as [[d|x]|] eqn:U; [| |discriminate].
    + unfold parent_main. cbn [pickle_load].
      destruct (finish (co c1) args d) as [a [code| |x]]; inversion H; subst;
        eauto.
    + exfalso. eapply update_all_never_raises; eassumption.
Qed.

Lemma dropping_privileges_changes_nothing_witness :
  can_drop Cases.root_host /\
  exists said' acts',
    main_tail Cases.root_host Sample.demo_world Sample.demo_db ["--ask"]
      None 20 (mkCmdline Sample.one_job true false)
      = Some (said', acts', snd Cases.demo_run) /\
    (acts' = snd (fst Cases.demo_run) \/
     acts' = (snd (fst Cases.demo_run) ++ [KillChild])%list).
Proof.
  assert (D : can_drop Cases.root_host).
  { repeat split; try reflexivity; discriminate. }
  split; [exact D|].
  apply (dropping_privileges_changes_nothing Cases.root_host
           Sample.demo_world Sample.demo_db ["--ask"] 20
           Sample.one_job false (fst (fst Cases.demo_run))
           (snd (fst Cases.demo_run)) (snd Cases.demo_run) D).
  vm_compute. reflexivity.
Defined.

(** ** Output without colours *)

Lemma contains_char_app c a b :
  contains_char c (a ++ b) = contains_char c a || contains_char c b.
Proof.
  induction a as [|x a IH]; [reflexivity|]. cbn. rewrite IH.
  now rewrite orb_assoc.
Qed.

(** After [monochromize], what [s1], [s2], [s3] and [err] write holds no
    escape character, when the message holds none. *)
Theorem monochrome_output_has_no_escape l :
  contains_char esc (text_of l) = false ->
  contains_char esc (render (monochromize out_colours) l) = false.
Proof.
  intros H. destruct l as [msg|msg|msg|msg]; cbn in *;
    rewrite ?contains_char_app, ?H; reflexivity.
Qed.

Lemma monochrome_output_has_no_escape_witness :
  contains_char esc (text_of (err "Update failed")) = false /\
  contains_char esc (render (monochromize out_colours) (err "Update failed"))
    = false.
Proof.
  split; [reflexivity|].
  apply (monochrome_output_has_no_escape (err "Update failed")). reflexivity.
Defined.

(** ** The chain of configuration files *)

(** The loop over the configuration files reads the file of the command
    line at most, and no other: when that file names a further one, the
    loop ends in an exception, which is reported, and the further file
    is not read. *)
Theorem chained_configuration_file_is_never_read read get n file :
  match config_chain read get (S (S n)) file with
  | Some (r, reads) =>
      (reads = [] \/ reads = [file]) /\
      (forall cf, file <> "" -> read file = Ok true ->
         get [file] = Ok (Some cf) -> cf <> file ->
         r = Ok (Some TypeError) /\ reads = [file])
  | None => False
  end.
Proof.
  unfold config_chain. cbn [chain rev app].
  destruct (String.eqb file "") eqn:E.
  - apply String.eqb_eq in E. split; [now left|]. intros; congruence.
  - destruct (read file) as [[|]|e] eqn:R.
    + destruct (get [file]) as [[cf|]|e] eqn:G.
      * cbn [existsb is_path orb negb]. destruct (String.eqb cf file) eqn:C.
        -- apply String.eqb_eq in C. cbn. split; [now right|].
           intros cf' _ _ H N. congruence.
        -- cbn. split; [now right|]. intros. split; reflexivity.
      * split; [now right|]. intros; congruence.
      * destruct (is_Exception e); (split; [now right|]); intros; congruence.
    + split; [now right|]. intros; congruence.
    + destruct (is_Exception e); (split; [now right|]); intros; congruence.
Qed.

Lemma chained_configuration_file_is_never_read_witness :
  config_chain (fun _ => Ok true) (fun _ => Ok (Some "/etc/second.conf")) 2
    "/etc/first.conf" = Some (Ok (Some TypeError), ["/etc/first.conf"]).
Proof.
  pose proof (chained_configuration_file_is_never_read
    (fun _ => Ok true) (fun _ => Ok (Some "/etc/second.conf")) 0
    "/etc/first.conf") as H.
  destruct (config_chain _ _ 2 "/etc/first.conf") as [[r reads]|];
    [|destruct H].
  destruct H as [_ K].
  destruct (K "/etc/second.conf") as [Hr Hf];
    [discriminate|reflexivity|reflexivity|discriminate|].
  rewrite Hr, Hf. reflexivity.
Defined.

(** ** The revision [svn info] prints *)

Lemma high_byte_no_newline a :
  (N_of_ascii a <? 128)%N = false -> Ascii.eqb a newline = false.
Proof.
  intros H. destruct (Ascii.eqb_spec a newline) as [->|]; [|reflexivity].
  discriminate H.
Qed.

Lemma cont_no_newline b y : cont b = Some y -> Ascii.eqb b newline = false.
Proof.
  unfold cont. intros H. destruct (Ascii.eqb_spec b newline) as [->|];
    [discriminate H|reflexivity].
Qed.

(** A newline among the bytes of a text is the character U+000A. *)
Lemma utf8_decode_newline n :
  forall s l,
    (String.length s <= n)%nat ->
    utf8_decode s = Some l -> contains_char newline s = true -> In 10%N l.
Proof.
  induction n as [|n IH]; intros s l Hlen Hdec Hc.
  - destruct s; [discriminate Hc | cbn in Hlen; lia].
  - destruct s as [|a r]; [discriminate Hc|].
    cbn [String.length] in Hlen. cbn [utf8_decode] in Hdec.
    cbn [contains_char] in Hc. cbv zeta in Hdec.
    destruct (N_of_ascii a <? 128)%N eqn:E1.
    { destruct (utf8_decode r) as [l'|] eqn:Er; [|discriminate].
      cbn in Hdec. injection Hdec as <-.
      destruct (Ascii.eqb_spec a newline) as [->|_].
      - now left.
      - right. apply (IH r l'); [lia|assumption|assumption]. }
    rewrite (high_byte_no_newline a E1) in Hc. cbn [orb] in Hc.
    destruct r as [|b r2]; [discriminate|].
    cbn [String.length contains_char] in Hlen, Hc.
    destruct (cont b) as [y|] eqn:Cb; [|discriminate].
    rewrite (cont_no_newline b y Cb) in Hc. cbn [orb] in Hc.
    destruct ((194 <=? N_of_ascii a) && (N_of_ascii a <=? 223))%N.
    { destruct (utf8_decode r2) as [l'|] eqn:Er; [|discriminate].
      cbn in Hdec. injection Hdec as <-.
      right. apply (IH r2 l'); [lia|assumption|assumption]. }
    destruct r2 as [|c r3]; [discriminate|].
    cbn [String.length contains_char] in Hlen, Hc.
    destruct (cont c) as [z|] eqn:Cc; [|discriminate].
    rewrite (cont_no_newline c z Cc) in Hc. cbn [orb] in Hc.
    destruct ((224 <=? N_of_ascii a) && (N_of_ascii a <=? 239))%N.
    { match type of Hdec with (if ?t then _ else _) = _ => destruct t end;
        [|discriminate].
      destruct (utf8_decode r3) as [l'|] eqn:Er; [|discriminate].
      cbn in Hdec. injection Hdec as <-.
      right. apply (IH r3 l'); [lia|assumption|assumption]. }
    destruct r3 as [|e r4]; [discriminate|].
    cbn [String.length contains_char] in Hlen, Hc.
    destruct (cont e) as [t|] eqn:Ce; [|discriminate].
    rewrite (cont_no_newline e t Ce) in Hc. cbn [orb] in Hc.
    destruct ((240 <=? N_of_ascii a) && (N_of_ascii a <=? 244))%N;
      [|discriminate].
    match type of Hdec with (if ?t then _ else _) = _ => destruct t end;
      [|discriminate].
    destruct (utf8_decode r4) as [l'|] eqn:Er; [|discriminate].
    cbn in Hdec. injection Hdec as <-.
    right. apply (IH r4 l'); [lia|assumption|assumption].
Qed.

Lemma all_decimal_no_newline dec d :
  dec 10%N = false -> all_decimal dec d = true ->
  contains_char newline d = false.
Proof.
  unfold all_decimal. intros H10 H.
  destruct (utf8_decode d) as [l|] eqn:E; [|discriminate].
  destruct (contains_char newline d) eqn:C; [|reflexivity].
  pose proof (utf8_decode_newline _ d l (Nat.le_refl _) E C) as Hin.
  rewrite forallb_forall in H. rewrite (H _ Hin) in H10. discriminate.
Qed.

Lemma revre_first_app dec before l :
  Forall (fun x => revre_line dec x = None) before ->
  revre_first dec (before ++ l) = revre_first dec l.
Proof.
  induction 1 as [|x before Hx _ IH]; [reflexivity|].
  cbn. now rewrite Hx.
Qed.

(** The revision of a Subversion working copy is the number of the first
    line of the output that is [Last Changed Rev:] followed by decimal
    digits, whatever the lines before and after it. *)
Theorem svn_revision_is_the_first_matching_line dec before d after :
  dec 10%N = false ->
  Forall (fun l => contains_char newline l = false /\ revre_line dec l = None)
    before ->
  all_decimal dec d = true -> d <> "" ->
  Forall (fun l => contains_char newline l = false) after ->
  getrev_parse dec SvnSupport
    (join (String newline "")
       (before ++ ("Last Changed Rev: " ++ d) :: after)) = PStr d.
Proof.
  intros H10 Hb Hd Hn Ha. unfold getrev_parse, revre_search.
  rewrite py_split_join.
  - rewrite revre_first_app.
    + cbn [revre_first]. unfold revre_line.
      assert (S : strip_prefix "Last Changed Rev: " ("Last Changed Rev: " ++ d)
                  = Some d) by reflexivity.
      rewrite S, Hd. destruct d; [congruence|reflexivity].
    + eapply Forall_impl; [|exact Hb]. now intros x [_ H].
  - intros E. apply app_eq_nil in E as [_ E]. discriminate.
  - apply Forall_app. split.
    + eapply Forall_impl; [|exact Hb]. now intros x [H _].
    + constructor; [|exact Ha].
      rewrite contains_char_app, (all_decimal_no_newline dec d H10 Hd).
      reflexivity.
Qed.

Lemma svn_revision_is_the_first_matching_line_witness :
  getrev_parse unicode_decimal SvnSupport
    (join (String newline "")
       (["Path: ."; "Revision: 50"]
        ++ ("Last Changed Rev: " ++ "42")
           :: ["Last Changed Date: 2010-06-01"; ""])) = PStr "42".
Proof.
  apply (svn_revision_is_the_first_matching_line unicode_decimal
           ["Path: ."; "Revision: 50"] "42"
           ["Last Changed Date: 2010-06-01"; ""]).
  - reflexivity.
  - repeat constructor.
  - reflexivity.
  - discriminate.
  - repeat constructor.
Defined.

(** Digits of another script are digits for [\d] of Python 3, and are
    the revision then; for the digits of ASCII alone the line does not
    match. *)
Lemma svn_revision_in_arabic_indic_digits :
  getrev_parse unicode_decimal SvnSupport (Sample.svn_info Cases.arabic_12)
  = PStr Cases.arabic_12 /\
  getrev_parse ascii_decimal SvnSupport (Sample.svn_info Cases.arabic_12)
  = PNone.
Proof. split; reflexivity. Qed.
